(** * Multi-GPU pipeline session: a shallow embedding of
      [onnxruntime/core/session/pipeline_parallelism/multi_gpu_pipeline.cc]

    The development follows the source file top to bottom.  Vectors are lists,
    the [std::unordered_map]s are [gmap]s, [int] and [int64_t] are [Z],
    exceptions and undefined behaviour are explicit outcomes, and the external
    inference runtime is an interface ([OrtRuntime]) every definition is
    parametric in. *)

From Stdlib Require Import ZArith String List Bool Lia.
From stdpp Require Import base option list gmap strings pretty fin_maps.

Open Scope string_scope.
Open Scope Z_scope.
Open Scope list_scope.

(* ===================================================================== *)
(** * Part I: the program *)
(* ===================================================================== *)

(** ** Integers *)

(** Conversion to the 32-bit [int] of the source (the narrowing that happens in
    [int n = <int64_t expression>]). *)
Definition to_int (z : Z) : Z := (z + 2 ^ 31) mod 2 ^ 32 - 2 ^ 31.

(** [v[i]] on a [std::vector]; [None] stands for the out-of-range access,
    which is undefined behaviour for [operator[]]: the source promises nothing
    of an execution that reaches one, and neither does a [None] here.  The
    statements about results are about the executions that return one. *)
Definition vec_at {A : Type} (v : list A) (i : Z) : option A :=
  if bool_decide (0 <= i) then v !! Z.to_nat i else None.

(** [v[i] = x]; [None] again is the out-of-range access. *)
Definition vec_set {A : Type} (v : list A) (i : Z) (x : A) : option (list A) :=
  if bool_decide (0 <= i < Z.of_nat (length v)) then Some (<[Z.to_nat i := x]> v)
  else None.

(** ** [Contains] *)

(** Index of the first occurrence, as [std::find] computes it. *)
Fixpoint find_index (vec : list string) (to_find : string) : option nat :=
  match vec with
  | [] => None
  | x :: rest =>
      if bool_decide (x = to_find) then Some O
      else S <$> find_index rest to_find
  end.

(** Returns a pair [p]; [p.1] is true if the element is found, in which case
    [p.2] is its index; otherwise the pair is [(false, -1)]. *)
Definition Contains (vec : list string) (to_find : string) : bool * Z :=
  match find_index vec to_find with
  | Some i => (true, Z.of_nat i)
  | None => (false, -1)
  end.

(** ** Half precision *)

(** The single-precision value of a half.  Every binary16 number is a binary32
    number, so the widening is exact; a finite value is kept as the integer
    [m] with value [m * 2^-24] (the smallest subnormal half is [2^-24]), both
    zeros are [FFin 0]. *)
Inductive float : Type :=
| FNaN
| FInf (negative : bool)
| FFin (m : Z).

(** [Eigen::half_impl::half_to_float (raw_uint16_to_half h)]: sign bit 15,
    exponent bits 14..10, fraction bits 9..0. *)
Definition HalfToFloat (h : Z) : float :=
  let sign := Z.testbit h 15 in
  let e := Z.land (Z.shiftr h 10) 31 in
  let f := Z.land h 1023 in
  if e =? 31 then (if f =? 0 then FInf sign else FNaN)
  else
    let mag := if e =? 0 then f else Z.shiftl (1024 + f) (e - 1) in
    FFin (if sign then - mag else mag).

(** [a < b] on floats: false as soon as one side is a NaN. *)
Definition float_lt (a b : float) : bool :=
  match a, b with
  | FNaN, _ | _, FNaN => false
  | FInf true, FInf true => false
  | FInf true, _ => true
  | _, FInf true => false
  | FInf false, _ => false
  | FFin _, FInf false => true
  | FFin x, FFin y => x <? y
  end.

(** The comparator handed to [std::max_element]. *)
Definition half_less (a b : Z) : bool := float_lt (HalfToFloat a) (HalfToFloat b).

(** ** [std::max_element] *)

(** The loop of [std::max_element]: [largest] moves to the current element
    whenever [comp *largest *current] holds. *)
Fixpoint max_element_loop {A : Type} (comp : A -> A -> bool)
    (largest_idx : nat) (largest : A) (idx : nat) (rest : list A) : nat :=
  match rest with
  | [] => largest_idx
  | x :: rest' =>
      if comp largest x then max_element_loop comp idx x (S idx) rest'
      else max_element_loop comp largest_idx largest (S idx) rest'
  end.

(** Distance from [first] to the iterator returned; on an empty range that
    iterator is [last], at distance 0. *)
Definition max_element {A : Type} (comp : A -> A -> bool) (range : list A) : nat :=
  match range with
  | [] => O
  | x :: rest => max_element_loop comp O x 1%nat rest
  end.

(** The elements [p[off] .. p[off + len - 1]] of a buffer; [None] when the
    range leaves the buffer. *)
Definition read_range {A : Type} (data : list A) (off len : Z) : option (list A) :=
  if bool_decide (0 <= off /\ 0 <= len /\ off + len <= Z.of_nat (length data))
  then Some (take (Z.to_nat len) (drop (Z.to_nat off) data))
  else None.

(** ** [GetNewInputIdsFromLogits] *)

Section GetNewInputIdsFromLogits.
Variables (logits_data : list Z) (eos_token : Z).
Variables (num_elems ltwo skip vocab : Z).

(** [for (int batch_id = 0; batch_id < num_elems; batch_id += ltwo)].  The
    loop leaves after at most [num_elems] rounds when [ltwo] is positive;
    running out of [fuel] is the loop that never leaves. *)
Fixpoint lanes_loop (fuel : nat) (batch_id : Z) (input_ids : list Z)
    (num_eos_tokens_predicted : Z) : option (list Z * Z) :=
  if bool_decide (batch_id < num_elems) then
    match fuel with
    | O => None
    | S fuel' =>
        range ← read_range logits_data (batch_id + skip) vocab;
        let max_idx := Z.of_nat (max_element half_less range) in
        lanes_loop fuel' (batch_id + ltwo) (input_ids ++ [max_idx])
          (if bool_decide (max_idx = eos_token)
           then num_eos_tokens_predicted + 1 else num_eos_tokens_predicted)
    end
  else Some (input_ids, num_eos_tokens_predicted).
End GetNewInputIdsFromLogits.

(** Returns [(input_ids, input_ids_shape, are_all_input_ids_eos_tokens)], the
    three reference parameters the source overwrites. *)
Definition GetNewInputIdsFromLogits (batch_size : Z) (logits_data : list Z)
    (logits_shape : list Z) (eos_token : Z) : option (list Z * list Z * bool) :=
  d0 ← vec_at logits_shape 0;
  d1 ← vec_at logits_shape 1;
  d2 ← vec_at logits_shape 2;
  (* input_ids.reserve(batch_size) throws on a negative count *)
  _ ← guard (0 <= batch_size);
  let input_ids_shape := [batch_size; 1] in
  let num_elems := to_int (d0 * d1 * d2) in
  let ltwo := to_int (d1 * d2) in
  let skip := to_int ((d1 - 1) * d2) in
  '(input_ids, num_eos_tokens_predicted) ←
     lanes_loop logits_data eos_token num_elems ltwo skip d2
       (Z.to_nat num_elems) 0 [] 0;
  Some (input_ids, input_ids_shape,
        bool_decide (num_eos_tokens_predicted = batch_size)).

(** ** [GetNewPosnIds] *)

(** [int new_posn_id = orig_input_seq_len + step_id - 1], an [int] like its
    operands.  [posn_ids.assign(batch_size, new_posn_id)]; a negative count
    converts to a huge [size_t] and the call throws, which is [None] here. *)
Definition GetNewPosnIds (batch_size orig_input_seq_len step_id : Z) : option (list Z) :=
  let new_posn_id := to_int (orig_input_seq_len + step_id - 1) in
  if bool_decide (0 <= batch_size) then Some (replicate (Z.to_nat batch_size) new_posn_id)
  else None.

(** ** Tensors and handles *)

(** Identity of a piece of memory.  Every [GetAllocation] of a frame yields an
    allocation of its own, named here by the place the frame keeps it in. *)
Inductive MemId : Type :=
| StateBuffer1 (req : Z) (stage slot : nat)
    (* model_run_state_vec[stage].present_past_prealloc_buffer_1_vec[slot] *)
| StateBuffer2 (req : Z) (stage slot : nat)
    (* model_run_state_vec[stage].present_past_prealloc_buffer_2_vec[slot] *)
| InterStageBuffer (req : Z) (stage : nat) (oname : string)
    (* model_run_state_vec[stage].inter_stage_output_prealloc_buffer_map[oname] *)
| HostScratch (req : Z) (key : string)
    (* next_step_input_buffer_map[key].data *)
| CallerMemory (id : Z)
| RuntimeMemory (id : Z).

Inductive ElemType : Type := FLOAT16 | INT64 | OtherElemType (code : Z).

(** [Ort::MemoryAllocation]: [get()] and [size()]. *)
Record MemoryAllocation : Type := mkAllocation {
  alloc_mem : MemId;
  alloc_size : Z;
}.

(** An [OrtValue] holding a tensor: the memory it views, its shape and element
    type.  [ov_data] is what the producer of the tensor (the caller or the
    runtime) wrote; the elements of a view over [HostScratch] are those of the
    scratch vector at the time they are read (see [tensor_data]). *)
Record OrtValue : Type := mkOrtValue {
  ov_mem : MemId;
  ov_shape : list Z;
  ov_type : ElemType;
  ov_data : list Z;
}.

(** [OrtValueHandle]: [None] is the null handle, which [release()] and a move
    leave behind. *)
Definition OrtValueHandle : Type := option OrtValue.

Definition OrtMemoryInfo : Type := string.

#[global] Instance MemId_eq_dec : EqDecision MemId.
Proof. solve_decision. Defined.
#[global] Instance ElemType_eq_dec : EqDecision ElemType.
Proof. solve_decision. Defined.
#[global] Instance OrtValue_eq_dec : EqDecision OrtValue.
Proof. solve_decision. Defined.

(** ** Requests, responses, configuration *)

Record OrtReq : Type := mkOrtReq {
  input_names : list string;
  input_values : list OrtValueHandle;
}.

Record OrtResp : Type := mkOrtResp {
  output_names : list string;
  output_values : list OrtValueHandle;
  output_meminfo : list (option OrtMemoryInfo);
}.

Record ModelConfig : Type := mkModelConfig {
  model_name : string;
  model_file_path : string;
  input_to_use_for_seq_len : string;
  seq_len_dim_index_in_input : Z;
  batch_dim_index_in_input : Z;
  batch_dim_index_in_state : Z;
  seq_len_dim_index_in_state : Z;
  seq_len_dim_in_inter_stage_output : Z;
  batch_dim_in_inter_stage_output : Z;
  device_id : Z;
  inter_stage_output_input_map : gmap string string;
  past_input_names : list string;
  present_output_names : list string;
  mc_input_names : list string;     (* ModelConfig::input_names *)
  mc_output_names : list string;    (* ModelConfig::output_names *)
}.

Record PipelineConfig : Type := mkPipelineConfig {
  eos_token : Z;
  input_ids_name : string;
  position_ids_name : string;
  logits_name : string;
  max_seq_len : Z;
  model_config_vec : list ModelConfig;
  num_stages : Z;
}.

(** ** The I/O binding *)

Inductive OutputBinding : Type :=
| BoundValue (v : OrtValue)            (* BindOutput *)
| BoundDevice (mem_info : OrtMemoryInfo).   (* BindOutputToDevice *)

Record IoBinding : Type := mkIoBinding {
  bound_inputs : list (string * OrtValue);
  bound_outputs : list (string * OutputBinding);
}.

(** Modelled from the spec: the I/O binding object of the consumed runtime
    interface, which is not part of this source file.  It binds an input or an
    output by name (a second binding of a name takes the place of the first),
    forgets its bindings on clear, and hands back one value per bound output
    after a run. *)
Fixpoint bind_named {B : Type} (l : list (string * B)) (name : string) (b : B)
    : list (string * B) :=
  match l with
  | [] => [(name, b)]
  | (n, b') :: rest =>
      if bool_decide (n = name) then (n, b) :: rest
      else (n, b') :: bind_named rest name b
  end.

Definition BindInput (io : IoBinding) (name : string) (v : OrtValue) : IoBinding :=
  mkIoBinding (bind_named (bound_inputs io) name v) (bound_outputs io).

Definition BindOutput (io : IoBinding) (name : string) (v : OrtValue) : IoBinding :=
  mkIoBinding (bound_inputs io) (bind_named (bound_outputs io) name (BoundValue v)).

Definition BindOutputToDevice (io : IoBinding) (name : string) (mi : OrtMemoryInfo)
    : IoBinding :=
  mkIoBinding (bound_inputs io) (bind_named (bound_outputs io) name (BoundDevice mi)).

Definition ClearBoundInputs (io : IoBinding) : IoBinding :=
  mkIoBinding [] (bound_outputs io).

Definition ClearBoundOutputs (io : IoBinding) : IoBinding :=
  mkIoBinding (bound_inputs io) [].

(** Modelled from the spec: retrieval of the output values after a run.  An
    output bound to a tensor comes back as that tensor (same memory, same
    shape), filled by the run; an output bound to a device comes back as the
    tensor the runtime allocated for it. *)
Definition GetOutputValues (io : IoBinding) (produced : list OrtValue)
    : list OrtValueHandle :=
  zip_with
    (fun (b : string * OutputBinding) (p : OrtValue) =>
       match b.2 with
       | BoundValue v => Some (mkOrtValue (ov_mem v) (ov_shape v) (ov_type v) (ov_data p))
       | BoundDevice _ => Some p
       end)
    (bound_outputs io) produced.

(** ** Tokens and frames *)

Record Token : Type := mkToken {
  tk_req_id : Z;
  tk_step_id : Z;
  ort_value_names : list string;
  ort_values : list OrtValueHandle;
  error_msg : string;
}.

(** [RequestExecutionFrame::RunState] *)
Record RunState : Type := mkRunState {
  present_past_prealloc_buffer_1_vec : list MemoryAllocation;
  present_past_prealloc_buffer_2_vec : list MemoryAllocation;
  output_val_map : gmap string OrtValueHandle;
  inter_stage_output_prealloc_buffer_map : gmap string MemoryAllocation;
  io_binding : IoBinding;
}.

(** An entry of [next_step_input_buffer_map] *)
Record ScratchBuffer : Type := mkScratch {
  sb_data : list Z;
  sb_shape : list Z;
}.

Record RequestExecutionFrame : Type := mkFrame {
  req_index : Z;
  req_id : Z;
  batch_size : Z;
  orig_input_seq_len : Z;
  stage_id : Z;
  token : Token;
  model_run_state_vec : list RunState;
  next_step_input_buffer_map : gmap string ScratchBuffer;
}.

(** [GetTensorData]: the elements seen through a tensor of a frame. *)
Definition tensor_data (f : RequestExecutionFrame) (v : OrtValue) : list Z :=
  match ov_mem v with
  | HostScratch _ key =>
      match next_step_input_buffer_map f !! key with
      | Some sb => sb_data sb
      | None => []
      end
  | _ => ov_data v
  end.

(** ** The inference runtime *)

(** What the file asks of the sessions it runs, per stage index.  A [None] is
    the call that fails (the C++ API throws). *)
Class OrtRuntime : Type := {
  (** [sess.GetInputCount()] / [GetInputName(i)] and the output side *)
  session_input_names : nat -> list string;
  session_output_names : nat -> list string;
  (** [sess.GetInputTypeInfo(io_idx).GetTensorTypeAndShapeInfo().GetShape()] *)
  session_input_shape : nat -> Z -> option (list Z);
  (** [sess.GetOutputTypeInfo(io_idx).GetTensorTypeAndShapeInfo().GetShape()] *)
  session_output_shape : nat -> Z -> option (list Z);
  (** [sess.GetOutputTypeInfo(io_idx).GetTensorTypeAndShapeInfo().GetElementType()] *)
  session_output_type : nat -> Z -> option ElemType;
  (** whether [Ort::Value::CreateTensor] accepts a view of this shape and
      element type over this memory *)
  create_tensor_accepts : MemoryAllocation -> list Z -> ElemType -> bool;
  (** [ort_sess.Run({}, io_binding)]: an error message, or one produced tensor
      per bound output; the host scratch of the frame is passed along because
      bound inputs may view it *)
  session_run : nat -> IoBinding -> gmap string ScratchBuffer -> string + list OrtValue;
}.

(** ** Outcomes *)

(** A computation on a state either completes, throws a C++ exception, or
    crashes: the behaviour is undefined (an [operator[]] out of range, a null
    handle dereferenced) or the process is gone. *)
Inductive Outcome (S A : Type) : Type :=
| Done (a : A) (s : S)
| Throw (msg : string) (s : S)
| Crash.
Arguments Done {S A} a s.
Arguments Throw {S A} msg s.
Arguments Crash {S A}.

Definition M (S A : Type) : Type := S -> Outcome S A.

Definition ret {S A : Type} (a : A) : M S A := fun s => Done a s.

Definition bindM {S A B : Type} (c : M S A) (k : A -> M S B) : M S B :=
  fun s =>
    match c s with
    | Done a s' => k a s'
    | Throw msg s' => Throw msg s'
    | Crash => Crash
    end.

Notation "'let!' x ':=' c1 'in' c2" := (bindM c1 (fun x => c2))
  (at level 10, x name, c1 at level 100, c2 at level 200).
Notation "'do!' c1 'in' c2" := (bindM c1 (fun _ => c2))
  (at level 10, c1 at level 100, c2 at level 200).

Definition get {S : Type} : M S S := fun s => Done s s.
Definition modify {S : Type} (g : S -> S) : M S unit := fun s => Done tt (g s).
Definition throw {S A : Type} (msg : string) : M S A := fun s => Throw msg s.
Definition crash {S A : Type} : M S A := fun _ => Crash.

(** An access that is undefined when it fails. *)
Definition or_crash {S A : Type} (o : option A) : M S A :=
  match o with Some a => ret a | None => crash end.

(** A call that throws when it fails. *)
Definition or_throw {S A : Type} (o : option A) (msg : string) : M S A :=
  match o with Some a => ret a | None => throw msg end.

(** [for (... : l) body] *)
Fixpoint for_each {S A : Type} (l : list A) (body : A -> M S unit) : M S unit :=
  match l with
  | [] => ret tt
  | x :: rest => do! body x in for_each rest body
  end.

(** [for (int i = 0, end = l.size(); i < end; ++i) body(i, l[i])] *)
Fixpoint for_each_indexed {S A : Type} (i : Z) (l : list A) (body : Z -> A -> M S unit)
    : M S unit :=
  match l with
  | [] => ret tt
  | x :: rest => do! body i x in for_each_indexed (i + 1) rest body
  end.

(** ** [GetShape] and [CreateTensor] *)

Section WithRuntime.
Context `{rt : OrtRuntime}.

Definition GetShape (sess : nat) (io_idx : Z) (is_input : bool) : option (list Z) :=
  if is_input then session_input_shape sess io_idx
  else session_output_shape sess io_idx.

(** [Ort::Value::CreateTensor(mem_info, p_data, p_data_len, shape, shape_len, type)] *)
Definition CreateTensor (a : MemoryAllocation) (shape : list Z) (ty : ElemType)
    : option OrtValue :=
  if create_tensor_accepts a shape ty
  then Some (mkOrtValue (alloc_mem a) shape ty [])
  else None.

(** [std::accumulate(begin, end, 1, std::multiplies<int>())] *)
Definition accumulate_multiplies (shape : list Z) : Z :=
  fold_left (fun acc d => to_int (acc * to_int d)) shape 1.

(** The shape of a tensor behind a handle; reading through a null handle is
    a crash. *)
Definition handle_shape {S : Type} (h : OrtValueHandle) : M S (list Z) :=
  let! v := or_crash h in ret (ov_shape v).
End WithRuntime.

(** ** [RequestExecutionFrame::RequestExecutionFrame] *)

Section Frame.
Context `{rt : OrtRuntime}.
Variable pcfg : PipelineConfig.

(** [sizeof(Ort::Float16_t) * num_elements], stored in an [int] *)
Definition size_to_allocate (shape : list Z) : Z :=
  to_int (2 * accumulate_multiplies shape).

(** [for (int i = 0, end = n; i < end; ++i) vec.push_back(GetAllocation(size))]
    for one of the two vectors of a stage *)
Definition prealloc_buffers (mk : nat -> MemId) (n : nat) (size : Z)
    : list MemoryAllocation :=
  (fun i => mkAllocation (mk i) size) <$> seq 0 n.

(** Initialisation of the output states: every present output name gets a
    view over its buffer 1 with a sequence length of 0.  With more present
    output names than buffers, [buffer_1_vec[j]] is out of range (undefined
    behaviour, [None]). *)
Fixpoint init_output_states (buffer_1_vec : list MemoryAllocation)
    (shape0 : list Z) (j : nat) (names : list string)
    (m : gmap string OrtValueHandle) : option (gmap string OrtValueHandle) :=
  match names with
  | [] => Some m
  | oname :: rest =>
      mem_allocation ← buffer_1_vec !! j;          (* careful, use buffer1 here *)
      ort_val ← CreateTensor mem_allocation shape0 FLOAT16;
      init_output_states buffer_1_vec shape0 (S j) rest (<[oname := Some ort_val]> m)
  end.

(** The preallocated buffer of one inter stage output *)
Definition inter_stage_allocation (req : Z) (idx : nat) (mcfg : ModelConfig)
    (batch : Z) (oname : string) : option MemoryAllocation :=
  let rc := Contains (mc_output_names mcfg) oname in
  output_shape ← GetShape idx rc.2 false;
  output_shape ← vec_set output_shape (batch_dim_in_inter_stage_output mcfg) batch;
  output_shape ← vec_set output_shape (seq_len_dim_in_inter_stage_output mcfg)
                   (max_seq_len pcfg);
  Some (mkAllocation (InterStageBuffer req idx oname) (size_to_allocate output_shape)).

(** The body of the loop over [psess.pcfg.model_config_vec], for stage [idx] *)
Definition make_run_state (req : Z) (batch : Z) (idx : nat) (mcfg : ModelConfig)
    : option RunState :=
  past0 ← past_input_names mcfg !! 0%nat;
  let rc := Contains (mc_input_names mcfg) past0 in
  let io_idx := rc.2 in
  past_present_state_shape ← GetShape idx io_idx true;
  (* override batch and seq dims with batch_size and maximum seq len *)
  shape_b ← vec_set past_present_state_shape (batch_dim_index_in_state mcfg) batch;
  shape_max ← vec_set shape_b (seq_len_dim_index_in_state mcfg) (max_seq_len pcfg);
  let size := size_to_allocate shape_max in
  (* pre-allocate buffers for input and output states *)
  let n := length (past_input_names mcfg) in
  let buffer_1_vec := prealloc_buffers (StateBuffer1 req idx) n size in
  let buffer_2_vec := prealloc_buffers (StateBuffer2 req idx) n size in
  (* intentionally 0: the first time the model is run there is no past state *)
  shape0 ← vec_set shape_max (seq_len_dim_index_in_state mcfg) 0;
  ovm ← init_output_states buffer_1_vec shape0 0 (present_output_names mcfg) ∅;
  (* pre-allocate buffers for inter stage outputs except the last stage *)
  inter ←
    (if bool_decide (Z.of_nat idx < num_stages pcfg - 1) then
       list_to_map <$>
         mapM (fun kv : string * string =>
                 a ← inter_stage_allocation req idx mcfg batch kv.1;
                 Some (kv.1, a))
              (map_to_list (inter_stage_output_input_map mcfg))
     else Some ∅);
  Some (mkRunState buffer_1_vec buffer_2_vec ovm inter (mkIoBinding [] [])).

Fixpoint make_run_states (req : Z) (batch : Z) (idx : nat) (cfgs : list ModelConfig)
    : option (list RunState) :=
  match cfgs with
  | [] => Some []
  | mcfg :: rest =>
      rs ← make_run_state req batch idx mcfg;
      rss ← make_run_states req batch (S idx) rest;
      Some (rs :: rss)
  end.

(** The constructor.  The reference [ort_resp] of the frame is the slot
    [resp_list[req_index]] of the caller; it is looked up where it is used.
    [None]: the construction crashes or throws in the thread of [Run]. *)
Definition new_RequestExecutionFrame (req_idx0 req_id0 batch_size0
    orig_input_seq_len0 stage_id0 : Z) : option RequestExecutionFrame :=
  rss ← make_run_states req_id0 batch_size0 0 (model_config_vec pcfg);
  Some (mkFrame req_idx0 req_id0 batch_size0 orig_input_seq_len0 stage_id0
          (mkToken 0 0 [] [] "") rss ∅).
End Frame.

(** ** [ExecuteRequest] *)

(** What [ExecuteRequest] works on: the token it was handed (every caller
    hands it the token of the frame) and the run state of the current stage,
    [exec_frame.model_run_state_vec[exec_frame.stage_id]]. *)
Record ExecState : Type := mkExecState {
  es_token : Token;
  es_run_state : RunState;
}.

Definition set_io (g : IoBinding -> IoBinding) (s : ExecState) : ExecState :=
  let r := es_run_state s in
  mkExecState (es_token s)
    (mkRunState (present_past_prealloc_buffer_1_vec r)
       (present_past_prealloc_buffer_2_vec r) (output_val_map r)
       (inter_stage_output_prealloc_buffer_map r) (g (io_binding r))).

Definition set_output_val (oname : string) (h : OrtValueHandle) (s : ExecState)
    : ExecState :=
  let r := es_run_state s in
  mkExecState (es_token s)
    (mkRunState (present_past_prealloc_buffer_1_vec r)
       (present_past_prealloc_buffer_2_vec r) (<[oname := h]> (output_val_map r))
       (inter_stage_output_prealloc_buffer_map r) (io_binding r)).

Definition clear_token (s : ExecState) : ExecState :=
  let t := es_token s in
  mkExecState (mkToken (tk_req_id t) (tk_step_id t) [] [] (error_msg t))
    (es_run_state s).

Definition push_token (name : string) (h : OrtValueHandle) (s : ExecState) : ExecState :=
  let t := es_token s in
  mkExecState
    (mkToken (tk_req_id t) (tk_step_id t) (ort_value_names t ++ [name])
       (ort_values t ++ [h]) (error_msg t))
    (es_run_state s).

Section ExecuteRequest.
Context `{rt : OrtRuntime}.
(** [true] when [assert] is compiled out *)
Variable NDEBUG : bool.

Variable mcfg : ModelConfig.
(** index of the stage whose [SessionState] was handed over *)
Variable sess : nat.
(** the slot behind [exec_frame.ort_resp] *)
Variable ort_resp : OrtResp.
(** [exec_frame.batch_size] and the host scratch of the frame *)
Variable frame_batch_size : Z.
Variable frame_scratch : gmap string ScratchBuffer.

Section Binding.
Variables (in_token_ort_value_names : list string)
          (in_token_ort_values : list OrtValueHandle).

(** Body of the loop over [mcfg.input_names] *)
Definition bind_one_input (iname : string) : M ExecState unit :=
  let rc := Contains in_token_ort_value_names iname in
  if rc.1 then
    let! h := or_crash (vec_at in_token_ort_values rc.2) in
    let! v := or_crash h in
    modify (set_io (fun io => BindInput io iname v))
  else
    let rc := Contains (past_input_names mcfg) iname in
    if rc.1 then
      let! mapped_oname := or_crash (vec_at (present_output_names mcfg) rc.2) in
      let! s := get in
      let! h := or_throw (output_val_map (es_run_state s) !! mapped_oname)
                  "map::at" in
      let! v := or_crash h in
      modify (set_io (fun io => BindInput io iname v))
    else ret tt.

Variables (step_id : Z) (input_seq_len : Z)
          (past_present_state_shape : list Z) (past_present_type : ElemType).

(** Body of the loop over [mcfg.output_names] that binds the outputs *)
Definition bind_one_output (oidx : Z) (oname : string) : M ExecState unit :=
  let rc := Contains (present_output_names mcfg) oname in
  let! s := get in
  let run_state := es_run_state s in
  if rc.1 then
    (* even: use buffer1 for input and buffer2 for output *)
    let! mem_allocation :=
      or_crash (if bool_decide (Z.rem step_id 2 = 0)
                then vec_at (present_past_prealloc_buffer_2_vec run_state) rc.2
                else vec_at (present_past_prealloc_buffer_1_vec run_state) rc.2) in
    let! output_ort_val :=
      or_throw (CreateTensor mem_allocation past_present_state_shape past_present_type)
        "CreateTensor" in
    modify (set_io (fun io => BindOutput io oname output_ort_val))
  else
    let rc := Contains (output_names ort_resp) oname in
    if rc.1 then
      let! mem_info := or_crash (vec_at (output_meminfo ort_resp) rc.2) in
      match mem_info with
      | Some mi => modify (set_io (fun io => BindOutputToDevice io oname mi))
      | None =>
          let! h := or_crash (vec_at (output_values ort_resp) rc.2) in
          let! ort_val := or_crash h in
          modify (set_io (fun io => BindOutput io oname ort_val))
      end
    else
      (* inter stage outputs (e.g. hidden_states) *)
      let! shape := or_throw (GetShape sess oidx false) "GetShape" in
      let! shape := or_crash (vec_set shape (batch_dim_in_inter_stage_output mcfg)
                                frame_batch_size) in
      let! shape := or_crash (vec_set shape (seq_len_dim_in_inter_stage_output mcfg)
                                input_seq_len) in
      let! mem_allocation :=
        or_throw (inter_stage_output_prealloc_buffer_map run_state !! oname)
          "map::at" in
      let! inter_stage_ort_val :=
        or_throw (CreateTensor mem_allocation shape past_present_type)
          "CreateTensor" in
      modify (set_io (fun io => BindOutput io oname inter_stage_ort_val)).

Variable vec_out_vals : list OrtValueHandle.

(** Body of the loop over [mcfg.output_names] that populates the token and
    saves the state of this run *)
Definition harvest_one_output (i : Z) (oname : string) : M ExecState unit :=
  let is_loop_back_state_output := Contains (present_output_names mcfg) oname in
  let in_map := bool_decide (is_Some (inter_stage_output_input_map mcfg !! oname)) in
  if negb NDEBUG && (is_loop_back_state_output.1 && in_map) then crash
  else if is_loop_back_state_output.1 then
    let! h := or_crash (vec_at vec_out_vals i) in
    modify (set_output_val oname h)
  else
    match inter_stage_output_input_map mcfg !! oname with
    | Some mapped =>
        let! h := or_crash (vec_at vec_out_vals i) in
        modify (push_token mapped h)
    | None => ret tt
    end.
End Binding.

(** The function, on the token and the run state of the current stage. *)
Definition ExecuteRequest_body : M ExecState unit :=
  let! s0 := get in
  (* reuse the token; move the things out of it since we overwrite them *)
  let in_token_ort_value_names := ort_value_names (es_token s0) in
  let in_token_ort_values := ort_values (es_token s0) in
  let step_id := tk_step_id (es_token s0) in
  do! modify clear_token in
  do! modify (set_io ClearBoundInputs) in
  do! modify (set_io ClearBoundOutputs) in
  (* inputs *)
  do! for_each (mc_input_names mcfg)
        (bind_one_input in_token_ort_value_names in_token_ort_values) in
  (* get seq len of input_ids (stage 0) or input_hidden_states (stage 1) *)
  let rc := Contains in_token_ort_value_names (input_to_use_for_seq_len mcfg) in
  do! (if rc.1 then ret tt
       else throw (input_to_use_for_seq_len mcfg +:+ " not present in Token.")) in
  let! input_ort_value := or_crash (vec_at in_token_ort_values rc.2) in
  let! input_shape := handle_shape input_ort_value in
  let! input_dim := or_crash (vec_at input_shape (seq_len_dim_index_in_input mcfg)) in
  let input_seq_len := to_int input_dim in
  (* get past seq len; assume past_seq_len is same for all states *)
  let! present0 := or_crash (vec_at (present_output_names mcfg) 0) in
  let! s1 := get in
  let! past_h := or_throw (output_val_map (es_run_state s1) !! present0) "map::at" in
  let! past_shape := handle_shape past_h in
  let! past_dim := or_crash (vec_at past_shape (seq_len_dim_index_in_state mcfg)) in
  let past_seq_len := to_int past_dim in
  (* new seq len for state output = seq len of input_ids + past_seq_len *)
  let new_seq_len := input_seq_len + past_seq_len in
  (* populate shape for state outputs; assume same shape for all outputs *)
  let rc2 := Contains (mc_output_names mcfg) present0 in
  let out_idx := rc2.2 in
  let! shape := or_throw (GetShape sess out_idx false) "GetShape" in
  let! shape := or_crash (vec_set shape (batch_dim_index_in_state mcfg)
                            frame_batch_size) in
  let! past_present_state_shape :=
    or_crash (vec_set shape (seq_len_dim_index_in_state mcfg) new_seq_len) in
  (* assume types are same for all states *)
  let! past_present_type := or_throw (session_output_type sess out_idx)
                              "GetOutputTypeInfo" in
  do! for_each_indexed 0 (mc_output_names mcfg)
        (bind_one_output step_id input_seq_len past_present_state_shape
           past_present_type) in
  (* run *)
  let! s2 := get in
  let io := io_binding (es_run_state s2) in
  match session_run sess io frame_scratch with
  | inl msg => throw msg
  | inr produced =>
      (* now populate token and save state from this run *)
      let vec_out_vals := GetOutputValues io produced in
      for_each_indexed 0 (mc_output_names mcfg) (harvest_one_output vec_out_vals)
  end.
End ExecuteRequest.

Definition store_exec (f : RequestExecutionFrame) (s : ExecState) : RequestExecutionFrame :=
  mkFrame (req_index f) (req_id f) (batch_size f) (orig_input_seq_len f) (stage_id f)
    (es_token s)
    (<[Z.to_nat (stage_id f) := es_run_state s]> (model_run_state_vec f))
    (next_step_input_buffer_map f).

(** [ExecuteRequest(token, mcfg, session_state, exec_frame)], with [token] the
    token of [exec_frame].  The frame in a [Throw] is the frame as the
    exception leaves it. *)
Definition ExecuteRequest `{rt : OrtRuntime} (NDEBUG : bool) (mcfg : ModelConfig)
    (sess : nat) (ort_resp : OrtResp) : M RequestExecutionFrame unit :=
  fun f =>
    let model_idx := stage_id f in
    match vec_at (model_run_state_vec f) model_idx with
    | None => Crash
    | Some run_state =>
        match ExecuteRequest_body NDEBUG mcfg sess ort_resp (batch_size f)
                (next_step_input_buffer_map f) (mkExecState (token f) run_state) with
        | Done _ s => Done tt (store_exec f s)
        | Throw msg s => Throw msg (store_exec f s)
        | Crash => Crash
        end
    end.

(** ** The session at run time *)

Inductive OrtErrorCode : Type := ORT_FAIL | ORT_INVALID_ARGUMENT.

(** [OrtStatus*]: [None] is the null pointer, success. *)
Definition OrtStatus : Type := option (OrtErrorCode * string).

(** A closure handed to a stage: it captured the configuration and session of
    stage [task_stage] and the token and frame of request [task_req]. *)
Record Task : Type := mkTask {
  task_stage : nat;
  task_req : Z;
}.

(** What can be observed of a run besides its results. *)
Inductive Event : Type :=
| EvCreateRequestId (req : Z)
| EvFrameCreated (req : Z)
| EvScheduleTask (stage : Z) (req : Z)
| EvExecuteRequest (stage : nat) (req : Z) (step : Z)
| EvWaitAndPop.

(** The state [Run] works on.  A [Token*] in the response queue is the address
    of the token of a frame; it is kept as the key of that frame in
    [req_frame_map]. *)
Record World : Type := mkWorld {
  req_frame_map : gmap Z RequestExecutionFrame;
  resp_queue : list Z;
  pipeline_stages : list (list Task);
  resp_list : list OrtResp;
  req_id_counter : Z;           (* the static [req_id] of [CreateRequestId] *)
  events : list Event;
}.

Definition set_frames (g : gmap Z RequestExecutionFrame -> gmap Z RequestExecutionFrame)
    (w : World) : World :=
  mkWorld (g (req_frame_map w)) (resp_queue w) (pipeline_stages w) (resp_list w)
    (req_id_counter w) (events w).

Definition set_resp_queue (q : list Z) (w : World) : World :=
  mkWorld (req_frame_map w) q (pipeline_stages w) (resp_list w)
    (req_id_counter w) (events w).

Definition set_stages (p : list (list Task)) (w : World) : World :=
  mkWorld (req_frame_map w) (resp_queue w) p (resp_list w)
    (req_id_counter w) (events w).

Definition set_resp_list (l : list OrtResp) (w : World) : World :=
  mkWorld (req_frame_map w) (resp_queue w) (pipeline_stages w) l
    (req_id_counter w) (events w).

Definition log (e : Event) (w : World) : World :=
  mkWorld (req_frame_map w) (resp_queue w) (pipeline_stages w) (resp_list w)
    (req_id_counter w) (events w ++ [e]).

(** [static int req_id; return ++req_id;]: the counter is an [int], and so
    is the id returned. *)
Definition CreateRequestId (w : World) : Z * World :=
  let r := to_int (req_id_counter w + 1) in
  (r, log (EvCreateRequestId r)
        (mkWorld (req_frame_map w) (resp_queue w) (pipeline_stages w) (resp_list w)
           r (events w))).

(** [pipeline_stages[stage]->ScheduleTask(task)]; [None] when there is no such
    stage. *)
Definition ScheduleTask (stage : Z) (t : Task) (w : World) : option World :=
  q ← vec_at (pipeline_stages w) stage;
  Some (log (EvScheduleTask stage (task_req t))
          (set_stages (<[Z.to_nat stage := q ++ [t]]> (pipeline_stages w)) w)).

Definition set_token (t : Token) (f : RequestExecutionFrame) : RequestExecutionFrame :=
  mkFrame (req_index f) (req_id f) (batch_size f) (orig_input_seq_len f) (stage_id f)
    t (model_run_state_vec f) (next_step_input_buffer_map f).

Definition set_stage_id (s : Z) (f : RequestExecutionFrame) : RequestExecutionFrame :=
  mkFrame (req_index f) (req_id f) (batch_size f) (orig_input_seq_len f) s
    (token f) (model_run_state_vec f) (next_step_input_buffer_map f).

Definition set_scratch (m : gmap string ScratchBuffer) (f : RequestExecutionFrame)
    : RequestExecutionFrame :=
  mkFrame (req_index f) (req_id f) (batch_size f) (orig_input_seq_len f) (stage_id f)
    (token f) (model_run_state_vec f) m.

(** Modelled from the spec: [Token::Init] and [Token::Clear], declared in the
    header, which is not part of this source file.  [Init] fills a token for
    step [step_id] of a request with the names and values it carries; [Clear]
    empties the names, the values and the error message. *)
Definition Token_Init (req step : Z) (names : list string) (values : list OrtValueHandle)
    : Token :=
  mkToken req step names values "".

Definition Token_Clear (t : Token) : Token :=
  mkToken (tk_req_id t) (tk_step_id t) [] [] "".

Definition set_error (msg : string) (t : Token) : Token :=
  mkToken (tk_req_id t) (tk_step_id t) (ort_value_names t) (ort_values t) msg.

(** ** [CopyFinalOutput], the loop *)

(** The loop over [ort_resp.output_names].  The result is the name that is
    not carried by the token, if there is one, together with the values of the
    token and of the response slot as the loop leaves them; [None] is an
    [operator[]] out of range.  [release()] leaves a null handle behind. *)
Fixpoint CopyFinalOutput_loop (onames : list string) (resp_index : Z)
    (token_names : list string) (token_values out_values : list OrtValueHandle)
    : option (option string * list OrtValueHandle * list OrtValueHandle) :=
  match onames with
  | [] => Some (None, token_values, out_values)
  | oname :: rest =>
      let ex := Contains token_names oname in
      if ex.1 then
        h ← vec_at token_values ex.2;
        out_values' ← vec_set out_values resp_index h;
        CopyFinalOutput_loop rest (resp_index + 1) token_names
          (<[Z.to_nat ex.2 := None]> token_values) out_values'
      else Some (Some oname, token_values, out_values)
  end.

Definition newline : string := String (Ascii.ascii_of_nat 10) EmptyString.

Definition missing_output_message (oname : string) : string :=
  "Error: Output " +:+ oname +:+ " is not produced by the final stage" +:+ newline.

(** ** The stages and the orchestrator *)

(** How the threads interleave: a worker of a stage runs the closure at the
    head of its queue, or the orchestrator comes back from [WaitAndPop] (with
    a token when the queue holds one, with a timeout when it is empty). *)
Inductive SchedEvent : Type :=
| WorkerRuns (stage : nat)
| OrchestratorWakes.

Section Session.
Context `{rt : OrtRuntime}.
Variable NDEBUG : bool.
Variable pcfg : PipelineConfig.

(** [ThreadWorkerFn], as the closure [t] calls it *)
Definition ThreadWorkerFn (t : Task) (w : World) : option World :=
  f ← req_frame_map w !! task_req t;
  mcfg ← model_config_vec pcfg !! task_stage t;
  ort_resp ← vec_at (resp_list w) (req_index f);
  let w := log (EvExecuteRequest (task_stage t) (task_req t) (tk_step_id (token f))) w in
  match ExecuteRequest NDEBUG mcfg (task_stage t) ort_resp f with
  | Done _ f' =>
      Some (set_resp_queue (resp_queue w ++ [task_req t])
              (set_frames (<[task_req t := f']>) w))
  | Throw what f' =>
      let error := "Error in processing request id: " +:+ pretty (tk_req_id (token f'))
                   +:+ " with exception: " +:+ what in
      Some (set_resp_queue (resp_queue w ++ [task_req t])
              (set_frames (<[task_req t := set_token (set_error error (token f')) f']>) w))
  | Crash => None
  end.

(** The worker of stage [s] takes the closure at the head of its queue. *)
Definition worker_step (s : nat) (w : World) : option World :=
  match pipeline_stages w !! s with
  | Some (t :: rest) => ThreadWorkerFn t (set_stages (<[s := rest]> (pipeline_stages w)) w)
  | _ => Some w
  end.

Fixpoint run_tasks (ts : list Task) (w : World) : option World :=
  match ts with
  | [] => Some w
  | t :: rest => w' ← ThreadWorkerFn t w; run_tasks rest w'
  end.

(** [pipeline_stages[s]->DrainAllInflightRequests()] *)
Definition DrainAllInflightRequests (s : nat) (w : World) : option World :=
  q ← pipeline_stages w !! s;
  run_tasks q (set_stages (<[s := []]> (pipeline_stages w)) w).

Fixpoint drain_stages (ss : list nat) (w : World) : option World :=
  match ss with
  | [] => Some w
  | s :: rest => w' ← DrainAllInflightRequests s w; drain_stages rest w'
  end.

Definition HandleAndReturnFailure (error_msg : string) (w : World)
    : option (OrtStatus * World) :=
  w' ← drain_stages (seq 0 (length (pipeline_stages w))) w;
  Some (Some (ORT_FAIL, error_msg), w').

(** [CopyFinalOutput] on the token behind [token_ptr] and the slot
    [resp_list[resp_idx]] *)
Definition CopyFinalOutput (token_ptr : Z) (resp_idx : Z) (w : World)
    : option (OrtStatus * World) :=
  f ← req_frame_map w !! token_ptr;
  ort_resp ← vec_at (resp_list w) resp_idx;
  '(missing, token_values, out_values) ←
     CopyFinalOutput_loop (output_names ort_resp) 0 (ort_value_names (token f))
       (ort_values (token f)) (output_values ort_resp);
  let tok := token f in
  let tok' := mkToken (tk_req_id tok) (tk_step_id tok) (ort_value_names tok)
                token_values (error_msg tok) in
  let ort_resp' := mkOrtResp (output_names ort_resp) out_values
                     (output_meminfo ort_resp) in
  let w' := set_resp_list (<[Z.to_nat resp_idx := ort_resp']> (resp_list w))
              (set_frames (<[token_ptr := set_token tok' f]>) w) in
  match missing with
  | None => Some (None, w')
  | Some oname => HandleAndReturnFailure (missing_output_message oname) w'
  end.

(** One round of the loop of [SetupAndScheduleAllRequestsToStage0] *)
Definition setup_one_request (req_idx : Z) (one_req : OrtReq) (w : World)
    : option World :=
  let '(req_id, w) := CreateRequestId w in
  _ ← vec_at (resp_list w) req_idx;
  mcfg0 ← model_config_vec pcfg !! 0%nat;
  (* store batch size and input seq len to change position_ids for step > 0 *)
  let rc := Contains (input_names one_req) (input_to_use_for_seq_len mcfg0) in
  let i_values := input_values one_req in
  h ← vec_at i_values rc.2;
  v ← h;
  let shape := ov_shape v in
  orig_seq_len ← to_int <$> vec_at shape (seq_len_dim_index_in_input mcfg0);
  batch_size ← to_int <$> vec_at shape (batch_dim_index_in_input mcfg0);
  (* create and store RequestExecutionFrame *)
  let stage_id := 0 in
  tmp_exec_frame ← new_RequestExecutionFrame pcfg req_idx req_id batch_size
                     orig_seq_len stage_id;
  let w := log (EvFrameCreated req_id)
             (set_frames (fun m => match m !! req_id with
                                   | None => <[req_id := tmp_exec_frame]> m
                                   | Some _ => m
                                   end) w) in
  (* schedule request *)
  let step_id := 0 in
  exec_frame ← req_frame_map w !! req_id;
  let w := set_frames (<[req_id := set_token
                           (Token_Init req_id step_id (input_names one_req) i_values)
                           exec_frame]>) w in
  (* schedule the request to the first stage *)
  ScheduleTask 0 (mkTask (Z.to_nat stage_id) req_id) w.

Fixpoint setup_loop (req_idx : Z) (reqs : list OrtReq) (w : World) : option World :=
  match reqs with
  | [] => Some w
  | one_req :: rest =>
      w' ← setup_one_request req_idx one_req w;
      setup_loop (req_idx + 1) rest w'
  end.

Definition SetupAndScheduleAllRequestsToStage0 (req_list : list OrtReq) (w : World)
    : option World :=
  setup_loop 0 req_list w.
End Session.

(** ** [ProcessResponses] *)

(** How one round of the [while] loop ends: with a [return], or at the end of
    the body or a [continue], with the count of processed requests. *)
Inductive LoopStep : Type :=
| Return (status : OrtStatus) (w : World)
| Continue (req_processed : Z) (w : World).

Definition upd_frame (key : Z) (g : RequestExecutionFrame -> RequestExecutionFrame)
    (w : World) : World :=
  set_frames (alter g key) w.

(** [m[key].data = data], where [operator[]] makes the entry if there is none *)
Definition scratch_set_data (key : string) (data : list Z) (m : gmap string ScratchBuffer)
    : gmap string ScratchBuffer :=
  <[key := mkScratch data (default [] (sb_shape <$> m !! key))]> m.

(** [m[key].shape = shape] *)
Definition scratch_set_shape (key : string) (shape : list Z)
    (m : gmap string ScratchBuffer) : gmap string ScratchBuffer :=
  <[key := mkScratch (default [] (sb_data <$> m !! key)) shape]> m.

Section ProcessResponses.
Context `{rt : OrtRuntime}.
Variable NDEBUG : bool.
Variable pcfg : PipelineConfig.

Definition return_failure (error_msg : string) (w : World) : option LoopStep :=
  '(status, w') ← HandleAndReturnFailure NDEBUG pcfg error_msg w;
  Some (Return status w').

(** The request is done: move the output, erase the frame, count it. *)
Definition finish_request (token_ptr req_id resp_idx req_processed : Z) (w : World)
    : option LoopStep :=
  '(status, w') ← CopyFinalOutput NDEBUG pcfg token_ptr resp_idx w;
  match status with
  | Some _ => Some (Return status w')
  | None => Some (Continue (req_processed + 1) (set_frames (delete req_id) w'))
  end.

(** Re-enqueue the request on the stage its frame now stands at. *)
Definition reenqueue (req_id req_processed : Z) (w : World) : option LoopStep :=
  exec_frame ← req_frame_map w !! req_id;
  let stage := stage_id exec_frame in
  _ ← vec_at (model_config_vec pcfg) stage;
  w' ← ScheduleTask stage (mkTask (Z.to_nat stage) req_id) w;
  Some (Continue req_processed w').

(** Done with one step that is not the last: start the next step for this
    request, or stop it when every lane predicts the EOS token.  [step_id]
    is the incremented step, [tok] the token that came back and [exec_frame]
    its frame. *)
Definition start_next_step (token_ptr req_id step_id req_processed : Z) (tok : Token)
    (exec_frame : RequestExecutionFrame) (w : World) : option LoopStep :=
  let batch_size := batch_size exec_frame in
  (* update input_ids; get index of 'logits' output *)
  let rc := Contains (ort_value_names tok) (logits_name pcfg) in
  if negb rc.1 then return_failure "Did not get logits in the output" w
  else
    logits_h ← vec_at (ort_values tok) rc.2;
    logits_ort_val ← logits_h;
    let logits_shape := ov_shape logits_ort_val in
    r ← GetNewInputIdsFromLogits batch_size (tensor_data exec_frame logits_ort_val)
          logits_shape (eos_token pcfg);
    let input_ids := r.1.1 in
    let input_ids_shape := r.1.2 in
    let are_all_input_ids_eos_tokens := r.2 in
    let scratch :=
      scratch_set_shape (input_ids_name pcfg) input_ids_shape
        (scratch_set_data (input_ids_name pcfg) input_ids
           (next_step_input_buffer_map exec_frame)) in
    let w := upd_frame req_id (set_scratch scratch) w in
    (* If the next set of generated input ids are EOS tokens, it's time to
       stop this request even if we've not reached num_steps *)
    if are_all_input_ids_eos_tokens : bool then
      finish_request token_ptr req_id (req_index exec_frame) req_processed w
    else
      (* assume shape is same for both input_ids and position_ids *)
      input_ids_tensor ←
        CreateTensor
          (mkAllocation (HostScratch req_id (input_ids_name pcfg))
             (8 * Z.of_nat (length input_ids)))
          input_ids_shape INT64;
      (* update position ids; the scratch vector is the one kept under the
         name of the logits *)
      posn_ids ← GetNewPosnIds batch_size (orig_input_seq_len exec_frame) step_id;
      let scratch := scratch_set_data (logits_name pcfg) posn_ids scratch in
      let w := upd_frame req_id (set_scratch scratch) w in
      posn_ids_tensor ←
        CreateTensor
          (mkAllocation (HostScratch req_id (logits_name pcfg))
             (8 * Z.of_nat (length posn_ids)))
          input_ids_shape INT64;
      (* clear and fill Token for the next step for this request *)
      let tok := Token_Clear tok in
      let tok := mkToken req_id step_id
                   [input_ids_name pcfg; position_ids_name pcfg]
                   (ort_values tok ++ [Some input_ids_tensor]
                      ++ [Some posn_ids_tensor])
                   (error_msg tok) in
      let w := upd_frame token_ptr (set_token tok) w in
      reenqueue req_id req_processed w.

(** The body of the loop, from the token that [WaitAndPop] delivered.  The
    token behind [token_ptr] is the token of the frame with that key, and it
    carries the id of its frame: [Init] and every rewrite store it. *)
Definition process_token (num_steps token_ptr req_processed : Z) (w : World)
    : option LoopStep :=
  tf ← req_frame_map w !! token_ptr;
  let req_id := tk_req_id (token tf) in
  let step_id := tk_step_id (token tf) in
  _ ← guard (req_id = token_ptr);
  exec_frame ← req_frame_map w !! req_id;
  (* fail the whole batch if even one req fails *)
  if negb (bool_decide (error_msg (token tf) = "")) then
    return_failure (error_msg (token tf)) w
  else
    _ ← guard (num_stages pcfg ≠ 0);
    let new_stage := Z.rem (stage_id exec_frame + 1) (num_stages pcfg) in
    let w := upd_frame req_id (set_stage_id new_stage) w in
    if bool_decide (new_stage = 0) then
      (* this means we've reached step > 0 *)
      let step_id := step_id + 1 in
      if bool_decide (step_id = num_steps) then
        (* we're done with all steps of this request, move the output *)
        finish_request token_ptr req_id (req_index exec_frame) req_processed w
      else
        start_next_step token_ptr req_id step_id req_processed (token tf) exec_frame w
    else
      (* continue executing the next stage; the outputs that need to be
         passed on are already present in the token *)
      let tok := token tf in
      let tok := mkToken req_id step_id (ort_value_names tok) (ort_values tok)
                   (error_msg tok) in
      let w := upd_frame token_ptr (set_token tok) w in
      reenqueue req_id req_processed w.

(** [WaitAndPop] and the loop around it.  While fewer than [num_reqs]
    requests are processed the orchestrator sits in [WaitAndPop]; workers
    run meanwhile, until the schedule lets the orchestrator come back.  When
    the schedule is over nothing more arrives, and the wait times out. *)
Fixpoint ProcessResponses (sched : list SchedEvent)
    (num_reqs num_steps req_processed : Z) (w : World) : option (OrtStatus * World) :=
  if bool_decide (req_processed < num_reqs) then
    match sched with
    | WorkerRuns s :: sched' =>
        w' ← worker_step NDEBUG pcfg s w;
        ProcessResponses sched' num_reqs num_steps req_processed w'
    | OrchestratorWakes :: sched' =>
        let w := log EvWaitAndPop w in
        match resp_queue w with
        | [] => HandleAndReturnFailure NDEBUG pcfg
                  "Request processing timed out after 1000 ms" w
        | token_ptr :: rest =>
            step ← process_token num_steps token_ptr req_processed
                     (set_resp_queue rest w);
            match step with
            | Return status w' => Some (status, w')
            | Continue n w' => ProcessResponses sched' num_reqs num_steps n w'
            end
        end
    | [] => HandleAndReturnFailure NDEBUG pcfg
              "Request processing timed out after 1000 ms" (log EvWaitAndPop w)
    end
  else Some (None, w).
End ProcessResponses.

(** ** [ValidateRequest] and [Run] *)

Fixpoint ValidateRequest_loop (i : Z) (req_list : list OrtReq) (resp_list : list OrtResp)
    : OrtStatus :=
  match req_list, resp_list with
  | req :: reqs, resp :: resps =>
      if negb (bool_decide (length (input_names req) = length (input_values req))) then
        Some (ORT_INVALID_ARGUMENT,
              "Size of request names and OrtValues differ for index " +:+ pretty i)
      else if negb (bool_decide (length (output_values resp) = length (output_names resp)))
      then
        Some (ORT_INVALID_ARGUMENT,
              "Size of response names and OrtValues differ for index " +:+ pretty i)
      else ValidateRequest_loop (i + 1) reqs resps
  | _, _ => None
  end.

Definition ValidateRequest (req_list : list OrtReq) (resp_list : list OrtResp)
    : OrtStatus :=
  if negb (bool_decide (length req_list = length resp_list)) then
    Some (ORT_INVALID_ARGUMENT, "Size of request and response lists differ.")
  else ValidateRequest_loop 0 req_list resp_list.

(** The world as [Run] is entered: the session keeps its stages and the
    request id counter, the response queue and the frame map of this call are
    new, [resp_list] is the vector of the caller. *)
Definition enter_run (w0 : World) (resp_list0 : list OrtResp) : World :=
  mkWorld ∅ [] (pipeline_stages w0) resp_list0 (req_id_counter w0) (events w0).

(** [PipelineSession::Run(req_list, resp_list, num_steps)] under a schedule of
    the threads.  The result is the status and the world as the call leaves
    it; [None] when the call does not return (a crash, or an exception in the
    thread of the caller). *)
Definition Run `{rt : OrtRuntime} (NDEBUG : bool) (pcfg : PipelineConfig)
    (sched : list SchedEvent) (req_list : list OrtReq) (resp_list0 : list OrtResp)
    (num_steps : Z) (w0 : World) : option (OrtStatus * World) :=
  let w := enter_run w0 resp_list0 in
  match ValidateRequest req_list resp_list0 with
  | Some status => Some (Some status, w)
  | None =>
      w ← SetupAndScheduleAllRequestsToStage0 pcfg req_list w;
      let num_reqs := to_int (Z.of_nat (length req_list)) in
      ProcessResponses NDEBUG pcfg sched num_reqs num_steps 0 w
  end.

(** ** [Validate] and the constructor *)

Definition Validate (pcfg : PipelineConfig) : bool :=
  (* TODO validate *)
  true.

(** [PipelineSession::Init]: the names of every stage are read from its
    session, and every stage gets its worker pool.  The counter of
    [CreateRequestId] is a static of the process, shared by its sessions: the
    constructor does not touch it, and [req_id] is the value it has when the
    session is constructed. *)
Definition Init_model_config `{rt : OrtRuntime} (idx : nat) (m : ModelConfig) : ModelConfig :=
  mkModelConfig (model_name m) (model_file_path m) (input_to_use_for_seq_len m)
    (seq_len_dim_index_in_input m) (batch_dim_index_in_input m)
    (batch_dim_index_in_state m) (seq_len_dim_index_in_state m)
    (seq_len_dim_in_inter_stage_output m) (batch_dim_in_inter_stage_output m)
    (device_id m) (inter_stage_output_input_map m) (past_input_names m)
    (present_output_names m)
    (mc_input_names m ++ session_input_names idx)
    (mc_output_names m ++ session_output_names idx).

Definition Init `{rt : OrtRuntime} (pcfg : PipelineConfig) (req_id : Z)
    : PipelineConfig * World :=
  (mkPipelineConfig (eos_token pcfg) (input_ids_name pcfg) (position_ids_name pcfg)
     (logits_name pcfg) (max_seq_len pcfg)
     (imap Init_model_config (model_config_vec pcfg)) (num_stages pcfg),
   mkWorld ∅ [] (replicate (length (model_config_vec pcfg)) []) [] req_id []).

(** [PipelineSession::PipelineSession(const PipelineConfig&, const OrtEnv&)]:
    the message of the exception [ORT_ENFORCE] throws, or the session, in a
    process whose request id counter stands at [req_id]. *)
Definition new_PipelineSession `{rt : OrtRuntime} (ens0 : PipelineConfig) (req_id : Z)
    : string + PipelineConfig * World :=
  let rc := Validate ens0 in
  if rc then inr (Init ens0 req_id)
  else inl "Validation of the config file failed.".

(* ===================================================================== *)
(** * Part II: vocabulary of the statements *)
(* ===================================================================== *)

(** The element [[b, s, v]] of a row-major tensor of shape [[_, S, V]]. *)
Definition logit_at (data : list Z) (S V : Z) (b s v : Z) : option Z :=
  data !! Z.to_nat ((b * S + s) * V + v).

Definition is_nan (h : Z) : Prop := HalfToFloat h = FNaN.

(** [i] is the arg max of lane [b] at the last time step: no element of the
    slice [[b, S-1, :]] is greater than the one at [i], and every element
    before [i] that is a number is smaller. *)
Definition lane_argmax (data : list Z) (S V : Z) (b i : Z) : Prop :=
  0 <= i < V /\
  exists xi, logit_at data S V b (S - 1) i = Some xi /\
    (forall j xj, 0 <= j < V -> logit_at data S V b (S - 1) j = Some xj ->
        half_less xi xj = false) /\
    (forall j xj, 0 <= j < i -> logit_at data S V b (S - 1) j = Some xj ->
        ~ is_nan xj -> half_less xj xi = true).

(** Number of lanes whose id is the EOS token *)
Definition count_eos (eos : Z) (ids : list Z) : Z :=
  Z.of_nat (length (filter (fun i => i = eos) ids)).

(** What [std::max_element] promises of the position [r] it returns in [l]:
    nothing compares greater than the element there, and every element before
    it that takes part in the order compares smaller. *)
Definition is_largest {A : Type} (comp : A -> A -> bool) (number : A -> Prop)
    (l : list A) (r : nat) : Prop :=
  exists xr, l !! r = Some xr /\
    (forall j xj, l !! j = Some xj -> comp xr xj = false) /\
    (forall j xj, (j < r)%nat -> l !! j = Some xj -> number xj -> comp xj xr = true).

(** The id the loop of [GetNewInputIdsFromLogits] computes for lane [b] *)
Definition lane_id (data : list Z) (S V : Z) (b : Z) : Z :=
  Z.of_nat (max_element half_less
              (take (Z.to_nat V) (drop (Z.to_nat (b * (S * V) + (S - 1) * V)) data))).

(** What [ValidateRequest] checks of a slot *)
Definition request_slot_ok (req : OrtReq) : Prop :=
  length (input_names req) = length (input_values req).

Definition response_slot_ok (resp : OrtResp) : Prop :=
  length (output_names resp) = length (output_values resp).

(** Two states of the frame of one request: what the constructor fixed is the
    same in both. *)
Definition same_request (f f' : RequestExecutionFrame) : Prop :=
  req_index f' = req_index f /\ req_id f' = req_id f /\
  batch_size f' = batch_size f /\ orig_input_seq_len f' = orig_input_seq_len f.

(** No closure is pending on any stage. *)
Definition drained (w : World) : Prop :=
  Forall (fun q : list Task => q = []) (pipeline_stages w).

(** The binding of a name in an I/O binding *)
Fixpoint binding_of {B : Type} (name : string) (l : list (string * B)) : option B :=
  match l with
  | [] => None
  | (n, b) :: rest => if bool_decide (n = name) then Some b else binding_of name rest
  end.

(** The preallocated buffer that takes the present state of slot [k] at step
    [step_id]: buffer 2 at an even step, buffer 1 at an odd one. *)
Definition output_state_buffer (rs : RunState) (step_id : Z) (k : Z)
    : option MemoryAllocation :=
  if bool_decide (Z.rem step_id 2 = 0)
  then vec_at (present_past_prealloc_buffer_2_vec rs) k
  else vec_at (present_past_prealloc_buffer_1_vec rs) k.

(** The other buffer of the pair *)
Definition input_state_buffer (rs : RunState) (step_id : Z) (k : Z)
    : option MemoryAllocation :=
  if bool_decide (Z.rem step_id 2 = 0)
  then vec_at (present_past_prealloc_buffer_1_vec rs) k
  else vec_at (present_past_prealloc_buffer_2_vec rs) k.

(** The sequence length of the input a token carries for a stage, as
    [ExecuteRequest] reads it. *)
Definition carried_seq_len (mcfg : ModelConfig) (tok : Token) : option Z :=
  let rc := Contains (ort_value_names tok) (input_to_use_for_seq_len mcfg) in
  if rc.1 then
    h ← vec_at (ort_values tok) rc.2;
    v ← h;
    to_int <$> vec_at (ov_shape v) (seq_len_dim_index_in_input mcfg)
  else None.

(** The run state of stage [s] in a frame *)
Definition run_state_of (f : RequestExecutionFrame) (s : nat) : option RunState :=
  model_run_state_vec f !! s.

(** The history of a frame as stage [s] sees it.  [stage_steps ... s t f]: the
    frame [f] was constructed, stage [s] has since executed [t] times on it,
    the execution number [i] with a token whose step id is [i] and that
    satisfies [carries i]; in between, whatever happened to the frame left the
    run state of stage [s] and the constants of the request alone (that is all
    the other stages and the orchestrator ever do, see
    [ExecuteRequest_other_stage] and [process_token_run_states]).  The frames
    of a run have such a history at every stage: [reachable_closure_history]
    and [reachable_returned_history]. *)
Inductive stage_steps `{rt : OrtRuntime} (NDEBUG : bool) (pcfg : PipelineConfig)
    (carries : Z -> RequestExecutionFrame -> Prop) (s : nat)
    : Z -> RequestExecutionFrame -> Prop :=
| steps_new (req_idx req batch orig st : Z) (f : RequestExecutionFrame) :
    new_RequestExecutionFrame pcfg req_idx req batch orig st = Some f ->
    stage_steps NDEBUG pcfg carries s 0 f
| steps_exec (t : Z) (f f' : RequestExecutionFrame) (mcfg : ModelConfig)
    (ort_resp : OrtResp) :
    stage_steps NDEBUG pcfg carries s t f ->
    stage_id f = Z.of_nat s ->
    tk_step_id (token f) = t ->
    carries t f ->
    model_config_vec pcfg !! s = Some mcfg ->
    ExecuteRequest NDEBUG mcfg s ort_resp f = Done tt f' ->
    stage_steps NDEBUG pcfg carries s (t + 1) f'
| steps_other (t : Z) (f f' : RequestExecutionFrame) :
    stage_steps NDEBUG pcfg carries s t f ->
    same_request f f' ->
    run_state_of f' s = run_state_of f s ->
    stage_steps NDEBUG pcfg carries s t f'.

(** What an execution never touches in the run state *)
Definition same_buffers (r r' : RunState) : Prop :=
  present_past_prealloc_buffer_1_vec r' = present_past_prealloc_buffer_1_vec r /\
  present_past_prealloc_buffer_2_vec r' = present_past_prealloc_buffer_2_vec r /\
  inter_stage_output_prealloc_buffer_map r' = inter_stage_output_prealloc_buffer_map r.

(** The value [ExecuteRequest] binds to an input that the token does not
    carry and that is the past state of a slot: the handle kept in
    [output_val_map] under the present output name of that slot. *)
Definition past_input_value (mcfg : ModelConfig) (ovm : gmap string OrtValueHandle)
    (iname : string) : option OrtValue :=
  let rc := Contains (past_input_names mcfg) iname in
  mapped_oname ← vec_at (present_output_names mcfg) rc.2;
  h ← ovm !! mapped_oname;
  h.

(** What [ExecuteRequest] binds to a present output name at step [step_id]: a
    view of the state shape over the buffer the parity of the step selects. *)
Definition state_binding (mcfg : ModelConfig) (step_id : Z) (shape : list Z)
    (type : ElemType) (rs : RunState) (oname : string) (b : OutputBinding) : Prop :=
  forall k, Contains (present_output_names mcfg) oname = (true, k) ->
    exists buf, output_state_buffer rs step_id k = Some buf /\
      b = BoundValue (mkOrtValue (alloc_mem buf) shape type []).

(** What the tokens of a decoding run carry for stage [s]: at the prefill an
    input whose sequence length is the one of the request, afterwards an input
    whose sequence length is 1. *)
Definition carries_decoding (pcfg : PipelineConfig) (s : nat) (t : Z)
    (f : RequestExecutionFrame) : Prop :=
  exists mcfg, model_config_vec pcfg !! s = Some mcfg /\
    carried_seq_len mcfg (token f)
    = Some (if bool_decide (t = 0) then orig_input_seq_len f else 1).

(** No condition on what the tokens carry *)
Definition carries_anything (t : Z) (f : RequestExecutionFrame) : Prop := True.

(** The sequence length of the states of a stage that has executed [n] times *)
Definition state_seq_len (orig : Z) (n : Z) : Z :=
  if bool_decide (n = 0) then 0 else orig + n - 1.

(** The response slot [slot0] after a successful [CopyFinalOutput] on the
    token [tok]: the values of [slot] are those the loop wrote into [slot0]
    from the names and values of [tok]; the names and the memory infos are
    those of [slot0]. *)
Definition populated_from (tok : Token) (slot0 slot : OrtResp) : Prop :=
  exists token_values' : list OrtValueHandle,
    CopyFinalOutput_loop (output_names slot0) 0 (ort_value_names tok) (ort_values tok)
      (output_values slot0) = Some (None, token_values', output_values slot) /\
    output_names slot = output_names slot0 /\
    output_meminfo slot = output_meminfo slot0.

(** The logits the token of [f] carries make [GetNewInputIdsFromLogits] report
    that every lane predicts the EOS token. *)
Definition predicts_all_eos (pcfg : PipelineConfig) (f : RequestExecutionFrame) : Prop :=
  exists j lv ids shape,
    Contains (ort_value_names (token f)) (logits_name pcfg) = (true, j) /\
    vec_at (ort_values (token f)) j = Some (Some lv) /\
    GetNewInputIdsFromLogits (batch_size f) (tensor_data f lv) (ov_shape lv)
      (eos_token pcfg) = Some (ids, shape, true).

(** The loop of [ProcessResponses] after the events [sched]: the count of
    processed requests and the world, when the loop has neither returned nor
    been left by then.  [ProcessResponses] goes on from there
    ([ProcessResponses_loop_state]). *)
Fixpoint loop_state `{rt : OrtRuntime} (NDEBUG : bool) (pcfg : PipelineConfig)
    (sched : list SchedEvent) (num_reqs num_steps req_processed : Z) (w : World)
    : option (Z * World) :=
  match sched with
  | [] => Some (req_processed, w)
  | ev :: sched' =>
      if bool_decide (req_processed < num_reqs) then
        match ev with
        | WorkerRuns s =>
            w' ← worker_step NDEBUG pcfg s w;
            loop_state NDEBUG pcfg sched' num_reqs num_steps req_processed w'
        | OrchestratorWakes =>
            match resp_queue w with
            | [] => None
            | token_ptr :: rest =>
                step ← process_token NDEBUG pcfg num_steps token_ptr req_processed
                         (set_resp_queue rest (log EvWaitAndPop w));
                match step with
                | Return _ _ => None
                | Continue n w' => loop_state NDEBUG pcfg sched' num_reqs num_steps n w'
                end
            end
        end
      else None
  end.

(** In the run of [ProcessResponses] on the world [w_setup] under the
    schedule [sched], the request of slot [i] was finished with the token
    [tok]: after the events [sched1] the orchestrator took from the response
    queue the token of the frame of that request, [tok], which came back
    without error from the last stage, at the last step or with logits that
    predict the EOS token in every lane; and that round of the loop counted
    the request. *)
Definition finished_with `{rt : OrtRuntime} (NDEBUG : bool) (pcfg : PipelineConfig)
    (sched : list SchedEvent) (num_reqs num_steps : Z) (w_setup : World)
    (i : nat) (tok : Token) : Prop :=
  exists sched1 sched2 n1 w1 r rest f w2,
    sched = sched1 ++ OrchestratorWakes :: sched2 /\
    loop_state NDEBUG pcfg sched1 num_reqs num_steps 0 w_setup = Some (n1, w1) /\
    n1 < num_reqs /\
    resp_queue w1 = r :: rest /\
    req_frame_map w1 !! r = Some f /\
    req_index f = Z.of_nat i /\ token f = tok /\
    tk_req_id tok = r /\ error_msg tok = "" /\
    Z.rem (stage_id f + 1) (num_stages pcfg) = 0 /\
    (tk_step_id tok + 1 = num_steps \/ predicts_all_eos pcfg f) /\
    process_token NDEBUG pcfg num_steps r n1 (set_resp_queue rest (log EvWaitAndPop w1))
    = Some (Continue (n1 + 1) w2).

(** Where a batch stands while [ProcessResponses] runs on the slots [resps0]
    of the caller: [processed] requests are finished, the slot of each is
    populated from a token that [fin] holds of, the other slots are as the
    caller passed them, and the live frames belong to different unfinished
    slots. *)
Definition batch_progress (fin : nat -> Token -> Prop) (resps0 : list OrtResp)
    (processed : Z) (w : World) : Prop :=
  exists finished : gset nat,
    Z.of_nat (size finished) = processed /\
    (forall i, i ∈ finished ->
       exists slot0 slot tok, resps0 !! i = Some slot0 /\ resp_list w !! i = Some slot /\
         fin i tok /\ populated_from tok slot0 slot) /\
    (forall i, i ∉ finished -> resp_list w !! i = resps0 !! i) /\
    (forall r f, req_frame_map w !! r = Some f ->
       0 <= req_index f /\ (Z.to_nat (req_index f) ∉ finished) /\
       (Z.to_nat (req_index f) < length resps0)%nat) /\
    (forall r1 r2 f1 f2,
       req_frame_map w !! r1 = Some f1 -> req_frame_map w !! r2 = Some f2 ->
       req_index f1 = req_index f2 -> r1 = r2).

(** The claim that a failed [Run] leaves the response slots as they were. *)
Definition failure_leaves_slots_unchanged : Prop :=
  forall (rt : OrtRuntime) (NDEBUG : bool) (pcfg : PipelineConfig)
    (sched : list SchedEvent) (req_list : list OrtReq) (resp_list0 : list OrtResp)
    (num_steps : Z) (w0 w : World) (status : OrtErrorCode * string),
    Run NDEBUG pcfg sched req_list resp_list0 num_steps w0 = Some (Some status, w) ->
    resp_list w = resp_list0.

(** The id that [CreateRequestId] returns at its call number [k] (from 0)
    after the counter stood at [c0] *)
Definition nth_req_id (c0 : Z) (k : Z) : Z := to_int (c0 + 1 + k).

(** [r] is one of the first [i] ids given out after the counter stood at
    [c0]. *)
Definition issued (c0 i r : Z) : Prop := exists j, 0 <= j < i /\ r = nth_req_id c0 j.

(** Where the setup stands after the requests of the first [i] slots, the
    counter having stood at [c0] before: every frame belongs to one of these
    slots and is kept under the id its request was given. *)
Definition frames_of_slots (c0 i : Z) (w : World) : Prop :=
  to_int (req_id_counter w) = to_int (c0 + i) /\
  forall r f, req_frame_map w !! r = Some f ->
    0 <= req_index f < i /\ r = nth_req_id c0 (req_index f).

(** The frames of [w'] are frames of [w], each with the constants of its
    request and with all its run states as they were. *)
Definition run_states_kept (w w' : World) : Prop :=
  forall r f', req_frame_map w' !! r = Some f' ->
    exists f, req_frame_map w !! r = Some f /\ same_request f f' /\
      model_run_state_vec f' = model_run_state_vec f.

(** ** Where the requests of a batch stand *)

(** The closures of request [r] that wait on the stages *)
Definition tasks_of (r : Z) (stages : list (list Task)) : list Task :=
  filter (fun t => task_req t = r) (concat stages).

(** A pipeline whose first model reads the sequence length from dimension 1
    of the input ids or of the position ids *)
Definition decoding_config (pcfg : PipelineConfig) : Prop :=
  exists mcfg0, model_config_vec pcfg !! 0%nat = Some mcfg0 /\
    (input_to_use_for_seq_len mcfg0 = input_ids_name pcfg \/
     input_to_use_for_seq_len mcfg0 = position_ids_name pcfg) /\
    seq_len_dim_index_in_input mcfg0 = 1.

(** What the tokens of a run carry for stage [s], as far as the session
    itself decides it: the first stage gets the inputs of the caller at the
    prefill and the tensors the orchestrator writes afterwards. *)
Definition carries_run (pcfg : PipelineConfig) (s : nat) (t : Z)
    (f : RequestExecutionFrame) : Prop :=
  s = 0%nat -> (t = 0 \/ decoding_config pcfg) -> carries_decoding pcfg s t f.

(** How often stage [s] has executed in the current step of a frame that
    stands at stage [c], before ([pending]) or after the execution of stage
    [c] *)
Definition steps_done (c : Z) (pending : bool) (s : nat) : Z :=
  if pending then (if bool_decide (Z.of_nat s < c) then 1 else 0)
  else (if bool_decide (Z.of_nat s <= c) then 1 else 0).

(** The history of a frame, stage by stage *)
Definition frame_history `{rt : OrtRuntime} (NDEBUG : bool) (pcfg : PipelineConfig)
    (pending : bool) (f : RequestExecutionFrame) : Prop :=
  0 <= stage_id f < num_stages pcfg /\ 0 <= tk_step_id (token f) /\
  forall s : nat, Z.of_nat s < num_stages pcfg ->
    stage_steps NDEBUG pcfg (carries_run pcfg s) s
      (tk_step_id (token f) + steps_done (stage_id f) pending s) f.

(** A request waits on the stage its frame stands at. *)
Definition request_pending `{rt : OrtRuntime} (NDEBUG : bool) (pcfg : PipelineConfig)
    (queue : list Z) (stages : list (list Task)) (r : Z) (f : RequestExecutionFrame)
    : Prop :=
  (r ∉ queue) /\ tasks_of r stages = [mkTask (Z.to_nat (stage_id f)) r] /\
  frame_history NDEBUG pcfg true f /\
  carries_run pcfg (Z.to_nat (stage_id f)) (tk_step_id (token f)) f.

(** The token of a request is on its way back to the orchestrator, from the
    stage its frame stands at or with an error. *)
Definition request_returned `{rt : OrtRuntime} (NDEBUG : bool) (pcfg : PipelineConfig)
    (stages : list (list Task)) (r : Z) (f : RequestExecutionFrame) : Prop :=
  tasks_of r stages = [] /\
  (error_msg (token f) <> "" \/ frame_history NDEBUG pcfg false f).

(** Every live request waits on one stage or is in the response queue, once. *)
Definition sched_inv `{rt : OrtRuntime} (NDEBUG : bool) (pcfg : PipelineConfig)
    (w : World) : Prop :=
  NoDup (resp_queue w) /\
  forall r f, req_frame_map w !! r = Some f ->
    request_pending NDEBUG pcfg (resp_queue w) (pipeline_stages w) r f \/
    (r ∈ resp_queue w /\ request_returned NDEBUG pcfg (pipeline_stages w) r f).

(** The worlds a [Run] goes through between the setup and its return, for a
    batch whose length fits the [int] that counts it: a worker takes a
    closure, or the orchestrator takes a token and goes on. *)
Inductive reachable `{rt : OrtRuntime} (NDEBUG : bool) (pcfg : PipelineConfig)
    (num_steps : Z) : World -> Prop :=
| reach_setup (req_list : list OrtReq) (resp_list0 : list OrtResp) (w0 w : World) :
    drained w0 ->
    Z.of_nat (length req_list) < 2 ^ 31 ->
    SetupAndScheduleAllRequestsToStage0 pcfg req_list (enter_run w0 resp_list0) = Some w ->
    reachable NDEBUG pcfg num_steps w
| reach_worker (s : nat) (w w' : World) :
    reachable NDEBUG pcfg num_steps w ->
    worker_step NDEBUG pcfg s w = Some w' ->
    reachable NDEBUG pcfg num_steps w'
| reach_orchestrator (token_ptr : Z) (rest : list Z) (n n' : Z) (w w' : World) :
    reachable NDEBUG pcfg num_steps w ->
    resp_queue w = token_ptr :: rest ->
    process_token NDEBUG pcfg num_steps token_ptr n
      (set_resp_queue rest (log EvWaitAndPop w)) = Some (Continue n' w') ->
    reachable NDEBUG pcfg num_steps w'.

(** The orchestrator holds the token of request [r]: the request is neither
    in the response queue nor on a stage, and the other requests are where
    [sched_inv] wants them. *)
Definition sched_inv_held `{rt : OrtRuntime} (NDEBUG : bool) (pcfg : PipelineConfig)
    (r : Z) (w : World) : Prop :=
  NoDup (resp_queue w) /\ (r ∉ resp_queue w) /\ tasks_of r (pipeline_stages w) = [] /\
  forall r' f, r' <> r -> req_frame_map w !! r' = Some f ->
    request_pending NDEBUG pcfg (resp_queue w) (pipeline_stages w) r' f \/
    (r' ∈ resp_queue w /\ request_returned NDEBUG pcfg (pipeline_stages w) r' f).

(* ===================================================================== *)
(** * Part II (continued): vocabulary of the further properties *)
(* ===================================================================== *)

(** The name under which [ExecuteRequest] hands an output of the model on to
    the next stage: outputs that are states are kept, the others are handed
    on when [inter_stage_output_input_map] maps them. *)
Definition handed_on (mcfg : ModelConfig) (oname : string) : option string :=
  if (Contains (present_output_names mcfg) oname).1 then None
  else inter_stage_output_input_map mcfg !! oname.

(** A computation keeps a relation between the state it starts from and the
    state it ends in, whether it returns or throws. *)
Definition outcome_keeps {S A : Type} (R : S -> S -> Prop) (c : M S A) : Prop :=
  forall s, match c s with
            | Done _ s' | Throw _ s' => R s s'
            | Crash => True
            end.

(** The token of [s'] is for the request and the step of the token of [s],
    with the same error message. *)
Definition same_token_ids (s s' : ExecState) : Prop :=
  tk_req_id (es_token s') = tk_req_id (es_token s) /\
  tk_step_id (es_token s') = tk_step_id (es_token s) /\
  error_msg (es_token s') = error_msg (es_token s).

(** The requests that are under way: those whose token is in the response
    queue and those of the closures that wait on the stages. *)
Definition in_flight (w : World) : list Z :=
  resp_queue w ++ (task_req <$> concat (pipeline_stages w)).

(** No request is under way twice, and every closure that waits on a stage is
    for a live frame. *)
Definition queue_inv (w : World) : Prop :=
  NoDup (in_flight w) /\
  forall t, t ∈ concat (pipeline_stages w) -> is_Some (req_frame_map w !! task_req t).

(** The same while the orchestrator holds the token of request [r]. *)
Definition queue_inv_held (r : Z) (w : World) : Prop :=
  NoDup (r :: in_flight w) /\
  forall t, t ∈ concat (pipeline_stages w) -> is_Some (req_frame_map w !! task_req t).

(** The request id counter moved to [c]: another session of the process took
    request ids. *)
Definition with_req_id_counter (c : Z) (w : World) : World :=
  mkWorld (req_frame_map w) (resp_queue w) (pipeline_stages w) (resp_list w) c (events w).

(** The states a session goes through: the one the constructor leaves, the
    one every returning [Run] leaves, and the same after other sessions of the
    process took request ids. *)
Inductive session_state `{rt : OrtRuntime} (NDEBUG : bool) (ens0 : PipelineConfig)
    : PipelineConfig -> World -> Prop :=
| session_constructed (req_id : Z) (pcfg : PipelineConfig) (w : World) :
    new_PipelineSession ens0 req_id = inr (pcfg, w) ->
    session_state NDEBUG ens0 pcfg w
| session_counter_moved (c : Z) (pcfg : PipelineConfig) (w : World) :
    session_state NDEBUG ens0 pcfg w ->
    session_state NDEBUG ens0 pcfg (with_req_id_counter c w)
| session_after_run (pcfg : PipelineConfig) (w0 w : World) (sched : list SchedEvent)
    (req_list : list OrtReq) (resp_list0 : list OrtResp) (num_steps : Z)
    (st : OrtStatus) :
    session_state NDEBUG ens0 pcfg w0 ->
    Z.of_nat (length req_list) < 2 ^ 31 ->
    Run NDEBUG pcfg sched req_list resp_list0 num_steps w0 = Some (st, w) ->
    session_state NDEBUG ens0 pcfg w.

(* ===================================================================== *)
(** * Part II (continued): a small pipeline to run the definitions on *)
(* ===================================================================== *)

Module Example.
(** The half 1.0 is [0x3C00]. *)
Definition one : Z := 15360.

(** Logits of [lanes] lanes and [steps] time steps over a vocabulary of
    three, with the maximum at index [hot] everywhere. *)
Definition hot_logits (hot : nat) (lanes steps : Z) : list Z :=
  concat (replicate (Z.to_nat (lanes * steps)) (<[hot := one]> [0; 0; 0])).

Definition first_input_shape (io : IoBinding) : list Z :=
  match bound_inputs io with
  | (_, v) :: _ => ov_shape v
  | [] => []
  end.

(** A one-stage decoder: inputs [input_ids], [position_ids] and the state
    [past_0], outputs [logits] and the state [present_0].  Its logits have
    the shape [[batch, seq, 3]] of its first input and predict token [hot]
    for every lane. *)
Definition decoder (hot : nat) : OrtRuntime := {|
  session_input_names _ := ["input_ids"; "position_ids"; "past_0"];
  session_output_names _ := ["logits"; "present_0"];
  session_input_shape _ _ := Some [-1; -1; 4];
  session_output_shape _ i :=
    if bool_decide (i = 0) then Some [-1; -1; 3] else Some [-1; -1; 4];
  session_output_type _ _ := Some FLOAT16;
  create_tensor_accepts _ shape _ := forallb (fun d => bool_decide (0 <= d)) shape;
  session_run _ io _ :=
    let lanes := default 0 (first_input_shape io !! 0%nat) in
    let steps := default 0 (first_input_shape io !! 1%nat) in
    inr ((fun b : string * OutputBinding =>
            if bool_decide (b.1 = "logits")
            then mkOrtValue (RuntimeMemory 0) [lanes; steps; 3] FLOAT16
                   (hot_logits hot lanes steps)
            else mkOrtValue (RuntimeMemory 1) [] FLOAT16 [])
           <$> bound_outputs io)
|}.

Definition stage_config : ModelConfig :=
  mkModelConfig "decoder" "decoder.onnx" "input_ids" 1 0 0 1 1 0 0
    {["logits" := "logits"]} ["past_0"] ["present_0"] [] [].

(** The configuration as parsed: EOS token 2, one stage. *)
Definition parsed_config : PipelineConfig :=
  mkPipelineConfig 2 "input_ids" "position_ids" "logits" 16 [stage_config] 1.

(** The configuration and the world after the constructor ran. *)
Definition config : PipelineConfig := (@Init (decoder 1) parsed_config 0).1.
Definition world : World := (@Init (decoder 1) parsed_config 0).2.

(** A request of two lanes and five tokens. *)
Definition request : OrtReq :=
  mkOrtReq ["input_ids"; "position_ids"]
    [Some (mkOrtValue (CallerMemory 0) [2; 5] INT64 [1; 2; 3; 4; 5; 1; 2; 3; 4; 5]);
     Some (mkOrtValue (CallerMemory 1) [2; 5] INT64 [0; 1; 2; 3; 4; 0; 1; 2; 3; 4])].

(** A response slot that asks for the logits, on a device of the caller's
    choice. *)
Definition response : OrtResp := mkOrtResp ["logits"] [None] [Some "Cpu"].

(** A slot that also asks for an output the pipeline does not produce. *)
Definition response_with_scores : OrtResp :=
  mkOrtResp ["logits"; "scores"] [None; None] [Some "Cpu"; Some "Cpu"].

(** The worker and the orchestrator take turns. *)
Definition turns (n : nat) : list SchedEvent :=
  concat (replicate n [WorkerRuns 0; OrchestratorWakes]).
End Example.

Module FinalToken.
(** The logits of the last step, as the last stage hands them over. *)
Definition logits : OrtValue :=
  mkOrtValue (RuntimeMemory 0) [2; 1; 3] FLOAT16 (Example.hot_logits 1 2 1).

(** A frame whose token came back from the last stage carrying the logits. *)
Definition frame : RequestExecutionFrame :=
  mkFrame 0 1 2 5 0 (mkToken 1 2 ["logits"] [Some logits] "") [] ∅.

(** The world around it: one request, one idle stage. *)
Definition world_of (slot : OrtResp) : World :=
  mkWorld {[1 := frame]} [] [[]] [slot] 1 [].

(** The same with logits that predict the EOS token, 2, in both lanes. *)
Definition eos_logits : OrtValue :=
  mkOrtValue (RuntimeMemory 0) [2; 1; 3] FLOAT16 (Example.hot_logits 2 2 1).

Definition eos_frame : RequestExecutionFrame :=
  mkFrame 0 1 2 5 0 (mkToken 1 2 ["logits"] [Some eos_logits] "") [] ∅.

Definition eos_world : World :=
  mkWorld {[1 := eos_frame]} [] [[]] [Example.response] 1 [].
End FinalToken.

Module SharedName.
(** [Example.config], with the input ids of the first stage under the name of
    the logits of the last one. *)
Definition config : PipelineConfig :=
  mkPipelineConfig (eos_token Example.config) "logits" (position_ids_name Example.config)
    "logits" (max_seq_len Example.config) (model_config_vec Example.config)
    (num_stages Example.config).
End SharedName.

Module LongPrompt.
(** The frame of [FinalToken], for a request whose prompt has [2 ^ 31 - 1]
    tokens. *)
Definition frame : RequestExecutionFrame :=
  mkFrame 0 1 2 2147483647 0 (mkToken 1 2 ["logits"] [Some FinalToken.logits] "") [] ∅.

Definition world : World :=
  mkWorld {[1 := frame]} [] [[]] [Example.response] 1 [].
End LongPrompt.

Module Decoding.
(** The stage of [Example.config], with the names [Init] read from the
    session. *)
Definition stage : ModelConfig :=
  Eval vm_compute in default Example.stage_config (model_config_vec Example.config !! 0%nat).

Definition no_frame : RequestExecutionFrame :=
  mkFrame 0 0 0 0 0 (mkToken 0 0 [] [] "") [] ∅.

(** The frame of request 1 (two lanes, five tokens) as constructed. *)
Definition new_frame : RequestExecutionFrame :=
  Eval vm_compute in
    default no_frame (@new_RequestExecutionFrame (Example.decoder 1) Example.config 0 1 2 5 0).

(** The same with the token of the prefill. *)
Definition prefill_frame : RequestExecutionFrame :=
  set_token (Token_Init 1 0 (input_names Example.request) (input_values Example.request))
    new_frame.

Definition executed (f : RequestExecutionFrame) : RequestExecutionFrame :=
  match @ExecuteRequest (Example.decoder 1) true stage 0 Example.response f with
  | Done _ f' => f'
  | _ => no_frame
  end.

Definition after_prefill : RequestExecutionFrame :=
  Eval vm_compute in executed prefill_frame.

(** The token of step 1, as the orchestrator writes it. *)
Definition step1_token : Token :=
  mkToken 1 1 ["input_ids"; "position_ids"]
    [Some (mkOrtValue (HostScratch 1 "input_ids") [2; 1] INT64 []);
     Some (mkOrtValue (HostScratch 1 "logits") [2; 1] INT64 [])] "".

Definition step1_frame : RequestExecutionFrame := set_token step1_token after_prefill.

Definition after_step1 : RequestExecutionFrame :=
  Eval vm_compute in executed step1_frame.
End Decoding.

Module Batch.
(** The world of [Example.request] after the setup: its closure waits on
    stage 0. *)
Definition scheduled : World :=
  Eval vm_compute in
    default Example.world
      (@SetupAndScheduleAllRequestsToStage0 (Example.decoder 1) Example.config
         [Example.request] (enter_run Example.world [Example.response])).
End Batch.

Module Tokens.
(** A frame of request 1 at the only stage, with a token of step 0 that
    carries nothing and has the error message [msg]. *)
Definition bare_frame (msg : string) : RequestExecutionFrame :=
  mkFrame 0 1 2 5 0 (mkToken 1 0 [] [] msg) [] ∅.

(** The world around it: one request, one idle stage. *)
Definition bare_world (msg : string) : World :=
  mkWorld {[1 := bare_frame msg]} [] [[]] [Example.response] 1 [].
End Tokens.

Module TwoStages.
(** A pipeline of two stages, as parsed and initialised. *)
Definition config : PipelineConfig :=
  (@Init (Example.decoder 1)
     (mkPipelineConfig 2 "input_ids" "position_ids" "logits" 16
        [Example.stage_config; Example.stage_config] 2) 0).1.

(** Request 1 came back from stage 0 at step 0. *)
Definition frame : RequestExecutionFrame :=
  mkFrame 0 1 2 5 0 (mkToken 1 0 ["hidden"] [None] "") [] ∅.

Definition world : World :=
  mkWorld {[1 := frame]} [] [[]; []] [Example.response] 1 [].
End TwoStages.

Module RepeatedName.
(** A response slot that asks for the logits twice. *)
Definition slot : OrtResp :=
  mkOrtResp ["logits"; "logits"] [None; None] [Some "Cpu"; Some "Cpu"].
End RepeatedName.

(* ===================================================================== *)
(** * Part III: lemmas *)
(* ===================================================================== *)

(** ** Integers and vectors *)

Lemma to_int_id (z : Z) : - 2 ^ 31 <= z < 2 ^ 31 -> to_int z = z.
Proof.
  intros Hz. unfold to_int.
  rewrite Z.mod_small by lia. lia.
Qed.

Ltac to_int_arith :=
  unfold to_int in *;
  change (2 ^ 31) with 2147483648 in *; change (2 ^ 32) with 4294967296 in *;
  Z.div_mod_to_equations; lia.

Lemma to_int_range (z : Z) : - 2 ^ 31 <= to_int z < 2 ^ 31.
Proof. to_int_arith. Qed.

Lemma to_int_idemp (z : Z) : to_int (to_int z) = to_int z.
Proof. to_int_arith. Qed.

Lemma to_int_add_l (a b : Z) : to_int (to_int a + b) = to_int (a + b).
Proof. to_int_arith. Qed.

Lemma to_int_congr (a b k : Z) : to_int a = to_int b -> to_int (a + k) = to_int (b + k).
Proof. intros H. rewrite <- (to_int_add_l a), <- (to_int_add_l b). congruence. Qed.

(** Two integers less than [2 ^ 32] apart have different [int]s. *)
Lemma to_int_eq_inj (a b : Z) :
  to_int a = to_int b -> - 2 ^ 32 < a - b < 2 ^ 32 -> a = b.
Proof. to_int_arith. Qed.

(** Fewer than [2 ^ 32] calls of [CreateRequestId] return different ids. *)
Lemma nth_req_id_inj (c0 j k : Z) :
  0 <= j < 2 ^ 32 -> 0 <= k < 2 ^ 32 -> nth_req_id c0 j = nth_req_id c0 k -> j = k.
Proof.
  intros Hj Hk H. unfold nth_req_id in H. apply to_int_eq_inj in H; lia.
Qed.

(** The id of the next call, when the counter is where [i] calls left it. *)
Lemma next_req_id (c0 i c : Z) :
  to_int c = to_int (c0 + i) -> to_int (c + 1) = nth_req_id c0 i.
Proof.
  intros H. unfold nth_req_id. apply (to_int_congr _ _ 1) in H.
  rewrite H. f_equal. lia.
Qed.


Lemma vec_at_Some {A : Type} (v : list A) (i : Z) (x : A) :
  vec_at v i = Some x <-> 0 <= i /\ v !! Z.to_nat i = Some x.
Proof.
  unfold vec_at. destruct (bool_decide (0 <= i)) eqn:E.
  - apply bool_decide_eq_true in E. split; [by intros ?|by intros [_ ?]].
  - split; [done|]. apply bool_decide_eq_false in E. lia.
Qed.

Lemma vec_at_of_nat {A : Type} (v : list A) (n : nat) :
  vec_at v (Z.of_nat n) = v !! n.
Proof.
  unfold vec_at. rewrite bool_decide_eq_true_2 by lia. by rewrite Nat2Z.id.
Qed.

Lemma vec_set_Some {A : Type} (v v' : list A) (i : Z) (x : A) :
  vec_set v i x = Some v' ->
  0 <= i < Z.of_nat (length v) /\ v' = <[Z.to_nat i := x]> v.
Proof.
  unfold vec_set. destruct (bool_decide _) eqn:E; [|done].
  apply bool_decide_eq_true in E. intros ?; by simplify_eq.
Qed.

Lemma vec_set_lookup {A : Type} (v v' : list A) (i : Z) (x : A) :
  vec_set v i x = Some v' -> vec_at v' i = Some x.
Proof.
  intros [Hi ->]%vec_set_Some. apply vec_at_Some. split; [lia|].
  apply list_lookup_insert_eq. lia.
Qed.

(** ** [Contains] *)

Lemma find_index_Some (vec : list string) (x : string) (i : nat) :
  find_index vec x = Some i ->
  vec !! i = Some x /\ forall j y, (j < i)%nat -> vec !! j = Some y -> y <> x.
Proof.
  revert i. induction vec as [|a vec IH]; intros i; simpl; [done|].
  case_bool_decide as Ha.
  - intros ?; simplify_eq. split; [done|]. intros j y Hj. lia.
  - destruct (find_index vec x) as [k|] eqn:Hk; simpl; [|done].
    intros ?; simplify_eq. destruct (IH k eq_refl) as [H1 H2]. split; [done|].
    intros [|j] y Hj; simpl.
    + intros ?; by simplify_eq.
    + apply H2. lia.
Qed.

Lemma find_index_None (vec : list string) (x : string) :
  find_index vec x = None <-> x ∉ vec.
Proof.
  induction vec as [|a vec IH]; simpl.
  - split; [intros _|done]. apply not_elem_of_nil.
  - case_bool_decide as Ha.
    + subst. split; [done|]. intros []. apply list_elem_of_here.
    + rewrite not_elem_of_cons. destruct (find_index vec x); simpl.
      * split; [done|]. intros [_ H]. by apply IH in H.
      * split; [|done]. intros _. split; [congruence|]. by apply IH.
Qed.

Lemma Contains_true (vec : list string) (x : string) (k : Z) :
  Contains vec x = (true, k) ->
  0 <= k /\ vec !! Z.to_nat k = Some x /\
  forall j y, (j < Z.to_nat k)%nat -> vec !! j = Some y -> y <> x.
Proof.
  unfold Contains. destruct (find_index vec x) as [i|] eqn:Hi; [|done].
  intros [= <-]. rewrite Nat2Z.id. destruct (find_index_Some _ _ _ Hi).
  split; [lia|done].
Qed.

Lemma Contains_elem (vec : list string) (x : string) :
  (Contains vec x).1 = true <-> x ∈ vec.
Proof.
  unfold Contains. destruct (find_index vec x) as [i|] eqn:Hi; simpl.
  - split; [|done]. intros _. apply find_index_Some in Hi as [Hi _].
    by eapply list_elem_of_lookup_2.
  - split; [done|]. by apply find_index_None in Hi.
Qed.

Lemma Contains_false (vec : list string) (x : string) :
  (Contains vec x).1 = false <-> x ∉ vec.
Proof.
  rewrite <- Contains_elem. destruct (Contains vec x).1; naive_solver.
Qed.

(** In a list without duplicates [Contains] finds every element where it is. *)
Lemma Contains_NoDup (vec : list string) (x : string) (i : nat) :
  NoDup vec -> vec !! i = Some x -> Contains vec x = (true, Z.of_nat i).
Proof.
  intros Hnd Hi. unfold Contains.
  destruct (find_index vec x) as [k|] eqn:Hk.
  - apply find_index_Some in Hk as [Hk _].
    by rewrite (NoDup_lookup _ _ _ _ Hnd Hk Hi).
  - apply find_index_None in Hk. destruct Hk. by eapply list_elem_of_lookup_2.
Qed.

(** ** Half precision comparison *)

Lemma float_lt_irrefl (a : float) : float_lt a a = false.
Proof. destruct a as [|[]|m]; simpl; try done. apply Z.ltb_irrefl. Qed.

Lemma float_lt_trans (a b c : float) :
  float_lt a b = true -> float_lt b c = true -> float_lt a c = true.
Proof.
  destruct a as [|[]|x], b as [|[]|y], c as [|[]|z]; simpl; try done.
  rewrite !Z.ltb_lt. lia.
Qed.

Lemma float_lt_not_nan (a b : float) :
  float_lt a b = true -> a <> FNaN /\ b <> FNaN.
Proof. destruct a as [|[]|x], b as [|[]|y]; simpl; done. Qed.

(** On numbers the order is total: what is not above [a] is below whatever
    [a] is below. *)
Lemma float_lt_neg_trans (a b c : float) :
  b <> FNaN -> float_lt a b = false -> float_lt a c = true -> float_lt b c = true.
Proof.
  destruct a as [|[]|x], b as [|[]|y], c as [|[]|z]; simpl; try done.
  rewrite Z.ltb_ge, !Z.ltb_lt. lia.
Qed.

(** ** [std::max_element] *)

Section MaxElement.
Context {A : Type} (comp : A -> A -> bool) (number : A -> Prop).
Hypothesis comp_irrefl : forall a, comp a a = false.
Hypothesis comp_trans :
  forall a b c, comp a b = true -> comp b c = true -> comp a c = true.
Hypothesis comp_neg_trans :
  forall a b c, number b -> comp a b = false -> comp a c = true -> comp b c = true.

Lemma max_element_loop_largest (rest seen : list A) (li : nat) :
  is_largest comp number seen li ->
  forall l, seen !! li = Some l ->
  is_largest comp number (seen ++ rest) (max_element_loop comp li l (length seen) rest).
Proof using comp_irrefl comp_trans comp_neg_trans.
  revert seen li. induction rest as [|x rest IH]; intros seen li Hinv l Hl; simpl.
  - by rewrite app_nil_r.
  - replace (seen ++ x :: rest) with ((seen ++ [x]) ++ rest)
      by (by rewrite <- app_assoc).
    replace (S (length seen)) with (length (seen ++ [x]))
      by (rewrite length_app; simpl; lia).
    destruct Hinv as (xr & Hxr & Hmax & Hfirst).
    assert (xr = l) as -> by congruence.
    destruct (comp l x) eqn:Hc.
    + apply IH; [|by rewrite lookup_app_r, Nat.sub_diag].
      exists x. split; [by rewrite lookup_app_r, Nat.sub_diag|]. split.
      * intros j xj Hj. apply lookup_app_Some in Hj as [Hj|[_ Hj]].
        -- destruct (comp x xj) eqn:Hx; [|done].
           rewrite <- (Hmax _ _ Hj). symmetry. by eapply comp_trans.
        -- apply list_lookup_singleton_Some in Hj as [_ <-]. apply comp_irrefl.
      * intros j xj Hlt Hj Hnum. rewrite lookup_app_l in Hj by done.
        eapply comp_neg_trans; [done| |done]. by eapply Hmax.
    + apply IH; [|by apply lookup_app_l_Some].
      exists l. split; [by apply lookup_app_l_Some|]. split.
      * intros j xj Hj. apply lookup_app_Some in Hj as [Hj|[_ Hj]]; [by eapply Hmax|].
        by apply list_lookup_singleton_Some in Hj as [_ <-].
      * intros j xj Hlt Hj Hnum. apply (Hfirst j); [done| |done].
        apply lookup_lt_Some in Hxr. by rewrite lookup_app_l in Hj by lia.
Qed.

Lemma max_element_largest (range : list A) :
  range <> [] -> is_largest comp number range (max_element comp range).
Proof using comp_irrefl comp_trans comp_neg_trans.
  destruct range as [|x rest]; [done|]. intros _. simpl.
  apply (max_element_loop_largest rest [x] 0); [|done].
  exists x. split; [done|]. split.
  - intros [|j] xj; simpl; [|done]. intros [= <-]. apply comp_irrefl.
  - intros j xj Hj. lia.
Qed.
End MaxElement.

Lemma half_less_largest (range : list Z) :
  range <> [] ->
  is_largest half_less (fun h => ~ is_nan h) range (max_element half_less range).
Proof.
  apply max_element_largest; unfold half_less, is_nan.
  - intros a. apply float_lt_irrefl.
  - intros a b c. apply float_lt_trans.
  - intros a b c. apply float_lt_neg_trans.
Qed.

(** ** [GetNewInputIdsFromLogits] *)

Lemma read_range_Some {A : Type} (data range : list A) (off len : Z) :
  read_range data off len = Some range ->
  0 <= off /\ 0 <= len /\ off + len <= Z.of_nat (length data) /\
  length range = Z.to_nat len /\
  forall j : nat, (j < Z.to_nat len)%nat -> range !! j = data !! (Z.to_nat off + j)%nat.
Proof.
  unfold read_range. case_bool_decide as H; [|done]. intros ?; simplify_eq.
  destruct H as (H1 & H2 & H3). repeat split; try done.
  - rewrite length_take, length_drop. lia.
  - intros j Hj. rewrite lookup_take_lt by done. by rewrite lookup_drop.
Qed.

Lemma read_range_in_bounds {A : Type} (data : list A) (off len : Z) :
  0 <= off -> 0 <= len -> off + len <= Z.of_nat (length data) ->
  is_Some (read_range data off len).
Proof.
  intros. unfold read_range. rewrite bool_decide_eq_true_2; [by eexists|done].
Qed.

Section Lanes.
Variables (data : list Z) (eos B S V : Z).
Hypothesis HS : 1 <= S.
Hypothesis HV : 1 <= V.
Hypothesis Hlen : Z.of_nat (length data) = B * S * V.

Lemma lane_in_bounds (b : Z) :
  0 <= b < B ->
  0 <= b * (S * V) + (S - 1) * V /\
  b * (S * V) + (S - 1) * V + V <= Z.of_nat (length data).
Proof using HS HV Hlen. intros Hb. rewrite Hlen. nia. Qed.

Lemma lane_id_argmax (b : Z) : 0 <= b < B -> lane_argmax data S V b (lane_id data S V b).
Proof using HS HV Hlen.
  intros Hb. destruct (lane_in_bounds b Hb) as [Hlo Hhi].
  set (off := b * (S * V) + (S - 1) * V) in *.
  destruct (read_range_in_bounds data off V) as [range Hr]; [lia..|].
  pose proof Hr as (_ & _ & _ & Hrl & Hrd)%read_range_Some.
  assert (range = take (Z.to_nat V) (drop (Z.to_nat off) data)) as Hrange.
  { unfold read_range in Hr. case_bool_decide; by simplify_eq. }
  unfold lane_id. fold off. rewrite <- Hrange.
  assert (range <> []) as Hne by (intros ->; simpl in Hrl; lia).
  destruct (half_less_largest range Hne) as (xr & Hxr & Hmax & Hfirst).
  set (r := max_element half_less range) in *.
  assert (r < Z.to_nat V)%nat as Hrlt.
  { apply lookup_lt_Some in Hxr. lia. }
  assert (forall j : Z, 0 <= j < V ->
            logit_at data S V b (S - 1) j = range !! Z.to_nat j) as Hat.
  { intros j Hj. unfold logit_at. rewrite Hrd by lia. f_equal. unfold off. nia. }
  unfold lane_argmax. split; [lia|]. exists xr. split; [|split].
  - rewrite Hat by lia. by rewrite Nat2Z.id.
  - intros j xj Hj Hl. rewrite Hat in Hl by done. by eapply Hmax.
  - intros j xj Hj Hl Hn. rewrite Hat in Hl by lia.
    apply (Hfirst (Z.to_nat j)); [lia|done|done].
Qed.

(** The loop, from lane [b] on, with [n] lanes to go *)
Lemma lanes_loop_lanes (n fuel : nat) (b : Z) (ids : list Z) (cnt : Z) :
  0 <= b -> b + Z.of_nat n = B -> (n <= fuel)%nat ->
  lanes_loop data eos (B * (S * V)) (S * V) ((S - 1) * V) V fuel (b * (S * V)) ids cnt
  = Some (ids ++ (lane_id data S V <$> seqZ b (Z.of_nat n)),
          cnt + count_eos eos (lane_id data S V <$> seqZ b (Z.of_nat n))).
Proof using HS HV Hlen.
  revert fuel b ids cnt. induction n as [|n IH]; intros fuel b ids cnt Hb HB Hf.
  - assert (b = B) as -> by lia.
    destruct fuel; simpl; rewrite bool_decide_eq_false_2 by lia;
      unfold count_eos; simpl; by rewrite app_nil_r, Z.add_0_r.
  - destruct fuel as [|fuel]; [lia|]. simpl lanes_loop.
    assert (1 <= S * V) as HSV by nia.
    rewrite bool_decide_eq_true_2 by (apply Z.mul_lt_mono_pos_r; lia).
    destruct (lane_in_bounds b) as [Hlo Hhi]; [lia|].
    unfold read_range. rewrite bool_decide_eq_true_2 by lia.
    cbn [mbind option_bind]. fold (lane_id data S V b).
    replace (b * (S * V) + S * V) with ((b + 1) * (S * V)) by lia.
    rewrite IH by lia.
    rewrite (seqZ_cons b (Z.of_nat (Datatypes.S n))) by lia.
    replace (Z.pred (Z.of_nat (Datatypes.S n))) with (Z.of_nat n) by lia.
    replace (Z.succ b) with (b + 1) by lia.
    rewrite fmap_cons.
    f_equal. f_equal.
    + by rewrite <- app_assoc.
    + unfold count_eos. rewrite filter_cons.
      case_bool_decide; destruct (decide (lane_id data S V b = eos)); try done; simpl; lia.
Qed.
End Lanes.

Lemma GetNewInputIdsFromLogits_lanes (B S V eos : Z) (data : list Z) :
  0 <= B -> 1 <= S -> 1 <= V -> B * S * V < 2 ^ 31 ->
  Z.of_nat (length data) = B * S * V ->
  GetNewInputIdsFromLogits B data [B; S; V] eos
  = Some (lane_id data S V <$> seqZ 0 B, [B; 1],
          bool_decide (count_eos eos (lane_id data S V <$> seqZ 0 B) = B)).
Proof.
  intros HB HS HV Hsz Hlen. unfold GetNewInputIdsFromLogits.
  change (vec_at [B; S; V] 0) with (Some B).
  change (vec_at [B; S; V] 1) with (Some S).
  change (vec_at [B; S; V] 2) with (Some V).
  cbn -[to_int Z.mul Z.sub Z.add lanes_loop Z.to_nat].
  rewrite option_guard_True by done.
  cbn -[to_int Z.mul Z.sub Z.add lanes_loop Z.to_nat].
  destruct (decide (B = 0)) as [->|HB0].
  - rewrite !Z.mul_0_l. rewrite (to_int_id 0) by lia. done.
  - assert (S * V <= B * S * V) by nia.
    rewrite (to_int_id (B * S * V)) by nia.
    rewrite (to_int_id (S * V)) by nia.
    rewrite (to_int_id ((S - 1) * V)) by nia.
    replace (B * S * V) with (B * (S * V)) by lia.
    pose proof (lanes_loop_lanes data eos B S V HS HV ltac:(lia)
                  (Z.to_nat B) (Z.to_nat (B * (S * V))) 0 [] 0) as Hloop.
    rewrite Z2Nat.id, Z.mul_0_l in Hloop by lia.
    rewrite Hloop by nia. simpl. by rewrite Z.add_0_l.
Qed.

(** ** [ValidateRequest] *)

Lemma ValidateRequest_loop_code (i : Z) (reqs : list OrtReq) (resps : list OrtResp)
    (st : OrtErrorCode * string) :
  ValidateRequest_loop i reqs resps = Some st -> st.1 = ORT_INVALID_ARGUMENT.
Proof.
  revert i resps. induction reqs as [|req reqs IH]; intros i [|resp resps]; simpl;
    try done.
  repeat case_bool_decide; simpl; try (by intros ?; simplify_eq). apply IH.
Qed.

Lemma ValidateRequest_loop_None (i : Z) (reqs : list OrtReq) (resps : list OrtResp) :
  length reqs = length resps ->
  ValidateRequest_loop i reqs resps = None <->
  Forall request_slot_ok reqs /\ Forall response_slot_ok resps.
Proof.
  revert i resps. induction reqs as [|req reqs IH]; intros i [|resp resps] Hlen;
    simpl in *; try done.
  rewrite !Forall_cons. unfold request_slot_ok at 1, response_slot_ok at 1.
  destruct (decide (length (input_names req) = length (input_values req))) as [Hq|Hq].
  - rewrite (bool_decide_eq_true_2 _ Hq). simpl.
    destruct (decide (length (output_values resp) = length (output_names resp)))
      as [Hp|Hp].
    + rewrite (bool_decide_eq_true_2 _ Hp). simpl. rewrite IH by lia.
      split; [intros [? ?]|intros [[_ ?] [_ ?]]]; done.
    + rewrite (bool_decide_eq_false_2 _ Hp). simpl.
      split; [done|]. intros [_ [? _]]. congruence.
  - rewrite (bool_decide_eq_false_2 _ Hq). simpl.
    split; [done|]. intros [[? _] _]. congruence.
Qed.

Lemma ValidateRequest_None (reqs : list OrtReq) (resps : list OrtResp) :
  ValidateRequest reqs resps = None <->
  length reqs = length resps /\
  Forall request_slot_ok reqs /\ Forall response_slot_ok resps.
Proof.
  unfold ValidateRequest. case_bool_decide as Hlen; simpl.
  - rewrite ValidateRequest_loop_None by done. split; [by intros [? ?]|by intros [_ ?]].
  - split; [done|]. by intros [? _].
Qed.

Lemma ValidateRequest_code (reqs : list OrtReq) (resps : list OrtResp)
    (st : OrtErrorCode * string) :
  ValidateRequest reqs resps = Some st -> st.1 = ORT_INVALID_ARGUMENT.
Proof.
  unfold ValidateRequest. case_bool_decide; simpl.
  - apply ValidateRequest_loop_code.
  - by intros ?; simplify_eq.
Qed.

(** ** What the workers leave alone *)

Lemma same_request_refl (f : RequestExecutionFrame) : same_request f f.
Proof. by repeat split. Qed.

Lemma same_request_trans (f g h : RequestExecutionFrame) :
  same_request f g -> same_request g h -> same_request f h.
Proof. unfold same_request. intros (?&?&?&?) (?&?&?&?). repeat split; congruence. Qed.

Lemma ExecuteRequest_store `{rt : OrtRuntime} (NDEBUG : bool) (mcfg : ModelConfig)
    (sess : nat) (ort_resp : OrtResp) (f : RequestExecutionFrame) :
  match ExecuteRequest NDEBUG mcfg sess ort_resp f with
  | Done _ f' | Throw _ f' => exists s, f' = store_exec f s
  | Crash => True
  end.
Proof.
  unfold ExecuteRequest. destruct (vec_at _ _); [|done].
  destruct (ExecuteRequest_body _ _ _ _ _ _ _); eauto.
Qed.

Section Workers.
Context `{rt : OrtRuntime}.
Variable NDEBUG : bool.
Variable pcfg : PipelineConfig.

Lemma ThreadWorkerFn_world (t : Task) (w w' : World) :
  ThreadWorkerFn NDEBUG pcfg t w = Some w' ->
  pipeline_stages w' = pipeline_stages w /\
  resp_list w' = resp_list w /\
  req_id_counter w' = req_id_counter w /\
  resp_queue w' = resp_queue w ++ [task_req t] /\
  exists f f', req_frame_map w !! task_req t = Some f /\
    req_frame_map w' = <[task_req t := f']> (req_frame_map w) /\
    same_request f f' /\ stage_id f' = stage_id f /\
    next_step_input_buffer_map f' = next_step_input_buffer_map f.
Proof.
  unfold ThreadWorkerFn. intros H.
  destruct (req_frame_map w !! task_req t) as [f|] eqn:Hf; [|done].
  destruct (model_config_vec pcfg !! task_stage t) as [mcfg|]; [|done].
  simpl in H. destruct (vec_at (resp_list w) (req_index f)) as [ort_resp|]; [|done].
  simpl in H.
  pose proof (ExecuteRequest_store NDEBUG mcfg (task_stage t) ort_resp f) as Hs.
  destruct (ExecuteRequest _ _ _ _ _) as [[] f'|msg f'|]; [| |done];
    destruct Hs as [s ->]; simplify_eq; simpl;
    (repeat split; try done; eexists f, _; repeat split; done).
Qed.

Lemma run_tasks_world (ts : list Task) (w w' : World) :
  run_tasks NDEBUG pcfg ts w = Some w' ->
  pipeline_stages w' = pipeline_stages w /\ resp_list w' = resp_list w /\
  req_id_counter w' = req_id_counter w.
Proof.
  revert w. induction ts as [|t ts IH]; intros w; simpl.
  - by intros ?; simplify_eq.
  - destruct (ThreadWorkerFn _ _ t w) as [w1|] eqn:H1; [|done]. simpl.
    intros H2. apply ThreadWorkerFn_world in H1 as (?&?&?&_).
    apply IH in H2 as (?&?&?). repeat split; congruence.
Qed.

Lemma DrainAllInflightRequests_world (s : nat) (w w' : World) :
  DrainAllInflightRequests NDEBUG pcfg s w = Some w' ->
  pipeline_stages w' = <[s := []]> (pipeline_stages w) /\
  resp_list w' = resp_list w /\ req_id_counter w' = req_id_counter w.
Proof.
  unfold DrainAllInflightRequests.
  destruct (pipeline_stages w !! s) as [q|]; [|done]. simpl.
  intros H. by apply run_tasks_world in H as (?&?&?).
Qed.

Lemma drain_stages_world (ss : list nat) (w w' : World) :
  drain_stages NDEBUG pcfg ss w = Some w' ->
  length (pipeline_stages w') = length (pipeline_stages w) /\
  (forall s, s ∈ ss -> pipeline_stages w' !! s = Some [] \/ pipeline_stages w' !! s = None) /\
  (forall s, pipeline_stages w !! s = Some [] -> pipeline_stages w' !! s = Some []) /\
  resp_list w' = resp_list w /\ req_id_counter w' = req_id_counter w.
Proof.
  revert w. induction ss as [|s ss IH]; intros w; simpl.
  - intros ?; simplify_eq. repeat split; try done. intros s Hs. by apply elem_of_nil in Hs.
  - destruct (DrainAllInflightRequests _ _ s w) as [w1|] eqn:H1; [|done]. simpl.
    intros H2. apply DrainAllInflightRequests_world in H1 as (Hp1&?&?).
    apply IH in H2 as (Hl&Hin&Hkeep&?&?).
    assert (forall s', pipeline_stages w !! s' = Some [] ->
                       pipeline_stages w1 !! s' = Some []) as Hk1.
    { intros s' Hs'. rewrite Hp1. destruct (decide (s = s')) as [->|Hne].
      - apply list_lookup_insert_eq. by eapply lookup_lt_Some.
      - by rewrite list_lookup_insert_ne. }
    repeat split; try congruence.
    + rewrite Hl, Hp1. apply length_insert.
    + intros s' [->|Hs']%elem_of_cons; [|by apply Hin].
      destruct (pipeline_stages w1 !! s) as [q|] eqn:Hq.
      * left. apply Hkeep. rewrite Hp1 in Hq |- *.
        apply lookup_lt_Some in Hq as Hlt. rewrite length_insert in Hlt.
        by apply list_lookup_insert_eq.
      * right. apply lookup_ge_None in Hq. apply lookup_ge_None. lia.
    + intros s' Hs'. by apply Hkeep, Hk1.
Qed.

Lemma HandleAndReturnFailure_world (msg : string) (w : World) (st : OrtStatus)
    (w' : World) :
  HandleAndReturnFailure NDEBUG pcfg msg w = Some (st, w') ->
  st = Some (ORT_FAIL, msg) /\ drained w' /\
  resp_list w' = resp_list w /\ req_id_counter w' = req_id_counter w.
Proof.
  unfold HandleAndReturnFailure.
  destruct (drain_stages _ _ _ w) as [w1|] eqn:Hd; [|done]. simpl.
  intros ?; simplify_eq. apply drain_stages_world in Hd as (Hl&Hin&_&?&?).
  repeat split; try done. apply Forall_lookup. intros s q Hq.
  destruct (Hin s) as [H1|H1]; [|congruence..].
  apply elem_of_seq. apply lookup_lt_Some in Hq. lia.
Qed.
End Workers.

(** ** [CopyFinalOutput] *)

Section CopyLoop.
Variable token_names : list string.

Lemma CopyFinalOutput_loop_total (onames : list string) (k : Z)
    (tvals outs : list OrtValueHandle) :
  length tvals = length token_names -> 0 <= k ->
  k + Z.of_nat (length onames) <= Z.of_nat (length outs) ->
  exists missing tvals' outs',
    CopyFinalOutput_loop onames k token_names tvals outs = Some (missing, tvals', outs') /\
    length tvals' = length tvals /\ length outs' = length outs.
Proof.
  revert k tvals outs. induction onames as [|o onames IH]; intros k tvals outs Ht Hk Ho;
    simpl in *.
  - by eexists _, _, _.
  - destruct (Contains token_names o) as [[] j] eqn:Hc; simpl; [|by eexists _, _, _].
    apply Contains_true in Hc as (Hj & Hl & _).
    destruct (lookup_lt_is_Some_2 tvals (Z.to_nat j)) as [h Hh].
    { rewrite Ht. by eapply lookup_lt_Some. }
    rewrite (proj2 (vec_at_Some tvals j h)) by done. simpl.
    unfold vec_set. rewrite bool_decide_eq_true_2 by lia. simpl.
    destruct (IH (k + 1) (<[Z.to_nat j := None]> tvals) (<[Z.to_nat k := h]> outs))
      as (m & t' & o' & -> & Hlt & Hlo).
    + by rewrite length_insert.
    + lia.
    + rewrite length_insert. lia.
    + eexists _, _, _. split; [done|]. by rewrite Hlt, Hlo, !length_insert.
Qed.

Lemma CopyFinalOutput_loop_missing (onames : list string) (k : Z)
    (tvals outs tvals' outs' : list OrtValueHandle) (missing : option string) :
  CopyFinalOutput_loop onames k token_names tvals outs = Some (missing, tvals', outs') ->
  match missing with
  | None => forall o, o ∈ onames -> o ∈ token_names
  | Some o => o ∈ onames /\ o ∉ token_names
  end.
Proof.
  revert k tvals outs. induction onames as [|o onames IH]; intros k tvals outs; simpl.
  - intros ?; simplify_eq. intros o Ho. by apply elem_of_nil in Ho.
  - destruct (Contains token_names o) as [[] j] eqn:Hc; simpl.
    + destruct (vec_at tvals j) as [h|]; [|done]. simpl.
      destruct (vec_set outs k h) as [outs1|]; [|done]. simpl.
      intros H. apply IH in H. destruct missing as [m|].
      * destruct H. split; [by apply list_elem_of_further|done].
      * intros o' [->|Ho']%elem_of_cons; [|by apply H].
        apply Contains_elem. by rewrite Hc.
    + intros ?; simplify_eq. split; [apply list_elem_of_here|].
      apply Contains_false. by rewrite Hc.
Qed.

(** On success every requested name received the handle the token held for
    it, and the token is left with a null handle there. *)
Lemma CopyFinalOutput_loop_transfer (onames : list string) (k : Z)
    (tvals outs tvals' outs' : list OrtValueHandle) :
  CopyFinalOutput_loop onames k token_names tvals outs = Some (None, tvals', outs') ->
  NoDup onames -> 0 <= k ->
  (forall i o, onames !! i = Some o ->
     exists j, Contains token_names o = (true, j) /\
       outs' !! (Z.to_nat k + i)%nat = tvals !! Z.to_nat j /\
       tvals' !! Z.to_nat j = Some None) /\
  (forall p, (p < Z.to_nat k)%nat -> outs' !! p = outs !! p) /\
  (forall j, (forall o, o ∈ onames -> Contains token_names o <> (true, Z.of_nat j)) ->
     tvals' !! j = tvals !! j).
Proof.
  revert k tvals outs. induction onames as [|o onames IH]; intros k tvals outs; simpl.
  - intros ?; simplify_eq. intros _ _. by repeat split.
  - destruct (Contains token_names o) as [[] j] eqn:Hc; simpl; [|done].
    destruct (vec_at tvals j) as [h|] eqn:Hh; [|done]. simpl.
    destruct (vec_set outs k h) as [outs1|] eqn:Ho1; [|done]. simpl.
    intros H [Hnin Hnd]%NoDup_cons Hk.
    apply vec_at_Some in Hh as [Hj Hh].
    apply vec_set_Some in Ho1 as [Hkl ->].
    destruct (IH _ _ _ H Hnd ltac:(lia)) as (Hx & Hpre & Hrest).
    replace (Z.to_nat (k + 1)) with (Datatypes.S (Z.to_nat k)) in * by lia.
    assert (forall o', o' ∈ onames -> Contains token_names o' <> (true, j)) as Hother.
    { intros o' Ho' Hc'. apply Contains_true in Hc as (_ & Hc & _).
      apply Contains_true in Hc' as (_ & Hc' & _). congruence. }
    repeat split.
    + intros [|i] o'; simpl.
      * intros ?; simplify_eq. exists j. split; [done|]. split.
        -- rewrite Nat.add_0_r, Hpre by lia. rewrite list_lookup_insert_eq by lia. done.
        -- rewrite Hrest.
           ++ apply list_lookup_insert_eq. by eapply lookup_lt_Some.
           ++ intros o2 Ho2. rewrite Z2Nat.id by done. by apply Hother.
      * intros Hi. destruct (Hx i o' Hi) as (j' & Hc' & Ho' & Ht').
        exists j'. split; [done|]. split; [|done].
        replace (Z.to_nat k + Datatypes.S i)%nat with (Datatypes.S (Z.to_nat k) + i)%nat by lia.
        rewrite Ho'. apply list_lookup_insert_ne.
        intros Heq. apply (Hother o'); [by eapply list_elem_of_lookup_2|].
        rewrite Hc'. f_equal. apply Contains_true in Hc' as (? & _). lia.
    + intros p Hp. rewrite Hpre by lia. apply list_lookup_insert_ne. lia.
    + intros j' Hj'. rewrite Hrest.
      * apply list_lookup_insert_ne. intros Heq. apply (Hj' o); [apply list_elem_of_here|].
        rewrite Hc. f_equal. lia.
      * intros o' Ho'. apply Hj'. by apply list_elem_of_further.
Qed.
End CopyLoop.

(** The loop of [CopyFinalOutput], whatever the requested names: the entry of
    a name asked for before receives the null handle the earlier [release()]
    left in the token. *)
Lemma CopyFinalOutput_loop_entries (token_names onames : list string) (k : Z)
    (tvals outs tvals' outs' : list OrtValueHandle) :
  CopyFinalOutput_loop onames k token_names tvals outs = Some (None, tvals', outs') ->
  0 <= k ->
  (forall i o, onames !! i = Some o ->
     exists j, Contains token_names o = (true, j) /\
       outs' !! (Z.to_nat k + i)%nat
       = if bool_decide (o ∈ take i onames) then Some None else tvals !! Z.to_nat j) /\
  (forall p, (p < Z.to_nat k)%nat -> outs' !! p = outs !! p).
Proof.
  revert k tvals outs. induction onames as [|o0 onames IH]; intros k tvals outs; simpl.
  - intros ?; simplify_eq. intros _. by split.
  - destruct (Contains token_names o0) as [[] j0] eqn:Hc; simpl; [|done].
    destruct (vec_at tvals j0) as [h|] eqn:Hh; [|done]. simpl.
    destruct (vec_set outs k h) as [outs1|] eqn:Ho1; [|done]. simpl.
    intros H Hk.
    apply vec_at_Some in Hh as [Hj Hh].
    apply vec_set_Some in Ho1 as [Hkl ->].
    destruct (IH _ _ _ H ltac:(lia)) as (Hx & Hpre).
    replace (Z.to_nat (k + 1)) with (Datatypes.S (Z.to_nat k)) in * by lia.
    split.
    + intros [|i] o; simpl.
      * intros ?; simplify_eq. exists j0. split; [done|].
        rewrite ?bool_decide_eq_false_2 by apply not_elem_of_nil.
        rewrite Nat.add_0_r, Hpre by lia. rewrite list_lookup_insert_eq by lia. done.
      * intros Hi. destruct (Hx i o Hi) as (j & Hcj & Ho).
        exists j. split; [done|].
        replace (Z.to_nat k + Datatypes.S i)%nat with (Datatypes.S (Z.to_nat k) + i)%nat by lia.
        rewrite Ho. destruct (decide (o = o0)) as [->|Hne].
        -- rewrite (bool_decide_eq_true_2 (o0 ∈ o0 :: take i onames))
             by apply list_elem_of_here.
           assert (j = j0) as -> by congruence.
           case_bool_decide; [done|].
           apply list_lookup_insert_eq. by eapply lookup_lt_Some.
        -- assert (Z.to_nat j0 <> Z.to_nat j) as Hjj.
           { intros Heq. apply Contains_true in Hc as (_ & Hc & _).
             apply Contains_true in Hcj as (_ & Hcj & _). congruence. }
           rewrite list_lookup_insert_ne by done.
           case_bool_decide as Hin; case_bool_decide as Hin'; try done.
           ++ destruct Hin'. by apply list_elem_of_further.
           ++ apply elem_of_cons in Hin' as [?|?]; done.
    + intros p Hp. rewrite Hpre by lia. apply list_lookup_insert_ne. lia.
Qed.

(** ** The outputs of [GetNewInputIdsFromLogits], whatever the logits *)

Lemma lanes_loop_appends (data : list Z) (eos num_elems ltwo skip vocab : Z)
    (fuel : nat) (b : Z) (ids : list Z) (cnt : Z) (ids' : list Z) (cnt' : Z) :
  lanes_loop data eos num_elems ltwo skip vocab fuel b ids cnt = Some (ids', cnt') ->
  exists new, ids' = ids ++ new /\ cnt' = cnt + count_eos eos new.
Proof.
  revert b ids cnt. induction fuel as [|fuel IH]; intros b ids cnt; simpl.
  - case_bool_decide; [done|]. intros ?; simplify_eq. exists [].
    unfold count_eos. simpl. by rewrite app_nil_r, Z.add_0_r.
  - case_bool_decide.
    + destruct (read_range data (b + skip) vocab) as [range|]; [|done]. simpl.
      intros (new & -> & ->)%IH.
      exists (Z.of_nat (max_element half_less range) :: new).
      split; [by rewrite <- app_assoc|].
      unfold count_eos. rewrite filter_cons.
      case_bool_decide; destruct (decide (_ = eos)); try done; simpl; lia.
    + intros ?; simplify_eq. exists [].
      unfold count_eos. simpl. by rewrite app_nil_r, Z.add_0_r.
Qed.

Lemma GetNewInputIdsFromLogits_outputs (B : Z) (data shape : list Z) (eos : Z)
    (ids ids_shape : list Z) (all_eos : bool) :
  GetNewInputIdsFromLogits B data shape eos = Some (ids, ids_shape, all_eos) ->
  0 <= B /\ ids_shape = [B; 1] /\ all_eos = bool_decide (count_eos eos ids = B).
Proof.
  unfold GetNewInputIdsFromLogits.
  destruct (vec_at shape 0) as [d0|]; [|done]. simpl.
  destruct (vec_at shape 1) as [d1|]; [|done]. simpl.
  destruct (vec_at shape 2) as [d2|]; [|done]. simpl.
  destruct (decide (0 <= B)) as [HB|HB].
  - rewrite option_guard_True by done.
    destruct (lanes_loop _ _ _ _ _ _ _ _ _ _) as [[ids' cnt']|] eqn:Hl; [|done]. simpl.
    intros ?; simplify_eq. apply lanes_loop_appends in Hl as (new & -> & ->).
    by rewrite Z.add_0_l.
  - by rewrite option_guard_False by done.
Qed.


(** ** One round of the loop of [ProcessResponses] *)

Lemma lookup_upd_frame (k : Z) (g : RequestExecutionFrame -> RequestExecutionFrame)
    (w : World) :
  req_frame_map (upd_frame k g w) !! k = g <$> req_frame_map w !! k.
Proof. apply lookup_alter_eq. Qed.

(** ** The outcome monad *)

Lemma bindM_Done {S A B : Type} (c : M S A) (k : A -> M S B) (s s' : S) (b : B) :
  bindM c k s = Done b s' -> exists a s1, c s = Done a s1 /\ k a s1 = Done b s'.
Proof. unfold bindM. destruct (c s) as [a s1| |]; [|done..]. by exists a, s1. Qed.

Lemma or_crash_Done {S A : Type} (o : option A) (s s' : S) (a : A) :
  or_crash o s = Done a s' -> o = Some a /\ s' = s.
Proof. destruct o; [|done]. unfold or_crash, ret. by intros ?; simplify_eq. Qed.

Lemma or_throw_Done {S A : Type} (o : option A) (msg : string) (s s' : S) (a : A) :
  or_throw o msg s = Done a s' -> o = Some a /\ s' = s.
Proof. destruct o; [|done]. unfold or_throw, ret. by intros ?; simplify_eq. Qed.

Lemma modify_Done {S : Type} (g : S -> S) (s s' : S) (u : unit) :
  modify g s = Done u s' -> s' = g s.
Proof. unfold modify. by intros ?; simplify_eq. Qed.

Lemma get_Done {S : Type} (s s' a : S) : get s = Done a s' -> a = s /\ s' = s.
Proof. unfold get. by intros ?; simplify_eq. Qed.

Lemma ret_Done {S A : Type} (a a' : A) (s s' : S) : ret a s = Done a' s' -> a' = a /\ s' = s.
Proof. unfold ret. by intros ?; simplify_eq. Qed.

(** Take a completed computation apart, one step at a time. *)
Ltac inv_done H :=
  repeat match type of H with
  | bindM _ _ _ = Done _ _ =>
      let a := fresh "a" in let s1 := fresh "s" in let H1 := fresh "Hstep" in
      apply bindM_Done in H as (a & s1 & H1 & H);
      first [ apply or_crash_Done in H1 as [H1 ->]
            | apply or_throw_Done in H1 as [H1 ->]
            | apply modify_Done in H1 as ->
            | apply get_Done in H1 as [-> ->]
            | apply ret_Done in H1 as [-> ->]
            | idtac ]
  end.

(** A loop that completes keeps what every round keeps. *)
Lemma for_each_keeps {S A : Type} (I : S -> Prop) (body : A -> M S unit) (l : list A)
    (s s' : S) :
  (forall x s1 s2, x ∈ l -> I s1 -> body x s1 = Done tt s2 -> I s2) ->
  I s -> for_each l body s = Done tt s' -> I s'.
Proof.
  revert s. induction l as [|x l IH]; intros s Hbody Hs; simpl.
  - by intros [_ ->]%ret_Done.
  - intros ([] & s1 & H1 & H2)%bindM_Done. apply (IH s1); [|by eauto using list_elem_of_here|done].
    intros y t1 t2 Hy. apply Hbody. by apply list_elem_of_further.
Qed.

Lemma for_each_indexed_keeps {S A : Type} (I : S -> Prop) (body : Z -> A -> M S unit)
    (l : list A) (i : Z) (s s' : S) :
  (forall j x s1 s2, x ∈ l -> I s1 -> body j x s1 = Done tt s2 -> I s2) ->
  I s -> for_each_indexed i l body s = Done tt s' -> I s'.
Proof.
  revert i s. induction l as [|x l IH]; intros i s Hbody Hs; simpl.
  - by intros [_ ->]%ret_Done.
  - intros ([] & s1 & H1 & H2)%bindM_Done.
    apply (IH (i + 1) s1); [|by eauto using list_elem_of_here|done].
    intros j y t1 t2 Hy. apply Hbody. by apply list_elem_of_further.
Qed.

(** ** Bindings by name *)

Lemma binding_of_bind_named_eq {B : Type} (l : list (string * B)) (name : string) (b : B) :
  binding_of name (bind_named l name b) = Some b.
Proof.
  induction l as [|[n b'] l IH]; simpl.
  - by rewrite bool_decide_eq_true_2.
  - case_bool_decide as Hn; simpl; [by rewrite bool_decide_eq_true_2|].
    by rewrite bool_decide_eq_false_2.
Qed.

Lemma binding_of_bind_named_ne {B : Type} (l : list (string * B)) (name name' : string)
    (b : B) :
  name <> name' -> binding_of name' (bind_named l name b) = binding_of name' l.
Proof.
  intros Hne. induction l as [|[n b'] l IH]; simpl.
  - by rewrite bool_decide_eq_false_2.
  - case_bool_decide as Hn; simpl.
    + subst. by rewrite !bool_decide_eq_false_2.
    + by rewrite IH.
Qed.

Lemma bind_named_fresh {B : Type} (l : list (string * B)) (name : string) (b : B) :
  name ∉ l.*1 -> bind_named l name b = l ++ [(name, b)].
Proof.
  induction l as [|[n b'] l IH]; simpl; [done|].
  intros [Hn Hl]%not_elem_of_cons.
  rewrite bool_decide_eq_false_2 by done. by rewrite IH.
Qed.

Lemma binding_of_lookup {B : Type} (l : list (string * B)) (i : nat) (name : string)
    (b : B) :
  NoDup l.*1 -> l !! i = Some (name, b) -> binding_of name l = Some b.
Proof.
  revert i. induction l as [|[n b'] l IH]; intros i; simpl; [done|].
  intros [Hn Hnd]%NoDup_cons. destruct i as [|i]; simpl.
  - intros ?; simplify_eq. by rewrite bool_decide_eq_true_2.
  - intros Hi. rewrite bool_decide_eq_false_2; [by eapply IH|].
    intros ->. apply Hn. apply list_elem_of_fmap. exists (name, b).
    split; [done|]. by eapply list_elem_of_lookup_2.
Qed.

(** ** [ExecuteRequest]: the bindings *)

Section Bindings.
Context `{rt : OrtRuntime}.
Variables (NDEBUG : bool) (mcfg : ModelConfig) (sess : nat) (ort_resp : OrtResp).
Variables (frame_batch_size : Z) (frame_scratch : gmap string ScratchBuffer).

Section Inputs.
Variables (names : list string) (values : list OrtValueHandle).

Lemma bind_one_input_Done (iname : string) (s s' : ExecState) :
  bind_one_input mcfg names values iname s = Done tt s' ->
  es_token s' = es_token s /\
  output_val_map (es_run_state s') = output_val_map (es_run_state s) /\
  same_buffers (es_run_state s) (es_run_state s') /\
  bound_outputs (io_binding (es_run_state s')) = bound_outputs (io_binding (es_run_state s)) /\
  (forall n, n <> iname ->
     binding_of n (bound_inputs (io_binding (es_run_state s')))
     = binding_of n (bound_inputs (io_binding (es_run_state s)))) /\
  ((Contains names iname).1 = false ->
   (Contains (past_input_names mcfg) iname).1 = true ->
   exists v, past_input_value mcfg (output_val_map (es_run_state s)) iname = Some v /\
     binding_of iname (bound_inputs (io_binding (es_run_state s'))) = Some v).
Proof.
  unfold bind_one_input, past_input_value. intros H.
  destruct (Contains names iname) as [[] j] eqn:Hc; simpl in *.
  - inv_done H. apply modify_Done in H as ->. simpl.
    repeat split; try done.
    intros n Hn. by apply binding_of_bind_named_ne.
  - destruct (Contains (past_input_names mcfg) iname) as [[] k] eqn:Hp; simpl in *.
    + inv_done H. apply modify_Done in H as ->. simpl.
      repeat split; try done.
      * intros n Hn. by apply binding_of_bind_named_ne.
      * intros _ _. exists a1. rewrite Hstep. simpl. rewrite Hstep0. simpl.
        split; [done|]. apply binding_of_bind_named_eq.
    + apply ret_Done in H as [_ ->]. by repeat split.
Qed.

Lemma bind_inputs_Done (inames : list string) (s s' : ExecState) :
  for_each inames (bind_one_input mcfg names values) s = Done tt s' ->
  es_token s' = es_token s /\
  output_val_map (es_run_state s') = output_val_map (es_run_state s) /\
  same_buffers (es_run_state s) (es_run_state s') /\
  bound_outputs (io_binding (es_run_state s')) = bound_outputs (io_binding (es_run_state s)) /\
  forall iname, iname ∈ inames ->
    (Contains names iname).1 = false ->
    (Contains (past_input_names mcfg) iname).1 = true ->
    exists v, past_input_value mcfg (output_val_map (es_run_state s)) iname = Some v /\
      binding_of iname (bound_inputs (io_binding (es_run_state s'))) = Some v.
Proof.
  revert s. induction inames as [|x inames IH]; intros s; simpl.
  - intros [_ ->]%ret_Done. repeat split; try done. intros i Hi. by apply elem_of_nil in Hi.
  - intros ([] & s1 & H1 & H2)%bindM_Done.
    apply bind_one_input_Done in H1 as (Ht1 & Ho1 & Hb1 & Hbo1 & Hne1 & Hx1).
    pose proof H2 as Hloop.
    apply IH in H2 as (Ht2 & Ho2 & Hb2 & Hbo2 & Hx2).
    split; [congruence|]. split; [congruence|]. split.
    { destruct Hb1 as (?&?&?), Hb2 as (?&?&?). repeat split; congruence. }
    split; [congruence|].
    intros iname [->|Hin]%elem_of_cons Hc Hp.
    + destruct (decide (x ∈ inames)) as [Hin|Hnin].
      * rewrite <- Ho1. by apply Hx2.
      * destruct (Hx1 Hc Hp) as (v & Hv & Hbv). exists v. split; [done|].
        rewrite <- Hbv. clear -Hloop Hnin.
        revert s1 Hloop. induction inames as [|y inames IH]; intros s1; simpl.
        -- by intros [_ ->]%ret_Done.
        -- intros ([] & s2 & H1 & H2)%bindM_Done.
           apply not_elem_of_cons in Hnin as [Hxy Hnin].
           apply bind_one_input_Done in H1 as (_ & _ & _ & _ & Hne & _).
           rewrite (IH Hnin _ H2). apply Hne. done.
    + rewrite <- Ho1. by apply Hx2.
Qed.
End Inputs.

Section Outputs.
Variables (step_id input_seq_len : Z) (shape : list Z) (type : ElemType).

Lemma bind_one_output_Done (oidx : Z) (oname : string) (s s' : ExecState) :
  bind_one_output mcfg sess ort_resp frame_batch_size step_id input_seq_len shape type
    oidx oname s = Done tt s' ->
  exists b,
    s' = set_io (fun io => mkIoBinding (bound_inputs io)
                             (bind_named (bound_outputs io) oname b)) s /\
    state_binding mcfg step_id shape type (es_run_state s) oname b.
Proof.
  unfold bind_one_output, state_binding, output_state_buffer. intros H.
  apply bindM_Done in H as (s0 & s1 & [-> ->]%get_Done & H).
  destruct (Contains (present_output_names mcfg) oname) as [[] k] eqn:Hc; simpl in *.
  - inv_done H. apply modify_Done in H as ->.
    eexists. split; [reflexivity|]. intros k' ?; simplify_eq.
    exists a. split; [done|]. unfold CreateTensor in Hstep0.
    destruct (create_tensor_accepts _ _ _); by simplify_eq.
  - destruct (Contains (output_names ort_resp) oname) as [[] k'] eqn:Hr; simpl in *.
    + apply bindM_Done in H as (mi & s1 & [Hmi ->]%or_crash_Done & H).
      destruct mi as [mi|].
      * apply modify_Done in H as ->. eexists. split; [reflexivity|]. by intros.
      * inv_done H. apply modify_Done in H as ->. eexists. split; [reflexivity|]. by intros.
    + inv_done H. apply modify_Done in H as ->. eexists. split; [reflexivity|]. by intros.
Qed.

Lemma bind_outputs_Done (onames : list string) (i : Z) (s s' : ExecState) :
  for_each_indexed i onames
    (bind_one_output mcfg sess ort_resp frame_batch_size step_id input_seq_len shape type)
    s = Done tt s' ->
  NoDup onames ->
  (forall n, n ∈ onames -> n ∉ (bound_outputs (io_binding (es_run_state s))).*1) ->
  es_token s' = es_token s /\
  output_val_map (es_run_state s') = output_val_map (es_run_state s) /\
  same_buffers (es_run_state s) (es_run_state s') /\
  bound_inputs (io_binding (es_run_state s')) = bound_inputs (io_binding (es_run_state s)) /\
  exists bs,
    bound_outputs (io_binding (es_run_state s'))
    = bound_outputs (io_binding (es_run_state s)) ++ bs /\
    bs.*1 = onames /\
    forall j oname b, bs !! j = Some (oname, b) -> state_binding mcfg step_id shape type (es_run_state s) oname b.
Proof.
  revert i s. induction onames as [|x onames IH]; intros i s; simpl.
  - intros [_ ->]%ret_Done _ _.
    split; [done|]. split; [done|]. split; [done|]. split; [done|].
    exists []. by rewrite app_nil_r.
  - intros ([] & s1 & H1 & H2)%bindM_Done [Hx Hnd]%NoDup_cons Hfresh.
    apply bind_one_output_Done in H1 as (b & -> & Hb).
    apply IH in H2 as (Ht & Ho & Hbuf & Hin & bs & Hbs & Hfst & Hall); [|done|].
    + simpl in *. rewrite bind_named_fresh in Hbs
        by (apply Hfresh, list_elem_of_here).
      split; [done|]. split; [done|]. split; [done|]. split; [done|].
      exists ((x, b) :: bs). split; [by rewrite Hbs, <- app_assoc|].
      split; [simpl; by f_equal|].
      intros [|j] oname b'; simpl; [by intros ?; simplify_eq|]. apply Hall.
    + intros n Hn. simpl. rewrite bind_named_fresh by (apply Hfresh, list_elem_of_here).
      rewrite fmap_app. simpl. intros [Hn'|Hn']%elem_of_app.
      * by apply (Hfresh n); [apply list_elem_of_further|].
      * apply list_elem_of_singleton in Hn'. by subst.
Qed.
End Outputs.

Section Harvest.
Variable vec_out_vals : list OrtValueHandle.

Lemma harvest_one_output_Done (i : Z) (oname : string) (s s' : ExecState) :
  harvest_one_output NDEBUG mcfg vec_out_vals i oname s = Done tt s' ->
  io_binding (es_run_state s') = io_binding (es_run_state s) /\
  same_buffers (es_run_state s) (es_run_state s') /\
  tk_req_id (es_token s') = tk_req_id (es_token s) /\
  tk_step_id (es_token s') = tk_step_id (es_token s) /\
  error_msg (es_token s') = error_msg (es_token s) /\
  (forall n, n <> oname ->
     output_val_map (es_run_state s') !! n = output_val_map (es_run_state s) !! n) /\
  if (Contains (present_output_names mcfg) oname).1
  then exists h, vec_at vec_out_vals i = Some h /\
         output_val_map (es_run_state s') !! oname = Some h
  else output_val_map (es_run_state s') = output_val_map (es_run_state s).
Proof.
  unfold harvest_one_output. intros H.
  destruct (negb NDEBUG && _); [done|].
  destruct (Contains (present_output_names mcfg) oname) as [[] k] eqn:Hc; simpl in *.
  - inv_done H. apply modify_Done in H as ->. simpl. repeat split; try done.
    + intros n Hn. by rewrite lookup_insert_ne.
    + exists a. split; [done|]. apply lookup_insert_eq.
  - destruct (inter_stage_output_input_map mcfg !! oname) as [mapped|].
    + inv_done H. apply modify_Done in H as ->. by repeat split.
    + apply ret_Done in H as [_ ->]. by repeat split.
Qed.

Lemma harvest_outputs_Done (onames : list string) (i : Z) (s s' : ExecState) :
  for_each_indexed i onames (harvest_one_output NDEBUG mcfg vec_out_vals) s = Done tt s' ->
  NoDup onames ->
  io_binding (es_run_state s') = io_binding (es_run_state s) /\
  same_buffers (es_run_state s) (es_run_state s') /\
  tk_req_id (es_token s') = tk_req_id (es_token s) /\
  tk_step_id (es_token s') = tk_step_id (es_token s) /\
  error_msg (es_token s') = error_msg (es_token s) /\
  (forall n, (n ∉ onames \/ (Contains (present_output_names mcfg) n).1 = false) ->
     output_val_map (es_run_state s') !! n = output_val_map (es_run_state s) !! n) /\
  (forall j oname, onames !! j = Some oname ->
     (Contains (present_output_names mcfg) oname).1 = true ->
     exists h, vec_at vec_out_vals (i + Z.of_nat j) = Some h /\
       output_val_map (es_run_state s') !! oname = Some h).
Proof.
  revert i s. induction onames as [|x onames IH]; intros i s; simpl.
  - intros [_ ->]%ret_Done _. by repeat split.
  - intros ([] & s1 & H1 & H2)%bindM_Done [Hx Hnd]%NoDup_cons.
    apply harvest_one_output_Done in H1 as (Hio1 & Hb1 & Hr1 & Hs1 & He1 & Hne1 & Hp1).
    apply IH in H2 as (Hio2 & Hb2 & Hr2 & Hs2 & He2 & Hne2 & Hp2); [|done].
    split; [congruence|]. split.
    { destruct Hb1 as (?&?&?), Hb2 as (?&?&?). repeat split; congruence. }
    split; [congruence|]. split; [congruence|]. split; [congruence|]. split.
    + intros n Hn. rewrite Hne2.
      * destruct (decide (n = x)) as [->|Hnx]; [|by apply Hne1].
        destruct Hn as [Hn|Hn]; [destruct Hn; apply list_elem_of_here|].
        rewrite Hn in Hp1. by rewrite Hp1.
      * destruct Hn as [Hn|Hn]; [left|by right].
        intros Hin. apply Hn. by apply list_elem_of_further.
    + intros [|j] oname; simpl.
      * intros ?; simplify_eq. intros Hc. rewrite Hc in Hp1.
        destruct Hp1 as (h & Hh & Hm). exists h. rewrite Z.add_0_r. split; [done|].
        rewrite Hne2; [done|by left].
      * intros Hj Hc. destruct (Hp2 j oname Hj Hc) as (h & Hh & Hm).
        exists h. split; [|done]. rewrite <- Hh. f_equal. lia.
Qed.
End Harvest.
End Bindings.

(** ** [ExecuteRequest]: one execution *)

Lemma GetOutputValues_bound_value (io : IoBinding) (produced : list OrtValue) (j : nat)
    (oname : string) (v : OrtValue) (h : OrtValueHandle) :
  GetOutputValues io produced !! j = Some h ->
  bound_outputs io !! j = Some (oname, BoundValue v) ->
  exists v', h = Some v' /\ ov_mem v' = ov_mem v /\ ov_shape v' = ov_shape v.
Proof.
  unfold GetOutputValues. intros H Hb.
  apply lookup_zip_with_Some in H as (b & p & -> & Hb' & Hp).
  rewrite Hb in Hb'. simplify_eq. simpl. by eexists.
Qed.

Section OneExecution.
Context `{rt : OrtRuntime}.
Variables (NDEBUG : bool) (mcfg : ModelConfig) (sess : nat) (ort_resp : OrtResp).
Variables (frame_batch_size : Z) (frame_scratch : gmap string ScratchBuffer).

Lemma ExecuteRequest_body_Done (s0 s' : ExecState) :
  NoDup (mc_output_names mcfg) ->
  ExecuteRequest_body NDEBUG mcfg sess ort_resp frame_batch_size frame_scratch s0
  = Done tt s' ->
  exists (input_seq_len : Z) (present0 : string) (past_v : OrtValue) (past_dim : Z)
         (shape : list Z) (type : ElemType),
    carried_seq_len mcfg (es_token s0) = Some input_seq_len /\
    vec_at (present_output_names mcfg) 0 = Some present0 /\
    output_val_map (es_run_state s0) !! present0 = Some (Some past_v) /\
    vec_at (ov_shape past_v) (seq_len_dim_index_in_state mcfg) = Some past_dim /\
    vec_at shape (seq_len_dim_index_in_state mcfg)
    = Some (input_seq_len + to_int past_dim) /\
    same_buffers (es_run_state s0) (es_run_state s') /\
    tk_req_id (es_token s') = tk_req_id (es_token s0) /\
    tk_step_id (es_token s') = tk_step_id (es_token s0) /\
    error_msg (es_token s') = error_msg (es_token s0) /\
    (forall iname, iname ∈ mc_input_names mcfg ->
       (Contains (ort_value_names (es_token s0)) iname).1 = false ->
       (Contains (past_input_names mcfg) iname).1 = true ->
       exists v, past_input_value mcfg (output_val_map (es_run_state s0)) iname = Some v /\
         binding_of iname (bound_inputs (io_binding (es_run_state s'))) = Some v) /\
    (forall oname k, oname ∈ mc_output_names mcfg ->
       Contains (present_output_names mcfg) oname = (true, k) ->
       exists buf v,
         output_state_buffer (es_run_state s0) (tk_step_id (es_token s0)) k = Some buf /\
         binding_of oname (bound_outputs (io_binding (es_run_state s')))
         = Some (BoundValue (mkOrtValue (alloc_mem buf) shape type [])) /\
         output_val_map (es_run_state s') !! oname = Some (Some v) /\
         ov_mem v = alloc_mem buf /\ ov_shape v = shape) /\
    (forall n, (n ∉ mc_output_names mcfg \/
                (Contains (present_output_names mcfg) n).1 = false) ->
       output_val_map (es_run_state s') !! n = output_val_map (es_run_state s0) !! n).
Proof.
  intros Hnd H. unfold ExecuteRequest_body in H.
  apply bindM_Done in H as (s0' & s1 & [-> ->]%get_Done & H).
  apply bindM_Done in H as ([] & s1 & ->%modify_Done & H).
  apply bindM_Done in H as ([] & s1 & ->%modify_Done & H).
  apply bindM_Done in H as ([] & s1 & ->%modify_Done & H).
  apply bindM_Done in H as ([] & s1 & Hin & H).
  apply bind_inputs_Done in Hin as (Ht1 & Ho1 & Hb1 & Hbo1 & Hin).
  simpl in Ht1, Ho1, Hb1, Hbo1, Hin.
  destruct (Contains (ort_value_names (es_token s0)) (input_to_use_for_seq_len mcfg))
    as [[] jc] eqn:Hc; simpl in H.
  2:{ by apply bindM_Done in H as (? & ? & ? & _). }
  apply bindM_Done in H as ([] & s1' & [_ ->]%ret_Done & H).
  apply bindM_Done in H as (in_h & s1' & [Hinh ->]%or_crash_Done & H).
  apply bindM_Done in H as (in_shape & s1' & Hs & H).
  unfold handle_shape in Hs.
  apply bindM_Done in Hs as (in_v & s1'' & [-> ->]%or_crash_Done & [-> ->]%ret_Done).
  apply bindM_Done in H as (in_dim & s1' & [Hdim ->]%or_crash_Done & H).
  apply bindM_Done in H as (present0 & s1' & [Hp0 ->]%or_crash_Done & H).
  apply bindM_Done in H as (s1'' & s1' & [-> ->]%get_Done & H).
  apply bindM_Done in H as (past_h & s1' & [Hpast ->]%or_throw_Done & H).
  apply bindM_Done in H as (past_shape & s1' & Hs & H).
  unfold handle_shape in Hs.
  apply bindM_Done in Hs as (past_v & s1'' & [-> ->]%or_crash_Done & [-> ->]%ret_Done).
  apply bindM_Done in H as (past_dim & s1' & [Hpd ->]%or_crash_Done & H).
  apply bindM_Done in H as (shape_a & s1' & [Hsa ->]%or_throw_Done & H).
  apply bindM_Done in H as (shape_b & s1' & [Hsb ->]%or_crash_Done & H).
  apply bindM_Done in H as (shape & s1' & [Hshape ->]%or_crash_Done & H).
  apply bindM_Done in H as (type & s1' & [Hty ->]%or_throw_Done & H).
  apply bindM_Done in H as ([] & s2 & Hout & H).
  apply bind_outputs_Done in Hout as (Ht2 & Ho2 & Hb2 & Hbi2 & bs & Hbs & Hfst & Hall);
    [|done|].
  2:{ intros n _. rewrite Hbo1. simpl. apply not_elem_of_nil. }
  rewrite Hbo1 in Hbs. simpl in Hbs.
  apply bindM_Done in H as (s2' & s2'' & [-> ->]%get_Done & H).
  destruct (session_run sess (io_binding (es_run_state s2)) frame_scratch)
    as [msg|produced]; [done|].
  apply harvest_outputs_Done in H as (Hio3 & Hb3 & Hr3 & Hs3 & He3 & Hne3 & Hp3); [|done].
  exists (to_int in_dim), present0, past_v, past_dim, shape, type.
  split.
  { unfold carried_seq_len. rewrite Hc. simpl. rewrite Hinh. simpl. by rewrite Hdim. }
  split; [done|]. split; [by rewrite <- Ho1|]. split; [done|].
  split; [by eapply vec_set_lookup|].
  split.
  { destruct Hb1 as (?&?&?), Hb2 as (?&?&?), Hb3 as (?&?&?). simpl in *.
    repeat split; congruence. }
  split; [by rewrite Hr3, Ht2, Ht1|]. split; [by rewrite Hs3, Ht2, Ht1|].
  split; [by rewrite He3, Ht2, Ht1|].
  split; [|split].
  - intros iname Hi Hnc Hpast'. destruct (Hin iname Hi Hnc Hpast') as (v & Hv & Hbv).
    exists v. split; [done|]. by rewrite Hio3, Hbi2.
  - intros oname k Ho Hk.
    apply list_elem_of_lookup in Ho as [j Hj].
    assert (exists b, bs !! j = Some (oname, b)) as [b Hb].
    { rewrite <- Hfst in Hj. rewrite list_lookup_fmap in Hj.
      destruct (bs !! j) as [[n b]|]; simpl in Hj; [|done]. simplify_eq. by exists b. }
    destruct (Hall j oname b Hb k Hk) as (buf & Hbuf & ->).
    assert ((Contains (present_output_names mcfg) oname).1 = true) as Hk1
      by (by rewrite Hk).
    destruct (Hp3 j oname) as (h & Hh & Hm); [done|done|].
    rewrite Z.add_0_l, vec_at_of_nat in Hh.
    destruct (GetOutputValues_bound_value _ _ j oname
                (mkOrtValue (alloc_mem buf) shape type []) _ Hh)
      as (v' & -> & Hmem & Hsh).
    { by rewrite Hbs. }
    exists buf, v'. split.
    { revert Hbuf. unfold output_state_buffer. destruct Hb1 as (-> & -> & _). done. }
    split; [|by repeat split].
    rewrite Hio3, Hbs. eapply binding_of_lookup; [by rewrite Hfst|done].
  - intros n Hn. rewrite Hne3 by done. by rewrite Ho2, Ho1.
Qed.
End OneExecution.

(** ** The constructor of the frame *)

Lemma prealloc_buffers_lookup (mk : nat -> MemId) (n : nat) (size : Z) (k : nat)
    (buf : MemoryAllocation) :
  prealloc_buffers mk n size !! k = Some buf -> alloc_mem buf = mk k.
Proof.
  unfold prealloc_buffers. rewrite list_lookup_fmap.
  destruct (seq 0 n !! k) as [i|] eqn:Hi; [|done]. simpl.
  apply lookup_seq in Hi as [-> _]. by intros ?; simplify_eq.
Qed.

Section Constructor.
Context `{rt : OrtRuntime}.

Lemma init_output_states_Some (bufs : list MemoryAllocation) (shape0 : list Z)
    (names : list string) (j : nat) (m m' : gmap string OrtValueHandle) :
  init_output_states bufs shape0 j names m = Some m' ->
  NoDup names ->
  (forall n, n ∉ names -> m' !! n = m !! n) /\
  (forall i n, names !! i = Some n ->
     exists buf, bufs !! (j + i)%nat = Some buf /\
       m' !! n = Some (Some (mkOrtValue (alloc_mem buf) shape0 FLOAT16 []))).
Proof.
  revert j m. induction names as [|x names IH]; intros j m; simpl.
  - intros ?; simplify_eq. by split.
  - destruct (bufs !! j) as [buf|] eqn:Hbuf; [|done]. simpl.
    unfold CreateTensor at 1. destruct (create_tensor_accepts _ _ _); [|done]. simpl.
    intros H [Hx Hnd]%NoDup_cons. apply IH in H as [Hout Hin]; [|done]. split.
    + intros n [Hn1 Hn2]%not_elem_of_cons. rewrite Hout by done.
      by rewrite lookup_insert_ne.
    + intros [|i] n; simpl.
      * intros ?; simplify_eq. exists buf. rewrite Nat.add_0_r. split; [done|].
        rewrite Hout by done. apply lookup_insert_eq.
      * intros Hi. destruct (Hin i n Hi) as (b & Hb & Hm). exists b.
        split; [|done]. rewrite <- Hb. f_equal. lia.
Qed.

Lemma make_run_state_Some (pcfg : PipelineConfig) (req batch : Z) (idx : nat)
    (mcfg : ModelConfig) (rs : RunState) :
  make_run_state pcfg req batch idx mcfg = Some rs ->
  NoDup (present_output_names mcfg) ->
  (forall k buf, present_past_prealloc_buffer_1_vec rs !! k = Some buf ->
     alloc_mem buf = StateBuffer1 req idx k) /\
  (forall k buf, present_past_prealloc_buffer_2_vec rs !! k = Some buf ->
     alloc_mem buf = StateBuffer2 req idx k) /\
  (forall n h, output_val_map rs !! n = Some h -> n ∈ present_output_names mcfg) /\
  (forall i n, present_output_names mcfg !! i = Some n ->
     exists buf v, present_past_prealloc_buffer_1_vec rs !! i = Some buf /\
       output_val_map rs !! n = Some (Some v) /\ ov_mem v = alloc_mem buf /\
       vec_at (ov_shape v) (seq_len_dim_index_in_state mcfg) = Some 0).
Proof.
  unfold make_run_state. intros H Hnd.
  destruct (past_input_names mcfg !! 0%nat) as [past0|]; [|done].
  cbn [mbind option_bind] in H.
  destruct (GetShape idx _ true) as [sh|]; [|done]. cbn [mbind option_bind] in H.
  destruct (vec_set sh _ batch) as [shape_b|]; [|done]. cbn [mbind option_bind] in H.
  destruct (vec_set shape_b _ _) as [shape_max|]; [|done]. cbn [mbind option_bind] in H.
  destruct (vec_set shape_max _ 0) as [shape0|] eqn:Hs0; [|done].
  cbn [mbind option_bind] in H.
  destruct (init_output_states _ _ _ _ _) as [ovm|] eqn:Hinit; [|done].
  cbn [mbind option_bind] in H.
  destruct (if bool_decide _ then _ else _) as [inter|]; [|done].
  cbn [mbind option_bind] in H.
  simplify_eq. simpl.
  apply init_output_states_Some in Hinit as [Hout Hin]; [|done].
  split; [intros k buf; apply prealloc_buffers_lookup|].
  split; [intros k buf; apply prealloc_buffers_lookup|]. split.
  - intros n h Hn. destruct (decide (n ∈ present_output_names mcfg)); [done|].
    by rewrite Hout in Hn.
  - intros i n Hi. destruct (Hin i n Hi) as (buf & Hbuf & Hm).
    eexists buf, _. split; [done|]. split; [done|]. split; [done|]. simpl.
    by eapply vec_set_lookup.
Qed.

Lemma make_run_states_lookup (pcfg : PipelineConfig) (req batch : Z)
    (cfgs : list ModelConfig) (idx : nat) (rss : list RunState) (i : nat)
    (mcfg : ModelConfig) :
  make_run_states pcfg req batch idx cfgs = Some rss ->
  cfgs !! i = Some mcfg ->
  exists rs, rss !! i = Some rs /\
    make_run_state pcfg req batch (idx + i) mcfg = Some rs.
Proof.
  revert idx rss i. induction cfgs as [|c cfgs IH]; intros idx rss i; simpl; [done|].
  destruct (make_run_state pcfg req batch idx c) as [rs|] eqn:Hrs; [|done]. simpl.
  destruct (make_run_states pcfg req batch (Datatypes.S idx) cfgs) as [rss'|] eqn:Hrss;
    [|done]. simpl.
  intros ?; simplify_eq. destruct i as [|i]; simpl.
  - intros ?; simplify_eq. exists rs. by rewrite Nat.add_0_r.
  - intros Hi. destruct (IH _ _ _ Hrss Hi) as (rs' & H1 & H2). exists rs'.
    split; [done|]. rewrite <- H2. f_equal. lia.
Qed.

Lemma make_run_states_length (pcfg : PipelineConfig) (req batch : Z)
    (cfgs : list ModelConfig) (idx : nat) (rss : list RunState) :
  make_run_states pcfg req batch idx cfgs = Some rss -> length rss = length cfgs.
Proof.
  revert idx rss. induction cfgs as [|c cfgs IH]; intros idx rss; simpl.
  - by intros ?; simplify_eq.
  - destruct (make_run_state pcfg req batch idx c) as [rs|]; [|done]. simpl.
    destruct (make_run_states pcfg req batch (Datatypes.S idx) cfgs) as [rss'|] eqn:Hrss;
      [|done]. simpl.
    intros ?; simplify_eq. simpl. f_equal. by eapply IH.
Qed.
End Constructor.

(** ** [ExecuteRequest] on the frame *)

Lemma ExecuteRequest_Done `{rt : OrtRuntime} (NDEBUG : bool) (mcfg : ModelConfig)
    (sess : nat) (ort_resp : OrtResp) (f f' : RequestExecutionFrame) :
  ExecuteRequest NDEBUG mcfg sess ort_resp f = Done tt f' ->
  exists rs s',
    vec_at (model_run_state_vec f) (stage_id f) = Some rs /\
    ExecuteRequest_body NDEBUG mcfg sess ort_resp (batch_size f)
      (next_step_input_buffer_map f) (mkExecState (token f) rs) = Done tt s' /\
    f' = store_exec f s'.
Proof.
  unfold ExecuteRequest. destruct (vec_at _ _) as [rs|]; [|done].
  destruct (ExecuteRequest_body _ _ _ _ _ _ _) as [[] s'| |] eqn:Hb; [|done..].
  intros ?; simplify_eq. by exists rs, s'.
Qed.

Lemma store_exec_same_request (f : RequestExecutionFrame) (s : ExecState) :
  same_request f (store_exec f s).
Proof. by repeat split. Qed.

Lemma store_exec_run_state (f : RequestExecutionFrame) (s : ExecState) (st : nat)
    (rs : RunState) :
  stage_id f = Z.of_nat st ->
  vec_at (model_run_state_vec f) (stage_id f) = Some rs ->
  run_state_of (store_exec f s) st = Some (es_run_state s).
Proof.
  intros Hst [_ Hrs]%vec_at_Some. unfold run_state_of, store_exec. simpl.
  rewrite Hst, Nat2Z.id in *. apply list_lookup_insert_eq. by eapply lookup_lt_Some.
Qed.

Lemma store_exec_other_run_state (f : RequestExecutionFrame) (s : ExecState) (st : nat) :
  stage_id f <> Z.of_nat st ->
  0 <= stage_id f ->
  run_state_of (store_exec f s) st = run_state_of f st.
Proof.
  intros Hst H0. unfold run_state_of, store_exec. simpl.
  apply list_lookup_insert_ne. lia.
Qed.

(** An execution at another stage leaves the run state of this stage and the
    constants of the request alone. *)
Lemma ExecuteRequest_other_stage `{rt : OrtRuntime} (NDEBUG : bool) (mcfg : ModelConfig)
    (sess : nat) (ort_resp : OrtResp) (f f' : RequestExecutionFrame) (st : nat) :
  ExecuteRequest NDEBUG mcfg sess ort_resp f = Done tt f' ->
  stage_id f <> Z.of_nat st ->
  same_request f f' /\ run_state_of f' st = run_state_of f st.
Proof.
  intros (rs & s' & Hrs & _ & ->)%ExecuteRequest_Done Hst.
  split; [apply store_exec_same_request|].
  apply store_exec_other_run_state; [done|]. by apply vec_at_Some in Hrs as [? _].
Qed.

(** ** The history of a stage *)

Lemma parity_flip (t : Z) :
  0 <= t -> bool_decide (Z.rem (t + 1) 2 = 0) = negb (bool_decide (Z.rem t 2 = 0)).
Proof.
  intros Ht. rewrite !Z.rem_mod_nonneg by lia.
  pose proof (Z.mod_pos_bound t 2 ltac:(lia)).
  pose proof (Z.mod_pos_bound (t + 1) 2 ltac:(lia)).
  assert ((t + 1) mod 2 = (t mod 2 + 1) mod 2) as Heq
    by (by rewrite Z.add_mod_idemp_l by lia).
  destruct (decide (t mod 2 = 0)) as [Hev|Hod].
  - rewrite (bool_decide_eq_true_2 _ Hev). simpl. apply bool_decide_eq_false_2.
    rewrite Heq, Hev. done.
  - rewrite (bool_decide_eq_false_2 _ Hod). simpl. apply bool_decide_eq_true_2.
    rewrite Heq. replace (t mod 2) with 1 by lia. done.
Qed.

Lemma input_state_buffer_next (rs rs' : RunState) (t k : Z) :
  0 <= t -> same_buffers rs rs' ->
  input_state_buffer rs' (t + 1) k = output_state_buffer rs t k.
Proof.
  intros Ht (H1 & H2 & _). unfold input_state_buffer, output_state_buffer.
  rewrite parity_flip, H1, H2 by done. by destruct (bool_decide (Z.rem t 2 = 0)).
Qed.

Section History.
Context `{rt : OrtRuntime}.
Variables (NDEBUG : bool) (pcfg : PipelineConfig) (s : nat) (mcfg : ModelConfig).
Hypothesis Hcfg : model_config_vec pcfg !! s = Some mcfg.
Hypothesis Hnd_out : NoDup (mc_output_names mcfg).
Hypothesis Hnd_present : NoDup (present_output_names mcfg).

(** The buffers of the stage are those the constructor allocated, and the
    state of every slot whose present output is an output of the model lies
    in the buffer the coming step reads from. *)
Lemma stage_steps_buffers (carries : Z -> RequestExecutionFrame -> Prop) (t : Z)
    (f : RequestExecutionFrame) :
  stage_steps NDEBUG pcfg carries s t f ->
  0 <= t /\
  exists rs, run_state_of f s = Some rs /\
    (forall k buf, present_past_prealloc_buffer_1_vec rs !! k = Some buf ->
       alloc_mem buf = StateBuffer1 (req_id f) s k) /\
    (forall k buf, present_past_prealloc_buffer_2_vec rs !! k = Some buf ->
       alloc_mem buf = StateBuffer2 (req_id f) s k) /\
    (forall i n, present_output_names mcfg !! i = Some n -> n ∈ mc_output_names mcfg ->
       exists buf v, input_state_buffer rs t (Z.of_nat i) = Some buf /\
         output_val_map rs !! n = Some (Some v) /\ ov_mem v = alloc_mem buf).
Proof using Hcfg Hnd_out Hnd_present.
  induction 1 as [req_idx req batch orig st f Hnew
                 |t f f' mcfg' ort_resp Hsteps IH Hst Htok Hcar Hcfg' Hexec
                 |t f f' Hsteps IH Hsame Hrs].
  - split; [done|]. unfold new_RequestExecutionFrame in Hnew.
    destruct (make_run_states _ _ _ _ _) as [rss|] eqn:Hrss; [|done].
    simpl in Hnew. simplify_eq.
    destruct (make_run_states_lookup _ _ _ _ _ _ _ _ Hrss Hcfg) as (rs & Hrs & Hmk).
    simpl in Hmk. apply make_run_state_Some in Hmk as (H1 & H2 & _ & H4); [|done].
    exists rs. split; [done|]. split; [done|]. split; [done|].
    intros i n Hi _. destruct (H4 i n Hi) as (buf & v & Hb & Hm & Hmem & _).
    exists buf, v. split; [|done].
    unfold input_state_buffer. simpl. by rewrite vec_at_of_nat.
  - destruct IH as (Ht & rs & Hrs & Hb1 & Hb2 & Hin). split; [lia|].
    assert (mcfg' = mcfg) as -> by congruence.
    apply ExecuteRequest_Done in Hexec as (rs0 & s' & Hrs0 & Hbody & ->).
    assert (rs0 = rs) as ->.
    { apply vec_at_Some in Hrs0 as [_ Hrs0]. rewrite Hst, Nat2Z.id in Hrs0.
      unfold run_state_of in Hrs. congruence. }
    apply ExecuteRequest_body_Done in Hbody
      as (isl & p0 & pv & pd & shape & type & _ & _ & _ & _ & _ & Hbuf & _ & _ & _ & _
          & Hout & _); [|done].
    simpl in Hbuf, Hout.
    exists (es_run_state s'). split; [by eapply store_exec_run_state|].
    destruct Hbuf as (Hbuf1 & Hbuf2 & Hbuf3). simpl.
    split; [by rewrite Hbuf1|]. split; [by rewrite Hbuf2|].
    intros i n Hi Hn.
    destruct (Hout n (Z.of_nat i) Hn) as (buf & v & Hob & _ & Hm & Hmem & _).
    { by apply Contains_NoDup. }
    exists buf, v. split; [|done].
    rewrite (input_state_buffer_next rs) by done. by rewrite <- Htok.
  - destruct IH as (Ht & rs & Hrs' & Hb1 & Hb2 & Hin). split; [done|].
    exists rs. split; [congruence|]. destruct Hsame as (_ & -> & _). done.
Qed.

(** With tokens that carry the input of a decoding run, the states of the
    stage have the sequence length [state_seq_len]. *)
Lemma stage_steps_seq_len (n : Z) (f : RequestExecutionFrame) :
  stage_steps NDEBUG pcfg (carries_decoding pcfg s) s n f ->
  (forall p, p ∈ present_output_names mcfg -> p ∈ mc_output_names mcfg) ->
  0 <= orig_input_seq_len f ->
  orig_input_seq_len f + n - 1 < 2 ^ 31 ->
  exists rs, run_state_of f s = Some rs /\
    (forall p, p ∈ present_output_names mcfg -> is_Some (output_val_map rs !! p)) /\
    forall oname h, output_val_map rs !! oname = Some h ->
      oname ∈ present_output_names mcfg /\
      exists v, h = Some v /\
        vec_at (ov_shape v) (seq_len_dim_index_in_state mcfg)
        = Some (state_seq_len (orig_input_seq_len f) n).
Proof using Hcfg Hnd_out Hnd_present.
  intros Hsteps Hsub.
  induction Hsteps as [req_idx req batch orig st f Hnew
                      |t f f' mcfg' ort_resp Hsteps IH Hst Htok Hcar Hcfg' Hexec
                      |t f f' Hsteps IH Hsame Hrs]; intros Horig Hbound.
  - unfold new_RequestExecutionFrame in Hnew.
    destruct (make_run_states _ _ _ _ _) as [rss|] eqn:Hrss; [|done].
    simpl in Hnew. simplify_eq.
    destruct (make_run_states_lookup _ _ _ _ _ _ _ _ Hrss Hcfg) as (rs & Hrs & Hmk).
    simpl in Hmk. apply make_run_state_Some in Hmk as (_ & _ & Hkeys & H4); [|done].
    exists rs. split; [done|]. split.
    + intros p [i Hi]%list_elem_of_lookup.
      destruct (H4 i p Hi) as (buf & v & _ & Hm & _). by exists (Some v).
    + intros oname h Hh. pose proof (Hkeys _ _ Hh) as Hin. split; [done|].
      apply list_elem_of_lookup in Hin as [i Hi].
      destruct (H4 i oname Hi) as (buf & v & _ & Hm & _ & Hseq).
      exists v. split; [congruence|]. done.
  - apply stage_steps_buffers in Hsteps as Hfacts. destruct Hfacts as (Ht & _).
    assert (mcfg' = mcfg) as -> by congruence.
    apply ExecuteRequest_Done in Hexec as (rs0 & s' & Hrs0 & Hbody & ->).
    simpl in Horig, Hbound.
    destruct IH as (rs & Hrs & Hdom & Hseq); [done|lia|].
    assert (rs0 = rs) as ->.
    { apply vec_at_Some in Hrs0 as [_ Hrs0]. rewrite Hst, Nat2Z.id in Hrs0.
      unfold run_state_of in Hrs. congruence. }
    apply ExecuteRequest_body_Done in Hbody
      as (isl & p0 & pv & pd & shape & type & Hisl & Hp0 & Hpv & Hpd & Hshape & _ & _ & _
          & _ & _ & Hout & Hother); [|done].
    simpl in *.
    destruct Hcar as (mcfg' & Hcfg'' & Hcar). assert (mcfg' = mcfg) as -> by congruence.
    rewrite Hisl in Hcar. simplify_eq.
    destruct (Hseq _ _ Hpv) as (_ & v0 & Hv0 & Hpast). simplify_eq.
    assert (vec_at shape (seq_len_dim_index_in_state mcfg)
            = Some (state_seq_len (orig_input_seq_len f) (tk_step_id (token f) + 1)))
      as Hnew.
    { rewrite Hshape. f_equal. unfold state_seq_len.
      rewrite (bool_decide_eq_false_2 (tk_step_id (token f) + 1 = 0)) by lia.
      destruct (decide (tk_step_id (token f) = 0)) as [Ht0|Ht0].
      - rewrite !(bool_decide_eq_true_2 _ Ht0), Ht0. rewrite to_int_id by lia. lia.
      - rewrite !(bool_decide_eq_false_2 _ Ht0). rewrite to_int_id by lia. lia. }
    exists (es_run_state s'). split; [by eapply store_exec_run_state|].
    assert (forall p, p ∈ present_output_names mcfg ->
              exists v, output_val_map (es_run_state s') !! p = Some (Some v) /\
                ov_shape v = shape) as Hupd.
    { intros p Hp. pose proof Hp as [i Hi]%list_elem_of_lookup.
      destruct (Hout p (Z.of_nat i)) as (buf & v & _ & _ & Hm & _ & Hsh);
        [by apply Hsub|by apply Contains_NoDup|]. by exists v. }
    split.
    + intros p Hp. destruct (Hupd p Hp) as (v & Hm & _). by exists (Some v).
    + intros oname h Hh.
      destruct (decide (oname ∈ present_output_names mcfg)) as [Hin|Hnin].
      * split; [done|]. destruct (Hupd oname Hin) as (v & Hm & Hsh).
        exists v. split; [congruence|]. by rewrite Hsh.
      * rewrite Hother in Hh by (right; by apply Contains_false).
        by destruct (Hseq _ _ Hh) as [? _].
  - destruct Hsame as (_ & _ & _ & Ho). rewrite Ho in *.
    destruct IH as (rs & Hrs' & Hdom & Hseq); [done|done|].
    exists rs. split; [congruence|]. done.
Qed.
End History.

Lemma Decoding_stage_steps (carries : Z -> RequestExecutionFrame -> Prop) :
  carries 0 Decoding.prefill_frame ->
  carries 1 Decoding.step1_frame ->
  @stage_steps (Example.decoder 1) true Example.config carries 0 1 Decoding.step1_frame /\
  @stage_steps (Example.decoder 1) true Example.config carries 0 (1 + 1)
    Decoding.after_step1.
Proof.
  intros Hc0 Hc1.
  assert (@stage_steps (Example.decoder 1) true Example.config carries 0 1
            Decoding.step1_frame) as Hsteps.
  { apply (steps_other _ _ _ _ 1 Decoding.after_prefill); [|done|done].
    apply (steps_exec _ _ _ _ 0 Decoding.prefill_frame Decoding.after_prefill
             Decoding.stage Example.response); [|done|done|done|done|by vm_compute].
    apply (steps_other _ _ _ _ 0 Decoding.new_frame); [|done|done].
    by apply (steps_new _ _ _ _ 0 1 2 5 0). }
  split; [done|].
  by apply (steps_exec _ _ _ _ 1 Decoding.step1_frame Decoding.after_step1
              Decoding.stage Example.response); [done..|by vm_compute].
Qed.

(** ** The progress of a batch *)

Section Progress.
Context `{rt : OrtRuntime}.
Variables (NDEBUG : bool) (pcfg : PipelineConfig).
Variables (fin : nat -> Token -> Prop) (resps0 : list OrtResp).

(** Progress only looks at the frames and the slots. *)
Lemma batch_progress_same (n : Z) (w w' : World) :
  req_frame_map w' = req_frame_map w -> resp_list w' = resp_list w ->
  batch_progress fin resps0 n w -> batch_progress fin resps0 n w'.
Proof.
  intros Hf Hr (fs & H1 & H2 & H3 & H4 & H5). exists fs.
  rewrite Hf, Hr. done.
Qed.

(** A frame may change as long as it stays the frame of its slot. *)
Lemma batch_progress_insert (n r : Z) (f f' : RequestExecutionFrame) (w w' : World) :
  req_frame_map w !! r = Some f ->
  req_index f' = req_index f ->
  req_frame_map w' = <[r := f']> (req_frame_map w) ->
  resp_list w' = resp_list w ->
  batch_progress fin resps0 n w -> batch_progress fin resps0 n w'.
Proof.
  intros Hf Hidx Hm Hr (fs & H1 & H2 & H3 & H4 & H5). exists fs.
  rewrite Hm, Hr. split; [done|]. split; [done|]. split; [done|]. split.
  - intros r1 f1. destruct (decide (r = r1)) as [<-|Hne].
    + rewrite lookup_insert_eq. intros ?; simplify_eq. rewrite Hidx. by eapply H4.
    + rewrite lookup_insert_ne by done. apply H4.
  - intros r1 r2 f1 f2.
    destruct (decide (r = r1)) as [<-|Hne1], (decide (r = r2)) as [<-|Hne2]; [done|..].
    + rewrite lookup_insert_eq, lookup_insert_ne by done.
      intros ? Hf2 Hi; simplify_eq. rewrite Hidx in Hi. by eapply H5.
    + rewrite lookup_insert_eq, lookup_insert_ne by done.
      intros Hf1 ? Hi; simplify_eq. rewrite Hidx in Hi. by eapply H5.
    + rewrite !lookup_insert_ne by done. apply H5.
Qed.

Lemma batch_progress_upd_frame (n r : Z)
    (g : RequestExecutionFrame -> RequestExecutionFrame) (w : World) :
  (forall f, req_index (g f) = req_index f) ->
  batch_progress fin resps0 n w -> batch_progress fin resps0 n (upd_frame r g w).
Proof.
  intros Hg Hp. destruct (req_frame_map w !! r) as [f|] eqn:Hf.
  - apply (batch_progress_insert n r f (g f) w); try done.
    unfold upd_frame. simpl. apply map_eq. intros k.
    destruct (decide (r = k)) as [<-|Hne].
    + by rewrite lookup_alter_eq, lookup_insert_eq, Hf.
    + by rewrite lookup_alter_ne, lookup_insert_ne.
  - apply (batch_progress_same n w); [|done|done].
    unfold upd_frame. simpl. apply map_eq. intros k.
    destruct (decide (r = k)) as [<-|Hne].
    + by rewrite lookup_alter_eq, Hf.
    + by rewrite lookup_alter_ne.
Qed.

Lemma ThreadWorkerFn_progress (t : Task) (n : Z) (w w' : World) :
  ThreadWorkerFn NDEBUG pcfg t w = Some w' ->
  batch_progress fin resps0 n w -> batch_progress fin resps0 n w'.
Proof.
  intros (_ & Hr & _ & _ & f & f' & Hf & Hm & (Hidx & _) & _)%ThreadWorkerFn_world.
  by apply (batch_progress_insert n (task_req t) f f').
Qed.

Lemma worker_step_progress (s : nat) (n : Z) (w w' : World) :
  worker_step NDEBUG pcfg s w = Some w' ->
  batch_progress fin resps0 n w -> batch_progress fin resps0 n w'.
Proof.
  unfold worker_step. destruct (pipeline_stages w !! s) as [[|t q]|].
  - by intros ?; simplify_eq.
  - intros H Hp. eapply ThreadWorkerFn_progress; [done|].
    by apply (batch_progress_same n w).
  - by intros ?; simplify_eq.
Qed.

Lemma reenqueue_progress (r n n' : Z) (w w' : World) :
  reenqueue pcfg r n w = Some (Continue n' w') ->
  batch_progress fin resps0 n w -> n' = n /\ batch_progress fin resps0 n w'.
Proof.
  unfold reenqueue. destruct (req_frame_map w !! r) as [f|]; [|done]. simpl.
  destruct (vec_at (model_config_vec pcfg) (stage_id f)); [|done]. simpl.
  unfold ScheduleTask. destruct (vec_at (pipeline_stages w) (stage_id f)); [|done]. simpl.
  intros H Hp. assert (n' = n) as -> by congruence. split; [done|].
  assert (exists w1, w' = w1 /\ req_frame_map w1 = req_frame_map w /\
            resp_list w1 = resp_list w) as (w1 & -> & Hfm & Hrl).
  { eexists. split; [by simplify_eq|]. by simplify_eq. }
  by apply (batch_progress_same n w).
Qed.

Lemma reenqueue_no_return (r n : Z) (w w' : World) (st : OrtStatus) :
  reenqueue pcfg r n w <> Some (Return st w').
Proof.
  unfold reenqueue. destruct (req_frame_map w !! r) as [f|]; [|done]. simpl.
  destruct (vec_at (model_config_vec pcfg) (stage_id f)); [|done]. simpl.
  destruct (ScheduleTask _ _ _); done.
Qed.

(** A request that finishes moves its slot to the finished ones. *)
Lemma finish_request_progress (r n n' : Z) (f : RequestExecutionFrame) (w w' : World) :
  req_frame_map w !! r = Some f ->
  fin (Z.to_nat (req_index f)) (token f) ->
  finish_request NDEBUG pcfg r r (req_index f) n w = Some (Continue n' w') ->
  batch_progress fin resps0 n w -> n' = n + 1 /\ batch_progress fin resps0 (n + 1) w'.
Proof.
  intros Hf Hfin H (fs & H1 & H2 & H3 & H4 & H5). unfold finish_request in H.
  destruct (CopyFinalOutput _ _ _ _ _) as [[[st|] w1]|] eqn:Hcopy; simpl in H; [done| |done].
  simplify_eq. split; [done|].
  unfold CopyFinalOutput in Hcopy. rewrite Hf in Hcopy. cbn [mbind option_bind] in Hcopy.
  destruct (vec_at (resp_list w) (req_index f)) as [slot|] eqn:Hslot; [|done].
  cbn [mbind option_bind] in Hcopy.
  destruct (CopyFinalOutput_loop _ _ _ _ _) as [[[[o|] tv] ov]|] eqn:Hloop;
    cbn [mbind option_bind] in Hcopy; [|simplify_eq|done].
  { unfold HandleAndReturnFailure in Hcopy.
    destruct (drain_stages _ _ _ _); cbn [mbind option_bind] in Hcopy; by simplify_eq. }
  destruct (H4 r f Hf) as (Hidx & Hnin & Hlt).
  apply vec_at_Some in Hslot as [_ Hslot].
  set (i := Z.to_nat (req_index f)) in *.
  assert (resps0 !! i = Some slot) as Hslot0 by (by rewrite <- H3).
  exists ({[i]} ∪ fs). simpl. split; [|split; [|split; [|split]]].
  - rewrite size_union by (by apply disjoint_singleton_l). rewrite size_singleton. lia.
  - intros k [->%elem_of_singleton|Hk]%elem_of_union.
    + eexists slot, _, (token f). split; [done|]. split.
      { apply list_lookup_insert_eq. by eapply lookup_lt_Some. }
      split; [done|]. exists tv. by repeat split.
    + destruct (H2 k Hk) as (s0 & s1 & tok & Hs0 & Hs1 & Hfk & Hpop). exists s0, s1, tok.
      split; [done|]. split; [|done].
      rewrite list_lookup_insert_ne; [done|]. intros <-. done.
  - intros k Hk. apply not_elem_of_union in Hk as [Hk1%not_elem_of_singleton Hk2].
    rewrite list_lookup_insert_ne by done. by apply H3.
  - intros r1 f1. destruct (decide (r = r1)) as [<-|Hne].
    + by rewrite lookup_delete_eq.
    + rewrite lookup_delete_ne, lookup_insert_ne by done. intros Hf1.
      destruct (H4 r1 f1 Hf1) as (? & ? & ?). split; [done|]. split; [|done].
      intros [Hi%elem_of_singleton|Hi]%elem_of_union; [|done].
      apply Hne. apply (H5 r r1 f f1 Hf Hf1). unfold i in Hi. lia.
  - intros r1 r2 f1 f2.
    destruct (decide (r = r1)) as [<-|Hne1]; [by rewrite lookup_delete_eq|].
    destruct (decide (r = r2)) as [<-|Hne2]; [by rewrite lookup_delete_eq|].
    rewrite !lookup_delete_ne, !lookup_insert_ne by done. apply H5.
Qed.
End Progress.

(** Updates of a frame that keep its slot keep the progress. *)
Ltac upd_progress :=
  repeat (apply batch_progress_upd_frame; [done|]); done.

Section ProgressLoop.
Context `{rt : OrtRuntime}.
Variables (NDEBUG : bool) (pcfg : PipelineConfig).
Variables (fin : nat -> Token -> Prop) (resps0 : list OrtResp).

Lemma return_failure_status (msg : string) (w : World) (step : LoopStep) :
  return_failure NDEBUG pcfg msg w = Some step ->
  exists st w', step = Return (Some st) w'.
Proof.
  unfold return_failure.
  destruct (HandleAndReturnFailure _ _ _ _) as [[st w']|] eqn:H; [|done]. simpl.
  intros ?; simplify_eq. apply HandleAndReturnFailure_world in H as (-> & _).
  by eexists _, _.
Qed.

Lemma finish_request_counts (r idx n n' : Z) (w w' : World) :
  finish_request NDEBUG pcfg r r idx n w = Some (Continue n' w') -> n' = n + 1.
Proof.
  unfold finish_request. destruct (CopyFinalOutput _ _ _ _ _) as [[[st'|] w1]|]; simpl;
    intros ?; by simplify_eq.
Qed.

Lemma start_next_step_progress (r step_id n n' : Z) (f : RequestExecutionFrame)
    (w0 w w' : World) :
  req_frame_map w0 !! r = Some f ->
  w = upd_frame r (set_stage_id 0) w0 ->
  (n' = n + 1 -> fin (Z.to_nat (req_index f)) (token f)) ->
  start_next_step NDEBUG pcfg r r step_id n (token f) f w = Some (Continue n' w') ->
  batch_progress fin resps0 n w0 ->
  batch_progress fin resps0 n' w'.
Proof.
  intros Hf -> Hfin H Hp. unfold start_next_step in H.
  destruct (Contains _ _) as [[] j]; simpl in H.
  2:{ apply return_failure_status in H as (? & ? & ?). done. }
  destruct (vec_at (ort_values (token f)) j) as [[lv|]|]; [|done..].
  cbn [mbind option_bind] in H.
  destruct (GetNewInputIdsFromLogits _ _ _ _) as [[[ids shape] all_eos]|]; [|done].
  cbn [mbind option_bind fst snd] in H.
  destruct all_eos.
  - pose proof (finish_request_counts _ _ _ _ _ _ H) as Hn'.
    apply (finish_request_progress NDEBUG pcfg fin resps0 r n n'
             (set_scratch
                (scratch_set_shape (input_ids_name pcfg) shape
                   (scratch_set_data (input_ids_name pcfg) ids
                      (next_step_input_buffer_map f)))
                (set_stage_id 0 f))) in H as [-> Hp'].
    + done.
    + by rewrite !lookup_upd_frame, Hf.
    + exact (Hfin Hn').
    + upd_progress.
  - destruct (CreateTensor _ _ _) as [t1|]; [|done]. cbn [mbind option_bind] in H.
    destruct (GetNewPosnIds _ _ _) as [posn|]; [|done]. cbn [mbind option_bind] in H.
    destruct (CreateTensor _ _ _) as [t2|]; [|done]. cbn [mbind option_bind] in H.
    apply (reenqueue_progress pcfg fin resps0) in H as [-> Hp']; [done|].
    upd_progress.
Qed.

Lemma finish_request_return (r idx n : Z) (w w' : World) (st : OrtStatus) :
  finish_request NDEBUG pcfg r r idx n w = Some (Return st w') -> st <> None.
Proof.
  unfold finish_request. destruct (CopyFinalOutput _ _ _ _ _) as [[[st'|] w1]|]; simpl;
    intros ?; by simplify_eq.
Qed.

Lemma return_failure_return (msg : string) (w w' : World) (st : OrtStatus) :
  return_failure NDEBUG pcfg msg w = Some (Return st w') -> st <> None.
Proof. intros (? & ? & ?)%return_failure_status. by simplify_eq. Qed.

Lemma process_token_return (num_steps r n : Z) (w w' : World) (st : OrtStatus) :
  process_token NDEBUG pcfg num_steps r n w = Some (Return st w') -> st <> None.
Proof.
  intros H. unfold process_token in H.
  destruct (req_frame_map w !! r) as [f|] eqn:Hf; [|discriminate H].
  cbn [mbind option_bind] in H.
  destruct (decide (tk_req_id (token f) = r)) as [Hid|HN].
  2:{ rewrite (option_guard_False _ HN) in H. discriminate H. }
  rewrite option_guard_True in H by done. rewrite Hid, Hf in H.
  cbn [mbind option_bind] in H.
  destruct (negb (bool_decide (error_msg (token f) = ""))).
  { by eapply return_failure_return. }
  destruct (decide (num_stages pcfg <> 0)) as [Hns|HN].
  2:{ rewrite (option_guard_False _ HN) in H. discriminate H. }
  rewrite option_guard_True in H by done.
  case_bool_decide as Hwrap.
  - case_bool_decide as Hlast; [by eapply finish_request_return|].
    unfold start_next_step in H.
    destruct (Contains _ _) as [[] j]; simpl in H; [|by eapply return_failure_return].
    destruct (vec_at (ort_values (token f)) j) as [[lv|]|]; [|discriminate H..].
    cbn [mbind option_bind] in H.
    destruct (GetNewInputIdsFromLogits _ _ _ _) as [[[ids shape] all_eos]|]; [|discriminate H].
    cbn [mbind option_bind fst snd] in H.
    destruct all_eos; [by eapply finish_request_return|].
    destruct (CreateTensor _ _ _) as [t1|]; [|discriminate H]. cbn [mbind option_bind] in H.
    destruct (GetNewPosnIds _ _ _) as [posn|]; [|discriminate H]. cbn [mbind option_bind] in H.
    destruct (CreateTensor _ _ _) as [t2|]; [|discriminate H]. cbn [mbind option_bind] in H.
    by apply reenqueue_no_return in H.
  - by apply reenqueue_no_return in H.
Qed.

Lemma process_token_progress (num_steps r n n' : Z) (w w' : World) :
  process_token NDEBUG pcfg num_steps r n w = Some (Continue n' w') ->
  (n' = n + 1 ->
   forall f, req_frame_map w !! r = Some f -> fin (Z.to_nat (req_index f)) (token f)) ->
  batch_progress fin resps0 n w ->
  batch_progress fin resps0 n' w'.
Proof.
  intros H Hfin Hp. unfold process_token in H.
  destruct (req_frame_map w !! r) as [f|] eqn:Hf; [|done].
  cbn [mbind option_bind] in H.
  destruct (decide (tk_req_id (token f) = r)) as [Hid|HN].
  2:{ rewrite (option_guard_False _ HN) in H. discriminate H. }
  rewrite option_guard_True in H by done. rewrite Hid, Hf in H.
  cbn [mbind option_bind] in H.
  destruct (negb (bool_decide (error_msg (token f) = ""))).
  { apply return_failure_status in H as (? & ? & ?). done. }
  destruct (decide (num_stages pcfg <> 0)) as [Hns|HN].
  2:{ rewrite (option_guard_False _ HN) in H. discriminate H. }
  rewrite option_guard_True in H by done.
  case_bool_decide as Hwrap.
  - rewrite Hwrap in H. case_bool_decide as Hlast.
    + pose proof (finish_request_counts _ _ _ _ _ _ H) as Hn'.
      apply (finish_request_progress NDEBUG pcfg fin resps0 r n n' (set_stage_id 0 f))
        in H as [-> Hp'].
      * done.
      * by rewrite lookup_upd_frame, Hf.
      * exact (Hfin Hn' f eq_refl).
      * upd_progress.
    + eapply start_next_step_progress; [exact Hf|done| |exact H|done].
      intros Hn'. exact (Hfin Hn' f eq_refl).
  - apply (reenqueue_progress pcfg fin resps0) in H as [-> Hp']; [done|].
    upd_progress.
Qed.

Lemma reenqueue_counts (r n n' : Z) (w w' : World) :
  reenqueue pcfg r n w = Some (Continue n' w') -> n' = n.
Proof.
  unfold reenqueue. destruct (req_frame_map w !! r) as [f|]; [|done]. simpl.
  destruct (vec_at (model_config_vec pcfg) (stage_id f)); [|done]. simpl.
  destruct (ScheduleTask _ _ _); simpl; [|done]. by intros ?; simplify_eq.
Qed.

(** A round of the loop that counts a request took a token that came back
    without error from the last stage, at the last step or with logits that
    predict the EOS token in every lane. *)
Lemma process_token_counts (num_steps r n : Z) (w w' : World) :
  process_token NDEBUG pcfg num_steps r n w = Some (Continue (n + 1) w') ->
  exists f, req_frame_map w !! r = Some f /\ tk_req_id (token f) = r /\
    error_msg (token f) = "" /\
    Z.rem (stage_id f + 1) (num_stages pcfg) = 0 /\
    (tk_step_id (token f) + 1 = num_steps \/ predicts_all_eos pcfg f).
Proof.
  intros H. unfold process_token in H.
  destruct (req_frame_map w !! r) as [f|] eqn:Hf; [|done].
  cbn [mbind option_bind] in H.
  destruct (decide (tk_req_id (token f) = r)) as [Hid|HN].
  2:{ rewrite (option_guard_False _ HN) in H. discriminate H. }
  rewrite option_guard_True in H by done. rewrite Hid, Hf in H.
  cbn [mbind option_bind] in H.
  case_bool_decide as Herr; simpl in H.
  2:{ apply return_failure_status in H as (? & ? & ?). done. }
  destruct (decide (num_stages pcfg <> 0)) as [Hns|HN].
  2:{ rewrite (option_guard_False _ HN) in H. discriminate H. }
  rewrite option_guard_True in H by done. cbn [mbind option_bind] in H.
  exists f. split; [done|]. split; [done|]. split; [done|].
  case_bool_decide as Hwrap.
  2:{ apply reenqueue_counts in H. lia. }
  split; [done|]. case_bool_decide as Hlast; [by left|]. right.
  unfold start_next_step in H.
  destruct (Contains _ _) as [[] j] eqn:Hc; simpl in H.
  2:{ apply return_failure_status in H as (? & ? & ?). done. }
  destruct (vec_at (ort_values (token f)) j) as [[lv|]|] eqn:Hlv; [|done..].
  cbn [mbind option_bind] in H.
  destruct (GetNewInputIdsFromLogits _ _ _ _) as [[[ids shape] all_eos]|] eqn:Hids; [|done].
  cbn [mbind option_bind fst snd] in H.
  destruct all_eos; [by exists j, lv, ids, shape|].
  destruct (CreateTensor _ _ _) as [t1|]; [|done]. cbn [mbind option_bind] in H.
  destruct (GetNewPosnIds _ _ _) as [posn|]; [|done]. cbn [mbind option_bind] in H.
  destruct (CreateTensor _ _ _) as [t2|]; [|done]. cbn [mbind option_bind] in H.
  apply reenqueue_counts in H. lia.
Qed.
End ProgressLoop.

Section ProgressRun.
Context `{rt : OrtRuntime}.
Variables (NDEBUG : bool) (pcfg : PipelineConfig) (resps0 : list OrtResp).
Variables (num_reqs num_steps : Z).

(** When the loop returns success, every request is finished. *)
Lemma ProcessResponses_progress (sched : list SchedEvent) (n : Z) (w w' : World) :
  ProcessResponses NDEBUG pcfg sched num_reqs num_steps n w = Some (None, w') ->
  batch_progress (fun _ _ => True) resps0 n w ->
  exists n', num_reqs <= n' /\ batch_progress (fun _ _ => True) resps0 n' w'.
Proof.
  revert n w. induction sched as [|ev sched IH]; intros n w; simpl.
  - case_bool_decide as Hn.
    + intros H. by apply HandleAndReturnFailure_world in H as (? & _).
    + intros ? Hp; simplify_eq. exists n. split; [lia|done].
  - case_bool_decide as Hn.
    2:{ intros ? Hp; simplify_eq. exists n. split; [lia|done]. }
    destruct ev as [s|].
    + destruct (worker_step NDEBUG pcfg s w) as [w1|] eqn:Hw; [|done]. simpl.
      intros H Hp. apply (IH _ _ H). by eapply worker_step_progress.
    + destruct (resp_queue w) as [|ptr q] eqn:Hq.
      * intros H. by apply HandleAndReturnFailure_world in H as (? & _).
      * destruct (process_token _ _ _ _ _ _) as [[st w1|n1 w1]|] eqn:Hpt; simpl;
          [|intros H Hp|done].
        -- intros ? Hp; simplify_eq. by apply process_token_return in Hpt.
        -- apply (IH _ _ H). eapply process_token_progress; [exact Hpt|done|].
           by apply (batch_progress_same _ resps0 n w).
Qed.

Lemma loop_state_snoc (pre : list SchedEvent) (ev : SchedEvent) (n0 n : Z)
    (w0 w : World) :
  loop_state NDEBUG pcfg pre num_reqs num_steps n0 w0 = Some (n, w) ->
  loop_state NDEBUG pcfg (pre ++ [ev]) num_reqs num_steps n0 w0
  = loop_state NDEBUG pcfg [ev] num_reqs num_steps n w.
Proof.
  revert n0 w0. induction pre as [|e pre IH]; intros n0 w0.
  - cbn [loop_state app]. intros [= -> ->]. done.
  - cbn [loop_state app]. case_bool_decide; [|done]. destruct e as [s|].
    + destruct (worker_step NDEBUG pcfg s w0) as [w1|]; [|done]. apply IH.
    + destruct (resp_queue w0) as [|ptr q]; [done|].
      destruct (process_token _ _ _ _ _ _) as [[st w1|n1 w1]|]; [done| |done]. apply IH.
Qed.

(** [ProcessResponses] on a schedule is [ProcessResponses] on the rest of it
    from the state the loop is in after the first events. *)
Lemma ProcessResponses_loop_state (pre rest : list SchedEvent) (n0 n : Z) (w0 w : World) :
  loop_state NDEBUG pcfg pre num_reqs num_steps n0 w0 = Some (n, w) ->
  ProcessResponses NDEBUG pcfg (pre ++ rest) num_reqs num_steps n0 w0
  = ProcessResponses NDEBUG pcfg rest num_reqs num_steps n w.
Proof.
  revert n0 w0. induction pre as [|e pre IH]; intros n0 w0.
  - cbn [loop_state app]. intros [= -> ->]. done.
  - cbn [loop_state app ProcessResponses]. case_bool_decide; [|done].
    destruct e as [s|].
    + destruct (worker_step NDEBUG pcfg s w0) as [w1|]; [|done]. apply IH.
    + cbn [resp_queue log]. destruct (resp_queue w0) as [|ptr q]; [done|].
      destruct (process_token _ _ _ _ _ _) as [[st w1|n1 w1]|]; [done| |done]. apply IH.
Qed.

Variables (sched : list SchedEvent) (w_setup : World).

(** When the loop returns success, every request was finished with the token
    with which it came back for the last time, and its slot is populated from
    that token. *)
Lemma ProcessResponses_finished (rest pre : list SchedEvent) (n : Z) (w w' : World) :
  sched = pre ++ rest ->
  loop_state NDEBUG pcfg pre num_reqs num_steps 0 w_setup = Some (n, w) ->
  ProcessResponses NDEBUG pcfg rest num_reqs num_steps n w = Some (None, w') ->
  batch_progress (finished_with NDEBUG pcfg sched num_reqs num_steps w_setup) resps0 n w ->
  exists n', num_reqs <= n' /\
    batch_progress (finished_with NDEBUG pcfg sched num_reqs num_steps w_setup) resps0 n' w'.
Proof.
  revert pre n w. induction rest as [|ev rest IH]; intros pre n w Hsched Hpre; simpl.
  - case_bool_decide as Hn.
    + intros H. by apply HandleAndReturnFailure_world in H as (? & _).
    + intros ? Hp; simplify_eq. exists n. split; [lia|done].
  - case_bool_decide as Hn.
    2:{ intros ? Hp; simplify_eq. exists n. split; [lia|done]. }
    assert (sched = (pre ++ [ev]) ++ rest) as Hsched' by (by rewrite <- app_assoc).
    pose proof (loop_state_snoc pre ev 0 n w_setup w Hpre) as Hsnoc.
    cbn [loop_state] in Hsnoc. rewrite bool_decide_eq_true_2 in Hsnoc by done.
    destruct ev as [s|].
    + destruct (worker_step NDEBUG pcfg s w) as [w1|] eqn:Hw; [|done]. simpl.
      intros H Hp. apply (IH _ _ _ Hsched' Hsnoc H). by eapply worker_step_progress.
    + destruct (resp_queue w) as [|ptr q] eqn:Hq.
      * intros H. by apply HandleAndReturnFailure_world in H as (? & _).
      * destruct (process_token _ _ _ _ _ _) as [[st w1|n1 w1]|] eqn:Hpt; simpl;
          [|intros H Hp|done].
        -- intros ? Hp; simplify_eq. by apply process_token_return in Hpt.
        -- cbn [mbind option_bind] in Hsnoc.
           apply (IH _ _ _ Hsched' Hsnoc H).
           eapply process_token_progress; [exact Hpt| |].
           2:{ by apply (batch_progress_same _ resps0 n w). }
           intros -> f Hf.
           pose proof (process_token_counts _ _ _ _ _ _ _ Hpt)
             as (f' & Hf' & Hid & Herr & Hwrap & Hlast).
           rewrite Hf in Hf'. simplify_eq.
           destruct Hp as (fs & _ & _ & _ & H4 & _).
           destruct (H4 _ _ Hf) as (Hidx & _).
           exists pre, rest, n, w, (tk_req_id (token f')), q, f', w1.
           rewrite Z2Nat.id by done. done.
Qed.
End ProgressRun.

(** ** The setup of a batch *)

Section Setup.
Context `{rt : OrtRuntime}.
Variable pcfg : PipelineConfig.

Lemma new_RequestExecutionFrame_index (req_idx req batch orig st : Z)
    (f : RequestExecutionFrame) :
  new_RequestExecutionFrame pcfg req_idx req batch orig st = Some f ->
  req_index f = req_idx.
Proof.
  unfold new_RequestExecutionFrame. destruct (make_run_states _ _ _ _ _); [|done].
  simpl. by intros ?; simplify_eq.
Qed.

Lemma setup_one_request_frames (c0 i : Z) (one_req : OrtReq) (w w' : World) :
  0 <= i < 2 ^ 32 ->
  setup_one_request pcfg i one_req w = Some w' ->
  frames_of_slots c0 i w ->
  resp_list w' = resp_list w /\ frames_of_slots c0 (i + 1) w'.
Proof.
  intros Hi H [Hcnt Hkeys]. unfold setup_one_request in H.
  cbn [CreateRequestId] in H. cbv zeta in H. cbn [resp_list log] in H.
  rewrite (next_req_id c0 i _ Hcnt) in H.
  set (r := nth_req_id c0 i) in *.
  destruct (vec_at (resp_list w) i); [|done]. cbn [mbind option_bind] in H.
  destruct (model_config_vec pcfg !! 0%nat) as [mcfg0|]; [|done].
  cbn [mbind option_bind] in H.
  destruct (vec_at (input_values one_req) _) as [[v|]|]; [|done..].
  cbn [mbind option_bind] in H.
  destruct (vec_at (ov_shape v) (seq_len_dim_index_in_input mcfg0)) as [d1|]; [|done].
  cbn [mbind option_bind fmap option_fmap option_map] in H.
  destruct (vec_at (ov_shape v) (batch_dim_index_in_input mcfg0)) as [d2|]; [|done].
  cbn [mbind option_bind fmap option_fmap option_map] in H.
  destruct (new_RequestExecutionFrame _ _ _ _ _ _) as [nf|] eqn:Hnew; [|done].
  cbn [mbind option_bind] in H.
  apply new_RequestExecutionFrame_index in Hnew.
  assert (req_frame_map w !! r = None) as Hfresh.
  { destruct (req_frame_map w !! r) as [f|] eqn:Hf; [|done].
    apply Hkeys in Hf as [Hidx Hr]. apply nth_req_id_inj in Hr; lia. }
  cbn [set_frames log req_frame_map] in H. rewrite Hfresh in H.
  rewrite lookup_insert_eq in H.
  cbn [mbind option_bind] in H. unfold ScheduleTask in H.
  destruct (vec_at _ 0) as [q|]; [|done]. cbn [mbind option_bind] in H.
  injection H as <-. unfold log, set_stages, set_frames.
  cbn -[to_int]. rewrite Hfresh.
  split; [done|]. unfold frames_of_slots. cbn -[to_int]. split.
  - unfold r, nth_req_id. rewrite to_int_idemp. f_equal. lia.
  - intros r' f. rewrite insert_insert_eq.
    destruct (decide (r = r')) as [<-|Hne].
    + rewrite lookup_insert_eq. intros [= <-]. cbn [req_index set_token].
      rewrite Hnew. split; [lia|done].
    + rewrite lookup_insert_ne by done. intros [? ?]%Hkeys. split; [lia|done].
Qed.

Lemma setup_loop_frames (reqs : list OrtReq) (c0 i : Z) (w w' : World) :
  0 <= i -> i + Z.of_nat (length reqs) <= 2 ^ 32 ->
  setup_loop pcfg i reqs w = Some w' ->
  frames_of_slots c0 i w ->
  resp_list w' = resp_list w /\ frames_of_slots c0 (i + Z.of_nat (length reqs)) w'.
Proof.
  revert i w. induction reqs as [|req reqs IH]; intros i w Hi Hsize; simpl.
  - intros ? Hf; simplify_eq. by rewrite Z.add_0_r.
  - destruct (setup_one_request pcfg i req w) as [w1|] eqn:H1; [|done]. simpl.
    cbn [length] in Hsize. rewrite Nat2Z.inj_succ in Hsize.
    intros H2 Hf. apply (setup_one_request_frames c0) in H1 as [Hr1 Hf1]; [|lia|done].
    apply (IH (i + 1) w1) in H2 as [Hr2 Hf2]; [|lia|lia|done].
    split; [congruence|].
    replace (i + Z.of_nat (Datatypes.S (length reqs)))
      with (i + 1 + Z.of_nat (length reqs)) by lia. done.
Qed.

(** After the setup nothing is finished, and every frame has its slot. *)
Lemma SetupAndScheduleAllRequestsToStage0_progress (fin : nat -> Token -> Prop)
    (req_list : list OrtReq) (resps0 : list OrtResp) (w0 w : World) :
  length req_list = length resps0 ->
  Z.of_nat (length req_list) < 2 ^ 31 ->
  SetupAndScheduleAllRequestsToStage0 pcfg req_list (enter_run w0 resps0) = Some w ->
  batch_progress fin resps0 0 w.
Proof.
  intros Hlen Hsize H.
  apply (setup_loop_frames _ (req_id_counter w0)) in H as [Hr [_ Hkeys]]; [|done|lia|].
  2:{ split; [simpl; f_equal; lia|]. intros ? ?; simpl; by rewrite lookup_empty. }
  exists ∅. split; [by rewrite size_empty|]. split; [set_solver|].
  split; [intros i _; by rewrite Hr|]. split.
  - intros r f [? _]%Hkeys. split; [lia|]. split; [set_solver|]. lia.
  - intros r1 r2 f1 f2 [_ ->]%Hkeys [_ ->]%Hkeys Hi. by rewrite Hi.
Qed.
End Setup.

(** ** The orchestrator leaves the run states alone *)

Section RunStatesKept.
Context `{rt : OrtRuntime}.
Variables (NDEBUG : bool) (pcfg : PipelineConfig).

Lemma run_states_kept_refl (w w' : World) :
  req_frame_map w' = req_frame_map w -> run_states_kept w w'.
Proof.
  intros Hm r f' Hf. rewrite Hm in Hf. exists f'. split; [done|].
  split; [apply same_request_refl|done].
Qed.

Lemma run_states_kept_trans (w1 w2 w3 : World) :
  run_states_kept w1 w2 -> run_states_kept w2 w3 -> run_states_kept w1 w3.
Proof.
  intros H12 H23 r f3 Hf3. destruct (H23 r f3 Hf3) as (f2 & Hf2 & Hs2 & Hr2).
  destruct (H12 r f2 Hf2) as (f1 & Hf1 & Hs1 & Hr1). exists f1.
  split; [done|]. split; [by eapply same_request_trans|congruence].
Qed.

Lemma run_states_kept_upd_frame (r : Z)
    (g : RequestExecutionFrame -> RequestExecutionFrame) (w : World) :
  (forall f, same_request f (g f) /\ model_run_state_vec (g f) = model_run_state_vec f) ->
  run_states_kept w (upd_frame r g w).
Proof.
  intros Hg k f'. unfold upd_frame. simpl.
  destruct (decide (r = k)) as [<-|Hne].
  - rewrite lookup_alter_eq. destruct (req_frame_map w !! r) as [f|]; simpl; [|done].
    intros ?; simplify_eq. exists f. split; [done|]. apply Hg.
  - rewrite lookup_alter_ne by done. intros Hf. exists f'.
    split; [done|]. split; [apply same_request_refl|done].
Qed.

Lemma reenqueue_run_states (r n n' : Z) (w w' : World) :
  reenqueue pcfg r n w = Some (Continue n' w') -> run_states_kept w w'.
Proof.
  unfold reenqueue. destruct (req_frame_map w !! r) as [f|]; [|done]. simpl.
  destruct (vec_at (model_config_vec pcfg) (stage_id f)); [|done]. simpl.
  unfold ScheduleTask. destruct (vec_at (pipeline_stages w) (stage_id f)); [|done]. simpl.
  intros ?; simplify_eq. by apply run_states_kept_refl.
Qed.

Lemma finish_request_run_states (r idx n n' : Z) (w w' : World) :
  finish_request NDEBUG pcfg r r idx n w = Some (Continue n' w') ->
  run_states_kept w w'.
Proof.
  unfold finish_request.
  destruct (CopyFinalOutput _ _ _ _ _) as [[[st|] w1]|] eqn:Hcopy; simpl; [done| |done].
  intros ?; simplify_eq.
  unfold CopyFinalOutput in Hcopy.
  destruct (req_frame_map w !! r) as [f|] eqn:Hf; [|done].
  cbn [mbind option_bind] in Hcopy.
  destruct (vec_at (resp_list w) idx) as [slot|]; [|done].
  cbn [mbind option_bind] in Hcopy.
  destruct (CopyFinalOutput_loop _ _ _ _ _) as [[[[o|] tv] ov]|];
    cbn [mbind option_bind] in Hcopy; [|simplify_eq|done].
  { unfold HandleAndReturnFailure in Hcopy.
    destruct (drain_stages _ _ _ _); cbn [mbind option_bind] in Hcopy; by simplify_eq. }
  intros k f'. simpl. destruct (decide (r = k)) as [<-|Hne].
  - by rewrite lookup_delete_eq.
  - rewrite lookup_delete_ne, lookup_insert_ne by done. intros Hk. exists f'.
    split; [done|]. split; [apply same_request_refl|done].
Qed.

(** Whatever a round of the loop does to the frames, it keeps the run states
    of every stage and the constants of every request. *)
Lemma process_token_run_states (num_steps r n n' : Z) (w w' : World) :
  process_token NDEBUG pcfg num_steps r n w = Some (Continue n' w') ->
  run_states_kept w w'.
Proof.
  intros H. unfold process_token in H.
  destruct (req_frame_map w !! r) as [f|] eqn:Hf; [|done].
  cbn [mbind option_bind] in H.
  destruct (decide (tk_req_id (token f) = r)) as [Hid|HN].
  2:{ rewrite (option_guard_False _ HN) in H. discriminate H. }
  rewrite option_guard_True in H by done. rewrite Hid, Hf in H.
  cbn [mbind option_bind] in H.
  destruct (negb (bool_decide (error_msg (token f) = ""))).
  { apply return_failure_status in H as (? & ? & ?). done. }
  destruct (decide (num_stages pcfg <> 0)) as [Hns|HN].
  2:{ rewrite (option_guard_False _ HN) in H. discriminate H. }
  rewrite option_guard_True in H by done.
  assert (forall g w1,
            (forall f, same_request f (g f) /\
                       model_run_state_vec (g f) = model_run_state_vec f) ->
            run_states_kept w w1 -> run_states_kept w (upd_frame r g w1)) as Hupd.
  { intros g w1 Hg H1. eapply run_states_kept_trans; [done|].
    by apply run_states_kept_upd_frame. }
  case_bool_decide as Hwrap.
  - case_bool_decide as Hlast.
    + apply finish_request_run_states in H.
      eapply run_states_kept_trans; [|done].
      by apply run_states_kept_upd_frame.
    + unfold start_next_step in H.
      destruct (Contains _ _) as [[] j]; simpl in H.
      2:{ apply return_failure_status in H as (? & ? & ?). done. }
      destruct (vec_at (ort_values (token f)) j) as [[lv|]|]; [|done..].
      cbn [mbind option_bind] in H.
      destruct (GetNewInputIdsFromLogits _ _ _ _) as [[[ids shape] all_eos]|]; [|done].
      cbn [mbind option_bind fst snd] in H.
      destruct all_eos.
      * apply finish_request_run_states in H.
        eapply run_states_kept_trans; [|done].
        apply Hupd; [done|]. by apply run_states_kept_upd_frame.
      * destruct (CreateTensor _ _ _) as [t1|]; [|done]. cbn [mbind option_bind] in H.
        destruct (GetNewPosnIds _ _ _) as [posn|]; [|done]. cbn [mbind option_bind] in H.
        destruct (CreateTensor _ _ _) as [t2|]; [|done]. cbn [mbind option_bind] in H.
        apply reenqueue_run_states in H.
        eapply run_states_kept_trans; [|done].
        repeat (apply Hupd; [done|]). by apply run_states_kept_refl.
  - apply reenqueue_run_states in H.
    eapply run_states_kept_trans; [|done].
    apply Hupd; [done|]. by apply run_states_kept_upd_frame.
Qed.
End RunStatesKept.

(** ** What the tokens of stage 0 carry *)

(** The token the orchestrator writes for the next step carries inputs of
    sequence length 1 for a first stage that reads the length from the input
    ids or the position ids, in dimension 1. *)
Lemma next_step_token_carries_one (pcfg : PipelineConfig) (mcfg0 : ModelConfig)
    (req step : Z) (t1 t2 : OrtValue) (batch : Z) (msg : string) :
  input_to_use_for_seq_len mcfg0 = input_ids_name pcfg \/
  input_to_use_for_seq_len mcfg0 = position_ids_name pcfg ->
  seq_len_dim_index_in_input mcfg0 = 1 ->
  ov_shape t1 = [batch; 1] -> ov_shape t2 = [batch; 1] ->
  carried_seq_len mcfg0
    (mkToken req step [input_ids_name pcfg; position_ids_name pcfg] [Some t1; Some t2] msg)
  = Some 1.
Proof.
  intros Hname Hdim Hs1 Hs2. unfold carried_seq_len, Contains. simpl.
  destruct (decide (input_ids_name pcfg = input_to_use_for_seq_len mcfg0)) as [He|Hn].
  - rewrite (bool_decide_eq_true_2 _ He). simpl. by rewrite Hs1, Hdim.
  - rewrite (bool_decide_eq_false_2 _ Hn). simpl.
    destruct Hname as [Hname|Hname]; [congruence|].
    rewrite bool_decide_eq_true_2 by done. simpl. by rewrite Hs2, Hdim.
Qed.

(** ** The requests of a batch, between the stages and the orchestrator *)

Lemma concat_pop (qs : list (list Task)) (s : nat) (t : Task) (rest : list Task) :
  qs !! s = Some (t :: rest) -> concat qs ≡ₚ t :: concat (<[s := rest]> qs).
Proof.
  intros H. rewrite <-(take_drop_middle qs s (t :: rest)) at 1 by done.
  rewrite insert_take_drop by (by eapply lookup_lt_Some).
  rewrite !concat_app. simpl. symmetry. apply Permutation_middle.
Qed.

Lemma concat_push (qs : list (list Task)) (s : nat) (t : Task) (q : list Task) :
  qs !! s = Some q -> concat (<[s := q ++ [t]]> qs) ≡ₚ t :: concat qs.
Proof.
  intros H. rewrite <-(take_drop_middle qs s q) at 2 by done.
  rewrite insert_take_drop by (by eapply lookup_lt_Some).
  rewrite !concat_app. simpl. rewrite <-!app_assoc. simpl.
  rewrite (Permutation_middle (concat (take s qs))).
  apply Permutation_app_head. symmetry. apply Permutation_middle.
Qed.

Lemma tasks_of_pop_other (qs : list (list Task)) (s : nat) (t : Task)
    (rest : list Task) (r : Z) :
  qs !! s = Some (t :: rest) -> task_req t <> r ->
  tasks_of r (<[s := rest]> qs) ≡ₚ tasks_of r qs.
Proof.
  intros H Hne. unfold tasks_of. rewrite (concat_pop qs s t rest H).
  by rewrite filter_cons_False.
Qed.

Lemma tasks_of_pop (qs : list (list Task)) (s : nat) (t : Task) (rest : list Task) :
  qs !! s = Some (t :: rest) ->
  tasks_of (task_req t) qs ≡ₚ t :: tasks_of (task_req t) (<[s := rest]> qs).
Proof.
  intros H. unfold tasks_of. rewrite (concat_pop qs s t rest H).
  by rewrite filter_cons_True.
Qed.

Lemma tasks_of_push_other (qs : list (list Task)) (s : nat) (t : Task)
    (q : list Task) (r : Z) :
  qs !! s = Some q -> task_req t <> r ->
  tasks_of r (<[s := q ++ [t]]> qs) ≡ₚ tasks_of r qs.
Proof.
  intros H Hne. unfold tasks_of. rewrite (concat_push qs s t q H).
  by rewrite filter_cons_False.
Qed.

Lemma tasks_of_push (qs : list (list Task)) (s : nat) (t : Task) (q : list Task) :
  qs !! s = Some q ->
  tasks_of (task_req t) (<[s := q ++ [t]]> qs) ≡ₚ t :: tasks_of (task_req t) qs.
Proof.
  intros H. unfold tasks_of. rewrite (concat_push qs s t q H).
  by rewrite filter_cons_True.
Qed.

Lemma tasks_of_elem (qs : list (list Task)) (s : nat) (q : list Task) (t : Task) :
  qs !! s = Some q -> t ∈ q -> t ∈ tasks_of (task_req t) qs.
Proof.
  intros H Ht. unfold tasks_of. apply list_elem_of_filter. split; [done|].
  apply list_elem_of_In, in_concat. exists q.
  split; apply list_elem_of_In; [by eapply list_elem_of_lookup_2|done].
Qed.

Lemma stage_steps_mono `{rt : OrtRuntime} (NDEBUG : bool) (pcfg : PipelineConfig)
    (carries carries' : Z -> RequestExecutionFrame -> Prop) (s : nat) (t : Z)
    (f : RequestExecutionFrame) :
  (forall t f, carries t f -> carries' t f) ->
  stage_steps NDEBUG pcfg carries s t f -> stage_steps NDEBUG pcfg carries' s t f.
Proof.
  intros Hc H. induction H as [| |t f f' H IH Hs Hr].
  - by eapply steps_new.
  - eapply steps_exec; eauto.
  - by eapply steps_other.
Qed.

Lemma ExecuteRequest_token `{rt : OrtRuntime} (NDEBUG : bool) (mcfg : ModelConfig)
    (sess : nat) (ort_resp : OrtResp) (f f' : RequestExecutionFrame) :
  NoDup (mc_output_names mcfg) ->
  ExecuteRequest NDEBUG mcfg sess ort_resp f = Done tt f' ->
  stage_id f' = stage_id f /\ tk_step_id (token f') = tk_step_id (token f).
Proof.
  intros Hnd (rs & s' & Hrs & Hbody & ->)%ExecuteRequest_Done. split; [done|].
  apply ExecuteRequest_body_Done in Hbody; [|done].
  destruct Hbody as (? & ? & ? & ? & ? & ? & _ & _ & _ & _ & _ & _ & _ & Hstep & _).
  exact Hstep.
Qed.

Section FrameHistory.
Context `{rt : OrtRuntime}.
Variables (NDEBUG : bool) (pcfg : PipelineConfig).
Hypothesis output_names_NoDup : forall s mcfg,
  model_config_vec pcfg !! s = Some mcfg -> NoDup (mc_output_names mcfg).

Lemma frame_history_exec (mcfg : ModelConfig) (ort_resp : OrtResp)
    (f f' : RequestExecutionFrame) :
  frame_history NDEBUG pcfg true f ->
  carries_run pcfg (Z.to_nat (stage_id f)) (tk_step_id (token f)) f ->
  model_config_vec pcfg !! Z.to_nat (stage_id f) = Some mcfg ->
  ExecuteRequest NDEBUG mcfg (Z.to_nat (stage_id f)) ort_resp f = Done tt f' ->
  frame_history NDEBUG pcfg false f'.
Proof.
  intros (Hc & Ht & Hsteps) Hcarries Hm Hex.
  destruct (ExecuteRequest_token _ _ _ _ _ _ (output_names_NoDup _ _ Hm) Hex)
    as [Hc' Ht'].
  split; [by rewrite Hc'|]. split; [by rewrite Ht'|].
  intros s Hs. rewrite Hc', Ht'. specialize (Hsteps s Hs). unfold steps_done in *.
  destruct (decide (Z.of_nat s = stage_id f)) as [Heq|Hne].
  - rewrite bool_decide_eq_false_2 in Hsteps by lia.
    rewrite bool_decide_eq_true_2 by lia. rewrite Z.add_0_r in Hsteps.
    assert (Z.to_nat (stage_id f) = s) as Hs' by lia. rewrite Hs' in *.
    by eapply steps_exec.
  - destruct (ExecuteRequest_other_stage _ _ _ _ _ _ s Hex) as [Hsame Hrs]; [done|].
    eapply steps_other; [|done..].
    repeat case_bool_decide; first [done|lia].
Qed.

Lemma frame_history_next_stage (f f' : RequestExecutionFrame) :
  frame_history NDEBUG pcfg false f ->
  stage_id f + 1 < num_stages pcfg ->
  same_request f f' ->
  model_run_state_vec f' = model_run_state_vec f ->
  stage_id f' = stage_id f + 1 ->
  tk_step_id (token f') = tk_step_id (token f) ->
  frame_history NDEBUG pcfg true f'.
Proof.
  intros (Hc & Ht & Hsteps) Hlt Hsame Hrs Hc' Ht'.
  split; [lia|]. split; [lia|].
  intros s Hs. rewrite Hc', Ht'. specialize (Hsteps s Hs). unfold steps_done in *.
  eapply steps_other; [|done|by unfold run_state_of; rewrite Hrs].
  repeat case_bool_decide; first [done|lia].
Qed.

Lemma frame_history_next_step (f f' : RequestExecutionFrame) :
  frame_history NDEBUG pcfg false f ->
  stage_id f + 1 = num_stages pcfg ->
  same_request f f' ->
  model_run_state_vec f' = model_run_state_vec f ->
  stage_id f' = 0 ->
  tk_step_id (token f') = tk_step_id (token f) + 1 ->
  frame_history NDEBUG pcfg true f'.
Proof.
  intros (Hc & Ht & Hsteps) Hlt Hsame Hrs Hc' Ht'.
  split; [lia|]. split; [lia|].
  intros s Hs. rewrite Hc', Ht'. specialize (Hsteps s Hs). unfold steps_done in *.
  eapply steps_other; [|done|by unfold run_state_of; rewrite Hrs].
  rewrite bool_decide_eq_true_2 in Hsteps by lia.
  rewrite bool_decide_eq_false_2 by lia. by rewrite Z.add_0_r.
Qed.
End FrameHistory.

Section SchedInv.
Context `{rt : OrtRuntime}.
Variables (NDEBUG : bool) (pcfg : PipelineConfig).
Hypothesis output_names_NoDup : forall s mcfg,
  model_config_vec pcfg !! s = Some mcfg -> NoDup (mc_output_names mcfg).

Lemma request_pending_perm (queue queue' : list Z) (stages stages' : list (list Task))
    (r : Z) (f : RequestExecutionFrame) :
  (r ∈ queue' -> r ∈ queue) ->
  tasks_of r stages' ≡ₚ tasks_of r stages ->
  request_pending NDEBUG pcfg queue stages r f ->
  request_pending NDEBUG pcfg queue' stages' r f.
Proof.
  intros Hq Hp (Hr & Ht & Hh & Hc). split; [by intros ?%Hq|]. split; [|done].
  rewrite Ht in Hp. by apply Permutation_singleton_r in Hp.
Qed.

Lemma request_returned_perm (stages stages' : list (list Task)) (r : Z)
    (f : RequestExecutionFrame) :
  tasks_of r stages' ≡ₚ tasks_of r stages ->
  request_returned NDEBUG pcfg stages r f ->
  request_returned NDEBUG pcfg stages' r f.
Proof.
  intros Hp (Ht & Hh). split; [|done].
  rewrite Ht in Hp. by apply Permutation_nil_r in Hp.
Qed.

Lemma worker_step_sched_inv (s : nat) (w w' : World) :
  sched_inv NDEBUG pcfg w -> worker_step NDEBUG pcfg s w = Some w' ->
  sched_inv NDEBUG pcfg w'.
Proof.
  intros [Hnd Hinv] H. unfold worker_step in H.
  destruct (pipeline_stages w !! s) as [[|[ts r] rest]|] eqn:Hq;
    [by simplify_eq..| |by simplify_eq].
  unfold ThreadWorkerFn in H. simpl in H.
  destruct (req_frame_map w !! r) as [f|] eqn:Hf; [|done]. simpl in H.
  destruct (model_config_vec pcfg !! ts) as [mcfg|] eqn:Hm; [|done]. simpl in H.
  destruct (vec_at (resp_list w) (req_index f)) as [ort_resp|]; [|done]. simpl in H.
  assert (mkTask ts r ∈ tasks_of r (pipeline_stages w)) as Ht.
  { apply (tasks_of_elem _ s (mkTask ts r :: rest) (mkTask ts r)); [done|].
    apply list_elem_of_here. }
  destruct (Hinv _ _ Hf) as [(Hr & Htasks & Hh & Hc)|[_ [Htasks _]]].
  2:{ rewrite Htasks in Ht. by apply not_elem_of_nil in Ht. }
  rewrite Htasks in Ht. apply list_elem_of_singleton in Ht.
  injection Ht as Hts.
  pose proof (tasks_of_pop _ _ _ _ Hq) as Hpop. simpl in Hpop.
  rewrite Htasks, Hts in Hpop.
  apply Permutation_singleton_l in Hpop. injection Hpop as Hpop. symmetry in Hpop.
  assert (NoDup (resp_queue w ++ [r])) as Hnd'.
  { apply NoDup_app. split; [done|]. split; [|apply NoDup_singleton].
    intros x Hx ->%list_elem_of_singleton. done. }
  assert (forall r' f', r' <> r -> req_frame_map w !! r' = Some f' ->
            request_pending NDEBUG pcfg (resp_queue w ++ [r]) (<[s:=rest]> (pipeline_stages w)) r' f' \/
            (r' ∈ resp_queue w ++ [r] /\
             request_returned NDEBUG pcfg (<[s:=rest]> (pipeline_stages w)) r' f'))
    as Hother.
  { intros r' f' Hne Hf'.
    assert (tasks_of r' (<[s:=rest]> (pipeline_stages w)) ≡ₚ tasks_of r' (pipeline_stages w))
      as Hp by (by eapply tasks_of_pop_other).
    destruct (Hinv _ _ Hf') as [Hpen|[Hin Hret]].
    - left. eapply request_pending_perm; [|done..].
      intros [?|?%list_elem_of_singleton]%elem_of_app; done.
    - right. split; [apply elem_of_app; by left|].
      by eapply request_returned_perm. }
  destruct (ExecuteRequest _ _ _ _ _) as [[] f1|what f1|] eqn:Hex; [| |done];
    simplify_eq; (split; [done|]); simpl; intros r' f'.
  - destruct (decide (r = r')) as [<-|Hne].
    + rewrite lookup_insert_eq. intros ?; simplify_eq. right.
      split; [apply elem_of_app; right; apply list_elem_of_singleton; done|].
      split; [done|]. right. by eapply frame_history_exec.
    + rewrite lookup_insert_ne by done. by apply Hother.
  - destruct (decide (r = r')) as [<-|Hne].
    + rewrite lookup_insert_eq. intros ?; simplify_eq. right.
      split; [apply elem_of_app; right; apply list_elem_of_singleton; done|].
      split; [done|]. left. done.
    + rewrite lookup_insert_ne by done. by apply Hother.
Qed.

Lemma sched_inv_pop (r : Z) (rest : list Z) (f : RequestExecutionFrame) (w : World) :
  sched_inv NDEBUG pcfg w -> resp_queue w = r :: rest ->
  req_frame_map w !! r = Some f ->
  sched_inv_held NDEBUG pcfg r (set_resp_queue rest (log EvWaitAndPop w)) /\
  request_returned NDEBUG pcfg (pipeline_stages w) r f.
Proof.
  intros [Hnd Hinv] Hq Hf. rewrite Hq in *. apply NoDup_cons in Hnd as [Hr Hnd].
  destruct (Hinv _ _ Hf) as [(Hn & _)|[_ Hret]].
  { exfalso. apply Hn, list_elem_of_here. }
  split; [|done]. split; [done|]. split; [done|]. split; [apply Hret|].
  simpl. intros r' f' Hne Hf'. destruct (Hinv _ _ Hf') as [Hpen|[Hin Hret']].
  - left. eapply request_pending_perm; [|done..]. intros ?. by apply list_elem_of_further.
  - right. split; [|done]. apply elem_of_cons in Hin as [?|?]; done.
Qed.

Lemma sched_inv_held_upd_frame (r : Z)
    (g : RequestExecutionFrame -> RequestExecutionFrame) (w : World) :
  sched_inv_held NDEBUG pcfg r w -> sched_inv_held NDEBUG pcfg r (upd_frame r g w).
Proof.
  intros (Hnd & Hr & Ht & Hinv). split; [done|]. split; [done|]. split; [done|].
  simpl. intros r' f Hne. rewrite lookup_alter_ne by done. by apply Hinv.
Qed.

Lemma reenqueue_sched_inv (r n n' : Z) (f : RequestExecutionFrame) (w w' : World) :
  sched_inv_held NDEBUG pcfg r w ->
  req_frame_map w !! r = Some f ->
  frame_history NDEBUG pcfg true f ->
  carries_run pcfg (Z.to_nat (stage_id f)) (tk_step_id (token f)) f ->
  reenqueue pcfg r n w = Some (Continue n' w') ->
  sched_inv NDEBUG pcfg w'.
Proof.
  intros (Hnd & Hr & Ht & Hinv) Hf Hh Hc H. unfold reenqueue in H.
  rewrite Hf in H. simpl in H.
  destruct (vec_at (model_config_vec pcfg) (stage_id f)); [|done]. simpl in H.
  unfold ScheduleTask in H.
  destruct (vec_at (pipeline_stages w) (stage_id f)) as [q|] eqn:Hq; [|done].
  simpl in H. simplify_eq. apply vec_at_Some in Hq as [_ Hq].
  split; [done|]. simpl. intros r' f'.
  destruct (decide (r' = r)) as [->|Hne].
  - intros ?; simplify_eq. left. split; [done|]. split; [|done].
    pose proof (tasks_of_push _ _ (mkTask (Z.to_nat (stage_id f)) r) _ Hq) as Hp.
    simpl in Hp. rewrite Ht in Hp. by apply Permutation_singleton_r in Hp.
  - intros Hf'.
    assert (tasks_of r' (<[Z.to_nat (stage_id f) :=
                            q ++ [mkTask (Z.to_nat (stage_id f)) r]]> (pipeline_stages w))
            ≡ₚ tasks_of r' (pipeline_stages w)) as Hp.
    { apply tasks_of_push_other; [done|]. simpl. congruence. }
    destruct (Hinv _ _ Hne Hf') as [Hpen|[Hin Hret]].
    + left. by eapply request_pending_perm.
    + right. split; [done|]. by eapply request_returned_perm.
Qed.

Lemma finish_request_sched_inv (r idx n n' : Z) (w w' : World) :
  sched_inv_held NDEBUG pcfg r w ->
  finish_request NDEBUG pcfg r r idx n w = Some (Continue n' w') ->
  sched_inv NDEBUG pcfg w'.
Proof.
  intros (Hnd & Hr & Ht & Hinv) H. unfold finish_request in H.
  destruct (CopyFinalOutput _ _ _ _ _) as [[[st|] w1]|] eqn:Hcopy; simpl in H; [done| |done].
  simplify_eq.
  unfold CopyFinalOutput in Hcopy.
  destruct (req_frame_map w !! r) as [f|] eqn:Hf; [|done].
  cbn [mbind option_bind] in Hcopy.
  destruct (vec_at (resp_list w) idx) as [slot|]; [|done].
  cbn [mbind option_bind] in Hcopy.
  destruct (CopyFinalOutput_loop _ _ _ _ _) as [[[[o|] tv] ov]|];
    cbn [mbind option_bind] in Hcopy; [|simplify_eq|done].
  { unfold HandleAndReturnFailure in Hcopy.
    destruct (drain_stages _ _ _ _); cbn [mbind option_bind] in Hcopy; by simplify_eq. }
  split; [done|]. simpl. intros r' f'. destruct (decide (r = r')) as [<-|Hne].
  - by rewrite lookup_delete_eq.
  - rewrite lookup_delete_ne, lookup_insert_ne by done. by apply Hinv.
Qed.
End SchedInv.

Section SchedInvLoop.
Context `{rt : OrtRuntime}.
Variables (NDEBUG : bool) (pcfg : PipelineConfig).
Hypothesis output_names_NoDup : forall s mcfg,
  model_config_vec pcfg !! s = Some mcfg -> NoDup (mc_output_names mcfg).

Lemma CreateTensor_shape (a : MemoryAllocation) (shape : list Z) (ty : ElemType)
    (v : OrtValue) :
  CreateTensor a shape ty = Some v -> ov_shape v = shape.
Proof. unfold CreateTensor. destruct (create_tensor_accepts _ _ _); by intros ?; simplify_eq. Qed.

Lemma process_token_sched_inv (num_steps r n n' : Z) (rest : list Z) (w w' : World) :
  sched_inv NDEBUG pcfg w -> resp_queue w = r :: rest ->
  process_token NDEBUG pcfg num_steps r n (set_resp_queue rest (log EvWaitAndPop w))
  = Some (Continue n' w') ->
  sched_inv NDEBUG pcfg w'.
Proof.
  intros Hinv Hq H. unfold process_token in H.
  set (w0 := set_resp_queue rest (log EvWaitAndPop w)) in *.
  destruct (req_frame_map w0 !! r) as [f|] eqn:Hf; [|done].
  cbn [mbind option_bind] in H.
  destruct (sched_inv_pop NDEBUG pcfg r rest f w Hinv Hq Hf) as [Hheld [_ Hret]].
  fold w0 in Hheld.
  destruct (decide (tk_req_id (token f) = r)) as [Hid|HN].
  2:{ rewrite (option_guard_False _ HN) in H. discriminate H. }
  rewrite option_guard_True in H by done. rewrite Hid, Hf in H.
  cbn [mbind option_bind] in H.
  destruct (decide (error_msg (token f) = "")) as [Herr|Herr].
  2:{ rewrite (bool_decide_eq_false_2 _ Herr) in H. simpl in H.
      apply return_failure_status in H as (? & ? & ?). done. }
  rewrite (bool_decide_eq_true_2 _ Herr) in H. simpl in H.
  destruct Hret as [?|Hh]; [done|].
  destruct (decide (num_stages pcfg <> 0)) as [Hns|HN].
  2:{ rewrite (option_guard_False _ HN) in H. discriminate H. }
  rewrite option_guard_True in H by done. cbn [mbind option_bind] in H.
  pose proof Hh as (Hc & Ht & _).
  assert (forall g w1 f1, req_frame_map w1 !! r = Some f1 ->
            req_frame_map (upd_frame r g w1) !! r = Some (g f1)) as Hupd.
  { intros g w1 f1 H1. unfold upd_frame. simpl. by rewrite lookup_alter_eq, H1. }
  case_bool_decide as Hwrap.
  - assert (stage_id f + 1 = num_stages pcfg) as Hlast.
    { destruct (decide (stage_id f + 1 < num_stages pcfg)) as [Hlt|]; [|lia].
      rewrite Z.rem_small in Hwrap by lia. lia. }
    case_bool_decide as Hend.
    + eapply finish_request_sched_inv; [|done]. by apply sched_inv_held_upd_frame.
    + unfold start_next_step in H.
      destruct (Contains _ _) as [[] j]; simpl in H.
      2:{ apply return_failure_status in H as (? & ? & ?). done. }
      destruct (vec_at (ort_values (token f)) j) as [[lv|]|]; [|done..].
      cbn [mbind option_bind] in H.
      destruct (GetNewInputIdsFromLogits _ _ _ _) as [[[ids shape] all_eos]|] eqn:Hids;
        [|done].
      apply GetNewInputIdsFromLogits_outputs in Hids as (_ & -> & _).
      cbn [mbind option_bind fst snd] in H.
      destruct all_eos.
      * eapply finish_request_sched_inv; [|done].
        by do 2 apply sched_inv_held_upd_frame.
      * destruct (CreateTensor _ _ _) as [t1|] eqn:H1; [|done].
        cbn [mbind option_bind] in H.
        destruct (GetNewPosnIds _ _ _) as [posn|]; [|done]. cbn [mbind option_bind] in H.
        match type of H with
        | context [CreateTensor ?a ?sh ?ty] =>
            destruct (CreateTensor a sh ty) as [t2|] eqn:H2; [|done]
        end.
        cbn [mbind option_bind] in H.
        apply CreateTensor_shape in H1, H2.
        eapply reenqueue_sched_inv; [| |  | |exact H].
        -- by do 4 apply sched_inv_held_upd_frame.
        -- do 4 (eapply Hupd). exact Hf.
        -- eapply frame_history_next_step;
             [exact Hh|exact Hlast|by repeat split|done|exact Hwrap|done].
        -- simpl. rewrite Hwrap. change (Z.to_nat 0) with 0%nat.
           intros _ [?|Hdec]; [lia|].
           destruct Hdec as (mcfg0 & Hm0 & Hname & Hdim). exists mcfg0. split; [done|].
           rewrite bool_decide_eq_false_2 by lia.
           by eapply next_step_token_carries_one.
  - assert (stage_id f + 1 < num_stages pcfg) as Hlt.
    { destruct (decide (stage_id f + 1 < num_stages pcfg)) as [Hlt|]; [done|].
      assert (stage_id f + 1 = num_stages pcfg) as Heq by lia.
      rewrite Heq, Z.rem_same in Hwrap by done. done. }
    rewrite Z.rem_small in H by lia.
    eapply reenqueue_sched_inv; [| | | |exact H].
    + by do 2 apply sched_inv_held_upd_frame.
    + do 2 (eapply Hupd). exact Hf.
    + eapply frame_history_next_stage; [exact Hh|exact Hlt|by repeat split|done..].
    + simpl. intros Hz. lia.
Qed.
End SchedInvLoop.

Section SchedInvSetup.
Context `{rt : OrtRuntime}.
Variables (NDEBUG : bool) (pcfg : PipelineConfig).
Hypothesis stages_pos : 0 < num_stages pcfg.

Lemma tasks_of_fresh (r : Z) (stages : list (list Task)) :
  (forall t, t ∈ concat stages -> task_req t <> r) -> tasks_of r stages = [].
Proof.
  intros Hall. unfold tasks_of.
  destruct (filter _ _) as [|t l] eqn:Hfil; [done|].
  assert (t ∈ filter (fun t => task_req t = r) (concat stages)) as Ht
    by (rewrite Hfil; apply list_elem_of_here).
  apply list_elem_of_filter in Ht as [Hr Ht]. by apply Hall in Ht.
Qed.

Lemma issued_fresh (c0 i : Z) : 0 <= i < 2 ^ 32 -> ~ issued c0 i (nth_req_id c0 i).
Proof. intros Hi (j & Hj & Heq). apply nth_req_id_inj in Heq; lia. Qed.

Lemma issued_next (c0 i r : Z) : issued c0 i r -> issued c0 (i + 1) r.
Proof. intros (j & Hj & ->). exists j. split; [lia|done]. Qed.

Lemma issued_last (c0 i : Z) : 0 <= i -> issued c0 (i + 1) (nth_req_id c0 i).
Proof. intros Hi. exists i. split; [lia|done]. Qed.

Lemma setup_one_request_sched_inv (c0 i : Z) (one_req : OrtReq) (w w' : World) :
  0 <= i < 2 ^ 32 ->
  setup_one_request pcfg i one_req w = Some w' ->
  sched_inv NDEBUG pcfg w ->
  resp_queue w = [] ->
  to_int (req_id_counter w) = to_int (c0 + i) ->
  (forall r f, req_frame_map w !! r = Some f -> issued c0 i r) ->
  (forall t, t ∈ concat (pipeline_stages w) -> issued c0 i (task_req t)) ->
  sched_inv NDEBUG pcfg w' /\
  resp_queue w' = [] /\
  to_int (req_id_counter w') = to_int (c0 + (i + 1)) /\
  (forall r f, req_frame_map w' !! r = Some f -> issued c0 (i + 1) r) /\
  (forall t, t ∈ concat (pipeline_stages w') -> issued c0 (i + 1) (task_req t)).
Proof.
  intros Hi H [Hnd Hinv] Hq Hcnt Hkeys Htasks. unfold setup_one_request in H.
  cbn [CreateRequestId] in H. cbv zeta in H. cbn [resp_list log] in H.
  rewrite (next_req_id c0 i _ Hcnt) in H.
  set (r := nth_req_id c0 i) in *.
  destruct (vec_at (resp_list w) i); [|done]. cbn [mbind option_bind] in H.
  destruct (model_config_vec pcfg !! 0%nat) as [mcfg0|] eqn:Hm0; [|done].
  cbn [mbind option_bind] in H.
  destruct (vec_at (input_values one_req) _) as [[v|]|] eqn:Hv; [|done..].
  cbn [mbind option_bind] in H.
  destruct (vec_at (ov_shape v) (seq_len_dim_index_in_input mcfg0)) as [d1|] eqn:Hd1;
    [|done].
  cbn [mbind option_bind fmap option_fmap option_map] in H.
  destruct (vec_at (ov_shape v) (batch_dim_index_in_input mcfg0)) as [d2|]; [|done].
  cbn [mbind option_bind fmap option_fmap option_map] in H.
  destruct (new_RequestExecutionFrame _ _ _ _ _ _) as [nf|] eqn:Hnew; [|done].
  cbn [mbind option_bind] in H.
  assert (req_frame_map w !! r = None) as Hfresh.
  { destruct (req_frame_map w !! r) as [f|] eqn:Hf; [|done].
    apply Hkeys in Hf. by apply issued_fresh in Hf. }
  cbn [set_frames log req_frame_map] in H. rewrite Hfresh in H.
  rewrite lookup_insert_eq in H.
  cbn [mbind option_bind] in H. unfold ScheduleTask in H.
  destruct (vec_at _ 0) as [q|] eqn:Hq0; [|done]. cbn [mbind option_bind] in H.
  apply vec_at_Some in Hq0 as [_ Hq0]. cbn -[to_int] in Hq0.
  injection H as <-. unfold log, set_stages, set_frames. cbn -[to_int]. rewrite Hfresh.
  rewrite insert_insert_eq.
  assert (tasks_of r (pipeline_stages w) = []) as Hnone.
  { apply tasks_of_fresh. intros t Ht Heq. apply Htasks in Ht. rewrite Heq in Ht.
    by apply issued_fresh in Ht. }
  assert (stage_id nf = 0 /\ orig_input_seq_len nf = to_int d1) as [Hst Horig].
  { unfold new_RequestExecutionFrame in Hnew.
    destruct (make_run_states _ _ _ _ _); [|done]. simpl in Hnew. by simplify_eq. }
  split; [|split; [done|split; [|split]]].
  2:{ unfold r, nth_req_id. rewrite to_int_idemp. f_equal. lia. }
  - split; [done|]. cbn [req_frame_map resp_queue pipeline_stages]. intros r' f'.
    destruct (decide (r = r')) as [<-|Hne].
    + rewrite lookup_insert_eq. intros ?; simplify_eq. left.
      split; [rewrite Hq; apply not_elem_of_nil|].
      simpl. rewrite Hst. change (Z.to_nat 0) with 0%nat.
      split.
      { pose proof (tasks_of_push _ _ (mkTask 0 r) _ Hq0) as Hp.
        simpl in Hp. rewrite Hnone in Hp. by apply Permutation_singleton_r in Hp. }
      split.
      { split; [simpl; lia|]. split; [done|]. intros s Hs. simpl.
        unfold steps_done. rewrite Hst.
        rewrite bool_decide_eq_false_2 by lia.
        eapply steps_other; [by eapply steps_new|by repeat split|done]. }
      intros _ _. exists mcfg0. split; [done|]. simpl.
      unfold carried_seq_len. simpl.
      destruct (Contains (input_names one_req) (input_to_use_for_seq_len mcfg0))
        as [[] j] eqn:Hc.
      * simpl in *. rewrite Hv. simpl. by rewrite Hd1, Horig.
      * unfold Contains in Hc. destruct (find_index _ _); [done|].
        by simplify_eq.
    + rewrite lookup_insert_ne by done. intros Hf'.
      assert (tasks_of r' (<[0%nat := q ++ [mkTask 0 r]]> (pipeline_stages w))
              ≡ₚ tasks_of r' (pipeline_stages w)) as Hp
        by (by apply tasks_of_push_other).
      destruct (Hinv _ _ Hf') as [Hpen|[Hin Hret]].
      * left. by eapply request_pending_perm.
      * right. split; [done|]. by eapply request_returned_perm.
  - intros r' f'.
    destruct (decide (r = r')) as [<-|Hne].
    + intros _. apply issued_last. lia.
    + rewrite lookup_insert_ne by done. intros ?%Hkeys. by apply issued_next.
  - intros t.
    rewrite (concat_push _ _ (mkTask 0 r) _ Hq0).
    intros [->|Ht]%elem_of_cons; [simpl; apply issued_last; lia|].
    apply Htasks in Ht. by apply issued_next.
Qed.

Lemma setup_loop_sched_inv (reqs : list OrtReq) (c0 i : Z) (w w' : World) :
  0 <= i -> i + Z.of_nat (length reqs) <= 2 ^ 32 ->
  setup_loop pcfg i reqs w = Some w' ->
  sched_inv NDEBUG pcfg w ->
  resp_queue w = [] ->
  to_int (req_id_counter w) = to_int (c0 + i) ->
  (forall r f, req_frame_map w !! r = Some f -> issued c0 i r) ->
  (forall t, t ∈ concat (pipeline_stages w) -> issued c0 i (task_req t)) ->
  sched_inv NDEBUG pcfg w'.
Proof.
  revert i w. induction reqs as [|req reqs IH]; intros i w Hi Hsize; simpl.
  - by intros ?; simplify_eq.
  - destruct (setup_one_request pcfg i req w) as [w1|] eqn:H1; [|done]. simpl.
    cbn [length] in Hsize. rewrite Nat2Z.inj_succ in Hsize.
    intros H2 Hinv Hq Hcnt Hkeys Htasks.
    destruct (setup_one_request_sched_inv c0 i _ _ _ ltac:(lia) H1 Hinv Hq Hcnt Hkeys Htasks)
      as (? & ? & ? & ? & ?).
    apply (IH (i + 1) w1); [lia|lia|done..].
Qed.

Lemma drained_concat (w : World) : drained w -> concat (pipeline_stages w) = [].
Proof.
  unfold drained. induction (pipeline_stages w) as [|q qs IH]; [done|].
  intros [-> Hqs]%Forall_cons. simpl. by apply IH.
Qed.

Lemma SetupAndScheduleAllRequestsToStage0_sched_inv (req_list : list OrtReq)
    (resp_list0 : list OrtResp) (w0 w : World) :
  drained w0 ->
  Z.of_nat (length req_list) < 2 ^ 31 ->
  SetupAndScheduleAllRequestsToStage0 pcfg req_list (enter_run w0 resp_list0) = Some w ->
  sched_inv NDEBUG pcfg w.
Proof.
  intros Hd Hsize H. unfold SetupAndScheduleAllRequestsToStage0 in H.
  eapply (setup_loop_sched_inv _ (req_id_counter w0)); [done| |exact H| |done| | |].
  - lia.
  - split; [apply NoDup_nil_2|]. intros r f. simpl. by rewrite lookup_empty.
  - simpl. f_equal. lia.
  - intros r f. simpl. by rewrite lookup_empty.
  - simpl. intros t. change (pipeline_stages w0) with (pipeline_stages w0).
    rewrite (drained_concat w0 Hd). by intros ?%not_elem_of_nil.
Qed.
End SchedInvSetup.

(** ** The histories of the frames of a run *)

Section Adequacy.
Context `{rt : OrtRuntime}.
Variables (NDEBUG : bool) (pcfg : PipelineConfig) (num_steps : Z).
Hypothesis stages_pos : 0 < num_stages pcfg.
Hypothesis output_names_NoDup : forall s mcfg,
  model_config_vec pcfg !! s = Some mcfg -> NoDup (mc_output_names mcfg).

Lemma reachable_sched_inv (w : World) :
  reachable NDEBUG pcfg num_steps w -> sched_inv NDEBUG pcfg w.
Proof.
  induction 1 as [req_list resp_list0 w0 w Hd Hsize Hsetup|s w w' _ IH Hstep
                  |r rest n n' w w' _ IH Hq Hstep].
  - by eapply SetupAndScheduleAllRequestsToStage0_sched_inv.
  - by eapply worker_step_sched_inv.
  - by eapply process_token_sched_inv.
Qed.

(** Every closure that waits on a stage of a run finds its frame at that
    stage, with the history [stage_steps] tells: the stage has executed once
    for every step before the one of the token. *)
Lemma reachable_closure_history (w : World) (q : nat) (ts : list Task) (t : Task)
    (f : RequestExecutionFrame) :
  reachable NDEBUG pcfg num_steps w ->
  pipeline_stages w !! q = Some ts -> t ∈ ts ->
  req_frame_map w !! task_req t = Some f ->
  stage_id f = Z.of_nat (task_stage t) /\
  Z.of_nat (task_stage t) < num_stages pcfg /\
  stage_steps NDEBUG pcfg (carries_run pcfg (task_stage t)) (task_stage t)
    (tk_step_id (token f)) f /\
  carries_run pcfg (task_stage t) (tk_step_id (token f)) f.
Proof.
  intros [_ Hinv]%reachable_sched_inv Hq Ht Hf.
  pose proof (tasks_of_elem _ _ _ _ Hq Ht) as Hin.
  destruct (Hinv _ _ Hf) as [(_ & Htasks & Hh & Hc)|[_ [Htasks _]]].
  2:{ rewrite Htasks in Hin. by apply not_elem_of_nil in Hin. }
  rewrite Htasks in Hin. apply list_elem_of_singleton in Hin.
  destruct Hh as ((Hc0 & Hc1) & _ & Hsteps).
  assert (task_stage t = Z.to_nat (stage_id f)) as Hts by (by rewrite Hin).
  rewrite Hts. split; [lia|]. split; [lia|]. split; [|done].
  specialize (Hsteps (Z.to_nat (stage_id f))). unfold steps_done in Hsteps.
  rewrite bool_decide_eq_false_2, Z.add_0_r in Hsteps by lia. apply Hsteps. lia.
Qed.

(** Every token on its way back from a stage without an error has the
    history [stage_steps] tells: the stages up to that one have executed the
    step of the token, the later ones the steps before it. *)
Lemma reachable_returned_history (w : World) (r : Z) (f : RequestExecutionFrame)
    (s : nat) :
  reachable NDEBUG pcfg num_steps w ->
  r ∈ resp_queue w -> req_frame_map w !! r = Some f ->
  error_msg (token f) = "" ->
  Z.of_nat s < num_stages pcfg ->
  stage_steps NDEBUG pcfg (carries_run pcfg s) s
    (tk_step_id (token f) + if bool_decide (Z.of_nat s <= stage_id f) then 1 else 0) f.
Proof.
  intros [_ Hinv]%reachable_sched_inv Hr Hf Herr Hs.
  destruct (Hinv _ _ Hf) as [(Hn & _)|[_ [_ [?|Hh]]]]; [done..|].
  destruct Hh as (_ & _ & Hsteps). by apply Hsteps.
Qed.

(** In a pipeline whose first model reads the sequence length from dimension
    1 of the input ids or of the position ids, the tokens of the first stage
    carry what a decoding run carries. *)
Lemma reachable_first_stage_decoding (w : World) (r : Z) (f : RequestExecutionFrame) :
  reachable NDEBUG pcfg num_steps w ->
  decoding_config pcfg ->
  r ∈ resp_queue w -> req_frame_map w !! r = Some f ->
  error_msg (token f) = "" ->
  stage_steps NDEBUG pcfg (carries_decoding pcfg 0) 0 (tk_step_id (token f) + 1) f.
Proof.
  intros Hreach Hdec Hr Hf Herr.
  pose proof (reachable_returned_history w r f 0 Hreach Hr Hf Herr stages_pos) as Hsteps.
  destruct (reachable_sched_inv w Hreach) as [_ Hinv].
  destruct (Hinv _ _ Hf) as [(Hn & _)|[_ [_ [?|Hh]]]]; [done..|].
  destruct Hh as ((Hc & _) & _ & _).
  rewrite bool_decide_eq_true_2 in Hsteps by (simpl; lia).
  eapply stage_steps_mono; [|exact Hsteps].
  intros t' f' Hc'. apply Hc'; [done|by right].
Qed.

(** A call of [ProcessResponses] from a world of a run goes through worlds of
    the run, up to the one it returns from: with success, with a timeout, or
    with the status of a round of the loop. *)
Lemma ProcessResponses_reachable (sched : list SchedEvent) (num_reqs n : Z) (w : World)
    (result : OrtStatus * World) :
  reachable NDEBUG pcfg num_steps w ->
  ProcessResponses NDEBUG pcfg sched num_reqs num_steps n w = Some result ->
  exists w1, reachable NDEBUG pcfg num_steps w1 /\
    (result = (None, w1) \/
     HandleAndReturnFailure NDEBUG pcfg "Request processing timed out after 1000 ms"
       (log EvWaitAndPop w1) = Some result \/
     exists r rest n1,
       resp_queue w1 = r :: rest /\
       process_token NDEBUG pcfg num_steps r n1 (set_resp_queue rest (log EvWaitAndPop w1))
       = Some (Return result.1 result.2)).
Proof.
  revert n w. induction sched as [|[s|] sched IH]; intros n w Hreach; simpl;
    case_bool_decide as Hlt; try (intros ?; simplify_eq; exists w; split; [done|by left]).
  - intros H. exists w. split; [done|]. right. by left.
  - destruct (worker_step NDEBUG pcfg s w) as [w'|] eqn:Hstep; [|done]. simpl.
    apply IH. by eapply reach_worker.
  - destruct (resp_queue w) as [|r rest] eqn:Hq.
    { intros H. exists w. split; [done|]. right. by left. }
    destruct (process_token _ _ _ _ _ _) as [[st w'|n' w']|] eqn:Hstep; [| |done]; simpl.
    + intros ?; simplify_eq. exists w. split; [done|]. right. right.
      exists r, rest, n. split; [done|]. exact Hstep.
    + apply IH. eapply reach_orchestrator; [done..|]. exact Hstep.
Qed.
End Adequacy.

(** The run of [Example.request]: after the setup, the prefill on the stage
    and a round of the orchestrator, the request waits on stage 0 for step 1,
    and its frame has the history of a decoding run. *)
Lemma Example_reachable :
  exists w f,
    @reachable (Example.decoder 1) true Example.config 3 w /\
    pipeline_stages w = [[mkTask 0 1]] /\
    req_frame_map w !! 1 = Some f /\
    tk_step_id (token f) = 1 /\
    @stage_steps (Example.decoder 1) true Example.config
      (carries_run Example.config 0) 0 1 f.
Proof.
  assert (exists w, @reachable (Example.decoder 1) true Example.config 3 w /\
            pipeline_stages w = [[mkTask 0 1]] /\
            exists f, req_frame_map w !! 1 = Some f /\ tk_step_id (token f) = 1)
    as (w & Hreach & Hq & f & Hf & Ht).
  { eexists. split.
    - eapply (reach_orchestrator _ _ _ 1 [] 0).
      + eapply (reach_worker _ _ _ 0%nat).
        * eapply (reach_setup _ _ _ [Example.request] [Example.response] Example.world).
          -- by repeat constructor.
          -- reflexivity.
          -- vm_compute. reflexivity.
        * vm_compute. reflexivity.
      + vm_compute. reflexivity.
      + vm_compute. reflexivity.
    - split; [by vm_compute|]. eexists. split; [by vm_compute|]. by vm_compute. }
  exists w, f. split; [done|]. split; [done|]. split; [done|]. split; [done|].
  assert (forall s mcfg, model_config_vec Example.config !! s = Some mcfg ->
            NoDup (mc_output_names mcfg)) as Hnd.
  { intros [|[|s]] mcfg Hm; vm_compute in Hm; simplify_eq.
    apply NoDup_cons. split; [|apply NoDup_singleton].
    by intros ?%list_elem_of_singleton. }
  destruct (@reachable_closure_history (Example.decoder 1) true Example.config 3
              ltac:(by vm_compute) Hnd w 0 [mkTask 0 1] (mkTask 0 1) f Hreach)
    as (_ & _ & Hsteps & _).
  - by rewrite Hq.
  - apply list_elem_of_here.
  - done.
  - by rewrite Ht in Hsteps.
Qed.

(* ===================================================================== *)
(** * Part IV: the claims *)
(* ===================================================================== *)

(** Claim C3, as the code has it.  For a logits tensor of shape
    [[batch_size, seq_len, vocab]] with at least one time step, at least one
    vocabulary entry and fewer than [2 ^ 31] elements (the count is kept in
    an [int]), [GetNewInputIdsFromLogits] returns one id per
    batch lane; the id of lane [b] is the arg max of the slice
    [[b, seq_len-1, :]] under the comparison of the halves as floats, the
    lowest index winning a tie; [input_ids_shape] is [[batch_size, 1]]; and
    [are_all_input_ids_eos_tokens] is set exactly when the number of lanes
    whose id is [eos_token] equals [batch_size]. *)
Theorem GetNewInputIdsFromLogits_argmax (B S V eos : Z) (data : list Z) :
  0 <= B -> 1 <= S -> 1 <= V -> B * S * V < 2 ^ 31 ->
  Z.of_nat (length data) = B * S * V ->
  exists ids : list Z,
    GetNewInputIdsFromLogits B data [B; S; V] eos
    = Some (ids, [B; 1], bool_decide (count_eos eos ids = B)) /\
    Z.of_nat (length ids) = B /\
    forall b, 0 <= b < B ->
      exists i, ids !! Z.to_nat b = Some i /\ lane_argmax data S V b i.
Proof.
  intros HB HS HV Hsz Hlen. exists (lane_id data S V <$> seqZ 0 B).
  split; [by apply GetNewInputIdsFromLogits_lanes|]. split.
  - rewrite length_fmap, length_seqZ. lia.
  - intros b Hb. exists (lane_id data S V b). split.
    + rewrite list_lookup_fmap, lookup_seqZ_lt by lia. simpl. f_equal. f_equal. lia.
    + by apply (lane_id_argmax data B).
Qed.

Lemma GetNewInputIdsFromLogits_argmax_witness :
  exists ids : list Z,
    GetNewInputIdsFromLogits 2 [0; 0; 0; 15360; 16384; 16384; 0; 0; 0; 48128; 0; 32768]
      [2; 2; 3] 1
    = Some (ids, [2; 1], bool_decide (count_eos 1 ids = 2)) /\
    Z.of_nat (length ids) = 2 /\
    forall b, 0 <= b < 2 ->
      exists i, ids !! Z.to_nat b = Some i /\
        lane_argmax [0; 0; 0; 15360; 16384; 16384; 0; 0; 0; 48128; 0; 32768] 2 3 b i.
Proof.
  apply (GetNewInputIdsFromLogits_argmax 2 2 3 1
           [0; 0; 0; 15360; 16384; 16384; 0; 0; 0; 48128; 0; 32768]);
    [lia | lia | lia | lia | reflexivity].
Defined.

(** Claim C3, as stated for every logits tensor, fails: the number of elements
    is kept in an [int].  For logits of shape [[64, 1024, 50257]] it wraps to
    a negative number, the loop over the lanes is not entered, and no id is
    produced for the 64 lanes, whatever the logits are. *)
Lemma GetNewInputIdsFromLogits_large_tensor :
  exists B S V : Z, 1 <= B /\ 1 <= S /\ 1 <= V /\
    forall (data : list Z) (eos : Z),
      GetNewInputIdsFromLogits B data [B; S; V] eos = Some ([], [B; 1], false).
Proof.
  exists 64, 1024, 50257. split; [lia|]. split; [lia|]. split; [lia|].
  intros data eos. reflexivity.
Qed.

(** Claim C8.  When the request and response lists have different lengths, or
    some request slot has as many input names as it has not input values, or
    some response slot has as many output names as it has not output values,
    [Run] returns an [ORT_INVALID_ARGUMENT] status and leaves the world as it
    entered it: no request id, no frame, no closure on any stage, no model
    run (the events are those that were there before). *)
Theorem Run_invalid_argument `{rt : OrtRuntime} (NDEBUG : bool) (pcfg : PipelineConfig)
    (sched : list SchedEvent) (req_list : list OrtReq) (resp_list0 : list OrtResp)
    (num_steps : Z) (w0 : World) :
  length req_list <> length resp_list0 \/
  (exists i req, req_list !! i = Some req /\
      length (input_names req) <> length (input_values req)) \/
  (exists i resp, resp_list0 !! i = Some resp /\
      length (output_names resp) <> length (output_values resp)) ->
  exists msg w,
    Run NDEBUG pcfg sched req_list resp_list0 num_steps w0
    = Some (Some (ORT_INVALID_ARGUMENT, msg), w) /\
    req_frame_map w = ∅ /\
    pipeline_stages w = pipeline_stages w0 /\
    resp_list w = resp_list0 /\
    req_id_counter w = req_id_counter w0 /\
    events w = events w0.
Proof.
  intros Hbad. unfold Run.
  destruct (ValidateRequest req_list resp_list0) as [[code msg]|] eqn:Hv.
  - apply ValidateRequest_code in Hv as Hc. simpl in Hc. subst code.
    by exists msg, (enter_run w0 resp_list0).
  - apply ValidateRequest_None in Hv as (Hlen & Hreq & Hresp).
    destruct Hbad as [Hbad | [(i & req & Hi & Hbad) | (i & resp & Hi & Hbad)]].
    + done.
    + destruct Hbad. by apply (Forall_lookup_1 _ _ _ _ Hreq Hi).
    + destruct Hbad. by apply (Forall_lookup_1 _ _ _ _ Hresp Hi).
Qed.

Lemma Run_invalid_argument_witness :
  exists msg w,
    @Run (Example.decoder 1) true Example.config (Example.turns 3)
      [Example.request; Example.request; Example.request]
      [Example.response; Example.response] 3 Example.world
    = Some (Some (ORT_INVALID_ARGUMENT, msg), w) /\
    req_frame_map w = ∅ /\
    pipeline_stages w = pipeline_stages Example.world /\
    resp_list w = [Example.response; Example.response] /\
    req_id_counter w = req_id_counter Example.world /\
    events w = events Example.world.
Proof.
  apply (@Run_invalid_argument (Example.decoder 1)).
  left. simpl. lia.
Defined.

(** Claim C10.  With both lists empty, and whatever the number of steps and
    the schedule, [Run] returns success at once: the request id counter is
    where it was, the frame map is empty, no event (no request id, no frame,
    no closure, no wait on the response queue) is added, and the response list
    is the empty list it was given. *)
Theorem Run_empty_batch `{rt : OrtRuntime} (NDEBUG : bool) (pcfg : PipelineConfig)
    (sched : list SchedEvent) (num_steps : Z) (w0 : World) :
  Run NDEBUG pcfg sched [] [] num_steps w0 = Some (None, enter_run w0 []) /\
  req_frame_map (enter_run w0 []) = ∅ /\
  pipeline_stages (enter_run w0 []) = pipeline_stages w0 /\
  req_id_counter (enter_run w0 []) = req_id_counter w0 /\
  events (enter_run w0 []) = events w0 /\
  resp_list (enter_run w0 []) = [].
Proof.
  split; [|done]. unfold Run. simpl.
  destruct sched as [|[]]; reflexivity.
Qed.

(** Claim C9, on the code.  [Validate] accepts every configuration: the
    constructor goes on to [Init] also when a stage has more present output
    names than past input names. *)
Theorem Validate_accepts_unpaired_state_names :
  let mcfg := mkModelConfig "decoder" "decoder.onnx" "input_ids" 1 0 0 1 1 0 0
                ∅ ["past_0"] ["present_0"; "present_1"] [] [] in
  let pcfg := mkPipelineConfig 2 "input_ids" "position_ids" "logits" 16 [mcfg] 1 in
  length (past_input_names mcfg) <> length (present_output_names mcfg) /\
  Validate pcfg = true /\
  forall req_id : Z,
    @new_PipelineSession (Example.decoder 1) pcfg req_id
    = inr (@Init (Example.decoder 1) pcfg req_id).
Proof. split; [simpl; lia|]. split; [reflexivity|]. intros req_id. reflexivity. Qed.

(** Claim C7.  [CopyFinalOutput], for a token whose names and values go in
    pairs and a response slot whose names and values go in pairs: when every
    requested output name is among the names the token carries, it returns
    success, and each requested name (requested once) has received in the
    response slot the handle the token held under that name, the token being
    left with a null handle there; when some requested name is not carried, it
    returns what [HandleAndReturnFailure] returns for the message that this
    output is not produced by the final stage, namely an [ORT_FAIL] status with
    that message after every stage was drained.  The two cases exclude each
    other, so failure is returned if and only if a requested name is absent. *)
Theorem CopyFinalOutput_transfers_or_fails `{rt : OrtRuntime} (NDEBUG : bool)
    (pcfg : PipelineConfig) (token_ptr resp_idx : Z) (w : World)
    (f : RequestExecutionFrame) (slot : OrtResp) :
  req_frame_map w !! token_ptr = Some f ->
  vec_at (resp_list w) resp_idx = Some slot ->
  length (output_values slot) = length (output_names slot) ->
  length (ort_values (token f)) = length (ort_value_names (token f)) ->
  ((forall o, o ∈ output_names slot -> o ∈ ort_value_names (token f)) ->
   exists w' f' slot',
     CopyFinalOutput NDEBUG pcfg token_ptr resp_idx w = Some (None, w') /\
     req_frame_map w' !! token_ptr = Some f' /\
     vec_at (resp_list w') resp_idx = Some slot' /\
     output_names slot' = output_names slot /\
     (NoDup (output_names slot) ->
      forall i o, output_names slot !! i = Some o ->
        exists j h, Contains (ort_value_names (token f)) o = (true, j) /\
          ort_values (token f) !! Z.to_nat j = Some h /\
          output_values slot' !! i = Some h /\
          ort_values (token f') !! Z.to_nat j = Some None)) /\
  ((exists o, o ∈ output_names slot /\ o ∉ ort_value_names (token f)) ->
   exists o w1,
     o ∈ output_names slot /\ (o ∉ ort_value_names (token f)) /\
     CopyFinalOutput NDEBUG pcfg token_ptr resp_idx w
     = HandleAndReturnFailure NDEBUG pcfg (missing_output_message o) w1 /\
     forall st w',
       HandleAndReturnFailure NDEBUG pcfg (missing_output_message o) w1 = Some (st, w') ->
       st = Some (ORT_FAIL, missing_output_message o) /\ drained w').
Proof.
  intros Hf Hslot Hlo Hlt. unfold CopyFinalOutput. rewrite Hf, Hslot. simpl.
  destruct (CopyFinalOutput_loop_total (ort_value_names (token f)) (output_names slot) 0
              (ort_values (token f)) (output_values slot))
    as (missing & tvals' & outs' & Hloop & Hlt' & Hlo'); [done|lia|lia|].
  rewrite Hloop. simpl.
  pose proof (CopyFinalOutput_loop_missing _ _ _ _ _ _ _ _ Hloop) as Hm.
  apply vec_at_Some in Hslot as [Hidx Hslot].
  split.
  - intros Hall. destruct missing as [o|].
    { destruct Hm as [Ho Hno]. destruct Hno. by apply Hall. }
    eexists _, _, _. split; [done|]. simpl. rewrite lookup_insert_eq.
    split; [done|]. split.
    { apply vec_at_Some. split; [done|]. apply list_lookup_insert_eq.
      by eapply lookup_lt_Some. }
    split; [done|]. simpl. intros Hnd i o Hi.
    destruct (CopyFinalOutput_loop_transfer _ _ _ _ _ _ _ Hloop Hnd ltac:(lia))
      as (Hx & _ & _).
    destruct (Hx i o Hi) as (j & Hc & Ho & Ht). simpl in Ho.
    destruct (lookup_lt_is_Some_2 (ort_values (token f)) (Z.to_nat j)) as [h Hh].
    { rewrite Hlt. apply Contains_true in Hc as (_ & Hc & _). by eapply lookup_lt_Some. }
    exists j, h. by rewrite Ho, Hh.
  - intros (o & Ho & Hno). destruct missing as [m|].
    + destruct Hm as [Hm1 Hm2]. eexists m, _. split; [done|]. split; [done|].
      split; [done|]. intros st w' H.
      by apply HandleAndReturnFailure_world in H as (? & ? & _).
    + destruct Hno. by apply Hm.
Qed.

Lemma CopyFinalOutput_transfers_or_fails_witness :
  (exists w' f' slot',
     @CopyFinalOutput (Example.decoder 1) true Example.config 1 0
       (FinalToken.world_of Example.response) = Some (None, w') /\
     req_frame_map w' !! 1 = Some f' /\
     vec_at (resp_list w') 0 = Some slot' /\
     output_values slot' = [Some FinalToken.logits] /\
     ort_values (token f') = [None]) /\
  (exists o w1,
     @CopyFinalOutput (Example.decoder 1) true Example.config 1 0
       (FinalToken.world_of Example.response_with_scores)
     = @HandleAndReturnFailure (Example.decoder 1) true Example.config
         (missing_output_message o) w1 /\
     o = "scores").
Proof.
  split.
  - destruct (@CopyFinalOutput_transfers_or_fails (Example.decoder 1) true
                Example.config 1 0 (FinalToken.world_of Example.response)
                FinalToken.frame Example.response
                eq_refl eq_refl eq_refl eq_refl) as [Hok _].
    destruct Hok as (w' & f' & slot' & Hrun & Hf' & Hs' & _).
    + intros o Ho. apply list_elem_of_In in Ho. simpl in Ho.
      destruct Ho as [<-|[]]. apply list_elem_of_here.
    + exists w', f', slot'. split; [done|]. split; [done|]. split; [done|].
      vm_compute in Hrun. vm_compute in Hf'. vm_compute in Hs'.
      by simplify_eq.
  - destruct (@CopyFinalOutput_transfers_or_fails (Example.decoder 1) true
                Example.config 1 0 (FinalToken.world_of Example.response_with_scores)
                FinalToken.frame Example.response_with_scores
                eq_refl eq_refl eq_refl eq_refl) as [_ Hfail].
    destruct Hfail as (o & w1 & Ho & Hno & Hrun & _).
    + exists "scores". split.
      * apply list_elem_of_further, list_elem_of_here.
      * intros Hin. apply list_elem_of_In in Hin. simpl in Hin.
        destruct Hin as [?|[]]. done.
    + exists o, w1. split; [done|].
      apply list_elem_of_In in Ho. simpl in Ho.
      destruct Ho as [<-|[<-|[]]]; [|done].
      destruct Hno. apply list_elem_of_here.
Defined.






Example process_token_all_eos_run :
  exists w2,
    @process_token (Example.decoder 2) true Example.config 5 1 0 FinalToken.eos_world
    = Some (Continue 1 w2) /\
    req_frame_map w2 !! 1 = None /\
    pipeline_stages w2 = [[]] /\
    (output_values <$> resp_list w2) = [[Some FinalToken.eos_logits]].
Proof. eexists. split; [vm_compute; reflexivity|]. by vm_compute. Qed.

(** Claim C1.  Stage [s] has executed [t] times on a frame, once per step,
    and executes step [t] (the token carries step id [t]).  Then every output
    of the model that is a present output name, found at position [k] of
    [present_output_names], is bound to a view over buffer 2 of slot [k] when
    [t] is even and over buffer 1 when [t] is odd.  Hence, for every slot [k]
    whose past input is an input of the model that the token does not carry
    and whose present output is an output of the model, the tensor bound as
    the past input is the handle [output_val_map] kept from the execution
    before (from the constructor when [t] is 0) and lies in the other buffer
    of the pair: the two bound tensors are in different buffers. *)
Theorem ping_pong_state_buffers `{rt : OrtRuntime} (NDEBUG : bool)
    (pcfg : PipelineConfig) (s : nat) (mcfg : ModelConfig) (ort_resp : OrtResp)
    (t : Z) (f f' : RequestExecutionFrame) :
  model_config_vec pcfg !! s = Some mcfg ->
  NoDup (mc_output_names mcfg) ->
  NoDup (present_output_names mcfg) ->
  stage_steps NDEBUG pcfg carries_anything s t f ->
  stage_id f = Z.of_nat s ->
  tk_step_id (token f) = t ->
  ExecuteRequest NDEBUG mcfg s ort_resp f = Done tt f' ->
  exists rs rs',
    run_state_of f s = Some rs /\ run_state_of f' s = Some rs' /\
    (forall oname k,
       oname ∈ mc_output_names mcfg ->
       Contains (present_output_names mcfg) oname = (true, k) ->
       exists buf vout,
         (if bool_decide (Z.rem t 2 = 0)
          then vec_at (present_past_prealloc_buffer_2_vec rs') k
          else vec_at (present_past_prealloc_buffer_1_vec rs') k) = Some buf /\
         binding_of oname (bound_outputs (io_binding rs')) = Some (BoundValue vout) /\
         ov_mem vout = alloc_mem buf /\
         ov_mem vout = if bool_decide (Z.rem t 2 = 0)
                       then StateBuffer2 (req_id f) s (Z.to_nat k)
                       else StateBuffer1 (req_id f) s (Z.to_nat k)) /\
    (forall (k : nat) iname oname,
       past_input_names mcfg !! k = Some iname ->
       Contains (past_input_names mcfg) iname = (true, Z.of_nat k) ->
       present_output_names mcfg !! k = Some oname ->
       iname ∈ mc_input_names mcfg ->
       iname ∉ ort_value_names (token f) ->
       oname ∈ mc_output_names mcfg ->
       exists vin vout,
         output_val_map rs !! oname = Some (Some vin) /\
         binding_of iname (bound_inputs (io_binding rs')) = Some vin /\
         binding_of oname (bound_outputs (io_binding rs')) = Some (BoundValue vout) /\
         ov_mem vin = (if bool_decide (Z.rem t 2 = 0)
                       then StateBuffer1 (req_id f) s k
                       else StateBuffer2 (req_id f) s k) /\
         ov_mem vout = (if bool_decide (Z.rem t 2 = 0)
                        then StateBuffer2 (req_id f) s k
                        else StateBuffer1 (req_id f) s k) /\
         ov_mem vin <> ov_mem vout).
Proof.
  intros Hcfg Hnd_out Hnd_present Hsteps Hst Htok Hexec.
  destruct (stage_steps_buffers NDEBUG pcfg s mcfg Hcfg Hnd_out Hnd_present _ _ _ Hsteps)
    as (Ht & rs & Hrs & Hb1 & Hb2 & Hin).
  apply ExecuteRequest_Done in Hexec as (rs0 & s' & Hrs0 & Hbody & ->).
  assert (rs0 = rs) as ->.
  { apply vec_at_Some in Hrs0 as [_ Hrs0]. rewrite Hst, Nat2Z.id in Hrs0.
    unfold run_state_of in Hrs. congruence. }
  apply ExecuteRequest_body_Done in Hbody
    as (isl & p0 & pv & pd & shape & type & _ & _ & _ & _ & _ & Hbuf & _ & _ & _ & Hinp
        & Hout & _); [|done].
  simpl in Hbuf, Hinp, Hout. rewrite Htok in Hout.
  exists rs, (es_run_state s'). split; [done|].
  split; [by eapply store_exec_run_state|].
  assert (forall oname k,
            oname ∈ mc_output_names mcfg ->
            Contains (present_output_names mcfg) oname = (true, k) ->
            exists buf vout,
              output_state_buffer rs t k = Some buf /\
              binding_of oname (bound_outputs (io_binding (es_run_state s')))
              = Some (BoundValue vout) /\
              ov_mem vout = alloc_mem buf /\
              ov_mem vout = if bool_decide (Z.rem t 2 = 0)
                            then StateBuffer2 (req_id f) s (Z.to_nat k)
                            else StateBuffer1 (req_id f) s (Z.to_nat k)) as Houtputs.
  { intros oname k Ho Hk.
    destruct (Hout oname k Ho Hk) as (buf & v & Hob & Hbind & _).
    eexists buf, _. split; [done|]. split; [done|]. split; [done|]. simpl.
    revert Hob. unfold output_state_buffer.
    destruct (bool_decide (Z.rem t 2 = 0)); intros [_ Hl]%vec_at_Some; eauto. }
  split.
  - intros oname k Ho Hk. destruct (Houtputs oname k Ho Hk) as (buf & vout & Hob & ?).
    exists buf, vout. split; [|done]. revert Hob. unfold output_state_buffer.
    destruct Hbuf as (-> & -> & _). done.
  - intros k iname oname Hpast Hcpast Hpres Hi Hnc Ho.
    destruct (Hin k oname Hpres Ho) as (buf & vin & Hib & Hm & Hmem).
    destruct (Hinp iname Hi) as (v & Hv & Hbv).
    { by apply Contains_false. }
    { by rewrite Hcpast. }
    assert (v = vin) as ->.
    { revert Hv. unfold past_input_value. rewrite Hcpast. simpl.
      rewrite vec_at_of_nat, Hpres. simpl. rewrite Hm. simpl. congruence. }
    destruct (Houtputs oname (Z.of_nat k) Ho) as (obuf & vout & _ & Hbo & _ & Hvout).
    { by apply Contains_NoDup. }
    rewrite Nat2Z.id in Hvout.
    assert (ov_mem vin = if bool_decide (Z.rem t 2 = 0)
                         then StateBuffer1 (req_id f) s k
                         else StateBuffer2 (req_id f) s k) as Hvin.
    { rewrite Hmem. revert Hib. unfold input_state_buffer. rewrite !vec_at_of_nat.
      destruct (bool_decide (Z.rem t 2 = 0)); eauto. }
    exists vin, vout. split; [done|]. split; [done|]. split; [done|].
    split; [done|]. split; [done|].
    rewrite Hvin, Hvout. by destruct (bool_decide (Z.rem t 2 = 0)).
Qed.

Lemma ping_pong_state_buffers_witness :
  exists rs rs',
    run_state_of Decoding.step1_frame 0 = Some rs /\
    run_state_of Decoding.after_step1 0 = Some rs' /\
    (forall oname k,
       oname ∈ mc_output_names Decoding.stage ->
       Contains (present_output_names Decoding.stage) oname = (true, k) ->
       exists buf vout,
         (if bool_decide (Z.rem 1 2 = 0)
          then vec_at (present_past_prealloc_buffer_2_vec rs') k
          else vec_at (present_past_prealloc_buffer_1_vec rs') k) = Some buf /\
         binding_of oname (bound_outputs (io_binding rs')) = Some (BoundValue vout) /\
         ov_mem vout = alloc_mem buf /\
         ov_mem vout = if bool_decide (Z.rem 1 2 = 0)
                       then StateBuffer2 1 0 (Z.to_nat k)
                       else StateBuffer1 1 0 (Z.to_nat k)) /\
    (forall (k : nat) iname oname,
       past_input_names Decoding.stage !! k = Some iname ->
       Contains (past_input_names Decoding.stage) iname = (true, Z.of_nat k) ->
       present_output_names Decoding.stage !! k = Some oname ->
       iname ∈ mc_input_names Decoding.stage ->
       iname ∉ ort_value_names (token Decoding.step1_frame) ->
       oname ∈ mc_output_names Decoding.stage ->
       exists vin vout,
         output_val_map rs !! oname = Some (Some vin) /\
         binding_of iname (bound_inputs (io_binding rs')) = Some vin /\
         binding_of oname (bound_outputs (io_binding rs')) = Some (BoundValue vout) /\
         ov_mem vin = (if bool_decide (Z.rem 1 2 = 0)
                       then StateBuffer1 1 0 k else StateBuffer2 1 0 k) /\
         ov_mem vout = (if bool_decide (Z.rem 1 2 = 0)
                        then StateBuffer2 1 0 k else StateBuffer1 1 0 k) /\
         ov_mem vin <> ov_mem vout).
Proof.
  apply (@ping_pong_state_buffers (Example.decoder 1) true Example.config 0
           Decoding.stage Example.response 1 Decoding.step1_frame Decoding.after_step1).
  - reflexivity.
  - apply (bool_decide_unpack _). by vm_compute.
  - apply (bool_decide_unpack _). by vm_compute.
  - by apply Decoding_stage_steps.
  - reflexivity.
  - reflexivity.
  - by vm_compute.
Defined.

(** Claim C2.  Stage [s] has completed the steps 0 (the prefill), 1, ..., [t]
    on a frame, the token of the prefill carrying an input of the sequence
    length of the request and every later token an input of sequence length
    1.  Then the sequence length dimension of every tensor stored in the
    [output_val_map] of the stage is [orig_input_seq_len + t]. *)
Theorem state_sequence_length `{rt : OrtRuntime} (NDEBUG : bool)
    (pcfg : PipelineConfig) (s : nat) (mcfg : ModelConfig)
    (t : Z) (f : RequestExecutionFrame) (rs : RunState) :
  model_config_vec pcfg !! s = Some mcfg ->
  NoDup (mc_output_names mcfg) ->
  NoDup (present_output_names mcfg) ->
  (forall p, p ∈ present_output_names mcfg -> p ∈ mc_output_names mcfg) ->
  0 <= t ->
  0 <= orig_input_seq_len f ->
  orig_input_seq_len f + t < 2 ^ 31 ->
  stage_steps NDEBUG pcfg (carries_decoding pcfg s) s (t + 1) f ->
  run_state_of f s = Some rs ->
  forall oname h, output_val_map rs !! oname = Some h ->
    exists v, h = Some v /\
      vec_at (ov_shape v) (seq_len_dim_index_in_state mcfg)
      = Some (orig_input_seq_len f + t).
Proof.
  intros Hcfg Hnd_out Hnd_present Hsub Ht Horig Hbound Hsteps Hrs oname h Hh.
  destruct (stage_steps_seq_len NDEBUG pcfg s mcfg Hcfg Hnd_out Hnd_present _ _
              Hsteps Hsub Horig ltac:(lia)) as (rs' & Hrs' & _ & Hseq).
  assert (rs' = rs) as -> by congruence.
  destruct (Hseq _ _ Hh) as (_ & v & -> & Hv). exists v. split; [done|].
  rewrite Hv. f_equal. unfold state_seq_len.
  rewrite bool_decide_eq_false_2 by lia. lia.
Qed.

Lemma state_sequence_length_witness :
  exists rs, run_state_of Decoding.after_step1 0 = Some rs /\
    forall oname h, output_val_map rs !! oname = Some h ->
      exists v, h = Some v /\
        vec_at (ov_shape v) (seq_len_dim_index_in_state Decoding.stage) = Some (5 + 1).
Proof.
  eexists. split; [reflexivity|].
  apply (@state_sequence_length (Example.decoder 1) true Example.config 0
           Decoding.stage 1 Decoding.after_step1).
  - reflexivity.
  - apply (bool_decide_unpack _). by vm_compute.
  - apply (bool_decide_unpack _). by vm_compute.
  - intros p Hp. apply (bool_decide_unpack _).
    apply list_elem_of_In in Hp. simpl in Hp. destruct Hp as [<-|[]]. by vm_compute.
  - lia.
  - simpl. lia.
  - simpl. lia.
  - apply Decoding_stage_steps.
    + exists Decoding.stage. split; [reflexivity|]. by vm_compute.
    + exists Decoding.stage. split; [reflexivity|]. by vm_compute.
  - reflexivity.
Defined.

(** Claim C6, as the code has it.  When [Run] returns success (for a batch
    whose length fits an [int]), every response slot of the caller has been
    populated from the final token of its request: in the course of this run
    the orchestrator took from the response queue the token of the request of
    that slot, back without error from the last stage, at the last step or
    with logits that predict the EOS token in every lane; the slot holds what
    [CopyFinalOutput] wrote into the slot as passed from that very token, so
    that every output name it asks for (at its first occurrence) has the
    handle the token carried under that name.  A [Run] that fails promises
    nothing of the kind. *)
Theorem Run_success_populates_every_slot `{rt : OrtRuntime} (NDEBUG : bool)
    (pcfg : PipelineConfig) (sched : list SchedEvent) (req_list : list OrtReq)
    (resp_list0 : list OrtResp) (num_steps : Z) (w0 w : World) :
  Z.of_nat (length req_list) < 2 ^ 31 ->
  Run NDEBUG pcfg sched req_list resp_list0 num_steps w0 = Some (None, w) ->
  exists w_setup,
    SetupAndScheduleAllRequestsToStage0 pcfg req_list (enter_run w0 resp_list0)
    = Some w_setup /\
    forall i slot0, resp_list0 !! i = Some slot0 ->
      exists slot tok,
        resp_list w !! i = Some slot /\
        finished_with NDEBUG pcfg sched (Z.of_nat (length req_list)) num_steps w_setup
          i tok /\
        populated_from tok slot0 slot /\
        forall k o, output_names slot0 !! k = Some o ->
          o ∉ take k (output_names slot0) ->
          exists j, Contains (ort_value_names tok) o = (true, j) /\
            output_values slot !! k = ort_values tok !! Z.to_nat j.
Proof.
  intros Hsize Hrun. unfold Run in Hrun.
  destruct (ValidateRequest req_list resp_list0) as [st|] eqn:Hv; [done|].
  apply ValidateRequest_None in Hv as (Hlen & _ & _).
  destruct (SetupAndScheduleAllRequestsToStage0 _ _ _) as [w1|] eqn:Hsetup; [|done].
  cbn [mbind option_bind] in Hrun. rewrite to_int_id in Hrun by lia.
  exists w1. split; [done|]. intros i slot0 Hi.
  apply (SetupAndScheduleAllRequestsToStage0_progress pcfg
           (finished_with NDEBUG pcfg sched (Z.of_nat (length req_list)) num_steps w1))
    in Hsetup; [|done..].
  apply (ProcessResponses_finished NDEBUG pcfg resp_list0 _ num_steps sched w1 sched [])
    in Hrun; [|done..].
  destruct Hrun as (n' & Hn' & fin & Hfin & Hpop & _ & _ & _).
  assert (fin ⊆ set_seq 0 (length resp_list0)) as Hsub.
  { intros k Hk. destruct (Hpop k Hk) as (s0 & _ & _ & Hs0 & _).
    apply elem_of_set_seq. apply lookup_lt_Some in Hs0. lia. }
  assert (fin = set_seq 0 (length resp_list0)) as ->.
  { apply set_subseteq_size_eq; [done|]. rewrite size_set_seq. lia. }
  destruct (Hpop i) as (s0 & s1 & tok & Hs0 & Hs1 & Hfw & Hp).
  { apply elem_of_set_seq. apply lookup_lt_Some in Hi. lia. }
  assert (s0 = slot0) as -> by congruence.
  exists s1, tok. split; [done|]. split; [done|]. split; [done|].
  intros k o Hk Hfirst. destruct Hp as (tv & Hloop & _ & _).
  apply CopyFinalOutput_loop_entries in Hloop as [Hx _]; [|done].
  destruct (Hx k o Hk) as (j & Hc & Ho). exists j. split; [done|].
  rewrite bool_decide_eq_false_2 in Ho by done. exact Ho.
Qed.

Lemma Run_success_populates_every_slot_witness :
  exists w w_setup,
    @Run (Example.decoder 1) true Example.config (Example.turns 3)
      [Example.request] [Example.response] 3 Example.world = Some (None, w) /\
    @SetupAndScheduleAllRequestsToStage0 (Example.decoder 1) Example.config
      [Example.request] (enter_run Example.world [Example.response]) = Some w_setup /\
    forall i slot0, [Example.response] !! i = Some slot0 ->
      exists slot tok,
        resp_list w !! i = Some slot /\
        @finished_with (Example.decoder 1) true Example.config (Example.turns 3) 1 3
          w_setup i tok /\
        populated_from tok slot0 slot.
Proof.
  destruct (@Run (Example.decoder 1) true Example.config (Example.turns 3)
              [Example.request] [Example.response] 3 Example.world)
    as [[[e|] w]|] eqn:H; [by vm_compute in H| |by vm_compute in H].
  destruct (@Run_success_populates_every_slot (Example.decoder 1) true Example.config
              (Example.turns 3) [Example.request] [Example.response] 3 Example.world w
              eq_refl H) as (w_setup & Hsetup & Hslots).
  exists w, w_setup. split; [reflexivity|]. split; [exact Hsetup|].
  intros i slot0 Hi. destruct (Hslots i slot0 Hi) as (slot & tok & H1 & H2 & H3 & _).
  exists slot, tok. split; [exact H1|]. split; [exact H2|exact H3].
Defined.

(** Claim C6, as stated, fails.  In a batch of two requests the first one
    finishes and has its slot populated; the second one asks for an output the
    final stage does not produce, [Run] fails, and the response slots are not
    what the caller passed. *)
Lemma Run_failure_exposes_outputs : ~ failure_leaves_slots_unchanged.
Proof.
  intros Hclaim.
  destruct (@Run (Example.decoder 1) true Example.config (Example.turns 2)
              [Example.request; Example.request]
              [Example.response; Example.response_with_scores] 1 Example.world)
    as [[[st|] w]|] eqn:Hrun; try (by vm_compute in Hrun).
  pose proof (Hclaim _ _ _ _ _ _ _ _ _ _ Hrun) as Hsame.
  vm_compute in Hrun. simplify_eq.
Qed.

(* ===================================================================== *)
(** * Part V: further properties of the program *)
(* ===================================================================== *)

(** ** [Contains] *)

(** Property X1.  [Contains] returns [(true, k)] with [k] the index of the
    first occurrence of [to_find], and [(false, -1)] exactly when [to_find]
    does not occur. *)
Theorem Contains_first_occurrence (vec : list string) (to_find : string) :
  match Contains vec to_find with
  | (true, k) =>
      0 <= k < Z.of_nat (length vec) /\ vec !! Z.to_nat k = Some to_find /\
      forall j, (j < Z.to_nat k)%nat -> vec !! j <> Some to_find
  | (false, k) => k = -1 /\ to_find ∉ vec
  end.
Proof.
  destruct (Contains vec to_find) as [[] k] eqn:Hc.
  - apply Contains_true in Hc as (Hk & Hat & Hfirst).
    split; [|split; [done|]].
    + apply lookup_lt_Some in Hat. lia.
    + intros j Hj Hj'. by eapply Hfirst.
  - split.
    + unfold Contains in Hc. destruct (find_index vec to_find); by simplify_eq.
    + apply Contains_false. by rewrite Hc.
Qed.

(** ** [ValidateRequest] *)

(** Property X2.  [ValidateRequest] returns no status exactly when the two
    lists have the same length and every slot has as many names as values;
    every status it returns is [ORT_INVALID_ARGUMENT]. *)
Theorem ValidateRequest_accepts_iff (req_list : list OrtReq) (resp_list0 : list OrtResp) :
  (ValidateRequest req_list resp_list0 = None <->
   length req_list = length resp_list0 /\
   Forall request_slot_ok req_list /\ Forall response_slot_ok resp_list0) /\
  (forall st, ValidateRequest req_list resp_list0 = Some st -> st.1 = ORT_INVALID_ARGUMENT).
Proof.
  split; [apply ValidateRequest_None|]. intros st. apply ValidateRequest_code.
Qed.

Lemma ValidateRequest_loop_first (reqs : list OrtReq) (resps : list OrtResp) (k : Z)
    (i : nat) (req : OrtReq) (resp : OrtResp) :
  reqs !! i = Some req -> resps !! i = Some resp ->
  (forall j r, (j < i)%nat -> reqs !! j = Some r -> request_slot_ok r) ->
  (forall j r, (j < i)%nat -> resps !! j = Some r -> response_slot_ok r) ->
  ~ (request_slot_ok req /\ response_slot_ok resp) ->
  ValidateRequest_loop k reqs resps
  = Some (ORT_INVALID_ARGUMENT,
          if bool_decide (length (input_names req) = length (input_values req))
          then "Size of response names and OrtValues differ for index "
               +:+ pretty (k + Z.of_nat i)
          else "Size of request names and OrtValues differ for index "
               +:+ pretty (k + Z.of_nat i)).
Proof.
  revert resps k i.
  induction reqs as [|r reqs IH]; intros resps k i Hreq Hresp Hreqs Hresps Hbad; [done|].
  destruct resps as [|p resps]; [done|]. simpl.
  destruct i as [|i]; simpl in Hreq, Hresp.
  - simplify_eq. rewrite Z.add_0_r. unfold request_slot_ok, response_slot_ok in Hbad.
    case_bool_decide as H1; simpl; [|done].
    rewrite bool_decide_eq_false_2; [done|]. intros H2. apply Hbad. by split.
  - rewrite bool_decide_eq_true_2 by (apply (Hreqs 0%nat); [lia|done]). simpl.
    rewrite bool_decide_eq_true_2
      by (symmetry; apply (Hresps 0%nat p); [lia|done]). simpl.
    rewrite (IH resps (k + 1) i); [|done..| | |done].
    + by replace (k + 1 + Z.of_nat i) with (k + Z.of_nat (S i)) by lia.
    + intros j r' Hj. apply (Hreqs (S j)). lia.
    + intros j r' Hj. apply (Hresps (S j)). lia.
Qed.

(** Property X3.  When the lists have the same length, [ValidateRequest]
    reports the first index at which a slot has not as many names as values,
    the request slot being checked before the response slot. *)
Theorem ValidateRequest_first_mismatch (req_list : list OrtReq)
    (resp_list0 : list OrtResp) (i : nat) (req : OrtReq) (resp : OrtResp) :
  length req_list = length resp_list0 ->
  req_list !! i = Some req -> resp_list0 !! i = Some resp ->
  (forall j r, (j < i)%nat -> req_list !! j = Some r -> request_slot_ok r) ->
  (forall j r, (j < i)%nat -> resp_list0 !! j = Some r -> response_slot_ok r) ->
  ~ (request_slot_ok req /\ response_slot_ok resp) ->
  ValidateRequest req_list resp_list0
  = Some (ORT_INVALID_ARGUMENT,
          if bool_decide (request_slot_ok req)
          then "Size of response names and OrtValues differ for index "
               +:+ pretty (Z.of_nat i)
          else "Size of request names and OrtValues differ for index "
               +:+ pretty (Z.of_nat i)).
Proof.
  intros Hlen Hreq Hresp Hreqs Hresps Hbad. unfold ValidateRequest.
  rewrite bool_decide_eq_true_2 by done. simpl.
  by rewrite (ValidateRequest_loop_first _ _ 0 i req resp).
Qed.

Lemma ValidateRequest_first_mismatch_witness :
  ValidateRequest
    [Example.request; mkOrtReq ["input_ids"] []]
    [Example.response; mkOrtResp ["logits"] [] []]
  = Some (ORT_INVALID_ARGUMENT, "Size of request names and OrtValues differ for index 1").
Proof.
  apply (ValidateRequest_first_mismatch _ _ 1 (mkOrtReq ["input_ids"] [])
           (mkOrtResp ["logits"] [] [])); [done..| | |].
  - intros [|j] r Hj Hr; [|lia]. simpl in Hr. simplify_eq. done.
  - intros [|j] r Hj Hr; [|lia]. simpl in Hr. simplify_eq. done.
  - intros [H _]. unfold request_slot_ok in H. simpl in H. lia.
Defined.

(** ** The constructor of the frame *)

Lemma make_run_state_parts `{rt : OrtRuntime} (pcfg : PipelineConfig) (req batch : Z)
    (idx : nat) (mcfg : ModelConfig) (rs : RunState) :
  make_run_state pcfg req batch idx mcfg = Some rs ->
  exists past0 sh shape_b shape_max shape0,
    past_input_names mcfg !! 0%nat = Some past0 /\
    GetShape idx (Contains (mc_input_names mcfg) past0).2 true = Some sh /\
    vec_set sh (batch_dim_index_in_state mcfg) batch = Some shape_b /\
    vec_set shape_b (seq_len_dim_index_in_state mcfg) (max_seq_len pcfg) = Some shape_max /\
    vec_set shape_max (seq_len_dim_index_in_state mcfg) 0 = Some shape0 /\
    present_past_prealloc_buffer_1_vec rs
    = prealloc_buffers (StateBuffer1 req idx) (length (past_input_names mcfg))
        (size_to_allocate shape_max) /\
    present_past_prealloc_buffer_2_vec rs
    = prealloc_buffers (StateBuffer2 req idx) (length (past_input_names mcfg))
        (size_to_allocate shape_max) /\
    init_output_states (present_past_prealloc_buffer_1_vec rs) shape0 0
      (present_output_names mcfg) ∅ = Some (output_val_map rs) /\
    (if bool_decide (Z.of_nat idx < num_stages pcfg - 1) then
       list_to_map <$>
         mapM (fun kv : string * string =>
                 a ← inter_stage_allocation pcfg req idx mcfg batch kv.1;
                 Some (kv.1, a))
              (map_to_list (inter_stage_output_input_map mcfg))
     else Some ∅) = Some (inter_stage_output_prealloc_buffer_map rs) /\
    io_binding rs = mkIoBinding [] [].
Proof.
  intros H. unfold make_run_state in H.
  destruct (past_input_names mcfg !! 0%nat) as [past0|] eqn:Hp; [|done].
  cbn [mbind option_bind] in H.
  destruct (GetShape idx _ true) as [sh|] eqn:Hsh; [|done].
  cbn [mbind option_bind] in H.
  destruct (vec_set sh _ batch) as [shape_b|] eqn:Hb; [|done].
  cbn [mbind option_bind] in H.
  destruct (vec_set shape_b _ _) as [shape_max|] eqn:Hmax; [|done].
  cbn [mbind option_bind] in H.
  destruct (vec_set shape_max _ 0) as [shape0|] eqn:Hs0; [|done].
  cbn [mbind option_bind] in H.
  destruct (init_output_states _ _ _ _ _) as [ovm|] eqn:Hinit; [|done].
  cbn [mbind option_bind] in H.
  destruct (if bool_decide _ then _ else _) as [inter|] eqn:Hinter; [|done].
  cbn [mbind option_bind] in H.
  simplify_eq. simpl. exists past0, sh, shape_b, shape_max, shape0.
  repeat (split; [done|]). done.
Qed.

Lemma prealloc_buffers_length (mk : nat -> MemId) (n : nat) (size : Z) :
  length (prealloc_buffers mk n size) = n.
Proof. unfold prealloc_buffers. by rewrite length_fmap, length_seq. Qed.

Lemma prealloc_buffers_size (mk : nat -> MemId) (n : nat) (size : Z) (k : nat)
    (buf : MemoryAllocation) :
  prealloc_buffers mk n size !! k = Some buf -> alloc_size buf = size.
Proof.
  unfold prealloc_buffers. rewrite list_lookup_fmap.
  destruct (seq 0 n !! k); simpl; by intros ?; simplify_eq.
Qed.

Lemma new_RequestExecutionFrame_run_state `{rt : OrtRuntime} (pcfg : PipelineConfig)
    (req_idx req batch orig st : Z) (f : RequestExecutionFrame) (s : nat)
    (mcfg : ModelConfig) :
  new_RequestExecutionFrame pcfg req_idx req batch orig st = Some f ->
  model_config_vec pcfg !! s = Some mcfg ->
  exists rs, run_state_of f s = Some rs /\
    make_run_state pcfg req batch s mcfg = Some rs.
Proof.
  unfold new_RequestExecutionFrame.
  destruct (make_run_states _ _ _ _ _) as [rss|] eqn:Hrss; [|done]. simpl.
  intros ? Hm; simplify_eq.
  destruct (make_run_states_lookup _ _ _ _ _ _ _ _ Hrss Hm) as (rs & Hrs & Hmake).
  by exists rs.
Qed.

(** Property X4.  A frame that the constructor returns holds, for every stage,
    one buffer 1 and one buffer 2 per past input name, each an allocation of
    its own, all of the byte size of the shape of the first past input with
    the batch dimension set to the batch size and the sequence dimension to
    [max_seq_len], as halves; the I/O binding of the stage is empty. *)
Theorem new_frame_state_buffers `{rt : OrtRuntime} (pcfg : PipelineConfig)
    (req_idx req batch orig st : Z) (f : RequestExecutionFrame) (s : nat)
    (mcfg : ModelConfig) :
  new_RequestExecutionFrame pcfg req_idx req batch orig st = Some f ->
  model_config_vec pcfg !! s = Some mcfg ->
  exists rs past0 sh shape_b shape_max,
    run_state_of f s = Some rs /\
    past_input_names mcfg !! 0%nat = Some past0 /\
    GetShape s (Contains (mc_input_names mcfg) past0).2 true = Some sh /\
    vec_set sh (batch_dim_index_in_state mcfg) batch = Some shape_b /\
    vec_set shape_b (seq_len_dim_index_in_state mcfg) (max_seq_len pcfg) = Some shape_max /\
    length (present_past_prealloc_buffer_1_vec rs) = length (past_input_names mcfg) /\
    length (present_past_prealloc_buffer_2_vec rs) = length (past_input_names mcfg) /\
    (forall k b1, present_past_prealloc_buffer_1_vec rs !! k = Some b1 ->
       alloc_mem b1 = StateBuffer1 req s k /\
       alloc_size b1 = to_int (2 * accumulate_multiplies shape_max)) /\
    (forall k b2, present_past_prealloc_buffer_2_vec rs !! k = Some b2 ->
       alloc_mem b2 = StateBuffer2 req s k /\
       alloc_size b2 = to_int (2 * accumulate_multiplies shape_max)) /\
    io_binding rs = mkIoBinding [] [].
Proof.
  intros Hnew Hm.
  destruct (new_RequestExecutionFrame_run_state _ _ _ _ _ _ _ _ _ Hnew Hm)
    as (rs & Hrs & Hmake).
  apply make_run_state_parts in Hmake
    as (past0 & sh & shape_b & shape_max & shape0 & Hp & Hsh & Hb & Hmax & _ &
        H1 & H2 & _ & _ & Hio).
  exists rs, past0, sh, shape_b, shape_max. rewrite H1, H2.
  rewrite !prealloc_buffers_length.
  repeat (split; [done|]). split; [|split; [|done]].
  - intros k b Hk. split; [by eapply prealloc_buffers_lookup|].
    by eapply prealloc_buffers_size.
  - intros k b Hk. split; [by eapply prealloc_buffers_lookup|].
    by eapply prealloc_buffers_size.
Qed.

Lemma new_frame_state_buffers_witness :
  exists rs past0 sh shape_b shape_max,
    run_state_of Decoding.new_frame 0 = Some rs /\
    past_input_names Decoding.stage !! 0%nat = Some past0 /\
    @GetShape (Example.decoder 1) 0 (Contains (mc_input_names Decoding.stage) past0).2 true
    = Some sh /\
    vec_set sh (batch_dim_index_in_state Decoding.stage) 2 = Some shape_b /\
    vec_set shape_b (seq_len_dim_index_in_state Decoding.stage)
      (max_seq_len Example.config) = Some shape_max /\
    length (present_past_prealloc_buffer_1_vec rs)
    = length (past_input_names Decoding.stage) /\
    length (present_past_prealloc_buffer_2_vec rs)
    = length (past_input_names Decoding.stage) /\
    (forall k b1, present_past_prealloc_buffer_1_vec rs !! k = Some b1 ->
       alloc_mem b1 = StateBuffer1 1 0 k /\
       alloc_size b1 = to_int (2 * accumulate_multiplies shape_max)) /\
    (forall k b2, present_past_prealloc_buffer_2_vec rs !! k = Some b2 ->
       alloc_mem b2 = StateBuffer2 1 0 k /\
       alloc_size b2 = to_int (2 * accumulate_multiplies shape_max)) /\
    io_binding rs = mkIoBinding [] [].
Proof.
  apply (@new_frame_state_buffers (Example.decoder 1) Example.config 0 1 2 5 0
           Decoding.new_frame 0 Decoding.stage); by vm_compute.
Defined.

(** Property X5.  In a frame that the constructor returns, the
    [output_val_map] of a stage whose present output names are all different
    has an entry exactly for these names: a half-precision view over buffer 1
    of the slot of the name, with a sequence length of 0. *)
Theorem new_frame_initial_states `{rt : OrtRuntime} (pcfg : PipelineConfig)
    (req_idx req batch orig st : Z) (f : RequestExecutionFrame) (s : nat)
    (mcfg : ModelConfig) :
  new_RequestExecutionFrame pcfg req_idx req batch orig st = Some f ->
  model_config_vec pcfg !! s = Some mcfg ->
  NoDup (present_output_names mcfg) ->
  exists rs, run_state_of f s = Some rs /\
    (forall n, is_Some (output_val_map rs !! n) <-> n ∈ present_output_names mcfg) /\
    forall k n, present_output_names mcfg !! k = Some n ->
      exists v, output_val_map rs !! n = Some (Some v) /\
        ov_mem v = StateBuffer1 req s k /\ ov_type v = FLOAT16 /\
        vec_at (ov_shape v) (seq_len_dim_index_in_state mcfg) = Some 0 /\
        vec_at (ov_shape v) (batch_dim_index_in_state mcfg)
        = (if bool_decide (batch_dim_index_in_state mcfg = seq_len_dim_index_in_state mcfg)
           then Some 0 else Some batch).
Proof.
  intros Hnew Hm Hnd.
  destruct (new_RequestExecutionFrame_run_state _ _ _ _ _ _ _ _ _ Hnew Hm)
    as (rs & Hrs & Hmake).
  exists rs. split; [done|].
  apply make_run_state_parts in Hmake
    as (past0 & sh & shape_b & shape_max & shape0 & _ & _ & Hb & Hmax & Hs0 &
        H1 & _ & Hinit & _ & _).
  apply init_output_states_Some in Hinit as [Hout Hin]; [|done].
  split.
  - intros n. split.
    + intros Hn. destruct (decide (n ∈ present_output_names mcfg)); [done|].
      rewrite Hout, lookup_empty in Hn by done. by destruct Hn.
    + intros (k & Hk)%list_elem_of_lookup_1. destruct (Hin k n Hk) as (buf & _ & Hn).
      eexists. exact Hn.
  - intros k n Hk. destruct (Hin k n Hk) as (buf & Hbuf & Hn). simpl in Hbuf.
    eexists. split; [exact Hn|]. simpl.
    rewrite H1 in Hbuf. split; [by eapply prealloc_buffers_lookup|]. split; [done|].
    split; [by eapply vec_set_lookup|].
    apply vec_set_Some in Hb as [Hb1 ->]. apply vec_set_Some in Hmax as [Hm1 ->].
    apply vec_set_Some in Hs0 as [Hs1 ->]. rewrite !length_insert in *.
    unfold vec_at. rewrite bool_decide_eq_true_2 by lia.
    case_bool_decide as Heq.
    + rewrite Heq. apply list_lookup_insert_eq. rewrite !length_insert. lia.
    + rewrite !list_lookup_insert_ne by lia.
      apply list_lookup_insert_eq. lia.
Qed.

Lemma new_frame_initial_states_witness :
  exists rs, run_state_of Decoding.new_frame 0 = Some rs /\
    (forall n, is_Some (output_val_map rs !! n) <-> n ∈ present_output_names Decoding.stage) /\
    forall k n, present_output_names Decoding.stage !! k = Some n ->
      exists v, output_val_map rs !! n = Some (Some v) /\
        ov_mem v = StateBuffer1 1 0 k /\ ov_type v = FLOAT16 /\
        vec_at (ov_shape v) (seq_len_dim_index_in_state Decoding.stage) = Some 0 /\
        vec_at (ov_shape v) (batch_dim_index_in_state Decoding.stage)
        = (if bool_decide (batch_dim_index_in_state Decoding.stage
                           = seq_len_dim_index_in_state Decoding.stage)
           then Some 0 else Some 2).
Proof.
  apply (@new_frame_initial_states (Example.decoder 1) Example.config 0 1 2 5 0
           Decoding.new_frame 0 Decoding.stage); [by vm_compute..|].
  apply NoDup_singleton.
Defined.

Lemma mapM_keys {A B : Type} (g : string * A -> option (string * B))
    (l : list (string * A)) (k : list (string * B)) :
  (forall kv y, g kv = Some y -> y.1 = kv.1) ->
  mapM g l = Some k -> k.*1 = l.*1.
Proof.
  intros Hg H. apply mapM_Some_1 in H. induction H as [|x y l k Hxy _ IH]; [done|].
  rewrite !fmap_cons. by rewrite IH, (Hg x y Hxy).
Qed.

(** Property X8.  In a frame that the constructor returns, a stage before the
    last one holds one preallocated buffer for every output named in its
    [inter_stage_output_input_map], an allocation of its own; the last stage
    (any stage from [num_stages - 1] on) holds none. *)
Theorem new_frame_inter_stage_buffers `{rt : OrtRuntime} (pcfg : PipelineConfig)
    (req_idx req batch orig st : Z) (f : RequestExecutionFrame) (s : nat)
    (mcfg : ModelConfig) :
  new_RequestExecutionFrame pcfg req_idx req batch orig st = Some f ->
  model_config_vec pcfg !! s = Some mcfg ->
  exists rs, run_state_of f s = Some rs /\
    dom (inter_stage_output_prealloc_buffer_map rs)
    = (if bool_decide (Z.of_nat s < num_stages pcfg - 1)
       then dom (inter_stage_output_input_map mcfg) else ∅) /\
    forall oname a, inter_stage_output_prealloc_buffer_map rs !! oname = Some a ->
      alloc_mem a = InterStageBuffer req s oname.
Proof.
  intros Hnew Hm.
  destruct (new_RequestExecutionFrame_run_state _ _ _ _ _ _ _ _ _ Hnew Hm)
    as (rs & Hrs & Hmake).
  exists rs. split; [done|].
  apply make_run_state_parts in Hmake
    as (past0 & sh & shape_b & shape_max & shape0 & _ & _ & _ & _ & _ &
        _ & _ & _ & Hinter & _).
  case_bool_decide as Hlast.
  2:{ simplify_eq. rewrite <-Hinter. split; [apply dom_empty_L|].
      intros oname a. by rewrite lookup_empty. }
  destruct (mapM _ _) as [k|] eqn:Hk; [|done]. simpl in Hinter. simplify_eq.
  rewrite <-Hinter. split.
  - rewrite dom_list_to_map_L.
    assert (k.*1 = (map_to_list (inter_stage_output_input_map mcfg)).*1) as ->.
    { eapply mapM_keys; [|exact Hk]. intros kv y Hy. simpl in Hy.
      destruct (inter_stage_allocation _ _ _ _ _ _); simpl in Hy; by simplify_eq. }
    symmetry. apply leibniz_equiv, dom_alt.
  - intros oname a Ha. apply elem_of_list_to_map_2 in Ha.
    apply mapM_Some_1 in Hk.
    apply list_elem_of_lookup_1 in Ha as (i & Hi).
    destruct (Forall2_lookup_r _ _ _ _ _ Hk Hi) as (kv & _ & Hkv).
    destruct (inter_stage_allocation _ _ _ _ _ _) as [a'|] eqn:Ha'; [|done].
    simpl in Hkv. simplify_eq. unfold inter_stage_allocation in Ha'.
    destruct (GetShape _ _ _); [|done]. simpl in Ha'.
    destruct (vec_set _ _ _); [|done]. simpl in Ha'.
    destruct (vec_set _ _ _); [|done]. simpl in Ha'. by simplify_eq.
Qed.

Lemma new_frame_inter_stage_buffers_witness :
  exists rs, run_state_of Decoding.new_frame 0 = Some rs /\
    dom (inter_stage_output_prealloc_buffer_map rs)
    = (if bool_decide (Z.of_nat 0 < num_stages Example.config - 1)
       then dom (inter_stage_output_input_map Decoding.stage) else ∅) /\
    forall oname a, inter_stage_output_prealloc_buffer_map rs !! oname = Some a ->
      alloc_mem a = InterStageBuffer 1 0 oname.
Proof.
  apply (@new_frame_inter_stage_buffers (Example.decoder 1) Example.config 0 1 2 5 0
           Decoding.new_frame 0 Decoding.stage); by vm_compute.
Defined.

(** ** [ExecuteRequest] *)

(** Property X9.  [ExecuteRequest] does not return for a token that does not
    carry the input named by [input_to_use_for_seq_len]: it throws (at the
    latest where that input is looked up) or crashes before. *)
Theorem ExecuteRequest_needs_seq_len_input `{rt : OrtRuntime} (NDEBUG : bool)
    (mcfg : ModelConfig) (sess : nat) (ort_resp : OrtResp)
    (f f' : RequestExecutionFrame) :
  input_to_use_for_seq_len mcfg ∉ ort_value_names (token f) ->
  ExecuteRequest NDEBUG mcfg sess ort_resp f <> Done tt f'.
Proof.
  intros Hmiss%Contains_false Hdone.
  apply ExecuteRequest_Done in Hdone as (rs & s' & _ & H & _).
  unfold ExecuteRequest_body in H.
  apply bindM_Done in H as (s0' & s1 & [-> ->]%get_Done & H).
  apply bindM_Done in H as ([] & s1 & ->%modify_Done & H).
  apply bindM_Done in H as ([] & s1 & ->%modify_Done & H).
  apply bindM_Done in H as ([] & s1 & ->%modify_Done & H).
  apply bindM_Done in H as ([] & s1 & _ & H).
  simpl in H.
  destruct (Contains (ort_value_names (token f)) (input_to_use_for_seq_len mcfg))
    as [[] jc]; [done|]. simpl in H.
  by apply bindM_Done in H as (? & ? & ? & _).
Qed.

Lemma ExecuteRequest_needs_seq_len_input_witness :
  @ExecuteRequest (Example.decoder 1) true Decoding.stage 0 Example.response
    Decoding.new_frame
  <> Done tt Decoding.after_prefill.
Proof.
  apply (@ExecuteRequest_needs_seq_len_input (Example.decoder 1)).
  vm_compute. apply not_elem_of_nil.
Defined.

Lemma harvest_outputs_token `{rt : OrtRuntime} (NDEBUG : bool) (mcfg : ModelConfig)
    (vec_out_vals : list OrtValueHandle) (onames : list string) (i : Z)
    (s s' : ExecState) :
  for_each_indexed i onames (harvest_one_output NDEBUG mcfg vec_out_vals) s = Done tt s' ->
  ort_value_names (es_token s')
  = ort_value_names (es_token s) ++ omap (handed_on mcfg) onames /\
  length (ort_values (es_token s'))
  = (length (ort_values (es_token s)) + length (omap (handed_on mcfg) onames))%nat /\
  tk_req_id (es_token s') = tk_req_id (es_token s) /\
  tk_step_id (es_token s') = tk_step_id (es_token s) /\
  error_msg (es_token s') = error_msg (es_token s).
Proof.
  revert i s. induction onames as [|o onames IH]; intros i s H; simpl in H.
  { apply ret_Done in H as [_ ->]. simpl. by rewrite app_nil_r, Nat.add_0_r. }
  apply bindM_Done in H as ([] & s1 & H1 & H).
  apply IH in H as (Hn & Hl & Hr & Hs & He).
  rewrite Hn, Hl, Hr, Hs, He. clear IH Hn Hl Hr Hs He.
  unfold harvest_one_output in H1. cbn [omap list_omap].
  destruct (negb NDEBUG && _); [done|].
  destruct (Contains (present_output_names mcfg) o).1 eqn:Hp.
  - assert (handed_on mcfg o = None) as -> by (unfold handed_on; by rewrite Hp).
    apply bindM_Done in H1 as (h & s2 & [_ ->]%or_crash_Done & ->%modify_Done).
    done.
  - assert (handed_on mcfg o = inter_stage_output_input_map mcfg !! o) as ->
      by (unfold handed_on; by rewrite Hp).
    destruct (inter_stage_output_input_map mcfg !! o) as [mapped|].
    + apply bindM_Done in H1 as (h & s2 & [_ ->]%or_crash_Done & ->%modify_Done).
      simpl. rewrite <-app_assoc, length_app. simpl. split; [done|]. split; [lia|done].
    + apply ret_Done in H1 as [_ ->]. done.
Qed.

Lemma omap_lookup_take {A B : Type} (g : A -> option B) (l : list A) (j : nat)
    (x : A) (y : B) :
  l !! j = Some x -> g x = Some y ->
  omap g l !! length (omap g (take j l)) = Some y.
Proof.
  intros Hj Hg. set (t := take j l).
  rewrite <- (take_drop_middle l j x Hj). fold t.
  rewrite omap_app, lookup_app_r by lia. rewrite Nat.sub_diag.
  cbn [omap list_omap]. by rewrite Hg.
Qed.

(** The values the loop over the outputs pushes on the token *)
Lemma harvest_outputs_values `{rt : OrtRuntime} (NDEBUG : bool) (mcfg : ModelConfig)
    (vec_out_vals : list OrtValueHandle) (onames : list string) (i : Z)
    (s s' : ExecState) :
  0 <= i ->
  for_each_indexed i onames (harvest_one_output NDEBUG mcfg vec_out_vals) s = Done tt s' ->
  io_binding (es_run_state s') = io_binding (es_run_state s) /\
  exists vals,
    ort_values (es_token s') = ort_values (es_token s) ++ vals /\
    forall j oname mapped, onames !! j = Some oname -> handed_on mcfg oname = Some mapped ->
      exists h, vec_out_vals !! Z.to_nat (i + Z.of_nat j) = Some h /\
        vals !! length (omap (handed_on mcfg) (take j onames)) = Some h.
Proof.
  revert i s. induction onames as [|o onames IH]; intros i s Hi H; simpl in H.
  { apply ret_Done in H as [_ ->]. split; [done|]. exists []. by rewrite app_nil_r. }
  apply bindM_Done in H as ([] & s1 & H1 & H).
  apply IH in H as (Hio & vals & Hv & Hx); [|lia].
  rewrite Hv, Hio. clear IH Hv Hio.
  unfold harvest_one_output in H1.
  destruct (negb NDEBUG && _); [done|].
  destruct (Contains (present_output_names mcfg) o).1 eqn:Hp.
  - assert (handed_on mcfg o = None) as Ho by (unfold handed_on; by rewrite Hp).
    apply bindM_Done in H1 as (h & s2 & [_ ->]%or_crash_Done & ->%modify_Done).
    split; [done|]. exists vals. split; [done|].
    intros [|j] oname mapped Hj Hm; simpl in Hj.
    + simplify_eq.
    + cbn [take omap list_omap]. rewrite Ho.
      destruct (Hx j oname mapped Hj Hm) as (h' & Hh' & Hv'). exists h'.
      split; [|done]. rewrite <- Hh'. f_equal. lia.
  - assert (handed_on mcfg o = inter_stage_output_input_map mcfg !! o) as Ho
      by (unfold handed_on; by rewrite Hp).
    destruct (inter_stage_output_input_map mcfg !! o) as [m|] eqn:Hmap.
    + apply bindM_Done in H1 as (h & s2 & [Hh ->]%or_crash_Done & ->%modify_Done).
      apply vec_at_Some in Hh as [_ Hh].
      split; [done|]. exists (h :: vals). cbn [push_token es_token ort_values].
      split; [by rewrite <- app_assoc|].
      intros [|j] oname mapped Hj Hm; simpl in Hj.
      * simplify_eq. exists h. split; [|done]. rewrite <- Hh. f_equal. lia.
      * cbn [take omap list_omap]. rewrite Ho.
        destruct (Hx j oname mapped Hj Hm) as (h' & Hh' & Hv'). exists h'.
        split; [|done]. rewrite <- Hh'. f_equal. lia.
    + apply ret_Done in H1 as [_ ->].
      split; [done|]. exists vals. split; [done|].
      intros [|j] oname mapped Hj Hm; simpl in Hj.
      * simplify_eq.
      * cbn [take omap list_omap]. rewrite Ho.
        destruct (Hx j oname mapped Hj Hm) as (h' & Hh' & Hv'). exists h'.
        split; [|done]. rewrite <- Hh'. f_equal. lia.
Qed.

(** Property X10.  After [ExecuteRequest] returned, the token carries exactly
    the outputs of the model that are not states and that
    [inter_stage_output_input_map] maps, in the order of the outputs of the
    model and under the names the map gives them: the value under each name is
    the value that the I/O binding of the stage returns, after the run of the
    session, for that output of the model.  The request id, step id and error
    message of the token are those it came with. *)
Theorem ExecuteRequest_hands_on_mapped_outputs `{rt : OrtRuntime} (NDEBUG : bool)
    (mcfg : ModelConfig) (sess : nat) (ort_resp : OrtResp)
    (f f' : RequestExecutionFrame) :
  ExecuteRequest NDEBUG mcfg sess ort_resp f = Done tt f' ->
  ort_value_names (token f') = omap (handed_on mcfg) (mc_output_names mcfg) /\
  length (ort_values (token f')) = length (ort_value_names (token f')) /\
  tk_req_id (token f') = tk_req_id (token f) /\
  tk_step_id (token f') = tk_step_id (token f) /\
  error_msg (token f') = error_msg (token f) /\
  exists rs' produced,
    vec_at (model_run_state_vec f') (stage_id f) = Some rs' /\
    session_run sess (io_binding rs') (next_step_input_buffer_map f) = inr produced /\
    forall i oname mapped,
      mc_output_names mcfg !! i = Some oname -> handed_on mcfg oname = Some mapped ->
      exists h,
        GetOutputValues (io_binding rs') produced !! i = Some h /\
        ort_value_names (token f')
          !! length (omap (handed_on mcfg) (take i (mc_output_names mcfg))) = Some mapped /\
        ort_values (token f')
          !! length (omap (handed_on mcfg) (take i (mc_output_names mcfg))) = Some h.
Proof.
  intros (rs & s' & Hrs & H & ->)%ExecuteRequest_Done. simpl.
  unfold ExecuteRequest_body in H.
  apply bindM_Done in H as (s0' & s1 & [-> ->]%get_Done & H).
  apply bindM_Done in H as ([] & s1 & ->%modify_Done & H).
  apply bindM_Done in H as ([] & s1 & ->%modify_Done & H).
  apply bindM_Done in H as ([] & s1 & ->%modify_Done & H).
  apply bindM_Done in H as ([] & s1 & Hin & H).
  apply bind_inputs_Done in Hin as (Ht1 & _). simpl in Ht1.
  apply bindM_Done in H as ([] & s1' & Hif & H).
  assert (s1' = s1) as ->.
  { destruct (Contains _ _).1; [by apply ret_Done in Hif as [_ ->]|done]. }
  apply bindM_Done in H as (in_h & s1' & [_ ->]%or_crash_Done & H).
  apply bindM_Done in H as (in_shape & s1' & Hs & H).
  unfold handle_shape in Hs.
  apply bindM_Done in Hs as (in_v & s1'' & [-> ->]%or_crash_Done & [-> ->]%ret_Done).
  apply bindM_Done in H as (in_dim & s1' & [_ ->]%or_crash_Done & H).
  apply bindM_Done in H as (present0 & s1' & [_ ->]%or_crash_Done & H).
  apply bindM_Done in H as (s1'' & s1' & [-> ->]%get_Done & H).
  apply bindM_Done in H as (past_h & s1' & [_ ->]%or_throw_Done & H).
  apply bindM_Done in H as (past_shape & s1' & Hs & H).
  unfold handle_shape in Hs.
  apply bindM_Done in Hs as (past_v & s1'' & [-> ->]%or_crash_Done & [-> ->]%ret_Done).
  apply bindM_Done in H as (past_dim & s1' & [_ ->]%or_crash_Done & H).
  apply bindM_Done in H as (shape_a & s1' & [_ ->]%or_throw_Done & H).
  apply bindM_Done in H as (shape_b & s1' & [_ ->]%or_crash_Done & H).
  apply bindM_Done in H as (shape & s1' & [_ ->]%or_crash_Done & H).
  apply bindM_Done in H as (type & s1' & [_ ->]%or_throw_Done & H).
  apply bindM_Done in H as ([] & s2 & Hout & H).
  assert (es_token s2 = es_token s1) as Ht2.
  { eapply (for_each_indexed_keeps (fun s => es_token s = es_token s1)); [|done|exact Hout].
    intros j x sa sb _ Hsa (b & -> & _)%bind_one_output_Done. done. }
  apply bindM_Done in H as (s2' & s2'' & [-> ->]%get_Done & H).
  destruct (session_run sess (io_binding (es_run_state s2)) _) as [msg|produced] eqn:Hrun;
    [done|].
  pose proof (harvest_outputs_values _ _ _ _ _ _ _ ltac:(done) H) as (Hio & vals & Hv & Hx).
  apply harvest_outputs_token in H as (Hn & Hl & Hr & Hs & He).
  rewrite Hn, Hl, Hr, Hs, He, Ht2, Ht1. simpl.
  do 5 (split; [done|]).
  exists (es_run_state s'), produced. split.
  { apply vec_at_Some in Hrs as [Hst Hrs]. apply vec_at_Some. split; [done|].
    apply list_lookup_insert_eq. by eapply lookup_lt_Some. }
  rewrite Hio. split; [exact Hrun|].
  intros i oname mapped Hi Hm. destruct (Hx i oname mapped Hi Hm) as (h & Hh & Hvals).
  exists h. split; [rewrite <- Hh; f_equal; lia|]. split.
  - by apply omap_lookup_take with oname.
  - rewrite Hv, Ht2, Ht1. simpl. exact Hvals.
Qed.

Lemma ExecuteRequest_hands_on_mapped_outputs_witness :
  ort_value_names (token Decoding.after_prefill) = ["logits"] /\
  exists rs' produced h,
    vec_at (model_run_state_vec Decoding.after_prefill) 0 = Some rs' /\
    @session_run (Example.decoder 1) 0 (io_binding rs')
      (next_step_input_buffer_map Decoding.prefill_frame) = inr produced /\
    GetOutputValues (io_binding rs') produced !! 0%nat = Some (Some h) /\
    ort_values (token Decoding.after_prefill) !! 0%nat = Some (Some h).
Proof.
  destruct (@ExecuteRequest_hands_on_mapped_outputs (Example.decoder 1) true
              Decoding.stage 0 Example.response Decoding.prefill_frame
              Decoding.after_prefill) as (Hn & _ & _ & _ & _ & rs' & produced & Hrs & Hrun & Hx).
  { by vm_compute. }
  split; [by vm_compute|].
  destruct (Hx 0%nat "logits" "logits") as (h & Hh & _ & Hv); [by vm_compute..|].
  destruct h as [h|].
  - exists rs', produced, h. done.
  - vm_compute in Hv. discriminate Hv.
Defined.

(** ** [GetNewInputIdsFromLogits] *)

Lemma GetNewInputIdsFromLogits_batch_size (B B' : Z) (data shape : list Z) (eos : Z)
    (ids ids_shape : list Z) (all_eos : bool) :
  0 <= B' ->
  GetNewInputIdsFromLogits B data shape eos = Some (ids, ids_shape, all_eos) ->
  GetNewInputIdsFromLogits B' data shape eos
  = Some (ids, [B'; 1], bool_decide (count_eos eos ids = B')).
Proof.
  intros HB' H.
  pose proof (GetNewInputIdsFromLogits_outputs _ _ _ _ _ _ _ H) as (HB & -> & ->).
  unfold GetNewInputIdsFromLogits in *.
  destruct (vec_at shape 0) as [d0|]; [|done]. simpl in *.
  destruct (vec_at shape 1) as [d1|]; [|done]. simpl in *.
  destruct (vec_at shape 2) as [d2|]; [|done]. simpl in *.
  rewrite option_guard_True in H by done. rewrite option_guard_True by done.
  simpl in *.
  destruct (lanes_loop _ _ _ _ _ _ _ _ _ _) as [[ids' cnt']|] eqn:Hl; [|done].
  simpl in *. pose proof Hl as (new & -> & ->)%lanes_loop_appends.
  simpl in *. by simplify_eq.
Qed.

(** Property X11.  The loop of [GetNewInputIdsFromLogits] runs over the lanes
    of the logits, not over [batch_size]: for logits of shape
    [[lanes, seq_len, vocab]] with at least one time step, at least one
    vocabulary entry and fewer than [2 ^ 31] elements (the count is kept in an
    [int]), it returns [lanes] ids, the arg max of each lane, whatever
    [batch_size] is, while [input_ids_shape] is [[batch_size, 1]] and the flag
    compares the number of EOS ids with [batch_size]. *)
Theorem GetNewInputIdsFromLogits_lanes_of_logits (batch_size L S V eos : Z)
    (data : list Z) :
  0 <= batch_size -> 0 <= L -> 1 <= S -> 1 <= V -> L * S * V < 2 ^ 31 ->
  Z.of_nat (length data) = L * S * V ->
  exists ids : list Z,
    GetNewInputIdsFromLogits batch_size data [L; S; V] eos
    = Some (ids, [batch_size; 1], bool_decide (count_eos eos ids = batch_size)) /\
    Z.of_nat (length ids) = L /\
    (forall b, 0 <= b < L ->
       exists i, ids !! Z.to_nat b = Some i /\ lane_argmax data S V b i) /\
    (L < batch_size ->
     GetNewInputIdsFromLogits batch_size data [L; S; V] eos
     = Some (ids, [batch_size; 1], false)).
Proof.
  intros HB HL HS HV Hsize Hlen.
  pose proof (GetNewInputIdsFromLogits_lanes L S V eos data HL HS HV Hsize Hlen) as H.
  pose proof (GetNewInputIdsFromLogits_batch_size _ batch_size _ _ _ _ _ _ HB H) as H'.
  exists (lane_id data S V <$> seqZ 0 L).
  assert (Z.of_nat (length (lane_id data S V <$> seqZ 0 L)) = L) as Hids
    by (rewrite length_fmap, length_seqZ; lia).
  split; [done|]. split; [done|]. split.
  - intros b Hb. exists (lane_id data S V b). split.
    + rewrite list_lookup_fmap, lookup_seqZ_lt by lia. simpl. f_equal. f_equal. lia.
    + by apply (lane_id_argmax data L).
  - intros Hlt. rewrite H'. do 2 f_equal. apply bool_decide_eq_false_2.
    unfold count_eos.
    pose proof (length_filter (fun i => i = eos) (lane_id data S V <$> seqZ 0 L)).
    lia.
Qed.

Lemma GetNewInputIdsFromLogits_lanes_of_logits_witness :
  exists ids : list Z,
    GetNewInputIdsFromLogits 3 [0; 15360; 0; 0; 15360; 0] [2; 1; 3] 1
    = Some (ids, [3; 1], bool_decide (count_eos 1 ids = 3)) /\
    Z.of_nat (length ids) = 2 /\
    (forall b, 0 <= b < 2 ->
       exists i, ids !! Z.to_nat b = Some i /\
         lane_argmax [0; 15360; 0; 0; 15360; 0] 1 3 b i) /\
    (2 < 3 ->
     GetNewInputIdsFromLogits 3 [0; 15360; 0; 0; 15360; 0] [2; 1; 3] 1
     = Some (ids, [3; 1], false)).
Proof.
  apply (GetNewInputIdsFromLogits_lanes_of_logits 3 2 1 3 1 [0; 15360; 0; 0; 15360; 0]);
    [lia | lia | lia | lia | lia | reflexivity].
Defined.

Lemma max_element_loop_stays {A : Type} (comp : A -> A -> bool) (li : nat) (l : A)
    (idx : nat) (rest : list A) :
  (forall x, comp l x = false) -> max_element_loop comp li l idx rest = li.
Proof.
  intros Hl. revert idx. induction rest as [|x rest IH]; intros idx; [done|].
  simpl. by rewrite Hl.
Qed.

(** Property X12.  A NaN among the logits, for logits of shape
    [[batch_size, seq_len, vocab]] with at least one time step, at least one
    vocabulary entry and fewer than [2 ^ 31] elements: when the first logit of
    the last time step of a lane is a NaN, the id of the lane is 0, whatever
    the other logits are; and an id other than 0 never points at a NaN. *)
Theorem GetNewInputIdsFromLogits_nan (B S V eos : Z) (data : list Z) (b : Z) :
  0 <= B -> 1 <= S -> 1 <= V -> B * S * V < 2 ^ 31 ->
  Z.of_nat (length data) = B * S * V ->
  0 <= b < B ->
  exists (ids : list Z) (i : Z),
    GetNewInputIdsFromLogits B data [B; S; V] eos
    = Some (ids, [B; 1], bool_decide (count_eos eos ids = B)) /\
    ids !! Z.to_nat b = Some i /\
    (forall h, logit_at data S V b (S - 1) 0 = Some h -> is_nan h -> i = 0) /\
    (forall h, logit_at data S V b (S - 1) i = Some h -> i <> 0 -> ~ is_nan h).
Proof.
  intros HB HS HV Hsize Hlen Hb.
  exists (lane_id data S V <$> seqZ 0 B), (lane_id data S V b).
  split; [by apply GetNewInputIdsFromLogits_lanes|]. split.
  { rewrite list_lookup_fmap, lookup_seqZ_lt by lia. simpl. do 2 f_equal. lia. }
  pose proof (lane_id_argmax data B S V HS HV Hlen b Hb) as (Hrange & xi & Hxi & Hmax & Hbefore).
  split.
  - intros h Hh Hnan.
    destruct (decide (lane_id data S V b = 0)) as [|Hne]; [done|]. exfalso.
    assert (half_less h xi = false) as Hless
      by (unfold half_less; unfold is_nan in Hnan; by rewrite Hnan).
    unfold lane_id in *. unfold logit_at in Hh.
    pose proof (lane_in_bounds data B S V HS HV Hlen b Hb) as [Hlo Hhi].
    set (off := b * (S * V) + (S - 1) * V) in *.
    replace ((b * S + (S - 1)) * V + 0) with off in Hh by (unfold off; lia).
    assert (take (Z.to_nat V) (drop (Z.to_nat off) data)
            = h :: take (Z.to_nat V - 1) (drop (Datatypes.S (Z.to_nat off)) data)) as Hslice.
    { rewrite (drop_S _ _ _ Hh). replace (Z.to_nat V) with (Datatypes.S (Z.to_nat V - 1)) at 1 by lia.
      done. }
    rewrite Hslice in Hne. simpl in Hne.
    rewrite max_element_loop_stays in Hne; [done|].
    intros x. unfold half_less. unfold is_nan in Hnan. by rewrite Hnan.
  - intros h Hh Hne Hnan. rewrite Hxi in Hh. simplify_eq.
    assert (exists x0, logit_at data S V b (S - 1) 0 = Some x0) as [x0 Hx0].
    { unfold logit_at. apply lookup_lt_is_Some.
      pose proof (lane_in_bounds data B S V HS HV Hlen b Hb). lia. }
    assert (is_nan x0 \/ ~ is_nan x0) as [Hn0|Hn0].
    { unfold is_nan. destruct (HalfToFloat x0); [by left|by right..]. }
    + apply Hne. unfold is_nan in *.
      destruct (decide (lane_id data S V b = 0)) as [|Hne']; [done|]. exfalso.
      unfold lane_id in Hne'. unfold logit_at in Hx0.
      pose proof (lane_in_bounds data B S V HS HV Hlen b Hb) as [Hlo Hhi].
      set (off := b * (S * V) + (S - 1) * V) in *.
      replace ((b * S + (S - 1)) * V + 0) with off in Hx0 by (unfold off; lia).
      rewrite (drop_S _ _ _ Hx0) in Hne'.
      replace (Z.to_nat V) with (Datatypes.S (Z.to_nat V - 1)) in Hne' at 1 by lia.
      simpl in Hne'. rewrite max_element_loop_stays in Hne'; [done|].
      intros x. unfold half_less. by rewrite Hn0.
    + assert (half_less x0 h = true) as Hlt by (apply (Hbefore 0); [lia|done..]).
      unfold half_less in Hlt. apply float_lt_not_nan in Hlt as [_ Hh']. done.
Qed.

(** Two lanes: the first starts with a NaN and gets the id 0 although 1.0
    follows; the second ends with a NaN and gets the id 1, of the 1.0. *)
Lemma GetNewInputIdsFromLogits_nan_witness :
  is_nan 32256 /\
  (exists ids, GetNewInputIdsFromLogits 2 [32256; 15360; 0; 0; 15360; 32256] [2; 1; 3] 2
               = Some (ids, [2; 1], bool_decide (count_eos 2 ids = 2)) /\
     ids !! 0%nat = Some 0) /\
  (exists ids, GetNewInputIdsFromLogits 2 [32256; 15360; 0; 0; 15360; 32256] [2; 1; 3] 2
               = Some (ids, [2; 1], bool_decide (count_eos 2 ids = 2)) /\
     ids !! 1%nat = Some 1 /\
     forall h, logit_at [32256; 15360; 0; 0; 15360; 32256] 1 3 1 (1 - 1) 1 = Some h ->
       ~ is_nan h).
Proof.
  assert (is_nan 32256) as Hnan by (by vm_compute).
  split; [exact Hnan|]. split.
  - destruct (GetNewInputIdsFromLogits_nan 2 1 3 2 [32256; 15360; 0; 0; 15360; 32256] 0)
      as (ids & i & Hids & Hi & Hfirst & _); [lia | lia | lia | lia | reflexivity | lia |].
    exists ids. split; [exact Hids|].
    rewrite (Hfirst 32256 eq_refl Hnan) in Hi. exact Hi.
  - destruct (GetNewInputIdsFromLogits_nan 2 1 3 2 [32256; 15360; 0; 0; 15360; 32256] 1)
      as (ids & i & Hids & Hi & _ & Hother); [lia | lia | lia | lia | reflexivity | lia |].
    exists ids. split; [exact Hids|].
    assert (i = 1) as ->.
    { vm_compute in Hids. injection Hids as <-. vm_compute in Hi. by injection Hi. }
    split; [exact Hi|]. intros h Hh. by apply Hother.
Defined.

(** ** [HandleAndReturnFailure] and the workers *)

Section Drain.
Context `{rt : OrtRuntime}.
Variables (NDEBUG : bool) (pcfg : PipelineConfig).

Lemma ThreadWorkerFn_answers (t : Task) (w w' : World) :
  ThreadWorkerFn NDEBUG pcfg t w = Some w' ->
  resp_queue w' = resp_queue w ++ [task_req t] /\
  dom (req_frame_map w') = dom (req_frame_map w).
Proof.
  intros (_ & _ & _ & Hq & f & f' & Hf & -> & _)%ThreadWorkerFn_world.
  split; [done|]. rewrite dom_insert_L.
  apply (elem_of_dom_2 (req_frame_map w)) in Hf.
  apply leibniz_equiv. intros x. rewrite elem_of_union, elem_of_singleton.
  split; [intros [->|?]; done|by right].
Qed.

Lemma run_tasks_answers (ts : list Task) (w w' : World) :
  run_tasks NDEBUG pcfg ts w = Some w' ->
  resp_queue w' = resp_queue w ++ (task_req <$> ts) /\
  dom (req_frame_map w') = dom (req_frame_map w).
Proof.
  revert w. induction ts as [|t ts IH]; intros w H; simpl in H.
  { simplify_eq. by rewrite app_nil_r. }
  destruct (ThreadWorkerFn NDEBUG pcfg t w) as [w1|] eqn:H1; [|done]. simpl in H.
  apply ThreadWorkerFn_answers in H1 as [Hq1 Hd1].
  apply IH in H as [Hq Hd]. rewrite Hq, Hq1, Hd, Hd1.
  by rewrite <-app_assoc.
Qed.

Lemma drain_stages_answers (m k : nat) (w w' : World) :
  (k + m)%nat = length (pipeline_stages w) ->
  drain_stages NDEBUG pcfg (seq k m) w = Some w' ->
  resp_queue w' = resp_queue w ++ (task_req <$> concat (drop k (pipeline_stages w))) /\
  dom (req_frame_map w') = dom (req_frame_map w).
Proof.
  revert k w. induction m as [|m IH]; intros k w Hlen H; simpl in H.
  { simplify_eq. rewrite drop_ge by lia. simpl. by rewrite app_nil_r. }
  destruct (DrainAllInflightRequests NDEBUG pcfg k w) as [w1|] eqn:H1; [|done].
  simpl in H. unfold DrainAllInflightRequests in H1.
  destruct (pipeline_stages w !! k) as [q|] eqn:Hq; [|done]. simpl in H1.
  pose proof (run_tasks_world _ _ _ _ _ H1) as (Hst & _ & _). simpl in Hst.
  apply run_tasks_answers in H1 as [Hq1 Hd1]. simpl in Hq1, Hd1.
  apply IH in H as [Hq' Hd']; [|rewrite Hst, length_insert; lia].
  rewrite Hq', Hq1, Hd', Hd1, Hst. split; [|done].
  rewrite (drop_S _ _ _ Hq). simpl. rewrite fmap_app, <-app_assoc.
  do 3 f_equal. by rewrite drop_insert_lt by lia.
Qed.

Lemma HandleAndReturnFailure_effect (msg : string) (w w' : World) (st : OrtStatus) :
  HandleAndReturnFailure NDEBUG pcfg msg w = Some (st, w') ->
  st = Some (ORT_FAIL, msg) /\
  pipeline_stages w' = replicate (length (pipeline_stages w)) [] /\
  resp_queue w' = resp_queue w ++ (task_req <$> concat (pipeline_stages w)) /\
  dom (req_frame_map w') = dom (req_frame_map w) /\
  resp_list w' = resp_list w /\
  req_id_counter w' = req_id_counter w.
Proof.
  intros H. pose proof (HandleAndReturnFailure_world _ _ _ _ _ _ H) as (-> & Hd & Hr & Hc).
  unfold HandleAndReturnFailure in H.
  destruct (drain_stages _ _ _ _) as [w1|] eqn:Hdrain; [|done]. simpl in H. simplify_eq.
  pose proof (drain_stages_world _ _ _ _ _ Hdrain) as (Hlen & _).
  apply drain_stages_answers in Hdrain as [Hq Hdom]; [|done].
  split; [done|]. split; [|by rewrite drop_0 in Hq].
  rewrite <-Hlen. unfold drained in Hd. clear -Hd.
  induction Hd as [|q qs -> _ IH]; [done|]. simpl. by rewrite <-IH.
Qed.

(** Property X13.  [HandleAndReturnFailure] runs every closure that waits on
    a stage, stage after stage, so that each of them answers with its token on
    the response queue, and leaves every stage idle; it returns an [ORT_FAIL]
    status with the message it was given, and touches neither the response
    slots of the caller nor the request id counter nor the set of live
    requests. *)
Theorem HandleAndReturnFailure_drains (msg : string) (w w' : World) (st : OrtStatus) :
  HandleAndReturnFailure NDEBUG pcfg msg w = Some (st, w') ->
  st = Some (ORT_FAIL, msg) /\
  pipeline_stages w' = replicate (length (pipeline_stages w)) [] /\
  resp_queue w' = resp_queue w ++ (task_req <$> concat (pipeline_stages w)) /\
  dom (req_frame_map w') = dom (req_frame_map w) /\
  resp_list w' = resp_list w /\
  req_id_counter w' = req_id_counter w.
Proof. apply HandleAndReturnFailure_effect. Qed.
End Drain.

Lemma HandleAndReturnFailure_drains_witness :
  exists w',
    @HandleAndReturnFailure (Example.decoder 1) true Example.config "stop" Batch.scheduled
    = Some (Some (ORT_FAIL, "stop"), w') /\
    pipeline_stages w' = [[]] /\ resp_queue w' = [1] /\ resp_list w' = [Example.response].
Proof.
  destruct (@HandleAndReturnFailure (Example.decoder 1) true Example.config "stop"
              Batch.scheduled) as [[st w']|] eqn:H; [|by vm_compute in H].
  destruct (@HandleAndReturnFailure_drains (Example.decoder 1) true Example.config
              "stop" Batch.scheduled w' st H) as (-> & Hs & Hq & _ & Hr & _).
  exists w'. done.
Defined.

Section OutcomeKeeps.
Context {S : Type} (R : S -> S -> Prop).
Hypothesis R_refl : forall s, R s s.
Hypothesis R_trans : forall s1 s2 s3, R s1 s2 -> R s2 s3 -> R s1 s3.

Lemma outcome_keeps_bind {A B : Type} (c : M S A) (k : A -> M S B) :
  outcome_keeps R c -> (forall a, outcome_keeps R (k a)) -> outcome_keeps R (bindM c k).
Proof using R_trans.
  intros Hc Hk s. unfold bindM. specialize (Hc s).
  destruct (c s) as [a s1|msg s1|]; [|done..].
  specialize (Hk a s1). destruct (k a s1); [by eapply R_trans..|done].
Qed.

Lemma outcome_keeps_ret {A : Type} (a : A) : outcome_keeps R (ret a).
Proof using R_refl. intros s. apply R_refl. Qed.

Lemma outcome_keeps_get : outcome_keeps R get.
Proof using R_refl. intros s. apply R_refl. Qed.

Lemma outcome_keeps_throw {A : Type} (msg : string) : outcome_keeps R (@throw S A msg).
Proof using R_refl. intros s. apply R_refl. Qed.

Lemma outcome_keeps_crash {A : Type} : outcome_keeps R (@crash S A).
Proof. by intros s. Qed.

Lemma outcome_keeps_or_crash {A : Type} (o : option A) : outcome_keeps R (or_crash o).
Proof using R_refl. destruct o; [apply outcome_keeps_ret|apply outcome_keeps_crash]. Qed.

Lemma outcome_keeps_or_throw {A : Type} (o : option A) (msg : string) :
  outcome_keeps R (or_throw o msg).
Proof using R_refl. destruct o; [apply outcome_keeps_ret|apply outcome_keeps_throw]. Qed.

Lemma outcome_keeps_modify (g : S -> S) :
  (forall s, R s (g s)) -> outcome_keeps R (modify g).
Proof. intros Hg s. apply Hg. Qed.

Lemma outcome_keeps_for_each {A : Type} (l : list A) (body : A -> M S unit) :
  (forall x, outcome_keeps R (body x)) -> outcome_keeps R (for_each l body).
Proof using R_refl R_trans.
  intros Hb. induction l as [|x l IH]; simpl; [apply outcome_keeps_ret|].
  apply outcome_keeps_bind; [apply Hb|done].
Qed.

Lemma outcome_keeps_for_each_indexed {A : Type} (l : list A) (i : Z)
    (body : Z -> A -> M S unit) :
  (forall j x, outcome_keeps R (body j x)) -> outcome_keeps R (for_each_indexed i l body).
Proof using R_refl R_trans.
  intros Hb. revert i. induction l as [|x l IH]; intros i; simpl;
    [apply outcome_keeps_ret|].
  apply outcome_keeps_bind; [apply Hb|done].
Qed.
End OutcomeKeeps.

Lemma same_token_ids_refl (s : ExecState) : same_token_ids s s.
Proof. done. Qed.

Lemma same_token_ids_trans (s1 s2 s3 : ExecState) :
  same_token_ids s1 s2 -> same_token_ids s2 s3 -> same_token_ids s1 s3.
Proof. intros (? & ? & ?) (? & ? & ?). repeat split; congruence. Qed.

Ltac keeps_ids :=
  repeat first
    [ apply (outcome_keeps_bind _ same_token_ids_trans); [|intros ?]
    | apply (outcome_keeps_ret _ same_token_ids_refl)
    | apply (outcome_keeps_get _ same_token_ids_refl)
    | apply (outcome_keeps_throw _ same_token_ids_refl)
    | apply outcome_keeps_crash
    | apply (outcome_keeps_or_crash _ same_token_ids_refl)
    | apply (outcome_keeps_or_throw _ same_token_ids_refl)
    | apply outcome_keeps_modify; intros ?; done
    | apply (outcome_keeps_for_each _ same_token_ids_refl same_token_ids_trans); intros ?
    | apply (outcome_keeps_for_each_indexed _ same_token_ids_refl same_token_ids_trans);
      intros ? ? ].

Lemma ExecuteRequest_body_keeps_ids `{rt : OrtRuntime} (NDEBUG : bool)
    (mcfg : ModelConfig) (sess : nat) (ort_resp : OrtResp) (batch : Z)
    (scratch : gmap string ScratchBuffer) :
  outcome_keeps same_token_ids
    (ExecuteRequest_body NDEBUG mcfg sess ort_resp batch scratch).
Proof.
  unfold ExecuteRequest_body. keeps_ids.
  - unfold bind_one_input. destruct (Contains _ _).1; keeps_ids.
    destruct (Contains _ _).1; keeps_ids.
  - destruct (Contains _ _).1; keeps_ids.
  - cbv zeta. destruct (Contains _ _).1; keeps_ids.
    destruct (Contains _ _).1; keeps_ids.
    match goal with |- outcome_keeps _ (match ?m with _ => _ end) => destruct m end;
      keeps_ids.
  - destruct (session_run _ _ _); keeps_ids.
    unfold harvest_one_output.
    destruct (negb NDEBUG && _); keeps_ids.
    destruct (Contains _ _).1; keeps_ids.
    destruct (inter_stage_output_input_map mcfg !! _); keeps_ids.
Qed.

Lemma ExecuteRequest_keeps_ids `{rt : OrtRuntime} (NDEBUG : bool) (mcfg : ModelConfig)
    (sess : nat) (ort_resp : OrtResp) (f : RequestExecutionFrame) :
  match ExecuteRequest NDEBUG mcfg sess ort_resp f with
  | Done _ f' | Throw _ f' =>
      tk_req_id (token f') = tk_req_id (token f) /\
      tk_step_id (token f') = tk_step_id (token f) /\
      error_msg (token f') = error_msg (token f)
  | Crash => True
  end.
Proof.
  unfold ExecuteRequest. destruct (vec_at _ _) as [rs|]; [|done].
  pose proof (ExecuteRequest_body_keeps_ids NDEBUG mcfg sess ort_resp (batch_size f)
                (next_step_input_buffer_map f) (mkExecState (token f) rs)) as H.
  destruct (ExecuteRequest_body _ _ _ _ _ _ _) as [[] s|msg s|]; done.
Qed.

(** Property X14.  A worker that takes the closure at the head of its queue
    answers with exactly one token on the response queue, whether
    [ExecuteRequest] returned or threw.  The token is still for the same
    request and step; when [ExecuteRequest] threw, its error message says so
    and names the request.  Nothing else changes hands: the other closures
    stay where they are, the other frames and the response slots are as they
    were. *)
Theorem worker_step_answers `{rt : OrtRuntime} (NDEBUG : bool) (pcfg : PipelineConfig)
    (s : nat) (t : Task) (rest : list Task) (w w' : World) :
  pipeline_stages w !! s = Some (t :: rest) ->
  worker_step NDEBUG pcfg s w = Some w' ->
  pipeline_stages w' = <[s := rest]> (pipeline_stages w) /\
  resp_queue w' = resp_queue w ++ [task_req t] /\
  resp_list w' = resp_list w /\
  (forall r, r <> task_req t -> req_frame_map w' !! r = req_frame_map w !! r) /\
  exists f f',
    req_frame_map w !! task_req t = Some f /\
    req_frame_map w' !! task_req t = Some f' /\
    tk_req_id (token f') = tk_req_id (token f) /\
    tk_step_id (token f') = tk_step_id (token f) /\
    (error_msg (token f') = error_msg (token f) \/
     exists what,
       error_msg (token f')
       = "Error in processing request id: " +:+ pretty (tk_req_id (token f))
         +:+ " with exception: " +:+ what).
Proof.
  intros Hq H. unfold worker_step in H. rewrite Hq in H.
  unfold ThreadWorkerFn in H. simpl in H.
  destruct (req_frame_map w !! task_req t) as [f|] eqn:Hf; [|done]. simpl in H.
  destruct (model_config_vec pcfg !! task_stage t) as [mcfg|]; [|done]. simpl in H.
  destruct (vec_at (resp_list w) (req_index f)) as [ort_resp|]; [|done]. simpl in H.
  pose proof (ExecuteRequest_keeps_ids NDEBUG mcfg (task_stage t) ort_resp f) as Hids.
  destruct (ExecuteRequest _ _ _ _ _) as [[] f1|what f1|]; [| |done];
    destruct Hids as (Hr & Hs & He); simplify_eq; simpl;
    (split; [done|]); (split; [done|]); (split; [done|]);
    (split; [intros r Hne; by rewrite lookup_insert_ne|]);
    eexists f, _; (split; [done|]); (split; [apply lookup_insert_eq|]); simpl;
    (split; [done|]); (split; [done|]).
  - by left.
  - right. exists what. by rewrite Hr.
Qed.

Lemma worker_step_answers_witness :
  exists w',
    @worker_step (Example.decoder 1) true Example.config 0 Batch.scheduled = Some w' /\
    pipeline_stages w' = [[]] /\ resp_queue w' = [1] /\ resp_list w' = [Example.response].
Proof.
  destruct (@worker_step (Example.decoder 1) true Example.config 0 Batch.scheduled)
    as [w'|] eqn:H; [|by vm_compute in H].
  destruct (@worker_step_answers (Example.decoder 1) true Example.config 0
              (mkTask 0 1) [] Batch.scheduled w' eq_refl H) as (Hs & Hq & Hr & _).
  exists w'. done.
Defined.

(** ** [SetupAndScheduleAllRequestsToStage0] *)

Section SetupEffect.
Context `{rt : OrtRuntime}.
Variable pcfg : PipelineConfig.

Lemma setup_one_request_effect (i r : Z) (one_req : OrtReq) (w w' : World) :
  r = to_int (req_id_counter w + 1) ->
  req_frame_map w !! r = None ->
  setup_one_request pcfg i one_req w = Some w' ->
  req_id_counter w' = r /\
  resp_list w' = resp_list w /\ resp_queue w' = resp_queue w /\
  (exists q0, pipeline_stages w !! 0%nat = Some q0 /\
     pipeline_stages w' = <[0%nat := q0 ++ [mkTask 0 r]]> (pipeline_stages w)) /\
  exists f mcfg0 j v d1 d2,
    req_frame_map w' = <[r := f]> (req_frame_map w) /\
    req_index f = i /\ req_id f = r /\ stage_id f = 0 /\
    token f = Token_Init r 0 (input_names one_req) (input_values one_req) /\
    model_config_vec pcfg !! 0%nat = Some mcfg0 /\
    Contains (input_names one_req) (input_to_use_for_seq_len mcfg0) = (true, j) /\
    vec_at (input_values one_req) j = Some (Some v) /\
    vec_at (ov_shape v) (seq_len_dim_index_in_input mcfg0) = Some d1 /\
    vec_at (ov_shape v) (batch_dim_index_in_input mcfg0) = Some d2 /\
    orig_input_seq_len f = to_int d1 /\ batch_size f = to_int d2.
Proof.
  intros Hr Hfresh H. unfold setup_one_request in H.
  cbn [CreateRequestId] in H. cbv zeta in H. cbn [resp_list log] in H.
  rewrite <- Hr in H. clear Hr.
  destruct (vec_at (resp_list w) i); [|done]. cbn [mbind option_bind] in H.
  destruct (model_config_vec pcfg !! 0%nat) as [mcfg0|] eqn:Hm0; [|done].
  cbn [mbind option_bind] in H.
  destruct (Contains (input_names one_req) (input_to_use_for_seq_len mcfg0))
    as [found j] eqn:Hc.
  cbn [snd] in H.
  destruct (vec_at (input_values one_req) j) as [[v|]|] eqn:Hv; [|done..].
  cbn [mbind option_bind] in H.
  destruct (vec_at (ov_shape v) (seq_len_dim_index_in_input mcfg0)) as [d1|] eqn:Hd1;
    [|done].
  cbn [mbind option_bind fmap option_fmap option_map] in H.
  destruct (vec_at (ov_shape v) (batch_dim_index_in_input mcfg0)) as [d2|] eqn:Hd2;
    [|done].
  cbn [mbind option_bind fmap option_fmap option_map] in H.
  destruct (new_RequestExecutionFrame _ _ _ _ _ _) as [nf|] eqn:Hnew; [|done].
  cbn [mbind option_bind] in H.
  cbn [set_frames log req_frame_map] in H. rewrite Hfresh in H.
  rewrite lookup_insert_eq in H.
  cbn [mbind option_bind] in H. unfold ScheduleTask in H.
  destruct (vec_at _ 0) as [q|] eqn:Hq0; [|done]. cbn [mbind option_bind] in H.
  apply vec_at_Some in Hq0 as [_ Hq0]. cbn -[to_int] in Hq0.
  injection H as <-. unfold log, set_stages, set_frames. cbn -[to_int]. rewrite Hfresh.
  rewrite insert_insert_eq.
  assert (found = true) as ->.
  { destruct found; [done|]. unfold Contains in Hc.
    destruct (find_index _ _); by simplify_eq. }
  unfold new_RequestExecutionFrame in Hnew.
  destruct (make_run_states _ _ _ _ _); [|done]. cbn -[to_int] in Hnew.
  injection Hnew as <-.
  repeat (split; [done|]). split; [by exists q|].
  eexists _, mcfg0, j, v, d1, d2. repeat (split; [done|]). done.
Qed.

Lemma setup_loop_effect (reqs : list OrtReq) (c0 i : Z) (w w' : World) :
  0 <= i -> i + Z.of_nat (length reqs) <= 2 ^ 32 ->
  to_int (req_id_counter w) = to_int (c0 + i) ->
  (forall r, is_Some (req_frame_map w !! r) -> issued c0 i r) ->
  setup_loop pcfg i reqs w = Some w' ->
  (req_id_counter w = to_int (c0 + i) ->
   req_id_counter w' = to_int (c0 + i + Z.of_nat (length reqs))) /\
  resp_list w' = resp_list w /\ resp_queue w' = resp_queue w /\
  pipeline_stages w'
  = <[0%nat := default [] (pipeline_stages w !! 0%nat)
               ++ ((fun k : nat => mkTask 0 (nth_req_id c0 (i + Z.of_nat k)))
                     <$> seq 0 (length reqs))]> (pipeline_stages w) /\
  (forall r, is_Some (req_frame_map w' !! r) <->
     is_Some (req_frame_map w !! r) \/
     exists k, i <= k < i + Z.of_nat (length reqs) /\ r = nth_req_id c0 k) /\
  (forall r, issued c0 i r -> req_frame_map w' !! r = req_frame_map w !! r) /\
  forall (k : nat) (one_req : OrtReq), reqs !! k = Some one_req ->
    exists f mcfg0 j v d1 d2,
      req_frame_map w' !! nth_req_id c0 (i + Z.of_nat k) = Some f /\
      req_index f = i + Z.of_nat k /\
      req_id f = nth_req_id c0 (i + Z.of_nat k) /\ stage_id f = 0 /\
      token f = Token_Init (nth_req_id c0 (i + Z.of_nat k)) 0 (input_names one_req)
                  (input_values one_req) /\
      model_config_vec pcfg !! 0%nat = Some mcfg0 /\
      Contains (input_names one_req) (input_to_use_for_seq_len mcfg0) = (true, j) /\
      vec_at (input_values one_req) j = Some (Some v) /\
      vec_at (ov_shape v) (seq_len_dim_index_in_input mcfg0) = Some d1 /\
      vec_at (ov_shape v) (batch_dim_index_in_input mcfg0) = Some d2 /\
      orig_input_seq_len f = to_int d1 /\ batch_size f = to_int d2.
Proof.
  revert i w. induction reqs as [|req reqs IH]; intros i w Hi Hsize Hcnt Hkeys H;
    cbn [setup_loop] in H.
  - injection H as <-. cbn [length seq fmap list_fmap]. rewrite Z.add_0_r, app_nil_r.
    split; [done|]. split; [done|]. split; [done|]. split.
    { destruct (pipeline_stages w !! 0%nat) as [q|] eqn:Hq; simpl.
      - by rewrite list_insert_id.
      - rewrite list_insert_ge; [done|]. by apply lookup_ge_None. }
    split; [|split; [done|]].
    + intros r. split; [by left|]. intros [?|(k & ? & _)]; [done|lia].
    + intros k r Hk. done.
  - cbn [length] in Hsize. rewrite Nat2Z.inj_succ in Hsize.
    destruct (setup_one_request pcfg i req w) as [w1|] eqn:H1; [|done].
    cbn [mbind option_bind] in H.
    assert (to_int (req_id_counter w + 1) = nth_req_id c0 i) as Hr.
    { by apply next_req_id. }
    assert (req_frame_map w !! nth_req_id c0 i = None) as Hfresh.
    { destruct (req_frame_map w !! nth_req_id c0 i) eqn:Hf; [|done].
      destruct (issued_fresh c0 i); [lia|]. apply Hkeys. by rewrite Hf. }
    apply (setup_one_request_effect i (nth_req_id c0 i)) in H1
      as (Hc1 & Hr1 & Hq1 & (q0 & Hq0 & Hs1) & f & mcfg0 & j & v & d1 & d2 & Hf1 & Hfacts);
      [|done..].
    apply (IH (i + 1)) in H as (Hc & Hr' & Hq & Hs & Hdom & Hold & Hnew); [|lia|lia| |].
    2:{ rewrite Hc1. unfold nth_req_id. rewrite to_int_idemp. f_equal. lia. }
    2:{ intros r. rewrite Hf1. destruct (decide (nth_req_id c0 i = r)) as [<-|Hne].
        - intros _. apply issued_last. lia.
        - rewrite lookup_insert_ne by done. intros ?%Hkeys. by apply issued_next. }
    rewrite Hr', Hr1, Hq, Hq1.
    split.
    { intros _. rewrite Hc by (rewrite Hc1; unfold nth_req_id; f_equal; lia).
      f_equal. cbn [length]. lia. }
    split; [done|]. split; [done|]. split.
    { rewrite Hs, Hs1, Hq0. simpl.
      rewrite list_lookup_insert_eq by (by eapply lookup_lt_Some).
      simpl. rewrite list_insert_insert_eq. f_equal.
      rewrite <-app_assoc. f_equal. simpl. rewrite Z.add_0_r. f_equal.
      rewrite <-fmap_S_seq, <-list_fmap_compose. apply list_fmap_ext.
      intros k x _. simpl. do 2 f_equal. lia. }
    split; [|split].
    + intros r. rewrite Hdom, Hf1.
      destruct (decide (nth_req_id c0 i = r)) as [<-|Hne].
      * rewrite lookup_insert_eq. split; [|intros _; by left].
        intros _. right. exists i. split; [cbn [length]; lia|done].
      * rewrite lookup_insert_ne by done. cbn [length]. rewrite Nat2Z.inj_succ.
        split; intros [?|(k & Hk & ->)]; eauto; right; exists k; (split; [|done]).
        -- lia.
        -- destruct (decide (k = i)) as [->|]; [done|lia].
    + intros r Hir. rewrite Hold by (by apply issued_next). rewrite Hf1.
      apply lookup_insert_ne. intros <-. by apply issued_fresh in Hir; [|lia].
    + intros [|k] one_req Hk; simpl in Hk.
      * injection Hk as <-. exists f, mcfg0, j, v, d1, d2. rewrite !Z.add_0_r.
        split; [|done]. rewrite Hold by (apply issued_last; lia).
        rewrite Hf1. apply lookup_insert_eq.
      * destruct (Hnew k one_req Hk) as (f' & mcfg0' & j' & v' & d1' & d2' & Hf' & Hi' & Hid' & Hrest).
        exists f', mcfg0', j', v', d1', d2'.
        replace (i + Z.of_nat (S k)) with (i + 1 + Z.of_nat k) by lia.
        split; [done|]. split; [lia|]. done.
Qed.
End SetupEffect.

Lemma SetupAndScheduleAllRequestsToStage0_effect_aux `{rt : OrtRuntime}
    (pcfg : PipelineConfig) (req_list : list OrtReq) (resp_list0 : list OrtResp)
    (w0 w : World) :
  Z.of_nat (length req_list) < 2 ^ 31 ->
  SetupAndScheduleAllRequestsToStage0 pcfg req_list (enter_run w0 resp_list0) = Some w ->
  (- 2 ^ 31 <= req_id_counter w0 < 2 ^ 31 ->
   req_id_counter w = to_int (req_id_counter w0 + Z.of_nat (length req_list))) /\
  resp_list w = resp_list0 /\ resp_queue w = [] /\
  pipeline_stages w
  = <[0%nat := default [] (pipeline_stages w0 !! 0%nat)
               ++ ((fun k : nat => mkTask 0 (nth_req_id (req_id_counter w0) (Z.of_nat k)))
                     <$> seq 0 (length req_list))]> (pipeline_stages w0) /\
  (forall r, is_Some (req_frame_map w !! r) <->
     exists k, 0 <= k < Z.of_nat (length req_list) /\
       r = nth_req_id (req_id_counter w0) k) /\
  forall (k : nat) (one_req : OrtReq), req_list !! k = Some one_req ->
    exists f mcfg0 j v d1 d2,
      req_frame_map w !! nth_req_id (req_id_counter w0) (Z.of_nat k) = Some f /\
      req_index f = Z.of_nat k /\
      req_id f = nth_req_id (req_id_counter w0) (Z.of_nat k) /\ stage_id f = 0 /\
      token f = Token_Init (nth_req_id (req_id_counter w0) (Z.of_nat k)) 0
                  (input_names one_req) (input_values one_req) /\
      model_config_vec pcfg !! 0%nat = Some mcfg0 /\
      Contains (input_names one_req) (input_to_use_for_seq_len mcfg0) = (true, j) /\
      vec_at (input_values one_req) j = Some (Some v) /\
      vec_at (ov_shape v) (seq_len_dim_index_in_input mcfg0) = Some d1 /\
      vec_at (ov_shape v) (batch_dim_index_in_input mcfg0) = Some d2 /\
      orig_input_seq_len f = to_int d1 /\ batch_size f = to_int d2.
Proof.
  intros Hsize H. unfold SetupAndScheduleAllRequestsToStage0 in H.
  apply (setup_loop_effect pcfg _ (req_id_counter w0)) in H
    as (Hc & Hr & Hq & Hs & Hdom & _ & Hnew); [|done|lia| |].
  2:{ cbn [enter_run req_id_counter]. by rewrite Z.add_0_r. }
  2:{ intros r. cbn [enter_run req_frame_map]. rewrite lookup_empty. by intros [? ?]. }
  cbn [enter_run req_id_counter resp_list resp_queue pipeline_stages req_frame_map] in *.
  rewrite Z.add_0_r in Hc. split.
  { intros Hc0. apply Hc. by rewrite to_int_id. }
  split; [done|]. split; [done|].
  split; [exact Hs|]. split; [|exact Hnew].
  intros r. rewrite Hdom, lookup_empty. split; [intros [[? ?]|?]; done|by right].
Qed.

(** Property X15.  The setup of a batch of fewer than [2 ^ 31] requests gives
    the requests the next request ids in the order of the list (the static
    [int] counter incremented once for each, so that request [k] gets the
    [int] [counter + 1 + k]), creates one frame for each, at stage 0, with the
    index of the request, the batch size and the sequence length read from the
    shape of the input named by [input_to_use_for_seq_len] of the first model,
    and a token for step 0 that carries the inputs of the caller; it appends
    one closure per request to the queue of stage 0, in the order of the list,
    and touches neither the other stages nor the response slots. *)
Theorem SetupAndScheduleAllRequestsToStage0_effect `{rt : OrtRuntime}
    (pcfg : PipelineConfig) (req_list : list OrtReq) (resp_list0 : list OrtResp)
    (w0 w : World) :
  - 2 ^ 31 <= req_id_counter w0 < 2 ^ 31 ->
  Z.of_nat (length req_list) < 2 ^ 31 ->
  SetupAndScheduleAllRequestsToStage0 pcfg req_list (enter_run w0 resp_list0) = Some w ->
  req_id_counter w = to_int (req_id_counter w0 + Z.of_nat (length req_list)) /\
  resp_list w = resp_list0 /\ resp_queue w = [] /\
  pipeline_stages w
  = <[0%nat := default [] (pipeline_stages w0 !! 0%nat)
               ++ ((fun k : nat => mkTask 0 (nth_req_id (req_id_counter w0) (Z.of_nat k)))
                     <$> seq 0 (length req_list))]> (pipeline_stages w0) /\
  (forall r, is_Some (req_frame_map w !! r) <->
     exists k, 0 <= k < Z.of_nat (length req_list) /\
       r = nth_req_id (req_id_counter w0) k) /\
  forall (k : nat) (one_req : OrtReq), req_list !! k = Some one_req ->
    exists f mcfg0 j v d1 d2,
      req_frame_map w !! nth_req_id (req_id_counter w0) (Z.of_nat k) = Some f /\
      req_index f = Z.of_nat k /\
      req_id f = nth_req_id (req_id_counter w0) (Z.of_nat k) /\ stage_id f = 0 /\
      token f = Token_Init (nth_req_id (req_id_counter w0) (Z.of_nat k)) 0
                  (input_names one_req) (input_values one_req) /\
      model_config_vec pcfg !! 0%nat = Some mcfg0 /\
      Contains (input_names one_req) (input_to_use_for_seq_len mcfg0) = (true, j) /\
      vec_at (input_values one_req) j = Some (Some v) /\
      vec_at (ov_shape v) (seq_len_dim_index_in_input mcfg0) = Some d1 /\
      vec_at (ov_shape v) (batch_dim_index_in_input mcfg0) = Some d2 /\
      orig_input_seq_len f = to_int d1 /\ batch_size f = to_int d2.
Proof.
  intros Hc0 Hsize H.
  apply SetupAndScheduleAllRequestsToStage0_effect_aux in H as (Hc & Hrest); [|done].
  split; [by apply Hc|exact Hrest].
Qed.

Lemma SetupAndScheduleAllRequestsToStage0_effect_witness :
  req_id_counter Batch.scheduled = 1 /\
  resp_list Batch.scheduled = [Example.response] /\
  resp_queue Batch.scheduled = [] /\
  pipeline_stages Batch.scheduled = [[mkTask 0 1]] /\
  is_Some (req_frame_map Batch.scheduled !! 1).
Proof.
  destruct (@SetupAndScheduleAllRequestsToStage0_effect (Example.decoder 1)
              Example.config [Example.request] [Example.response] Example.world
              Batch.scheduled) as (Hc & Hr & Hq & Hs & Hdom & _);
    [by vm_compute|reflexivity|by vm_compute|].
  split; [exact Hc|]. split; [exact Hr|]. split; [exact Hq|]. split; [exact Hs|].
  apply Hdom. exists 0. split; [by vm_compute|reflexivity].
Defined.

(** ** [ProcessResponses] *)

Section LoopFailures.
Context `{rt : OrtRuntime}.
Variables (NDEBUG : bool) (pcfg : PipelineConfig).

Lemma return_failure_effect (msg : string) (w : World) (step : LoopStep) :
  return_failure NDEBUG pcfg msg w = Some step ->
  exists w', step = Return (Some (ORT_FAIL, msg)) w' /\
    pipeline_stages w' = replicate (length (pipeline_stages w)) [] /\
    resp_list w' = resp_list w /\
    dom (req_frame_map w') = dom (req_frame_map w).
Proof.
  unfold return_failure.
  destruct (HandleAndReturnFailure NDEBUG pcfg msg w) as [[st w']|] eqn:H; [|done].
  simpl. intros ?; simplify_eq.
  apply HandleAndReturnFailure_effect in H as (-> & Hs & _ & Hd & Hr & _).
  by exists w'.
Qed.

(** Property X16.  A token that comes back with an error message fails the
    whole batch: the round of the loop returns what [HandleAndReturnFailure]
    returns for that message, an [ORT_FAIL] status with the message of the
    token, after the stages were drained; no response slot is written and no
    frame is erased. *)
Theorem process_token_error_token (num_steps r n : Z) (w : World)
    (f : RequestExecutionFrame) (step : LoopStep) :
  req_frame_map w !! r = Some f ->
  tk_req_id (token f) = r ->
  error_msg (token f) <> "" ->
  process_token NDEBUG pcfg num_steps r n w = Some step ->
  exists w', step = Return (Some (ORT_FAIL, error_msg (token f))) w' /\
    pipeline_stages w' = replicate (length (pipeline_stages w)) [] /\
    resp_list w' = resp_list w /\
    dom (req_frame_map w') = dom (req_frame_map w).
Proof.
  intros Hf Hid Herr H. unfold process_token in H. rewrite Hf in H.
  cbn [mbind option_bind] in H.
  rewrite option_guard_True in H by done. rewrite Hid, Hf in H.
  cbn [mbind option_bind] in H.
  rewrite (bool_decide_eq_false_2 _ Herr) in H. simpl in H.
  by apply return_failure_effect.
Qed.

(** Property X17.  A token that comes back from the last stage before the
    last step without the logits fails the whole batch with the message that
    the logits are missing; no response slot is written and no frame is
    erased. *)
Theorem process_token_missing_logits (num_steps r n : Z) (w : World)
    (f : RequestExecutionFrame) (step : LoopStep) :
  req_frame_map w !! r = Some f ->
  tk_req_id (token f) = r ->
  error_msg (token f) = "" ->
  num_stages pcfg <> 0 ->
  Z.rem (stage_id f + 1) (num_stages pcfg) = 0 ->
  tk_step_id (token f) + 1 <> num_steps ->
  logits_name pcfg ∉ ort_value_names (token f) ->
  process_token NDEBUG pcfg num_steps r n w = Some step ->
  exists w', step = Return (Some (ORT_FAIL, "Did not get logits in the output")) w' /\
    pipeline_stages w' = replicate (length (pipeline_stages w)) [] /\
    resp_list w' = resp_list w /\
    dom (req_frame_map w') = dom (req_frame_map w).
Proof.
  intros Hf Hid Herr Hns Hwrap Hstep Hmiss%Contains_false H.
  unfold process_token in H. rewrite Hf in H.
  cbn [mbind option_bind] in H.
  rewrite option_guard_True in H by done. rewrite Hid, Hf in H.
  cbn [mbind option_bind] in H.
  rewrite (bool_decide_eq_true_2 _ Herr) in H. simpl in H.
  rewrite option_guard_True in H by done. cbn [mbind option_bind] in H.
  rewrite (bool_decide_eq_true_2 _ Hwrap) in H.
  rewrite (bool_decide_eq_false_2 _ Hstep) in H.
  unfold start_next_step in H. rewrite Hmiss in H. simpl in H.
  apply return_failure_effect in H as (w' & -> & Hs & Hr & Hd).
  exists w'. split; [done|]. split; [done|]. split; [done|].
  rewrite Hd. unfold upd_frame. simpl. apply dom_alter_L.
Qed.
End LoopFailures.

Lemma process_token_error_token_witness :
  exists w',
    @process_token (Example.decoder 1) true Example.config 3 1 0 (Tokens.bare_world "boom")
    = Some (Return (Some (ORT_FAIL, "boom")) w') /\
    resp_list w' = [Example.response].
Proof.
  destruct (@process_token (Example.decoder 1) true Example.config 3 1 0
              (Tokens.bare_world "boom")) as [step|] eqn:H; [|by vm_compute in H].
  destruct (@process_token_error_token (Example.decoder 1) true Example.config 3 1 0
              (Tokens.bare_world "boom") (Tokens.bare_frame "boom") step
              eq_refl eq_refl ltac:(done) H) as (w' & -> & _ & Hr & _).
  by exists w'.
Defined.

Lemma process_token_missing_logits_witness :
  exists w',
    @process_token (Example.decoder 1) true Example.config 3 1 0 (Tokens.bare_world "")
    = Some (Return (Some (ORT_FAIL, "Did not get logits in the output")) w') /\
    resp_list w' = [Example.response].
Proof.
  destruct (@process_token (Example.decoder 1) true Example.config 3 1 0
              (Tokens.bare_world "")) as [step|] eqn:H; [|by vm_compute in H].
  destruct (@process_token_missing_logits (Example.decoder 1) true Example.config 3 1 0
              (Tokens.bare_world "") (Tokens.bare_frame "") step
              eq_refl eq_refl eq_refl ltac:(done) eq_refl ltac:(done)
              ltac:(apply not_elem_of_nil) H) as (w' & -> & _ & Hr & _).
  by exists w'.
Defined.

Section LoopSteps.
Context `{rt : OrtRuntime}.
Variables (NDEBUG : bool) (pcfg : PipelineConfig).

Lemma CopyFinalOutput_success (r idx : Z) (w : World) (f : RequestExecutionFrame)
    (slot : OrtResp) :
  req_frame_map w !! r = Some f ->
  vec_at (resp_list w) idx = Some slot ->
  length (output_values slot) = length (output_names slot) ->
  length (ort_values (token f)) = length (ort_value_names (token f)) ->
  (forall o, o ∈ output_names slot -> o ∈ ort_value_names (token f)) ->
  exists tok' slot',
    CopyFinalOutput NDEBUG pcfg r idx w
    = Some (None, set_resp_list (<[Z.to_nat idx := slot']> (resp_list w))
                    (set_frames (<[r := set_token tok' f]>) w)) /\
    populated_from (token f) slot slot'.
Proof.
  intros Hf Hslot Hlo Hlt Hall. unfold CopyFinalOutput. rewrite Hf, Hslot.
  cbn [mbind option_bind].
  destruct (CopyFinalOutput_loop_total (ort_value_names (token f)) (output_names slot) 0
              (ort_values (token f)) (output_values slot))
    as (missing & tvals' & outs' & Hloop & _); [done|lia|lia|].
  rewrite Hloop. cbn [mbind option_bind].
  pose proof (CopyFinalOutput_loop_missing _ _ _ _ _ _ _ _ Hloop) as Hm.
  destruct missing as [o|].
  { destruct Hm as [Ho Hno]. destruct Hno. by apply Hall. }
  eexists _, _. split; [done|].
  exists tvals'. done.
Qed.

(** Property X18.  A token that comes back from the last stage at the last
    step, carrying every output the slot of its request asks for, finishes the
    request, whether or not it carries the logits: the slot is populated from
    that token (every output name it asks for, at its first occurrence, has
    the handle the token carried under that name), the frame of the request
    is erased, the request is counted, no closure is scheduled, and the slots
    of the other requests are as they were. *)
Theorem process_token_final_step (num_steps r n : Z) (w : World)
    (f : RequestExecutionFrame) (slot : OrtResp) :
  req_frame_map w !! r = Some f ->
  tk_req_id (token f) = r ->
  error_msg (token f) = "" ->
  num_stages pcfg <> 0 ->
  Z.rem (stage_id f + 1) (num_stages pcfg) = 0 ->
  tk_step_id (token f) + 1 = num_steps ->
  vec_at (resp_list w) (req_index f) = Some slot ->
  length (output_values slot) = length (output_names slot) ->
  length (ort_values (token f)) = length (ort_value_names (token f)) ->
  (forall o, o ∈ output_names slot -> o ∈ ort_value_names (token f)) ->
  exists w' slot',
    process_token NDEBUG pcfg num_steps r n w = Some (Continue (n + 1) w') /\
    req_frame_map w' = delete r (req_frame_map w) /\
    resp_list w' = <[Z.to_nat (req_index f) := slot']> (resp_list w) /\
    populated_from (token f) slot slot' /\
    (forall k o, output_names slot !! k = Some o -> o ∉ take k (output_names slot) ->
       exists j, Contains (ort_value_names (token f)) o = (true, j) /\
         output_values slot' !! k = ort_values (token f) !! Z.to_nat j) /\
    pipeline_stages w' = pipeline_stages w /\
    resp_queue w' = resp_queue w /\
    events w' = events w.
Proof.
  intros Hf Hid Herr Hns Hwrap Hstep Hslot Hlo Hlt Hall.
  unfold process_token. rewrite Hf. cbn [mbind option_bind].
  rewrite option_guard_True by done. rewrite Hid, Hf. cbn [mbind option_bind].
  rewrite (bool_decide_eq_true_2 _ Herr). simpl.
  rewrite option_guard_True by done. cbn [mbind option_bind].
  rewrite (bool_decide_eq_true_2 _ Hwrap), (bool_decide_eq_true_2 _ Hstep).
  unfold finish_request.
  set (w1 := upd_frame r (set_stage_id (Z.rem (stage_id f + 1) (num_stages pcfg))) w).
  destruct (CopyFinalOutput_success r (req_index f) w1
              (set_stage_id (Z.rem (stage_id f + 1) (num_stages pcfg)) f) slot)
    as (tok' & slot' & Hcopy & Hpop); [|done..|].
  { unfold w1. by rewrite lookup_upd_frame, Hf. }
  rewrite Hcopy. cbn [mbind option_bind]. eexists _, slot'. split; [done|].
  simpl. split.
  { rewrite delete_insert_eq. apply map_eq. intros k.
    destruct (decide (k = r)) as [->|Hne].
    - by rewrite !lookup_delete_eq.
    - rewrite !lookup_delete_ne by done. by rewrite lookup_alter_ne. }
  split; [done|]. split; [exact Hpop|]. split; [|done].
  intros k o Hk Hfirst. destruct Hpop as (tv & Hloop & _ & _).
  apply CopyFinalOutput_loop_entries in Hloop as [Hx _]; [|done].
  destruct (Hx k o Hk) as (j & Hc & Ho). exists j. split; [done|].
  cbn [token set_stage_id] in Ho.
  rewrite bool_decide_eq_false_2 in Ho by done. exact Ho.
Qed.
End LoopSteps.

Lemma process_token_final_step_witness :
  exists w' slot',
    @process_token (Example.decoder 1) true Example.config 3 1 0
      (FinalToken.world_of Example.response) = Some (Continue (0 + 1) w') /\
    req_frame_map w' = delete 1 (req_frame_map (FinalToken.world_of Example.response)) /\
    resp_list w' = [slot'] /\
    output_values slot' = [Some FinalToken.logits].
Proof.
  destruct (@process_token_final_step (Example.decoder 1) true Example.config 3 1 0
              (FinalToken.world_of Example.response) FinalToken.frame Example.response
              eq_refl eq_refl eq_refl ltac:(done) eq_refl eq_refl eq_refl eq_refl eq_refl)
    as (w' & slot' & Hrun & Hf & Hr & Hpop & _).
  - intros o Ho. apply list_elem_of_In in Ho. simpl in Ho.
    destruct Ho as [<-|[]]. apply list_elem_of_here.
  - exists w', slot'. split; [exact Hrun|]. split; [exact Hf|]. split; [exact Hr|].
    destruct Hpop as (tv & Hloop & _ & _). vm_compute in Hloop. by injection Hloop.
Defined.

(** Property X19.  A token that comes back without error from a stage that is
    not the last one goes on to the next stage: the frame moves to that stage,
    the token keeps its step, its names and its values, one closure for the
    request is appended to the queue of the next stage, no request is counted,
    and neither the response slots nor the response queue change. *)
Theorem process_token_next_stage `{rt : OrtRuntime} (NDEBUG : bool)
    (pcfg : PipelineConfig) (num_steps r n : Z) (w : World)
    (f : RequestExecutionFrame) (q : list Task) :
  req_frame_map w !! r = Some f ->
  tk_req_id (token f) = r ->
  error_msg (token f) = "" ->
  num_stages pcfg <> 0 ->
  Z.rem (stage_id f + 1) (num_stages pcfg) <> 0 ->
  is_Some (vec_at (model_config_vec pcfg) (Z.rem (stage_id f + 1) (num_stages pcfg))) ->
  vec_at (pipeline_stages w) (Z.rem (stage_id f + 1) (num_stages pcfg)) = Some q ->
  exists w',
    process_token NDEBUG pcfg num_steps r n w = Some (Continue n w') /\
    req_frame_map w'
    = <[r := set_stage_id (Z.rem (stage_id f + 1) (num_stages pcfg)) f]> (req_frame_map w) /\
    pipeline_stages w'
    = <[Z.to_nat (Z.rem (stage_id f + 1) (num_stages pcfg)) :=
          q ++ [mkTask (Z.to_nat (Z.rem (stage_id f + 1) (num_stages pcfg))) r]]>
        (pipeline_stages w) /\
    resp_list w' = resp_list w /\
    resp_queue w' = resp_queue w /\
    events w' = events w ++ [EvScheduleTask (Z.rem (stage_id f + 1) (num_stages pcfg)) r].
Proof.
  intros Hf Hid Herr Hns Hwrap [mcfg Hm] Hq.
  unfold process_token. rewrite Hf. cbn [mbind option_bind].
  rewrite option_guard_True by done. rewrite Hid, Hf. cbn [mbind option_bind].
  rewrite (bool_decide_eq_true_2 _ Herr). simpl.
  rewrite option_guard_True by done. cbn [mbind option_bind].
  rewrite (bool_decide_eq_false_2 _ Hwrap).
  unfold reenqueue. rewrite !lookup_upd_frame, Hf. simpl.
  rewrite Hm. simpl. unfold ScheduleTask. simpl. rewrite Hq. simpl.
  eexists. split; [done|]. simpl. split; [|done].
  apply map_eq. intros k. destruct (decide (k = r)) as [->|Hne].
  - rewrite lookup_insert_eq, !lookup_alter_eq, Hf. simpl. f_equal.
    unfold set_token, set_stage_id. simpl. f_equal.
    destruct (token f); simpl in *. by subst.
  - by rewrite lookup_insert_ne, !lookup_alter_ne by done.
Qed.

Lemma process_token_next_stage_witness :
  exists w',
    @process_token (Example.decoder 1) true TwoStages.config 3 1 0 TwoStages.world
    = Some (Continue 0 w') /\
    req_frame_map w' = <[1 := set_stage_id 1 TwoStages.frame]> (req_frame_map TwoStages.world) /\
    pipeline_stages w' = [[]; [mkTask 1 1]].
Proof.
  destruct (@process_token_next_stage (Example.decoder 1) true TwoStages.config 3 1 0
              TwoStages.world TwoStages.frame []
              eq_refl eq_refl eq_refl ltac:(done) ltac:(done)
              ltac:(by vm_compute; eexists) eq_refl)
    as (w' & Hrun & Hf & Hs & _).
  exists w'. done.
Defined.

(** ** [Run] *)

(** Property X20.  When the orchestrator finds the response queue empty
    before any worker has answered (its wait times out first, or no worker
    ever runs), a [Run] on a batch that passes [ValidateRequest] and holds a
    request fails with the message of the timeout, an [ORT_FAIL] status; the
    closures of the batch were run by the drain, every stage is left idle, the
    response slots are as the caller passed them, and the [int] counter of
    the request ids has advanced by the number of requests. *)
Theorem Run_timeout `{rt : OrtRuntime} (NDEBUG : bool) (pcfg : PipelineConfig)
    (sched : list SchedEvent) (req_list : list OrtReq) (resp_list0 : list OrtResp)
    (num_steps : Z) (w0 w : World) (st : OrtStatus) :
  ValidateRequest req_list resp_list0 = None ->
  req_list <> [] ->
  Z.of_nat (length req_list) < 2 ^ 31 ->
  - 2 ^ 31 <= req_id_counter w0 < 2 ^ 31 ->
  (forall s, head sched <> Some (WorkerRuns s)) ->
  Run NDEBUG pcfg sched req_list resp_list0 num_steps w0 = Some (st, w) ->
  st = Some (ORT_FAIL, "Request processing timed out after 1000 ms") /\
  resp_list w = resp_list0 /\
  pipeline_stages w = replicate (length (pipeline_stages w0)) [] /\
  req_id_counter w = to_int (req_id_counter w0 + Z.of_nat (length req_list)).
Proof.
  intros Hval Hne Hlen Hc0 Hs H. unfold Run in H. rewrite Hval in H.
  destruct (SetupAndScheduleAllRequestsToStage0 _ _ _) as [ws|] eqn:Hsetup; [|done].
  cbn [mbind option_bind] in H.
  apply SetupAndScheduleAllRequestsToStage0_effect_aux in Hsetup
    as (Hc & Hr & Hq & Hst & _); [|done].
  specialize (Hc Hc0).
  assert (0 < to_int (Z.of_nat (length req_list))) as Hpos.
  { rewrite to_int_id by lia. destruct req_list; [done|simpl; lia]. }
  assert (HandleAndReturnFailure NDEBUG pcfg "Request processing timed out after 1000 ms"
            (log EvWaitAndPop ws) = Some (st, w)) as Hfail.
  { destruct sched as [|[s|] sched]; simpl in H;
      rewrite (bool_decide_eq_true_2 _ Hpos) in H; [done| |].
    - by destruct (Hs s).
    - by rewrite Hq in H. }
  apply HandleAndReturnFailure_effect in Hfail as (-> & Hstages & _ & _ & Hr' & Hc').
  cbn [log resp_list req_id_counter pipeline_stages] in *.
  split; [done|]. split; [congruence|]. split; [|congruence].
  rewrite Hstages, Hst. by rewrite length_insert.
Qed.

Lemma Run_timeout_witness :
  exists w,
    @Run (Example.decoder 1) true Example.config [OrchestratorWakes] [Example.request]
      [Example.response] 3 Example.world
    = Some (Some (ORT_FAIL, "Request processing timed out after 1000 ms"), w) /\
    resp_list w = [Example.response] /\ pipeline_stages w = [[]].
Proof.
  destruct (@Run (Example.decoder 1) true Example.config [OrchestratorWakes]
              [Example.request] [Example.response] 3 Example.world)
    as [[st w]|] eqn:H; [|by vm_compute in H].
  destruct (@Run_timeout (Example.decoder 1) true Example.config [OrchestratorWakes]
              [Example.request] [Example.response] 3 Example.world w st
              eq_refl ltac:(done) eq_refl ltac:(by vm_compute) ltac:(done) H)
    as (-> & Hr & Hs & _).
  exists w. split; [reflexivity|]. split; [exact Hr|exact Hs].
Defined.

Section QueueInv.
Context `{rt : OrtRuntime}.
Variables (NDEBUG : bool) (pcfg : PipelineConfig).

Lemma worker_step_queue_inv (s : nat) (w w' : World) :
  queue_inv w -> worker_step NDEBUG pcfg s w = Some w' -> queue_inv w'.
Proof.
  intros [Hnd Hlive] H. unfold worker_step in H.
  destruct (pipeline_stages w !! s) as [[|t rest]|] eqn:Hq; [by simplify_eq..| |by simplify_eq].
  pose proof (concat_pop _ _ _ _ Hq) as Hperm.
  apply ThreadWorkerFn_world in H
    as (Hs & _ & _ & Hrq & f & f' & Hf & Hfr & _). simpl in *.
  split.
  - unfold in_flight in *. rewrite Hrq, Hs, <-app_assoc. simpl.
    rewrite Hperm in Hnd. by rewrite fmap_cons in Hnd.
  - intros t' Ht'. rewrite Hs in Ht'. rewrite Hfr.
    assert (t' ∈ concat (pipeline_stages w)) as Hin
      by (rewrite Hperm; by apply list_elem_of_further).
    apply Hlive in Hin. destruct (decide (task_req t = task_req t')) as [<-|Hne].
    + by rewrite lookup_insert_eq.
    + by rewrite lookup_insert_ne.
Qed.

Lemma queue_inv_held_upd_frame (r : Z)
    (g : RequestExecutionFrame -> RequestExecutionFrame) (w : World) :
  queue_inv_held r w -> queue_inv_held r (upd_frame r g w).
Proof.
  intros [Hnd Hlive]. split; [done|]. simpl. intros t Ht. apply Hlive in Ht.
  destruct (decide (r = task_req t)) as [->|Hne].
  - rewrite lookup_alter_eq. destruct Ht as [f Hf]. rewrite Hf. simpl. by eexists.
  - by rewrite lookup_alter_ne.
Qed.

Lemma reenqueue_queue_inv (r n n' : Z) (w w' : World) :
  queue_inv_held r w -> reenqueue pcfg r n w = Some (Continue n' w') -> queue_inv w'.
Proof.
  intros [Hnd Hlive] H. unfold reenqueue in H.
  destruct (req_frame_map w !! r) as [f|] eqn:Hf; [|done]. simpl in H.
  destruct (vec_at (model_config_vec pcfg) (stage_id f)); [|done]. simpl in H.
  unfold ScheduleTask in H.
  destruct (vec_at (pipeline_stages w) (stage_id f)) as [q|] eqn:Hq; [|done].
  simpl in H. simplify_eq. apply vec_at_Some in Hq as [_ Hq].
  pose proof (concat_push _ _ (mkTask (Z.to_nat (stage_id f)) r) _ Hq) as Hperm.
  split.
  - unfold in_flight in *. simpl. rewrite Hperm, fmap_cons. simpl.
    by rewrite <-Permutation_middle.
  - simpl. intros t. rewrite Hperm. intros [->|Ht]%elem_of_cons.
    + simpl. by rewrite Hf.
    + by apply Hlive.
Qed.

Lemma finish_request_queue_inv (r idx n n' : Z) (w w' : World) :
  queue_inv_held r w ->
  finish_request NDEBUG pcfg r r idx n w = Some (Continue n' w') -> queue_inv w'.
Proof.
  intros [Hnd Hlive] H. unfold finish_request in H.
  destruct (CopyFinalOutput _ _ _ _ _) as [[[st|] w1]|] eqn:Hcopy; simpl in H; [done| |done].
  simplify_eq.
  unfold CopyFinalOutput in Hcopy.
  destruct (req_frame_map w !! r) as [f|] eqn:Hf; [|done].
  cbn [mbind option_bind] in Hcopy.
  destruct (vec_at (resp_list w) idx) as [slot|]; [|done].
  cbn [mbind option_bind] in Hcopy.
  destruct (CopyFinalOutput_loop _ _ _ _ _) as [[[[o|] tv] ov]|];
    cbn [mbind option_bind] in Hcopy; [|simplify_eq|done].
  { unfold HandleAndReturnFailure in Hcopy.
    destruct (drain_stages _ _ _ _); cbn [mbind option_bind] in Hcopy; by simplify_eq. }
  apply NoDup_cons in Hnd as [Hr Hnd].
  split; [done|]. simpl. intros t Ht.
  assert (task_req t <> r) as Hne.
  { intros <-. apply Hr. unfold in_flight. apply elem_of_app. right.
    apply list_elem_of_fmap. by exists t. }
  rewrite lookup_delete_ne, lookup_insert_ne by done. by apply Hlive.
Qed.

Lemma process_token_queue_inv (num_steps r n n' : Z) (rest : list Z) (w w' : World) :
  queue_inv w -> resp_queue w = r :: rest ->
  process_token NDEBUG pcfg num_steps r n (set_resp_queue rest (log EvWaitAndPop w))
  = Some (Continue n' w') ->
  queue_inv w'.
Proof.
  intros [Hnd Hlive] Hq H.
  set (w0 := set_resp_queue rest (log EvWaitAndPop w)) in *.
  assert (queue_inv_held r w0) as Hheld.
  { split; [|done]. unfold in_flight in *. simpl. by rewrite Hq in Hnd. }
  clearbody w0. clear Hnd Hlive Hq.
  unfold process_token in H.
  destruct (req_frame_map w0 !! r) as [f|] eqn:Hf; [|done].
  cbn [mbind option_bind] in H.
  destruct (decide (tk_req_id (token f) = r)) as [Hid|HN].
  2:{ rewrite (option_guard_False _ HN) in H. discriminate H. }
  rewrite option_guard_True in H by done. rewrite Hid, Hf in H.
  cbn [mbind option_bind] in H.
  destruct (negb (bool_decide (error_msg (token f) = ""))).
  { apply return_failure_status in H as (? & ? & ?). done. }
  destruct (decide (num_stages pcfg <> 0)) as [Hns|HN].
  2:{ rewrite (option_guard_False _ HN) in H. discriminate H. }
  rewrite option_guard_True in H by done. cbn [mbind option_bind] in H.
  case_bool_decide as Hwrap.
  - case_bool_decide as Hlast.
    + eapply finish_request_queue_inv; [|done]. by apply queue_inv_held_upd_frame.
    + unfold start_next_step in H.
      destruct (Contains _ _) as [[] j]; simpl in H.
      2:{ apply return_failure_status in H as (? & ? & ?). done. }
      destruct (vec_at (ort_values (token f)) j) as [[lv|]|]; [|done..].
      cbn [mbind option_bind] in H.
      destruct (GetNewInputIdsFromLogits _ _ _ _) as [[[ids shape] all_eos]|]; [|done].
      cbn [mbind option_bind fst snd] in H.
      destruct all_eos.
      * eapply finish_request_queue_inv; [|done].
        by do 2 apply queue_inv_held_upd_frame.
      * destruct (CreateTensor _ _ _) as [t1|]; [|done]. cbn [mbind option_bind] in H.
        destruct (GetNewPosnIds _ _ _) as [posn|]; [|done]. cbn [mbind option_bind] in H.
        destruct (CreateTensor _ _ _) as [t2|]; [|done]. cbn [mbind option_bind] in H.
        eapply reenqueue_queue_inv; [|exact H].
        by do 4 apply queue_inv_held_upd_frame.
  - eapply reenqueue_queue_inv; [|exact H].
    by do 2 apply queue_inv_held_upd_frame.
Qed.

Lemma ProcessResponses_queue_inv (sched : list SchedEvent) (num_reqs num_steps n : Z)
    (w w' : World) :
  queue_inv w ->
  ProcessResponses NDEBUG pcfg sched num_reqs num_steps n w = Some (None, w') ->
  queue_inv w'.
Proof.
  revert n w. induction sched as [|[s|] sched IH]; intros n w Hinv; simpl;
    case_bool_decide as Hlt; try (by intros ?; simplify_eq).
  - by intros (? & _)%HandleAndReturnFailure_world.
  - destruct (worker_step NDEBUG pcfg s w) as [w1|] eqn:Hstep; [|done]. simpl.
    apply IH. by eapply worker_step_queue_inv.
  - destruct (resp_queue w) as [|r rest] eqn:Hq.
    { by intros (? & _)%HandleAndReturnFailure_world. }
    destruct (process_token _ _ _ _ _ _) as [[st w1|n' w1]|] eqn:Hstep; [| |done]; simpl.
    + intros ?; simplify_eq. by apply process_token_return in Hstep.
    + apply IH. by eapply process_token_queue_inv.
Qed.

Lemma process_token_Return_drained (num_steps r n : Z) (w w' : World) (st : OrtStatus) :
  process_token NDEBUG pcfg num_steps r n w = Some (Return st w') -> drained w'.
Proof.
  intros H.
  assert (forall msg w1, return_failure NDEBUG pcfg msg w1 = Some (Return st w') ->
            drained w') as Hfail.
  { intros msg w1. unfold return_failure.
    destruct (HandleAndReturnFailure _ _ _ _) as [[st1 w2]|] eqn:Hh; [|done]. simpl.
    intros ?; simplify_eq. by apply HandleAndReturnFailure_world in Hh as (_ & ? & _). }
  assert (forall idx w1, finish_request NDEBUG pcfg r r idx n w1 = Some (Return st w') ->
            drained w') as Hfin.
  { intros idx w1. unfold finish_request.
    destruct (CopyFinalOutput _ _ _ _ _) as [[[e|] w2]|] eqn:Hcopy; simpl; [|done..].
    intros ?; simplify_eq. unfold CopyFinalOutput in Hcopy.
    destruct (req_frame_map w1 !! r) as [f1|]; [|done].
    cbn [mbind option_bind] in Hcopy.
    destruct (vec_at (resp_list w1) idx) as [slot|]; [|done].
    cbn [mbind option_bind] in Hcopy.
    destruct (CopyFinalOutput_loop _ _ _ _ _) as [[[[o|] tv] ov]|];
      cbn [mbind option_bind] in Hcopy; [|by simplify_eq|done].
    by apply HandleAndReturnFailure_world in Hcopy as (_ & ? & _). }
  unfold process_token in H.
  destruct (req_frame_map w !! r) as [f|] eqn:Hf; [|done].
  cbn [mbind option_bind] in H.
  destruct (decide (tk_req_id (token f) = r)) as [Hid|HN].
  2:{ rewrite (option_guard_False _ HN) in H. discriminate H. }
  rewrite option_guard_True in H by done. rewrite Hid, Hf in H.
  cbn [mbind option_bind] in H.
  destruct (negb (bool_decide (error_msg (token f) = ""))); [by eapply Hfail|].
  destruct (decide (num_stages pcfg <> 0)) as [Hns|HN].
  2:{ rewrite (option_guard_False _ HN) in H. discriminate H. }
  rewrite option_guard_True in H by done. cbn [mbind option_bind] in H.
  case_bool_decide as Hwrap.
  - case_bool_decide as Hlast; [by eapply Hfin|].
    unfold start_next_step in H.
    destruct (Contains _ _) as [[] j]; simpl in H; [|by eapply Hfail].
    destruct (vec_at (ort_values (token f)) j) as [[lv|]|]; [|done..].
    cbn [mbind option_bind] in H.
    destruct (GetNewInputIdsFromLogits _ _ _ _) as [[[ids shape] all_eos]|]; [|done].
    cbn [mbind option_bind fst snd] in H.
    destruct all_eos; [by eapply Hfin|].
    destruct (CreateTensor _ _ _) as [t1|]; [|done]. cbn [mbind option_bind] in H.
    destruct (GetNewPosnIds _ _ _) as [posn|]; [|done]. cbn [mbind option_bind] in H.
    destruct (CreateTensor _ _ _) as [t2|]; [|done]. cbn [mbind option_bind] in H.
    by apply reenqueue_no_return in H.
  - by apply reenqueue_no_return in H.
Qed.

Lemma ProcessResponses_failure_drained (sched : list SchedEvent)
    (num_reqs num_steps n : Z) (w w' : World) (e : OrtErrorCode * string) :
  ProcessResponses NDEBUG pcfg sched num_reqs num_steps n w = Some (Some e, w') ->
  drained w'.
Proof.
  revert n w. induction sched as [|[s|] sched IH]; intros n w; simpl;
    case_bool_decide as Hlt; try (by intros ?; simplify_eq).
  - by intros (_ & ? & _)%HandleAndReturnFailure_world.
  - destruct (worker_step NDEBUG pcfg s w) as [w1|] eqn:Hstep; [|done]. simpl.
    apply IH.
  - destruct (resp_queue w) as [|r rest] eqn:Hq.
    { by intros (_ & ? & _)%HandleAndReturnFailure_world. }
    destruct (process_token _ _ _ _ _ _) as [[st w1|n' w1]|] eqn:Hstep; [| |done]; simpl.
    + intros ?; simplify_eq. by eapply process_token_Return_drained.
    + apply IH.
Qed.
End QueueInv.

Lemma drained_insert_concat (w0 : World) (q : list Task) :
  drained w0 ->
  concat (<[0%nat := q]> (pipeline_stages w0))
  = match pipeline_stages w0 with [] => [] | _ => q end.
Proof.
  intros Hd. pose proof (drained_concat w0 Hd) as Hc.
  destruct (pipeline_stages w0) as [|q0 qs]; [done|]. simpl in *.
  apply app_eq_nil in Hc as [_ ->]. by rewrite app_nil_r.
Qed.

Lemma SetupAndScheduleAllRequestsToStage0_queue_inv `{rt : OrtRuntime}
    (pcfg : PipelineConfig) (req_list : list OrtReq) (resp_list0 : list OrtResp)
    (w0 w : World) :
  drained w0 ->
  Z.of_nat (length req_list) < 2 ^ 31 ->
  SetupAndScheduleAllRequestsToStage0 pcfg req_list (enter_run w0 resp_list0) = Some w ->
  queue_inv w.
Proof.
  intros Hd Hsize H.
  apply SetupAndScheduleAllRequestsToStage0_effect_aux in H
    as (_ & _ & Hq & Hs & Hdom & _); [|done].
  assert (forall t, t ∈ concat (pipeline_stages w) ->
            exists k : nat, (k < length req_list)%nat /\
              t = mkTask 0 (nth_req_id (req_id_counter w0) (Z.of_nat k))) as Htasks.
  { intros t. rewrite Hs, (drained_insert_concat w0 _ Hd).
    destruct (pipeline_stages w0) as [|q0 qs] eqn:Hw0; [by intros ?%not_elem_of_nil|].
    unfold drained in Hd. rewrite Hw0 in Hd. apply Forall_cons in Hd as [-> _]. simpl.
    intros (k & -> & Hk)%list_elem_of_fmap. apply elem_of_seq in Hk.
    exists k. split; [lia|done]. }
  split.
  - unfold in_flight. rewrite Hq. simpl.
    rewrite Hs, (drained_insert_concat w0 _ Hd).
    destruct (pipeline_stages w0) as [|q0 qs] eqn:Hw0; [apply NoDup_nil_2|].
    unfold drained in Hd. rewrite Hw0 in Hd. apply Forall_cons in Hd as [-> _]. simpl.
    rewrite <-list_fmap_compose. apply NoDup_fmap_2_strong; [|apply NoDup_seq].
    intros k1 k2 Hk1%elem_of_seq Hk2%elem_of_seq Heq. simpl in Heq.
    apply nth_req_id_inj in Heq; lia.
  - intros t (k & Hk & ->)%Htasks. simpl. apply Hdom. exists (Z.of_nat k).
    split; [lia|done].
Qed.

Lemma Run_leaves_stages_idle_aux `{rt : OrtRuntime} (NDEBUG : bool)
    (pcfg : PipelineConfig) (sched : list SchedEvent) (req_list : list OrtReq)
    (resp_list0 : list OrtResp) (num_steps : Z) (w0 w : World) (st : OrtStatus) :
  drained w0 ->
  Z.of_nat (length req_list) < 2 ^ 31 ->
  Run NDEBUG pcfg sched req_list resp_list0 num_steps w0 = Some (st, w) ->
  drained w /\ (st = None -> req_frame_map w = ∅).
Proof.
  intros Hd Hsize Hrun. unfold Run in Hrun.
  destruct (ValidateRequest req_list resp_list0) as [e|] eqn:Hv.
  { simplify_eq. split; [exact Hd|done]. }
  apply ValidateRequest_None in Hv as (Hlen & _ & _).
  destruct (SetupAndScheduleAllRequestsToStage0 _ _ _) as [w1|] eqn:Hsetup; [|done].
  simpl in Hrun. destruct st as [e|].
  { split; [|done]. by eapply ProcessResponses_failure_drained. }
  pose proof (SetupAndScheduleAllRequestsToStage0_queue_inv _ _ _ _ _ Hd Hsize Hsetup)
    as Hinv.
  apply (ProcessResponses_queue_inv NDEBUG pcfg) in Hrun as Hinv'; [|done].
  apply (SetupAndScheduleAllRequestsToStage0_progress pcfg (fun _ _ => True))
    in Hsetup; [|done..].
  apply (ProcessResponses_progress NDEBUG pcfg resp_list0) in Hrun; [|done].
  destruct Hrun as (n' & Hn' & fin & Hfin & Hpop & _ & Hframes & _).
  rewrite to_int_id in Hn' by lia.
  assert (fin ⊆ set_seq 0 (length resp_list0)) as Hsub.
  { intros k Hk. destruct (Hpop k Hk) as (s0 & _ & _ & Hs0 & _).
    apply elem_of_set_seq. apply lookup_lt_Some in Hs0. lia. }
  assert (fin = set_seq 0 (length resp_list0)) as ->.
  { apply set_subseteq_size_eq; [done|]. rewrite size_set_seq. lia. }
  assert (req_frame_map w = ∅) as Hempty.
  { apply map_empty. intros r. destruct (req_frame_map w !! r) as [f|] eqn:Hf; [|done].
    destruct (Hframes r f Hf) as (Hi0 & Hnot & Hlt). destruct Hnot.
    apply elem_of_set_seq. lia. }
  split; [|done]. destruct Hinv' as [_ Hlive].
  assert (concat (pipeline_stages w) = []) as Hnone.
  { destruct (concat (pipeline_stages w)) as [|t ts] eqn:Hc; [done|].
    destruct (Hlive t) as [f Hf]; [apply list_elem_of_here|].
    by rewrite Hempty, lookup_empty in Hf. }
  unfold drained. apply Forall_forall. intros q Hq.
  destruct q as [|t q]; [done|].
  assert (t ∈ concat (pipeline_stages w)) as Hin.
  { apply list_elem_of_In, in_concat. exists (t :: q).
    split; apply list_elem_of_In; [done|apply list_elem_of_here]. }
  rewrite Hnone in Hin. by apply not_elem_of_nil in Hin.
Qed.

(** Property X21.  A [Run] that starts with idle stages returns with idle
    stages, whatever its status: no closure outlives the call and the frames
    it refers to.  When the status is success, every request was finished and
    no frame is left. *)
Theorem Run_leaves_stages_idle `{rt : OrtRuntime} (NDEBUG : bool)
    (pcfg : PipelineConfig) (sched : list SchedEvent) (req_list : list OrtReq)
    (resp_list0 : list OrtResp) (num_steps : Z) (w0 w : World) (st : OrtStatus) :
  drained w0 ->
  Z.of_nat (length req_list) < 2 ^ 31 ->
  Run NDEBUG pcfg sched req_list resp_list0 num_steps w0 = Some (st, w) ->
  drained w /\ (st = None -> req_frame_map w = ∅).
Proof. apply Run_leaves_stages_idle_aux. Qed.

Lemma Run_leaves_stages_idle_witness :
  exists w,
    @Run (Example.decoder 1) true Example.config (Example.turns 3)
      [Example.request] [Example.response] 3 Example.world = Some (None, w) /\
    drained w /\ req_frame_map w = ∅.
Proof.
  destruct (@Run (Example.decoder 1) true Example.config (Example.turns 3)
              [Example.request] [Example.response] 3 Example.world)
    as [[[e|] w]|] eqn:H; [by vm_compute in H| |by vm_compute in H].
  destruct (@Run_leaves_stages_idle (Example.decoder 1) true Example.config
              (Example.turns 3) [Example.request] [Example.response] 3 Example.world
              w None) as [Hd He].
  - by repeat constructor.
  - simpl. lia.
  - done.
  - exists w. split; [done|]. split; [done|]. by apply He.
Defined.

Section SessionShape.
Context `{rt : OrtRuntime}.
Variables (NDEBUG : bool) (pcfg : PipelineConfig).

(** The stages and the request id counter are those of [w]. *)
Lemma CopyFinalOutput_shape (r idx : Z) (w w' : World) (st : OrtStatus) :
  CopyFinalOutput NDEBUG pcfg r idx w = Some (st, w') ->
  length (pipeline_stages w') = length (pipeline_stages w) /\
  req_id_counter w' = req_id_counter w.
Proof.
  unfold CopyFinalOutput.
  destruct (req_frame_map w !! r) as [f|]; [|done]. cbn [mbind option_bind].
  destruct (vec_at (resp_list w) idx) as [slot|]; [|done]. cbn [mbind option_bind].
  destruct (CopyFinalOutput_loop _ _ _ _ _) as [[[[o|] tv] ov]|];
    cbn [mbind option_bind]; [|by intros ?; simplify_eq|done].
  intros (_ & Hs & _ & _ & _ & Hc)%HandleAndReturnFailure_effect.
  rewrite Hs, length_replicate. done.
Qed.

Lemma process_token_shape (num_steps r n : Z) (w : World) (step : LoopStep) :
  process_token NDEBUG pcfg num_steps r n w = Some step ->
  match step with
  | Return _ w' | Continue _ w' =>
      length (pipeline_stages w') = length (pipeline_stages w) /\
      req_id_counter w' = req_id_counter w
  end.
Proof.
  intros H.
  assert (forall msg w1 step1, return_failure NDEBUG pcfg msg w1 = Some step1 ->
            match step1 with
            | Return _ w' | Continue _ w' =>
                length (pipeline_stages w') = length (pipeline_stages w1) /\
                req_id_counter w' = req_id_counter w1
            end) as Hfail.
  { intros msg w1 step1. unfold return_failure.
    destruct (HandleAndReturnFailure _ _ _ _) as [[st1 w2]|] eqn:Hh; [|done]. simpl.
    intros ?; simplify_eq.
    apply HandleAndReturnFailure_effect in Hh as (_ & Hs & _ & _ & _ & Hc).
    by rewrite Hs, length_replicate. }
  assert (forall idx m w1 step1, finish_request NDEBUG pcfg r r idx m w1 = Some step1 ->
            match step1 with
            | Return _ w' | Continue _ w' =>
                length (pipeline_stages w') = length (pipeline_stages w1) /\
                req_id_counter w' = req_id_counter w1
            end) as Hfin.
  { intros idx m w1 step1. unfold finish_request.
    destruct (CopyFinalOutput _ _ _ _ _) as [[[e|] w2]|] eqn:Hcopy; simpl; [| |done];
      intros ?; simplify_eq; by apply CopyFinalOutput_shape in Hcopy. }
  assert (forall m w1 step1, reenqueue pcfg r m w1 = Some step1 ->
            match step1 with
            | Return _ w' | Continue _ w' =>
                length (pipeline_stages w') = length (pipeline_stages w1) /\
                req_id_counter w' = req_id_counter w1
            end) as Hre.
  { intros m w1 step1. unfold reenqueue.
    destruct (req_frame_map w1 !! r) as [f1|]; [|done]. simpl.
    destruct (vec_at (model_config_vec pcfg) (stage_id f1)); [|done]. simpl.
    unfold ScheduleTask. destruct (vec_at (pipeline_stages w1) (stage_id f1)); [|done].
    simpl. intros ?; simplify_eq. simpl. by rewrite length_insert. }
  unfold process_token in H.
  destruct (req_frame_map w !! r) as [f|] eqn:Hf; [|done].
  cbn [mbind option_bind] in H.
  destruct (decide (tk_req_id (token f) = r)) as [Hid|HN].
  2:{ rewrite (option_guard_False _ HN) in H. discriminate H. }
  rewrite option_guard_True in H by done. rewrite Hid, Hf in H.
  cbn [mbind option_bind] in H.
  destruct (negb (bool_decide (error_msg (token f) = ""))); [by apply Hfail in H|].
  destruct (decide (num_stages pcfg <> 0)) as [Hns|HN].
  2:{ rewrite (option_guard_False _ HN) in H. discriminate H. }
  rewrite option_guard_True in H by done. cbn [mbind option_bind] in H.
  case_bool_decide as Hwrap.
  - case_bool_decide as Hlast; [by apply Hfin in H|].
    unfold start_next_step in H.
    destruct (Contains _ _) as [[] j]; simpl in H; [|by apply Hfail in H].
    destruct (vec_at (ort_values (token f)) j) as [[lv|]|]; [|done..].
    cbn [mbind option_bind] in H.
    destruct (GetNewInputIdsFromLogits _ _ _ _) as [[[ids shape] all_eos]|]; [|done].
    cbn [mbind option_bind fst snd] in H.
    destruct all_eos; [by apply Hfin in H|].
    destruct (CreateTensor _ _ _) as [t1|]; [|done]. cbn [mbind option_bind] in H.
    destruct (GetNewPosnIds _ _ _) as [posn|]; [|done]. cbn [mbind option_bind] in H.
    destruct (CreateTensor _ _ _) as [t2|]; [|done]. cbn [mbind option_bind] in H.
    by apply Hre in H.
  - by apply Hre in H.
Qed.

Lemma ProcessResponses_shape (sched : list SchedEvent) (num_reqs num_steps n : Z)
    (w w' : World) (st : OrtStatus) :
  ProcessResponses NDEBUG pcfg sched num_reqs num_steps n w = Some (st, w') ->
  length (pipeline_stages w') = length (pipeline_stages w) /\
  req_id_counter w' = req_id_counter w.
Proof.
  assert (forall msg w1, HandleAndReturnFailure NDEBUG pcfg msg w1 = Some (st, w') ->
            length (pipeline_stages w') = length (pipeline_stages w1) /\
            req_id_counter w' = req_id_counter w1) as Hfail.
  { intros msg w1 (_ & Hs & _ & _ & _ & Hc)%HandleAndReturnFailure_effect.
    by rewrite Hs, length_replicate. }
  revert n w. induction sched as [|[s|] sched IH]; intros n w; simpl;
    case_bool_decide as Hlt; try (by intros ?; simplify_eq).
  - intros H. by apply Hfail in H.
  - destruct (worker_step NDEBUG pcfg s w) as [w1|] eqn:Hstep; [|done]. simpl.
    intros [Hs Hc]%IH. rewrite Hs, Hc. clear Hs Hc IH.
    unfold worker_step in Hstep.
    destruct (pipeline_stages w !! s) as [[|t rest]|]; [by simplify_eq..| |by simplify_eq].
    apply ThreadWorkerFn_world in Hstep as (Hs & _ & Hc & _). simpl in *.
    by rewrite Hs, Hc, length_insert.
  - destruct (resp_queue w) as [|r rest] eqn:Hq.
    { intros H. by apply Hfail in H. }
    destruct (process_token _ _ _ _ _ _) as [[st1 w1|n' w1]|] eqn:Hstep; [| |done]; simpl.
    + intros ?; simplify_eq. by apply process_token_shape in Hstep.
    + intros [Hs Hc]%IH. apply process_token_shape in Hstep as [Hs1 Hc1].
      simpl in *. by rewrite Hs, Hc, Hs1, Hc1.
Qed.
End SessionShape.

Lemma Run_stages_length `{rt : OrtRuntime} (NDEBUG : bool)
    (pcfg : PipelineConfig) (sched : list SchedEvent) (req_list : list OrtReq)
    (resp_list0 : list OrtResp) (num_steps : Z) (w0 w : World) (st : OrtStatus) :
  Z.of_nat (length req_list) < 2 ^ 31 ->
  Run NDEBUG pcfg sched req_list resp_list0 num_steps w0 = Some (st, w) ->
  length (pipeline_stages w) = length (pipeline_stages w0) /\
  (- 2 ^ 31 <= req_id_counter w0 < 2 ^ 31 ->
   req_id_counter w
   = to_int (req_id_counter w0 + (if ValidateRequest req_list resp_list0 is None
                                  then Z.of_nat (length req_list) else 0))).
Proof.
  intros Hsize H. unfold Run in H.
  destruct (ValidateRequest req_list resp_list0) as [e|].
  { injection H as <- <-. cbn [enter_run pipeline_stages req_id_counter].
    split; [done|]. intros Hc0. by rewrite Z.add_0_r, to_int_id. }
  destruct (SetupAndScheduleAllRequestsToStage0 _ _ _) as [w1|] eqn:Hsetup; [|done].
  cbn [mbind option_bind] in H. apply ProcessResponses_shape in H as [Hs Hc].
  apply SetupAndScheduleAllRequestsToStage0_effect_aux in Hsetup
    as (Hc1 & _ & _ & Hs1 & _); [|done].
  rewrite Hs, Hc, Hs1, length_insert. done.
Qed.

(** Property X22.  A [Run] of a batch of fewer than [2 ^ 31] requests that
    returns leaves the session with the stages it had, and has advanced the
    [int] counter of the request ids by the number of requests when the batch
    passed [ValidateRequest], not at all otherwise. *)
Theorem Run_takes_request_ids `{rt : OrtRuntime} (NDEBUG : bool)
    (pcfg : PipelineConfig) (sched : list SchedEvent) (req_list : list OrtReq)
    (resp_list0 : list OrtResp) (num_steps : Z) (w0 w : World) (st : OrtStatus) :
  - 2 ^ 31 <= req_id_counter w0 < 2 ^ 31 ->
  Z.of_nat (length req_list) < 2 ^ 31 ->
  Run NDEBUG pcfg sched req_list resp_list0 num_steps w0 = Some (st, w) ->
  length (pipeline_stages w) = length (pipeline_stages w0) /\
  req_id_counter w
  = to_int (req_id_counter w0 + (if ValidateRequest req_list resp_list0 is None
                                 then Z.of_nat (length req_list) else 0)).
Proof.
  intros Hc0 Hsize H. apply Run_stages_length in H as [Hs Hc]; [|done].
  split; [exact Hs|by apply Hc].
Qed.

Lemma Run_takes_request_ids_witness :
  exists w,
    @Run (Example.decoder 1) true Example.config (Example.turns 3)
      [Example.request] [Example.response] 3 Example.world = Some (None, w) /\
    length (pipeline_stages w) = 1%nat /\ req_id_counter w = 1.
Proof.
  destruct (@Run (Example.decoder 1) true Example.config (Example.turns 3)
              [Example.request] [Example.response] 3 Example.world)
    as [[[e|] w]|] eqn:H; [by vm_compute in H| |by vm_compute in H].
  destruct (@Run_takes_request_ids (Example.decoder 1) true Example.config
              (Example.turns 3) [Example.request] [Example.response] 3 Example.world
              w None ltac:(change (req_id_counter Example.world) with 0; lia) eq_refl H)
    as [Hs Hc].
  exists w. split; [reflexivity|]. rewrite Hs, Hc. split; vm_compute; reflexivity.
Defined.

(** Property X23.  Between its [Run]s a session is idle: after the
    constructor and after every [Run] that returns, with whatever status, no
    closure waits on any stage, and the session has one stage per model of the
    configuration it was constructed from; request ids taken by other sessions
    of the process in between change nothing of this. *)
Theorem session_always_idle `{rt : OrtRuntime} (NDEBUG : bool)
    (ens0 pcfg : PipelineConfig) (w : World) :
  session_state NDEBUG ens0 pcfg w ->
  drained w /\
  length (pipeline_stages w) = length (model_config_vec ens0) /\
  length (model_config_vec pcfg) = length (model_config_vec ens0).
Proof.
  induction 1 as [c pcfg w Hnew|c pcfg w _ IH
                  |pcfg w0 w sched reqs resps ns st _ (Hd & Hl & Hm) Hsize Hrun].
  - unfold new_PipelineSession in Hnew. simpl in Hnew. unfold Init in Hnew.
    simplify_eq. simpl. rewrite length_replicate, length_imap.
    split; [|done]. unfold drained. simpl. apply Forall_replicate. done.
  - exact IH.
  - split; [by eapply Run_leaves_stages_idle_aux|]. split; [|done].
    apply Run_stages_length in Hrun as [-> _]; done.
Qed.

Lemma session_always_idle_witness :
  exists w,
    @Run (Example.decoder 1) true Example.config (Example.turns 3)
      [Example.request] [Example.response] 3 Example.world = Some (None, w) /\
    drained w.
Proof.
  destruct (@Run (Example.decoder 1) true Example.config (Example.turns 3)
              [Example.request] [Example.response] 3 Example.world)
    as [[[e|] w]|] eqn:H; [by vm_compute in H| |by vm_compute in H].
  exists w. split; [done|].
  apply (@session_always_idle (Example.decoder 1) true Example.parsed_config
           Example.config w).
  apply (session_after_run true Example.parsed_config Example.config Example.world w
           (Example.turns 3) [Example.request] [Example.response] 3 None);
    [|reflexivity|exact H].
  by apply (session_constructed true Example.parsed_config 0).
Defined.


(** Property X24.  When [CopyFinalOutput] succeeds, the entry of the response
    slot at a requested name holds the handle the token held under that name if
    the name is requested there for the first time, and a null handle if the
    slot asks for the same name again: the first transfer emptied the token,
    and the call still returns success. *)
Theorem CopyFinalOutput_repeated_name `{rt : OrtRuntime} (NDEBUG : bool)
    (pcfg : PipelineConfig) (token_ptr resp_idx : Z) (w w' : World)
    (f : RequestExecutionFrame) (slot : OrtResp) :
  req_frame_map w !! token_ptr = Some f ->
  vec_at (resp_list w) resp_idx = Some slot ->
  CopyFinalOutput NDEBUG pcfg token_ptr resp_idx w = Some (None, w') ->
  exists slot',
    vec_at (resp_list w') resp_idx = Some slot' /\
    output_names slot' = output_names slot /\
    forall i o, output_names slot !! i = Some o ->
      exists j, Contains (ort_value_names (token f)) o = (true, j) /\
        output_values slot' !! i
        = if bool_decide (o ∈ take i (output_names slot)) then Some None
          else ort_values (token f) !! Z.to_nat j.
Proof.
  intros Hf Hslot. unfold CopyFinalOutput. rewrite Hf, Hslot. cbn [mbind option_bind].
  destruct (CopyFinalOutput_loop _ _ _ _ _) as [[[[o|] tv] ov]|] eqn:Hloop;
    cbn [mbind option_bind]; [|intros ?; simplify_eq|done].
  { intros H. by apply HandleAndReturnFailure_effect in H as [? _]. }
  apply vec_at_Some in Hslot as [Hidx Hslot].
  eexists. split; [|split].
  - apply vec_at_Some. split; [done|]. simpl.
    apply list_lookup_insert_eq. by eapply lookup_lt_Some.
  - done.
  - intros i o Hi. simpl.
    apply CopyFinalOutput_loop_entries in Hloop as [Hx _]; [|done].
    destruct (Hx i o Hi) as (j & Hc & Ho). exists j. done.
Qed.

Lemma CopyFinalOutput_repeated_name_witness :
  exists w' slot',
    @CopyFinalOutput (Example.decoder 1) true Example.config 1 0
      (FinalToken.world_of RepeatedName.slot) = Some (None, w') /\
    vec_at (resp_list w') 0 = Some slot' /\
    output_values slot' !! 0%nat = Some (Some FinalToken.logits) /\
    output_values slot' !! 1%nat = Some None.
Proof.
  destruct (@CopyFinalOutput (Example.decoder 1) true Example.config 1 0
              (FinalToken.world_of RepeatedName.slot)) as [[[e|] w']|] eqn:H;
    [by vm_compute in H| |by vm_compute in H].
  destruct (@CopyFinalOutput_repeated_name (Example.decoder 1) true Example.config 1 0
              (FinalToken.world_of RepeatedName.slot) w' FinalToken.frame
              RepeatedName.slot eq_refl eq_refl H) as (slot' & Hs & _ & Hx).
  exists w', slot'. split; [done|]. split; [done|]. split.
  - destruct (Hx 0%nat "logits" eq_refl) as (j & Hc & ->).
    vm_compute in Hc. by simplify_eq.
  - destruct (Hx 1%nat "logits" eq_refl) as (j & Hc & ->). done.
Defined.
